(* ===== verification/_CoqProject ===== *)
-Q . S2P
Prelude.v
Text.v
F64.v
Rounding.v
Host.v
Json.v
Errors.v
Interfaces.v
Target.v
Rpc.v
Hashrate.v
Credit.v
Vardiff.v
VardiffRange.v
Stats.v
Store.v
History.v
Snapshot.v
Security.v
Accounting.v
StoreThread.v
Frame.v
Confirm.v
Restart.v
Metrics.v
Crash.v
WorkChart.v
Identity.v
Template.v
Config.v
ConfigLoad.v
Jobs.v
Validator.v
Engine.v
Sv1.v
Session.v
Device.v
Sv2Codec.v
Sv2Wire.v
Sv2.v
Sv2Safety.v
Sv2Props.v
Presence.v
NoPanic.v
Lifetime.v
Noise.v
Node.v
Tip.v
NodeClient.v
Winning.v
Startup.v
Dashboard.v
Http.v
Page.v
Server.v
Loop.v
