(* ===== verification/Prelude.v ===== *)
(** * btcpool-rs: a verification library

    btcpool-rs is a solo-mining pool.  A template engine asks a Bitcoin node for
    block templates and broadcasts them; each miner connection turns a template
    into a job that pays that miner's own address, validates the shares the
    miner submits, and sends a share that is also a block back to the node.
    Around this path stand the difficulty controller, the hashrate meters, the
    share credit, the statistics with their SQLite store and their dashboard,
    the confirmation pass over found blocks and the limits that protect the
    pool.  Miners speak Stratum V1 (JSON lines) or V2 (binary frames over Noise)
    on one port.

    Paths below are relative to the crate's source directory (in this checkout
    [src/src/]; the headers of the files write them from the crate's root).

    ** Files, and the code they model

    Foundations:
    - [Prelude]: machine integers kept at their width (wrap-around and
      saturation written out), bytes, byte strings and their values, the
      [result] type with its bind, shared tactics and hint databases.
    - [Text], [F64], [Host], [Json]: what the sources use of Rust's strings, of
      IEEE binary64 (computed by Stdlib's [SpecFloat], without axioms; a NaN or
      an inverted range in [clamp] is the panic it is in Rust), of number
      parsing, paths and files, and of [serde_json::Value].
    - [Rounding]: the theory of that arithmetic: order, and where each operation
      rounds to.
    - [Interfaces]: the third-party code as type classes: SHA-256, the [hex]
      codec, transaction serialisation, address parsing, each with the
      documented laws the pool relies on and with concrete instances.
    - [Errors] ([error.rs]): the error type with its Stratum codes.

    Work:
    - [Target], [Template] ([bitcoin/template.rs], and [meets_target] of
      [mining/validator.rs]): 256-bit targets, difficulties and compact bits;
      template checks, coinbase, merkle branch and job builders.
    - [Jobs] ([mining/jobs.rs]), [Validator] ([mining/validator.rs]), [Engine]
      ([mining/engine.rs]).
    - [Hashrate], [Credit], [Vardiff] ([mining/hashrate.rs], [credit.rs],
      [vardiff.rs]): floating-point meters and controllers; [exp] and [powf]
      are the parameters of the class [Libm].  [VardiffRange]: the range of what
      the controller assigns.

    The node:
    - [Rpc], [NodeClient] ([bitcoin/rpc.rs]): the readers of the node's answers;
      the client with its cookie refresh, and every method it has; the archive of
      found blocks ([mining/engine.rs]).
    - [Node] ([bitcoin/zmq.rs], [settings.rs], parts of [bitcoin/rpc.rs] and
      [main.rs]), [Tip]: how a new block of the node becomes a refresh.
    - [Winning]: a winning share from the submit handlers of both protocols
      through the retry ladder to the node and the books.

    Records:
    - [Stats], [Store], [StoreThread] ([stats.rs]): [PoolStats] in memory and the
      writes it queues; the tables, the writer with its retry backlog, the
      boot-time reconciliation; the channel between the two, its flush and close,
      and the loaders with their failures.
    - [History], [Snapshot] ([stats.rs]): the history queries; idle-worker pruning
      and the snapshot of the dashboard.
    - [Accounting], [Confirm] ([mining/accounting.rs], [mining/confirm.rs]);
      [Metrics] ([metrics/mod.rs]): the calls on the metrics recorder.  [Frame]: the
      relation by which the theorems below set aside the calls that do not
      concern them.
    - [Restart] ([PoolStats::open_recording]): the boot on the file a previous run
      left; [Lifetime]: the same under sessions that run; [Crash]: the boot after a
      life that was killed; [WorkChart]: the share ledger from a recorded share to
      the chart of it.

    Connections:
    - [Identity] ([mining/identity.rs]), [Security] ([security/mod.rs]).
    - [Sv1] ([protocol/sv1.rs]), [Session] ([network/session.rs]): the Stratum
      V1 messages, the line reader, every handler and one iteration of the
      session loop.  [Device]: the miner at the other end.
    - [Sv2Codec] (the third-party field codec, as a class), [Sv2Wire]
      ([protocol/sv2/messages.rs], [job.rs]), [Sv2] ([protocol/sv2/mod.rs]) with
      [Sv2Safety] (the invariant of a connection) and [Sv2Props] (its
      theorems), [Noise] ([protocol/sv2/noise.rs]).
    - [Loop]: both session loops in time: deadlines, and the polls of [select!].
    - [Presence]: the sessions of both protocols in any interleaving on one
      [PoolStats], beside the pruner and the timers.  [NoPanic]: that none of
      them panics.
    - [Server] ([network/server.rs]).

    The process and what it shows:
    - [Config], [ConfigLoad] ([config.rs]): the record with [Config::validate];
      the overrides, the typed reading and [load].
    - [Startup] ([main.rs]): [main] as one process, from its boot to its shutdown.
    - [Dashboard], [Http], [Page] ([network/dashboard.rs]): the answers of the
      endpoints; the routes and the server around them; what the page's script
      decides.

    Each file has one [Module] of its own name, with a record per Rust struct,
    an inductive type per enum and a definition per function.  [&mut self]
    becomes state passing; [Result] is [result], [Option] and panics are
    [option]; a [HashMap] or [DashMap] is a [gmap]; a clock reading is an
    argument, with one argument per reading where two readings may differ in
    effect.  [Instant]s are nanoseconds.  Atomics and locks are sequential
    steps; interleavings of whole operations are the sequences the theorems
    quantify over.

    ** What the theorems show

    - Proof of work and blocks ([Target], [Template], [Validator]): the share
      target is exact for every 64-bit difficulty; an accepted share reads back
      at least the difficulty it was accepted at; compact bits decode to the
      consensus target; the merkle branch climbs to the block's merkle root;
      the spliced coinbase is the serialised transaction that pays the miner;
      BIP34 heights are encoded as Bitcoin Core does; a submission is accepted
      exactly when it is timely work on a live job; a found block is well
      formed end to end, from the template to the hexadecimal text.
    - Jobs and templates ([Jobs], [Engine], [Tip]): the bounded job queue refines
      the log of issues; live jobs build on the latest tip; no change of tip is
      missed, also when ZMQ never speaks; a found block's outcome is recorded at
      most once and the resubmission loop ends.
    - A winning share, end to end ([Winning]): it is acknowledged and credited
      whatever the engine answers; what the handler hands to the engine is what the
      validator assembled (the engine is any function of what it is handed); and
      the block is enrolled with its outcome even when the node restarts with
      another cookie, whatever the pool does meanwhile.
    - Sessions ([Session], [Device], [Loop], [NoPanic], [Identity]): by induction
      on the states of a connection with the record of the templates it was
      handed, every job held pays the wallet it is authorised as the whole value
      of the template handed out under that job's identifier; version rolling
      stays inside BIP320 and only narrows; the header a
      device hashes is the one the validator checks, in both protocols; an
      accepted submission is a duplicate afterwards; a silent peer is dropped at
      its deadline, and between broadcasts every line is heard; no session
      panics; the canonical name is a fixed point of parsing.
    - Stratum V2 ([Sv2Props], [Noise]): every job of a channel pays its identity
      the whole value of its own template and is found by the identifier it was
      sent under; one solution is counted once; the authority key survives
      restarts; the frame reader terminates and fills no buffer over its limit.
    - Difficulty ([VardiffRange], [Credit]): what the controller assigns lies in
      the configured range, rounding included; docking only on evidence.
    - Records ([Stats], [Store], [StoreThread], [Restart], [Startup],
      [Crash], [WorkChart], [Accounting], [Confirm], [Metrics]): every recorded share
      is on the work chart, once and in its bucket; an orderly end leaves nothing durable in flight; the round figures are those since the
      last block; the whole displayed round survives a restart, over a life of the
      process; a killed process comes back with block counts and pending blocks it
      was showing, and loses only what the writer thread had not taken; a sweep
      settles exactly the decided blocks; the exported counters agree with the
      dashboard's.
    - What is shown ([History], [Snapshot], [Presence], [Dashboard], [Http],
      [Page]): the long-range history is exact, and no chart changes when the
      ledger is compacted; a worker is shown online exactly while a connection is
      under it; a scoped query finds a miner's rows and nobody else's; every
      request to the dashboard is answered, with the status its cause decides; the
      Connect page shows the port of the listening address; the lights and counts
      of the page agree, and escaped names are inert.
    - Limits and configuration ([Security], [Server], [Config], [ConfigLoad],
      [Rpc], [Node]): the connection rate, the connection slots, what counts
      towards the invalid-share limit, overrides that keep their types, a
      validated configuration whose sums do not wrap always builds work, the client
      is rebuilt at most once per call, the bounds of the difficulty estimate and of the backoff.
    - Where the code departs from its intent, a lemma shows it:
      [Session.same_work_counted_twice],
      [Sv2Props.missed_clean_broadcast_misdirects_device],
      [Sv2Props.retarget_ignores_max_target],
      [Loop.interrupted_line_is_lost],
      [Accounting.repeated_report_counts_twice],
      [Accounting.boot_recovery_wipes_live_round],
      [VardiffRange.long_share_time_assigns_zero],
      [Config.wrapped_sizes_pass], [Noise.demo_handed_out],
      [Metrics.share_rate_exported_per_second],
      [Metrics.lost_block_breaks_the_identity],
      [StoreThread.flush_acks_parked_writes],
      [Page.clock_behind_reads_minus_a_day] and [Page.dotted_labels_collide].

    ** Bounds and fuel

    [Template.branch_loop] and the reference [merkle_rows] take the number of
    leaves as fuel, and each round at least halves the row.
    [Template.height_bytes] takes 8 steps for the 8 bytes of a [u64].
    [Engine.resubmit] takes [RESUBMIT_FUEL] = 721 rounds: the loop sleeps ten
    seconds per round and stops after two hours, so at most 720 rounds pass the
    test ([resubmit_terminates]).  [Noise.read] takes one iteration more than
    the peer sends bytes, and each iteration that goes on consumes a byte
    ([noise_read_terminates]).  [Text.utf8_decode] and the byte-string loops
    recurse on their input; [Http.read_groups] counts the eight groups of an
    address.  No theorem assumes that fuel was enough.

    The range of the controller is proved for share times up to 2^22 seconds and
    difficulties up to 2^53, which [NoPanic] asks of a configuration beyond
    [Config.validate]; a life of the process for counts and work below 2^63, the
    width of the file's columns, and a writer that drains its queue ([Startup]);
    the exported counters for fewer events than 2^64 ([Metrics]).

    Lengths in bytes are naturals.  [Config.validate] adds the extranonce sizes as
    a release build does, modulo 2^64; the job builders add them without, which is
    the same in a session, since it holds its first extranonce in memory.  The
    charts add the rows of the ledger as integers, where SQLite's SUM fails beyond
    2^63: the same while a column of the file comes to less ([History.sums_fit];
    [WorkChart] assumes it).

    ** What is not modelled

    The drawing and fetching of the dashboard's page, its markup and its number
    formatting; what a session still does while [shutdown_persist] runs (in
    [Startup] the shutdown is one step); a failure to allocate memory; HTTP, TCP
    and ZMQ below the events the components see; log lines,
    but for those of the confirmation pass and of the watchdog; the task runtime
    and the delivery of signals.  TOML and JSON text, SQL text with the schema and
    the pragmas, SQLite's own behaviour, the JSON-RPC transport, the metrics
    exporter, the Noise cipher and the cryptography are the libraries': classes or
    parameters with their documented laws. *)
From Stdlib Require Export ZArith Lia Bool Strings.Byte.
From stdpp Require Export base option gmap strings pretty numbers.
From stdpp Require Export list.

#[export] Set Default Goal Selector "!".
Open Scope Z_scope.

(** ** Automation

    [pool_db] collects the facts that close routine side conditions (byte
    ranges, array widths); [pool_simp] is the rewriting database of the
    machine-integer and byte-string layer. *)
Create HintDb pool_db.
Create Rewrite HintDb pool_simp.

(** Split every [if]/[match] discriminee of the goal or of a hypothesis. *)
Ltac case_match_all :=
  repeat (match goal with
          | |- context [ match ?x with _ => _ end ] => destruct x eqn:?
          | H : context [ match ?x with _ => _ end ] |- _ => destruct x eqn:?
          end; simplify_eq/=).

(** Turn boolean tests on [Z] into propositions. *)
Ltac zbool :=
  repeat match goal with
  | H : (_ <? _) = true |- _ => apply Z.ltb_lt in H
  | H : (_ <? _) = false |- _ => apply Z.ltb_ge in H
  | H : (_ <=? _) = true |- _ => apply Z.leb_le in H
  | H : (_ <=? _) = false |- _ => apply Z.leb_gt in H
  | H : (_ =? _) = true |- _ => apply Z.eqb_eq in H
  | H : (_ =? _) = false |- _ => apply Z.eqb_neq in H
  | H : _ && _ = true |- _ => apply andb_true_iff in H; destruct H
  | H : _ || _ = false |- _ => apply orb_false_iff in H; destruct H
  | H : negb _ = true |- _ => apply negb_true_iff in H
  | H : negb _ = false |- _ => apply negb_false_iff in H
  end.

(** ** Fallible computations: Rust's [Result] *)
Inductive result (E A : Type) : Type :=
| Ok (a : A)
| Err (e : E).
Arguments Ok {E A} a.
Arguments Err {E A} e.

#[export] Instance result_ret E : MRet (result E) := fun A a => Ok a.
#[export] Instance result_bind E : MBind (result E) := fun A B f m =>
  match m with Ok a => f a | Err e => Err e end.

(** [Result::map_err]. *)
Definition map_err {E F A} (f : E -> F) (m : result E A) : result F A :=
  match m with Ok a => Ok a | Err e => Err (f e) end.

(** [Option::ok_or]. *)
Definition ok_or {E A} (e : E) (o : option A) : result E A :=
  match o with Some a => Ok a | None => Err e end.

(** [Iterator::collect::<Result<Vec<_>, _>>]: stop at the first error. *)
Fixpoint collect_results {E A B} (f : A -> result E B) (l : list A) : result E (list B) :=
  match l with
  | [] => Ok []
  | a :: l' => b ← f a; bs ← collect_results f l'; Ok (b :: bs)
  end.

Definition is_ok {E A} (m : result E A) : bool :=
  match m with Ok _ => true | Err _ => false end.

Lemma bind_Ok {E A B} (m : result E A) (f : A -> result E B) b :
  (m ≫= f) = Ok b -> exists a, m = Ok a /\ f a = Ok b.
Proof. destruct m; simpl; [eauto | discriminate]. Qed.

Lemma collect_results_Ok {E A B} (f : A -> result E B) l bs :
  collect_results f l = Ok bs <-> Forall2 (fun a b => f a = Ok b) l bs.
Proof.
  revert bs; induction l as [|a l IH]; intros bs; simpl.
  - split; [intros [= <-]; constructor | intros H; inversion H; done].
  - split.
    + intros H. apply bind_Ok in H as (b & Hb & H). apply bind_Ok in H as (bs' & Hbs & [= <-]).
      constructor; [done | by apply IH].
    + intros H; inversion H as [|? b ? bs' Hb Hbs]; subst.
      rewrite Hb; simpl. apply IH in Hbs. by rewrite Hbs.
Qed.

Ltac bind_inv H :=
  match type of H with
  | (?m ≫= _) = Ok _ => apply bind_Ok in H; destruct H as (? & ? & H)
  end.

(** ** Machine integers

    A w-bit unsigned integer is a [Z] in range; the wrap-around, saturation
    and truncation the code asks for are written out. *)
Definition u8_max : Z := 0xff.
Definition u16_max : Z := 0xffff.
Definition u32_max : Z := 0xffffffff.
Definition u64_max : Z := 0xffffffffffffffff.

Definition is_u32 (z : Z) : Prop := 0 <= z <= u32_max.
Definition is_u64 (z : Z) : Prop := 0 <= z <= u64_max.

Definition wrap32 (z : Z) : Z := z mod 2 ^ 32.
Definition wrap64 (z : Z) : Z := z mod 2 ^ 64.

(** [u32::saturating_add], [u64::saturating_add], [saturating_sub]. *)
Definition sat_add32 (a b : Z) : Z := Z.min (a + b) u32_max.
Definition sat_add64 (a b : Z) : Z := Z.min (a + b) u64_max.
Definition sat_sub (a b : Z) : Z := Z.max (a - b) 0.

(** [!x] on a 32-bit word. *)
Definition not32 (z : Z) : Z := Z.lxor z u32_max.

(** A 32-bit word is a non-negative number with no bit above 31. *)
Lemma testbit_u32_high z i : is_u32 z -> 32 <= i -> Z.testbit z i = false.
Proof.
  intros [H1 H2] Hi. destruct (Z.eq_dec z 0) as [->|]; [apply Z.bits_0|].
  apply Z.bits_above_log2; [done|].
  enough (Z.log2 z < 32) by lia. apply Z.log2_lt_pow2; [lia|]. unfold u32_max in H2. lia.
Qed.

Lemma u32_of_bits z :
  0 <= z -> (forall i, 32 <= i -> Z.testbit z i = false) -> is_u32 z.
Proof.
  intros Hz H. enough (z = z mod 2 ^ 32) as ->.
  { pose proof (Z.mod_pos_bound z (2 ^ 32)). unfold is_u32, u32_max. lia. }
  rewrite <- Z.land_ones by lia. apply Z.bits_inj'. intros i Hi. rewrite Z.land_spec.
  destruct (Z_lt_ge_dec i 32).
  - by rewrite Z.ones_spec_low, andb_true_r by lia.
  - by rewrite H by lia.
Qed.

Lemma testbit_not32 z i : 0 <= i < 32 -> Z.testbit (not32 z) i = negb (Z.testbit z i).
Proof.
  intros Hi. unfold not32. rewrite Z.lxor_spec. change u32_max with (Z.ones 32).
  by rewrite Z.ones_spec_low, xorb_true_r by lia.
Qed.

Lemma not32_u32 z : is_u32 z -> is_u32 (not32 z).
Proof.
  intros Hz. apply u32_of_bits.
  - apply Z.lxor_nonneg. unfold is_u32, u32_max in *. lia.
  - intros i Hi. unfold not32. rewrite Z.lxor_spec, testbit_u32_high by (done || lia).
    change u32_max with (Z.ones 32). by rewrite Z.ones_spec_high by lia.
Qed.

Lemma land_u32 a b : is_u32 a -> is_u32 (Z.land a b).
Proof.
  intros Ha. apply u32_of_bits; [apply Z.land_nonneg; left; apply Ha|].
  intros i Hi. by rewrite Z.land_spec, testbit_u32_high by (done || lia).
Qed.

Lemma lor_u32 a b : is_u32 a -> is_u32 b -> is_u32 (Z.lor a b).
Proof.
  intros Ha Hb. apply u32_of_bits; [apply Z.lor_nonneg; unfold is_u32 in *; lia|].
  intros i Hi. by rewrite Z.lor_spec, !testbit_u32_high by (done || lia).
Qed.
#[export] Hint Resolve not32_u32 land_u32 lor_u32 : pool_db.

(** [u32::count_ones]. *)
Fixpoint count_ones_upto (n : nat) (z : Z) : Z :=
  match n with
  | O => 0
  | S n' => (if Z.testbit z (Z.of_nat n') then 1 else 0) + count_ones_upto n' z
  end.
Definition count_ones32 (z : Z) : Z := count_ones_upto 32 z.

(** ** Bytes *)
#[export] Instance byte_eq_decision : EqDecision byte := byte_eq_dec.

Definition byte_val (b : byte) : Z := Z.of_N (Byte.to_N b).

(** [z as u8]. *)
Definition byte_of (z : Z) : byte :=
  match Byte.of_N (Z.to_N (z mod 256)) with Some b => b | None => x00 end.

Lemma byte_val_range b : 0 <= byte_val b < 256.
Proof.
  unfold byte_val. pose proof (Byte.to_N_bounded b). lia.
Qed.
#[export] Hint Resolve byte_val_range : pool_db.

Lemma byte_val_of z : byte_val (byte_of z) = z mod 256.
Proof.
  unfold byte_val, byte_of.
  pose proof (Z.mod_pos_bound z 256 ltac:(lia)) as Hz.
  destruct (Byte.of_N (Z.to_N (z mod 256))) as [b|] eqn:E.
  - apply Byte.to_of_N in E. rewrite E. rewrite Z2N.id; lia.
  - apply Byte.of_N_None_iff in E. lia.
Qed.
#[export] Hint Rewrite byte_val_of : pool_simp.

Lemma byte_of_val b : byte_of (byte_val b) = b.
Proof.
  unfold byte_of, byte_val. pose proof (Byte.to_N_bounded b).
  rewrite Z.mod_small by lia. rewrite N2Z.id, Byte.of_to_N. done.
Qed.
#[export] Hint Rewrite byte_of_val : pool_simp.

Lemma byte_val_inj a b : byte_val a = byte_val b -> a = b.
Proof. intros H. rewrite <- (byte_of_val a), <- (byte_of_val b). by rewrite H. Qed.

Abbreviation bytes := (list byte).

(** Value of a byte string, least significant byte first. *)
Fixpoint le_val (l : bytes) : Z :=
  match l with
  | [] => 0
  | b :: l' => byte_val b + 256 * le_val l'
  end.

(** Value of a byte string, most significant byte first. *)
Definition be_val (l : bytes) : Z := fold_left (fun acc b => acc * 256 + byte_val b) l 0.

(** [uN::to_le_bytes] for an [n]-byte word. *)
Fixpoint to_le_bytes (n : nat) (z : Z) : bytes :=
  match n with
  | O => []
  | S n' => byte_of z :: to_le_bytes n' (z / 256)
  end.

(** [uN::to_be_bytes]. *)
Definition to_be_bytes (n : nat) (z : Z) : bytes := reverse (to_le_bytes n z).

Lemma length_to_le_bytes n z : length (to_le_bytes n z) = n.
Proof. revert z; induction n; intros z; simpl; [done | by rewrite IHn]. Qed.
#[export] Hint Rewrite length_to_le_bytes : pool_simp.

Lemma length_to_be_bytes n z : length (to_be_bytes n z) = n.
Proof. unfold to_be_bytes. by rewrite length_reverse, length_to_le_bytes. Qed.
#[export] Hint Rewrite length_to_be_bytes : pool_simp.

Lemma le_val_bounds l : 0 <= le_val l < 256 ^ Z.of_nat (length l).
Proof.
  induction l as [|b l IH]; simpl length; [simpl; lia|].
  rewrite Nat2Z.inj_succ, Z.pow_succ_r by lia. simpl.
  pose proof (byte_val_range b). lia.
Qed.

Lemma le_val_app a b : le_val (a ++ b) = le_val a + 256 ^ Z.of_nat (length a) * le_val b.
Proof.
  induction a as [|x a IH]; cbn [app le_val length].
  - rewrite Z.pow_0_r. lia.
  - rewrite Nat2Z.inj_succ, Z.pow_succ_r by lia. rewrite IH. lia.
Qed.

Lemma be_val_acc l acc :
  fold_left (fun acc b => acc * 256 + byte_val b) l acc
  = acc * 256 ^ Z.of_nat (length l) + be_val l.
Proof.
  revert acc; induction l as [|b l IH]; intros acc.
  - cbn. lia.
  - unfold be_val. cbn [fold_left length]. rewrite !IH.
    rewrite Nat2Z.inj_succ, Z.pow_succ_r by lia. lia.
Qed.

Lemma be_val_cons b l : be_val (b :: l) = byte_val b * 256 ^ Z.of_nat (length l) + be_val l.
Proof. unfold be_val at 1. simpl. rewrite be_val_acc. lia. Qed.

Lemma be_val_app a b : be_val (a ++ b) = be_val a * 256 ^ Z.of_nat (length b) + be_val b.
Proof. unfold be_val at 1. rewrite fold_left_app. apply be_val_acc. Qed.

Lemma be_val_reverse l : be_val (reverse l) = le_val l.
Proof.
  induction l as [|b l IH]; [done|].
  rewrite reverse_cons, be_val_app, IH. cbn. lia.
Qed.

Lemma le_val_reverse l : le_val (reverse l) = be_val l.
Proof. by rewrite <- be_val_reverse, reverse_involutive. Qed.

Lemma be_val_bounds l : 0 <= be_val l < 256 ^ Z.of_nat (length l).
Proof. rewrite <- le_val_reverse. rewrite <- (length_reverse l). apply le_val_bounds. Qed.

Lemma le_val_to_le_bytes n z : le_val (to_le_bytes n z) = z mod 256 ^ Z.of_nat n.
Proof.
  revert z; induction n as [|n IH]; intros z.
  - simpl. by rewrite Z.mod_1_r.
  - cbn [to_le_bytes le_val]. rewrite IH, byte_val_of.
    rewrite Nat2Z.inj_succ, Z.pow_succ_r by lia.
    rewrite Z.rem_mul_r by lia. lia.
Qed.

Lemma be_val_to_be_bytes n z : be_val (to_be_bytes n z) = z mod 256 ^ Z.of_nat n.
Proof. unfold to_be_bytes. by rewrite be_val_reverse, le_val_to_le_bytes. Qed.

Lemma to_le_bytes_le_val l : to_le_bytes (length l) (le_val l) = l.
Proof.
  induction l as [|b l IH]; [done|]. cbn [length to_le_bytes le_val].
  pose proof (byte_val_range b). f_equal.
  - apply byte_val_inj. rewrite byte_val_of.
    rewrite (Z.mul_comm 256), Z_mod_plus_full. apply Z.mod_small; lia.
  - rewrite (Z.mul_comm 256), Z.div_add by lia.
    rewrite Z.div_small by lia. done.
Qed.

Lemma le_val_inj a b : length a = length b -> le_val a = le_val b -> a = b.
Proof.
  intros Hl Hv. rewrite <- (to_le_bytes_le_val a), <- (to_le_bytes_le_val b).
  by rewrite Hl, Hv.
Qed.

Lemma be_val_inj a b : length a = length b -> be_val a = be_val b -> a = b.
Proof.
  rewrite <- !le_val_reverse. intros Hl Hv. apply (inj reverse).
  apply le_val_inj; [by rewrite !length_reverse | done].
Qed.

Lemma be_val_repeat_zero n : be_val (repeat x00 n) = 0.
Proof.
  induction n as [|n IH]; [done|]. cbn [repeat]. rewrite be_val_cons, IH.
  change (byte_val x00) with 0. lia.
Qed.

Lemma lookup_repeat {A} (x : A) n i : (i < n)%nat -> repeat x n !! i = Some x.
Proof. revert i; induction n; intros [|i] Hi; simpl; [lia | lia | done |]. apply IHn. lia. Qed.

(** Rust's derived [Ord] on byte arrays: lexicographic, first byte first. *)
Fixpoint lex_leb (a b : bytes) : bool :=
  match a, b with
  | [], _ => true
  | _ :: _, [] => false
  | x :: a', y :: b' =>
      if byte_val x <? byte_val y then true
      else if byte_val y <? byte_val x then false
      else lex_leb a' b'
  end.

(** On arrays of one width, the lexicographic order is the numeric order of
    the big-endian values. *)
Lemma lex_leb_be_val a b :
  length a = length b -> lex_leb a b = (be_val a <=? be_val b).
Proof.
  revert b; induction a as [|x a IH]; intros [|y b] Hl; simplify_eq/=; [done|].
  rewrite !be_val_cons, Hl.
  pose proof (be_val_bounds a) as Ha; rewrite Hl in Ha.
  pose proof (be_val_bounds b) as Hb.
  set (P := 256 ^ Z.of_nat (length b)) in *; clearbody P.
  destruct (Z.ltb_spec (byte_val x) (byte_val y)).
  - symmetry. apply Z.leb_le. nia.
  - destruct (Z.ltb_spec (byte_val y) (byte_val x)).
    + symmetry. apply Z.leb_gt. nia.
    + assert (byte_val x = byte_val y) as -> by lia.
      rewrite IH by done.
      destruct (Z.leb_spec (be_val a) (be_val b)); symmetry.
      * apply Z.leb_le; lia.
      * apply Z.leb_gt; lia.
Qed.

(** [chunk.reverse()] over [chunks_mut(4)]: swap the bytes of each 32-bit word. *)
Fixpoint swap_words (fuel : nat) (l : bytes) : bytes :=
  match fuel with
  | O => l
  | S f => match l with
           | [] => []
           | _ => reverse (take 4 l) ++ swap_words f (drop 4 l)
           end
  end.

Definition swap_each_word (l : bytes) : bytes := swap_words (length l) l.

Lemma length_swap_words f l : length (swap_words f l) = length l.
Proof.
  revert l; induction f as [|f IH]; intros l; [done|].
  cbn [swap_words]. destruct l as [|b l]; [done|].
  rewrite length_app, length_reverse, length_take, IH, length_drop. lia.
Qed.

Lemma length_swap_each_word l : length (swap_each_word l) = length l.
Proof. apply length_swap_words. Qed.
#[export] Hint Rewrite length_swap_each_word : pool_simp.

(** Swapping the bytes of every word of a whole number of words twice is the
    identity. *)
Lemma swap_words_involutive k f g l :
  length l = (4 * k)%nat -> (k <= f)%nat -> (k <= g)%nat ->
  swap_words f (swap_words g l) = l.
Proof.
  revert f g l; induction k as [|k IH]; intros f g l Hl Hf Hg.
  - destruct l; [|simpl in Hl; lia]. destruct f, g; done.
  - destruct f as [|f]; [lia|]. destruct g as [|g]; [lia|].
    destruct l as [|a [|b [|c [|d l]]]]; simpl in Hl; try lia.
    cbn -[swap_words reverse]. cbn [swap_words].
    change (reverse (take 4 (a :: b :: c :: d :: l))) with [d; c; b; a].
    change (drop 4 (a :: b :: c :: d :: l)) with l.
    cbn -[swap_words reverse]. rewrite drop_0, (IH f g) by lia. done.
Qed.

Lemma swap_each_word_involutive l k :
  length l = (4 * k)%nat -> swap_each_word (swap_each_word l) = l.
Proof.
  intros Hl. unfold swap_each_word. rewrite length_swap_words.
  eapply (swap_words_involutive k); lia.
Qed.

(** ** Sums over lists, kept as [Z] *)
Definition sum_Z (l : list Z) : Z := foldr Z.add 0 l.

(** Sum of a quantity over the entries of a finite map. *)
Section SumMap.
Context {K : Type} `{Countable K} {V : Type}.
Implicit Types (f : K -> V -> Z) (m : gmap K V).

Definition sum_map f m : Z := map_fold (fun k v acc => f k v + acc) 0 m.

Lemma sum_map_empty f : sum_map f ∅ = 0.
Proof. apply map_fold_empty. Qed.

Lemma sum_map_insert_fresh f m k v :
  m !! k = None -> sum_map f (<[k := v]> m) = f k v + sum_map f m.
Proof. intros Hk. unfold sum_map. rewrite map_fold_insert_L; [done | | done]. intros; lia. Qed.

Lemma sum_map_delete f m k v :
  m !! k = Some v -> sum_map f m = f k v + sum_map f (delete k m).
Proof.
  intros Hk. rewrite <- (insert_delete_id m k v Hk) at 1.
  apply sum_map_insert_fresh. apply lookup_delete_eq.
Qed.

Lemma sum_map_insert f m k v :
  sum_map f (<[k := v]> m) = sum_map f m - from_option (f k) 0 (m !! k) + f k v.
Proof.
  destruct (m !! k) as [w|] eqn:E; simpl.
  - rewrite (sum_map_delete f m k w E), <- insert_delete_eq.
    rewrite sum_map_insert_fresh by apply lookup_delete_eq. lia.
  - rewrite sum_map_insert_fresh by done. lia.
Qed.

Lemma sum_map_filter f m (P : K * V -> Prop) `{forall x, Decision (P x)} :
  sum_map f m = sum_map f (filter P m) + sum_map f (filter (fun x => ~ P x) m).
Proof.
  induction m as [|k v m Hk IH] using map_ind; [by rewrite !map_filter_empty, sum_map_empty|].
  rewrite sum_map_insert_fresh, IH by done.
  destruct (decide (P (k, v))).
  - rewrite map_filter_insert_True by done.
    rewrite (map_filter_insert_False (fun x => ~ P x)), delete_id by tauto.
    rewrite sum_map_insert_fresh; [lia|]. apply map_lookup_filter_None. by left.
  - rewrite (map_filter_insert_True (fun x => ~ P x)) by done.
    rewrite (map_filter_insert_False P), delete_id by done.
    rewrite sum_map_insert_fresh; [lia|]. apply map_lookup_filter_None. by left.
Qed.

Lemma sum_map_ext f g m : (forall k v, f k v = g k v) -> sum_map f m = sum_map g m.
Proof.
  intros Hfg. induction m as [|k v m Hk IH] using map_ind; [by rewrite !sum_map_empty|].
  by rewrite !sum_map_insert_fresh, IH, Hfg by done.
Qed.

Lemma sum_map_foldr f m :
  sum_map f m = foldr (fun kv acc => f kv.1 kv.2 + acc) 0 (map_to_list m).
Proof.
  unfold sum_map. rewrite map_fold_foldr. induction (map_to_list m) as [|[k v] l IH]; [done|].
  cbn in *. by rewrite IH.
Qed.

(** A sum that only looks at one key is the value there. *)
Lemma sum_map_at (q : V -> Z) m k :
  sum_map (fun k' v => if bool_decide (k' = k) then q v else 0) m = from_option q 0 (m !! k).
Proof.
  induction m as [|k' v m Hk IH] using map_ind; [by rewrite sum_map_empty, lookup_empty|].
  rewrite sum_map_insert_fresh, IH by done. case_bool_decide as E.
  - subst. rewrite lookup_insert_eq, Hk. cbn. lia.
  - by rewrite lookup_insert_ne by done.
Qed.

Lemma sum_map_bounds f m :
  (forall k v, 0 <= f k v <= 1) -> 0 <= sum_map f m <= Z.of_nat (size m).
Proof.
  intros Hf. induction m as [|k v m Hk IH] using map_ind.
  - rewrite sum_map_empty, map_size_empty. lia.
  - rewrite sum_map_insert_fresh, map_size_insert_None by done. specialize (Hf k v). lia.
Qed.
End SumMap.

(** Text of a hexadecimal digit, and [format!("{:0Nx}")]. *)
Definition hex_digit (z : Z) : Ascii.ascii :=
  Ascii.ascii_of_nat (Z.to_nat (if z <? 10 then 48 + z else 87 + z)).

Fixpoint hex_fixed (n : nat) (z : Z) : string :=
  match n with
  | O => EmptyString
  | S n' => hex_fixed n' (z / 16) +:+ String (hex_digit (z mod 16)) EmptyString
  end.
