(* ===== verification/Text.v ===== *)
(** * Text: the string operations of Rust's standard library the pool uses

    A Rust [String] is a [string] of its UTF-8 bytes.  Holds
    [u32::from_str_radix(_, 16)], [str::chars] with [char::is_control] and
    [char::is_whitespace], [str::split_once], [str::strip_prefix], [str::trim]
    on the ASCII white space the protocol lines carry, and
    [eq_ignore_ascii_case]. *)
From S2P Require Import Prelude.

Definition ascii_val (c : Ascii.ascii) : Z := Z.of_N (Ascii.N_of_ascii c).

(** The separators the pool looks for. *)
Definition c_dot : Ascii.ascii := Ascii.ascii_of_nat 46.
Definition c_bang : Ascii.ascii := Ascii.ascii_of_nat 33.

(** The bytes of a string ([str::as_bytes]), and back. *)
Fixpoint string_bytes (s : string) : bytes :=
  match s with
  | EmptyString => []
  | String c s' => byte_of (ascii_val c) :: string_bytes s'
  end.

Definition string_vals (s : string) : list Z := byte_val <$> string_bytes s.

(** [str::len]: the length in bytes. *)
Definition str_len (s : string) : Z := Z.of_nat (String.length s).

(** Value of an ASCII hexadecimal digit, either case ([char::to_digit(16)]). *)
Definition hex_digit_val (c : Ascii.ascii) : option Z :=
  let v := ascii_val c in
  if (48 <=? v) && (v <=? 57) then Some (v - 48)
  else if (97 <=? v) && (v <=? 102) then Some (v - 87)
  else if (65 <=? v) && (v <=? 70) then Some (v - 55)
  else None.

(** The digit loop of [from_str_radix]: fail on a non-digit and on overflow. *)
Fixpoint radix16_loop (max acc : Z) (s : string) : option Z :=
  match s with
  | EmptyString => Some acc
  | String c s' =>
      d ← hex_digit_val c;
      let acc' := acc * 16 + d in
      if acc' <=? max then radix16_loop max acc' s' else None
  end.

(** [uN::from_str_radix(s, 16)]: a leading [+] is accepted; the empty string
    and a bare sign are not. *)
Definition from_str_radix16 (max : Z) (s : string) : option Z :=
  match s with
  | EmptyString => None
  | String c s' =>
      if ascii_val c =? 43 then
        match s' with EmptyString => None | _ => radix16_loop max 0 s' end
      else radix16_loop max 0 s
  end.

Definition u32_from_hex (s : string) : option Z := from_str_radix16 u32_max s.

(** Decoding of one UTF-8 sequence; a Rust [str] is always well formed, so
    the lone-byte case is only there to keep the function total. *)
Fixpoint utf8_decode (fuel : nat) (l : list Z) : list Z :=
  match fuel with
  | O => []
  | S f =>
      match l with
      | [] => []
      | b :: l' =>
          if b <? 0x80 then b :: utf8_decode f l'
          else match l' with
          | c :: l2 =>
              if b <? 0xe0 then (Z.land b 0x1f * 64 + Z.land c 0x3f) :: utf8_decode f l2
              else match l2 with
              | d :: l3 =>
                  if b <? 0xf0 then
                    (Z.land b 0x0f * 4096 + Z.land c 0x3f * 64 + Z.land d 0x3f)
                      :: utf8_decode f l3
                  else match l3 with
                  | e :: l4 =>
                      (Z.land b 0x07 * 262144 + Z.land c 0x3f * 4096
                       + Z.land d 0x3f * 64 + Z.land e 0x3f) :: utf8_decode f l4
                  | [] => [b]
                  end
              | [] => [b]
              end
          | [] => [b]
          end
      end
  end.

(** [str::chars]: the code points. *)
Definition chars (s : string) : list Z :=
  let l := string_vals s in utf8_decode (length l) l.

(** [char::is_control]: general category Cc. *)
Definition is_control (c : Z) : bool := (c <=? 0x1f) || ((0x7f <=? c) && (c <=? 0x9f)).

(** [char::is_whitespace]: the Unicode [White_Space] property. *)
Definition is_whitespace (c : Z) : bool :=
  ((0x09 <=? c) && (c <=? 0x0d)) || (c =? 0x20) || (c =? 0x85) || (c =? 0xa0)
  || (c =? 0x1680) || ((0x2000 <=? c) && (c <=? 0x200a)) || (c =? 0x2028)
  || (c =? 0x2029) || (c =? 0x202f) || (c =? 0x205f) || (c =? 0x3000).

(** [s.trim().is_empty()]: nothing but white space. *)
Definition is_blank (s : string) : bool := forallb is_whitespace (chars s).

(** [str::split_once(c)] for an ASCII separator. *)
Fixpoint split_once (c : Ascii.ascii) (s : string) : option (string * string) :=
  match s with
  | EmptyString => None
  | String d s' =>
      if bool_decide (d = c) then Some (EmptyString, s')
      else match split_once c s' with
           | Some (a, b) => Some (String d a, b)
           | None => None
           end
  end.

(** [str::strip_prefix(c)] for one ASCII character. *)
Definition strip_prefix1 (c : Ascii.ascii) (s : string) : option string :=
  match s with
  | String d s' => if bool_decide (d = c) then Some s' else None
  | EmptyString => None
  end.

(** [u8::to_ascii_lowercase] and [str::eq_ignore_ascii_case]. *)
Definition ascii_lower (v : Z) : Z := if (65 <=? v) && (v <=? 90) then v + 32 else v.

Definition eq_ignore_ascii_case (a b : string) : bool :=
  bool_decide ((ascii_lower <$> string_vals a) = (ascii_lower <$> string_vals b)).

(** A string from its bytes. *)
Fixpoint bytes_string (l : bytes) : string :=
  match l with
  | [] => EmptyString
  | b :: l' => String (Ascii.ascii_of_N (Byte.to_N b)) (bytes_string l')
  end.

Definition within (lo v hi : Z) : bool := (lo <=? v) && (v <=? hi).

(** The next sequence of UTF-8 text, as [core::str] scans it: its length and
    whether it is well formed; an ill-formed one is the longest prefix that
    could still have been completed. *)
Definition utf8_sequence (l : list Z) : nat * bool :=
  let cont v := within 0x80 v 0xBF in
  match l with
  | [] => (0, true)
  | a :: l1 =>
      let two (ok : Z -> bool) := match l1 with b :: _ => if ok b then (2, true) else (1, false) | [] => (1, false) end in
      let three (ok : Z -> bool) :=
        match l1 with
        | b :: l2 =>
            if ok b then match l2 with c :: _ => if cont c then (3, true) else (2, false) | [] => (2, false) end
            else (1, false)
        | [] => (1, false)
        end in
      let four (ok : Z -> bool) :=
        match l1 with
        | b :: l2 =>
            if ok b then
              match l2 with
              | c :: l3 =>
                  if cont c then match l3 with d :: _ => if cont d then (4, true) else (3, false) | [] => (3, false) end
                  else (2, false)
              | [] => (2, false)
              end
            else (1, false)
        | [] => (1, false)
        end in
      if (a <? 0x80)%Z then (1, true)
      else if within 0xC2 a 0xDF then two cont
      else if (a =? 0xE0)%Z then three (fun v => within 0xA0 v 0xBF)
      else if within 0xE1 a 0xEC || within 0xEE a 0xEF then three cont
      else if (a =? 0xED)%Z then three (fun v => within 0x80 v 0x9F)
      else if (a =? 0xF0)%Z then four (fun v => within 0x90 v 0xBF)
      else if within 0xF1 a 0xF3 then four cont
      else if (a =? 0xF4)%Z then four (fun v => within 0x80 v 0x8F)
      else (1, false)
  end%nat.

(** [String::from_utf8_lossy]: each ill-formed sequence becomes U+FFFD. *)
Fixpoint utf8_lossy_loop (fuel : nat) (l : list Z) : list Z :=
  match fuel, l with
  | S f, _ :: _ =>
      let '(n, ok) := utf8_sequence l in
      (if ok : bool then take n l else [0xEF; 0xBF; 0xBD]) ++ utf8_lossy_loop f (drop n l)
  | _, _ => []
  end.

Definition from_utf8_lossy (l : bytes) : string :=
  bytes_string (byte_of <$> utf8_lossy_loop (length l) (byte_val <$> l)).

Lemma utf8_lossy_ascii fuel l :
  (length l <= fuel)%nat -> Forall (fun v => v < 0x80) l -> utf8_lossy_loop fuel l = l.
Proof.
  revert l; induction fuel as [|f IH]; intros [|a l] Hl HF; cbn in Hl; [done | lia | done |].
  apply Forall_cons in HF as [Ha HF]. cbn [utf8_lossy_loop]. unfold utf8_sequence.
  rewrite (proj2 (Z.ltb_lt a 0x80)) by done. cbn. rewrite drop_0. f_equal. apply IH; [lia | done].
Qed.

(** ASCII text is kept as it is. *)
Lemma from_utf8_lossy_ascii s :
  Forall (fun v => v < 0x80) (string_vals s) -> from_utf8_lossy (string_bytes s) = s.
Proof.
  intros HF. unfold from_utf8_lossy. rewrite utf8_lossy_ascii; [|by rewrite length_fmap|done].
  rewrite <- list_fmap_compose. clear HF. induction s as [|c s IH]; [done|].
  cbn [string_bytes fmap list_fmap bytes_string compose]. rewrite byte_of_val. f_equal; [|apply IH].
  rewrite <- (Ascii.ascii_N_embedding c) at 2. f_equal.
  pose proof (byte_val_of (ascii_val c)) as Hb. unfold byte_val, ascii_val in *.
  pose proof (Ascii.N_ascii_bounded c) as Hlt.
  rewrite Z.mod_small in Hb by lia. lia.
Qed.

Lemma split_once_Some c s a b :
  split_once c s = Some (a, b) -> s = (a +:+ String c b).
Proof.
  revert a; induction s as [|d s IH]; intros a H; [done|]. simpl in H.
  case_bool_decide; simplify_eq; [done|].
  destruct (split_once c s) as [[a' b']|]; simplify_eq.
  by rewrite (IH a' eq_refl).
Qed.

Lemma split_once_first c s a b :
  split_once c s = Some (a, b) -> split_once c a = None.
Proof.
  revert a; induction s as [|d s IH]; intros a H; [done|]. simpl in H.
  case_bool_decide; simplify_eq; [done|].
  destruct (split_once c s) as [[a' b']|] eqn:E; simplify_eq.
  simpl. rewrite bool_decide_false by done. by rewrite (IH a').
Qed.

Lemma hex_digit_val_range c d : hex_digit_val c = Some d -> 0 <= d < 16.
Proof.
  unfold hex_digit_val. intros H.
  repeat (case_match; simplify_eq; zbool; try lia).
Qed.

Lemma radix16_loop_bounds max acc s r :
  0 <= acc <= max -> radix16_loop max acc s = Some r -> 0 <= r <= max.
Proof.
  revert acc; induction s as [|c s IH]; intros acc Ha H; simpl in H; [by simplify_eq|].
  destruct (hex_digit_val c) as [d|] eqn:E; simpl in H; [|done].
  apply hex_digit_val_range in E.
  destruct (_ <=? _) eqn:L in H; [|done]. zbool. eapply IH; [|done]. lia.
Qed.

Lemma u32_from_hex_range s r : u32_from_hex s = Some r -> is_u32 r.
Proof.
  unfold u32_from_hex, from_str_radix16, is_u32. intros H.
  assert (0 <= 0 <= u32_max) by (unfold u32_max; lia).
  repeat case_match; simplify_eq; eauto using radix16_loop_bounds.
Qed.
#[export] Hint Resolve u32_from_hex_range : pool_db.
