(* ===== verification/F64.v ===== *)
(** * F64: IEEE-754 binary64, as the pool's [f64] code uses it

    Rust's [f64] is binary64 with round-to-nearest-even.  The arithmetic is the
    executable specification of the Standard Library ([SpecFloat] at precision
    53 and maximal exponent 1024); the library methods and [as] casts the code
    calls are written out from their documentation.  [exp] and [powf] have no
    specified precision in Rust, so they are the parameters of [Libm]. *)
From S2P Require Import Prelude.
From Stdlib Require Export Floats.SpecFloat.

Abbreviation f64 := spec_float.

(** ** Arithmetic and comparison *)
Definition fadd : f64 -> f64 -> f64 := SFadd 53 1024.
Definition fsub : f64 -> f64 -> f64 := SFsub 53 1024.
Definition fmul : f64 -> f64 -> f64 := SFmul 53 1024.
Definition fdiv : f64 -> f64 -> f64 := SFdiv 53 1024.
Definition fneg : f64 -> f64 := SFopp.
Definition flt : f64 -> f64 -> bool := SFltb.
Definition fle : f64 -> f64 -> bool := SFleb.
Definition feq : f64 -> f64 -> bool := SFeqb.

Declare Scope f64_scope.
Delimit Scope f64_scope with f64.
Infix "+" := fadd : f64_scope.
Infix "-" := fsub : f64_scope.
Infix "*" := fmul : f64_scope.
Infix "/" := fdiv : f64_scope.
Infix "<?" := flt : f64_scope.
Infix "<=?" := fle : f64_scope.
Infix "=?" := feq : f64_scope.

Definition fnan : f64 := S754_nan.
Definition finf : f64 := S754_infinity false.

Definition is_nan (x : f64) : bool := match x with S754_nan => true | _ => false end.

(** [f64::is_finite]. *)
Definition is_finite (x : f64) : bool :=
  match x with S754_zero _ | S754_finite _ _ _ => true | _ => false end.

(** [n as f64] for an integer, and the literal [num / den] (the quotient of
    two exactly representable integers rounds as the decimal literal does). *)
Definition f64_of_Z (z : Z) : f64 := binary_normalize 53 1024 z 0 false.
Definition f64_lit (num den : Z) : f64 := fdiv (f64_of_Z num) (f64_of_Z den).

Definition f0 : f64 := f64_of_Z 0.
Definition f1 : f64 := f64_of_Z 1.

(** Integer part of a non-negative magnitude [m * 2^e]. *)
Definition trunc_mag (m : positive) (e : Z) : Z :=
  if 0 <=? e then Zpos m * 2 ^ e else Zpos m / 2 ^ (- e).

(** [x as u64]: truncate, saturate, NaN is 0. *)
Definition f64_to_u64 (x : f64) : Z :=
  match x with
  | S754_nan | S754_zero _ => 0
  | S754_infinity s => if s then 0 else u64_max
  | S754_finite s m e => if s then 0 else Z.min (trunc_mag m e) u64_max
  end.

(** [f64::round]: to the nearest integer, halves away from zero. *)
Definition fround (x : f64) : f64 :=
  match x with
  | S754_finite s m e =>
      if 0 <=? e then x
      else
        let n := (Zpos m + 2 ^ (- e - 1)) / 2 ^ (- e) in
        if n =? 0 then S754_zero s
        else if s then fneg (f64_of_Z n) else f64_of_Z n
  | _ => x
  end.

(** [f64::floor]. *)
Definition ffloor (x : f64) : f64 :=
  match x with
  | S754_finite s m e =>
      if 0 <=? e then x
      else
        let n := Zpos m / 2 ^ (- e) in
        if s then
          (if Zpos m mod 2 ^ (- e) =? 0 then x else fneg (f64_of_Z (n + 1)))
        else f64_of_Z n
  | _ => x
  end.

(** [f64::min] and [f64::max]: a NaN operand yields the other one. *)
Definition fmin (a b : f64) : f64 :=
  if is_nan a then b else if is_nan b then a else if (a <? b)%f64 then a else b.
Definition fmax (a b : f64) : f64 :=
  if is_nan a then b else if is_nan b then a else if (b <? a)%f64 then a else b.

(** [f64::clamp]: panics ([None]) unless [min <= max]; a NaN stays a NaN. *)
Definition fclamp (x min max : f64) : option f64 :=
  if (min <=? max)%f64 then
    let x1 := if (x <? min)%f64 then min else x in
    Some (if (max <? x1)%f64 then max else x1)
  else None.

(** [f64::to_bits] of a value in canonical form (a 53-bit significand, or the
    least exponent). *)
Definition f64_to_bits (x : f64) : Z :=
  match x with
  | S754_zero s => if s then 2 ^ 63 else 0
  | S754_infinity s => (if s then 2 ^ 63 else 0) + 0x7FF * 2 ^ 52
  | S754_nan => 0x7FF8 * 2 ^ 48
  | S754_finite s m e =>
      (if s then 2 ^ 63 else 0)
      + (if Zpos m <? 2 ^ 52 then Zpos m else (e + 1075) * 2 ^ 52 + (Zpos m - 2 ^ 52))
  end.

(** [f64::from_bits]; every NaN pattern is the one NaN. *)
Definition f64_from_bits (b : Z) : f64 :=
  let s := Z.testbit b 63 in
  let e := Z.land (Z.shiftr b 52) 0x7FF in
  let m := Z.land b (2 ^ 52 - 1) in
  if e =? 0x7FF then (if m =? 0 then S754_infinity s else S754_nan)
  else if e =? 0 then
    match m with Zpos p => S754_finite s p (-1074) | _ => S754_zero s end
  else match m + 2 ^ 52 with Zpos p => S754_finite s p (e - 1075) | _ => S754_zero s end.

(** The two libm functions the pool calls. *)
Class Libm := {
  fexp_ : f64 -> f64;      (** [f64::exp] *)
  fpowf : f64 -> f64 -> f64 (** [f64::powf] *)
}.

(** A math library for concrete runs, whose values the runs do not depend on. *)
Definition toy_libm : Libm := {| fexp_ := fun x => x; fpowf := fun x _ => x |}.

(** ** Time: an [Instant] is a number of nanoseconds of the monotonic clock *)
Abbreviation Instant := Z.

(** [Instant::saturating_duration_since], in nanoseconds. *)
Definition duration_since (later earlier : Instant) : Z := Z.max 0 (later - earlier).

Definition NANOS : Z := 1000000000.

(** [Duration::as_secs] and [Duration::as_secs_f64]. *)
Definition as_secs (d : Z) : Z := d / NANOS.
Definition as_secs_f64 (d : Z) : f64 :=
  fadd (f64_of_Z (d / NANOS)) (fdiv (f64_of_Z (d mod NANOS)) (f64_of_Z NANOS)).
