(* ===== verification/Rounding.v ===== *)
(** * Rounding: the order of binary64 and the rounding of its operations

    [SpecFloat] gives binary64 as executable definitions with no theory.  This
    file gives the part the pool's floating-point code needs: the magnitude of a
    non-negative value as an integer number of the least subnormal [2^-1074]
    ([mag]), in which comparison is comparison of integers, and for each
    operation that its result lies on the same side as the exact result of every
    representable value ([brackets]), so that rounding never crosses a bound. *)
From S2P Require Import Prelude F64.

Module Rounding.

Abbreviation digits := Zdigits2.
Abbreviation fexp64 := (fexp 53 1024).
Abbreviation valid := (valid_binary 53 1024).
Abbreviation round64 := (binary_round_aux 53 1024).

(** ** Powers of two *)
Lemma pow2_pos k : 0 <= k -> 0 < 2 ^ k.
Proof. intros. by apply Z.pow_pos_nonneg. Qed.

Lemma pow2_split a b : 0 <= a <= b -> 2 ^ b = 2 ^ a * 2 ^ (b - a).
Proof. intros. rewrite <- Z.pow_add_r by lia. f_equal. lia. Qed.

Lemma pow2_add3 a b c : 0 <= a -> 0 <= b -> 0 <= c -> 2 ^ (a + b + c) = 2 ^ a * 2 ^ b * 2 ^ c.
Proof. intros. by rewrite !Z.pow_add_r by lia. Qed.

Lemma pow2_mono a b : a <= b -> 2 ^ a <= 2 ^ b.
Proof. intros. apply Z.pow_le_mono_r; lia. Qed.

Lemma digits_bounds m : 0 < m -> 0 < digits m /\ 2 ^ (digits m - 1) <= m < 2 ^ digits m.
Proof.
  destruct m as [|p|]; [lia| |lia]. intros _. cbn [digits Zdigits2].
  induction p as [p IH|p IH|]; cbn [digits2_pos]; [| |cbn; lia].
  all: destruct IH as (Hp & Hl & Hu); rewrite Pos2Z.inj_succ; split; [lia|];
    replace (Z.succ (Zpos (digits2_pos p)) - 1) with (Z.succ (Zpos (digits2_pos p) - 1)) by lia;
    rewrite !Z.pow_succ_r by lia; rewrite ?Pos2Z.inj_xI, ?(Pos2Z.inj_xO p); lia.
Qed.

Lemma digits_nonneg m : 0 <= m -> 0 <= digits m.
Proof. intros. destruct (decide (m = 0)) as [->|]; [done|]. destruct (digits_bounds m); lia. Qed.

Lemma digits_le m k : 0 <= m < 2 ^ k -> 0 <= k -> digits m <= k.
Proof.
  intros [Hm Hk] Hk0. destruct (decide (m = 0)) as [->|]; [done|].
  destruct (digits_bounds m) as (Hd & Hl & _); [lia|].
  destruct (Z.le_gt_cases (digits m) k); [done|].
  pose proof (pow2_mono k (digits m - 1) ltac:(lia)). lia.
Qed.

Lemma digits_ge m k : 2 ^ (k - 1) <= m -> 1 <= k -> k <= digits m.
Proof.
  intros Hm Hk. pose proof (pow2_pos (k - 1) ltac:(lia)).
  destruct (digits_bounds m) as (Hd & _ & Hu); [lia|].
  destruct (Z.le_gt_cases k (digits m)); [done|].
  pose proof (pow2_mono (digits m) (k - 1) ltac:(lia)). lia.
Qed.

(** ** Where a ratio lies between two integers *)

(** The record brackets [n / d]: its mantissa is the floor, its two bits place
    the remainder below, at or above one half. *)
Definition at_loc (mrs : shr_record) (n d : Z) : Prop :=
  let m := shr_m mrs in
  match shr_r mrs, shr_s mrs with
  | false, false => n = m * d
  | false, true => m * d < n /\ 2 * n < (2 * m + 1) * d
  | true, false => 2 * n = (2 * m + 1) * d
  | true, true => (2 * m + 1) * d < 2 * n /\ n < (m + 1) * d
  end.

Lemma shr_1_loc mrs n d :
  0 < d -> 0 <= shr_m mrs -> at_loc mrs n d ->
  at_loc (shr_1 mrs) n (2 * d) /\ shr_m (shr_1 mrs) = shr_m mrs / 2.
Proof.
  destruct mrs as [m r s]. cbn [shr_m]. intros Hd Hm Hl.
  destruct m as [|[p|p|]|]; [| | | |lia].
  all: split; [destruct r, s; cbn in *; lia|].
  - by destruct r, s.
  - cbn. rewrite Pos2Z.inj_xI. by rewrite Z.mul_comm, Z.div_add_l, Z.add_0_r by lia.
  - cbn. rewrite (Pos2Z.inj_xO p), Z.mul_comm. by rewrite Z.div_mul.
  - done.
Qed.

Lemma iter_shr_loc p : forall mrs n d,
  0 < d -> 0 <= shr_m mrs -> at_loc mrs n d ->
  at_loc (iter_pos shr_1 p mrs) n (2 ^ Zpos p * d)
  /\ shr_m (iter_pos shr_1 p mrs) = shr_m mrs / 2 ^ Zpos p.
Proof.
  assert (forall k a, 0 <= a -> 0 <= a / 2 ^ Zpos k) as Hnn by (intros; apply Z.div_pos; lia).
  induction p as [p IH|p IH|]; intros mrs n d Hd Hm Hl; cbn [iter_pos];
    try pose proof (pow2_pos (Zpos p) ltac:(lia)) as Hp.
  - destruct (shr_1_loc mrs n d Hd Hm Hl) as [L1 M1].
    destruct (IH (shr_1 mrs) n (2 * d)) as [L2 M2]; [lia | rewrite M1; apply Z.div_pos; lia | done |].
    destruct (IH _ n (2 ^ Zpos p * (2 * d)) ltac:(nia) ltac:(rewrite M2; apply Hnn; rewrite M1; apply Z.div_pos; lia) L2) as [L3 M3].
    replace (Zpos p~1) with (Zpos p + Zpos p + 1) by lia. rewrite !Z.pow_add_r by lia.
    split; [by replace (2 ^ Zpos p * 2 ^ Zpos p * 2 ^ 1 * d) with (2 ^ Zpos p * (2 ^ Zpos p * (2 * d))) by lia|].
    rewrite M3, M2, M1. rewrite !Z.div_div by lia. f_equal. lia.
  - destruct (IH mrs n d Hd Hm Hl) as [L2 M2].
    destruct (IH _ n (2 ^ Zpos p * d) ltac:(nia) ltac:(rewrite M2; by apply Hnn) L2) as [L3 M3].
    replace (Zpos p~0) with (Zpos p + Zpos p) by lia. rewrite !Z.pow_add_r by lia.
    split; [by replace (2 ^ Zpos p * 2 ^ Zpos p * d) with (2 ^ Zpos p * (2 ^ Zpos p * d)) by lia|].
    rewrite M3, M2. rewrite Z.div_div by lia. done.
  - by apply shr_1_loc.
Qed.

Lemma shr_loc mrs e k n d :
  0 < d -> 0 <= shr_m mrs -> 0 <= k -> at_loc mrs n d ->
  exists mrs', shr mrs e k = (mrs', e + k) /\ at_loc mrs' n (2 ^ k * d)
               /\ shr_m mrs' = shr_m mrs / 2 ^ k.
Proof.
  intros Hd Hm Hk Hl. destruct k as [|p|]; [| |lia].
  - exists mrs. cbn [shr]. rewrite Z.add_0_r, Z.pow_0_r, Z.div_1_r, Z.mul_1_l. done.
  - destruct (iter_shr_loc p mrs n d Hd Hm Hl). eexists. split; [reflexivity|done].
Qed.

(** Round to nearest, ties to even, of the ratio a record brackets. *)
Definition nearest (mrs : shr_record) : Z := round_nearest_even (shr_m mrs) (loc_of_shr_record mrs).

Lemma nearest_bracket mrs n d g :
  0 < d -> at_loc mrs n d ->
  (g * d <= n -> g <= nearest mrs) /\ (n <= g * d -> nearest mrs <= g)
  /\ shr_m mrs <= nearest mrs <= shr_m mrs + 1.
Proof.
  destruct mrs as [m r s]. unfold at_loc, nearest. cbn [shr_m shr_r shr_s loc_of_shr_record].
  intros Hd Hl. destruct r, s; cbn [round_nearest_even]; try destruct (Z.even m); nia.
Qed.

(** ** Canonical values *)
Lemma fexp64_eq x : fexp64 x = Z.max (x - 53) (-1074).
Proof. done. Qed.

Lemma bounded_iff m e :
  bounded 53 1024 m e = true <->
  -1074 <= e <= 971 /\ Zpos m < 2 ^ 53 /\ (e = -1074 \/ 2 ^ 52 <= Zpos m).
Proof.
  unfold bounded, canonical_mantissa. rewrite andb_true_iff, Z.eqb_eq, Z.leb_le, fexp64_eq.
  destruct (digits_bounds (Zpos m)) as (Hd & Hl & Hu); [lia|]. cbn [digits Zdigits2] in *.
  set (k := Zpos (digits2_pos m)) in *. change (1024 - 53) with 971. split.
  - intros [He Hmax]. split; [lia|]. split.
    + pose proof (pow2_mono k 53 ltac:(lia)). lia.
    + destruct (decide (e = -1074)); [by left|]. right.
      assert (k = 53) as Hk by lia. rewrite Hk in Hl. lia.
  - intros (He & Hm & Hc). split; [|lia].
    pose proof (digits_le (Zpos m) 53 ltac:(lia) ltac:(lia)) as Hk. cbn [digits Zdigits2] in Hk.
    destruct Hc as [->|Hc]; [lia|].
    pose proof (digits_ge (Zpos m) 53 ltac:(lia) ltac:(lia)) as Hk'. cbn [digits Zdigits2] in Hk'. lia.
Qed.

(** The magnitude, in units of [2^-1074]; an infinity is beyond every finite
    one. *)
Definition mag (x : f64) : Z :=
  match x with
  | S754_zero _ => 0
  | S754_finite _ m e => Zpos m * 2 ^ (e + 1074)
  | S754_infinity _ | S754_nan => 2 ^ 2098
  end.

Lemma mag_nonneg x : 0 <= mag x.
Proof. destruct x; cbn [mag]; lia. Qed.

Lemma mag_finite m e : bounded 53 1024 m e = true -> 0 < Zpos m * 2 ^ (e + 1074) < 2 ^ 2098.
Proof.
  intros (He & Hm & _)%bounded_iff. pose proof (pow2_pos (e + 1074) ltac:(lia)).
  split; [lia|]. rewrite (pow2_split (e + 1074) 2098) by lia.
  pose proof (pow2_mono 53 (2098 - (e + 1074)) ltac:(lia)). nia.
Qed.

(** ** Rounding *)

(** The record that [round64] rounds, at the exponent it chose. *)
Lemma round64_shape s mx ex lx n d :
  0 < d -> 0 <= mx -> at_loc (shr_record_of_loc mx lx) n d -> ex <= fexp64 (digits mx + ex) ->
  let e := fexp64 (digits mx + ex) in
  exists mrs, at_loc mrs n (2 ^ (e - ex) * d)
    /\ 0 <= shr_m mrs < 2 ^ 53 /\ (e = -1074 \/ 2 ^ 52 <= shr_m mrs)
    /\ round64 s mx ex lx
       = let '(mrs'', e'') := shr_fexp 53 1024 (nearest mrs) e loc_Exact in
         match shr_m mrs'' with
         | Z0 => S754_zero s
         | Zpos m => if Z.leb e'' 971 then S754_finite s m e'' else S754_infinity s
         | _ => S754_nan
         end.
Proof.
  intros Hd Hm Hl He e. assert (shr_m (shr_record_of_loc mx lx) = mx) as Em by (by destruct lx as [|[]]).
  destruct (shr_loc (shr_record_of_loc mx lx) ex (e - ex) n d Hd ltac:(lia) ltac:(unfold e; lia) Hl)
    as (mrs & Es & Hl' & Hm'). rewrite Em in Hm'. exists mrs. split; [done|].
  assert (e = Z.max (digits mx + ex - 53) (-1074)) as Ee by apply fexp64_eq.
  pose proof (pow2_pos (e - ex) ltac:(unfold e; lia)) as Hp.
  assert (0 <= shr_m mrs < 2 ^ 53 /\ (e = -1074 \/ 2 ^ 52 <= shr_m mrs)) as [Hb Hc].
  { rewrite Hm'. destruct (decide (mx = 0)) as [->|Hnz].
    - rewrite Z.div_0_l by lia. cbn [digits Zdigits2] in Ee, He. rewrite fexp64_eq in He. cbn in He. split; lia.
    - destruct (digits_bounds mx ltac:(lia)) as (Hd0 & Hlo & Hhi). split; [split|].
      + by apply Z.div_pos.
      + apply Z.div_lt_upper_bound; [done|]. rewrite <- Z.pow_add_r by (unfold e; lia).
        pose proof (pow2_mono (digits mx) (e - ex + 53) ltac:(lia)). lia.
      + destruct (decide (e = -1074)); [by left | right].
        apply Z.div_le_lower_bound; [done|]. rewrite <- Z.pow_add_r by (unfold e; lia).
        by replace (e - ex + 52) with (digits mx - 1) by lia. }
  split; [done|]. split; [done|].
  unfold binary_round_aux, shr_fexp at 1. fold e. rewrite Es. replace (ex + (e - ex)) with e by lia. done.
Qed.

(** The final shift, after a carry out of the mantissa. *)
Lemma carry_shape r e :
  0 <= r <= 2 ^ 53 -> -1074 <= e -> (e = -1074 \/ 2 ^ 52 <= r) ->
  exists r' e', shr_fexp 53 1024 r e loc_Exact = (Build_shr_record r' false false, e')
    /\ r' * 2 ^ (e' + 1074) = r * 2 ^ (e + 1074) /\ 0 <= r' < 2 ^ 53 /\ -1074 <= e'
    /\ (e' = -1074 \/ 2 ^ 52 <= r').
Proof.
  intros Hr He Hc. unfold shr_fexp. rewrite fexp64_eq. destruct (decide (r = 2 ^ 53)) as [->|Hne].
  - exists (2 ^ 52), (e + 1). replace (Z.max (digits (2 ^ 53) + e - 53) (-1074) - e) with 1.
    2:{ change (digits (2 ^ 53)) with 54. lia. }
    split; [done|]. split; [|lia].
    replace (e + 1 + 1074) with (Z.succ (e + 1074)) by lia. rewrite Z.pow_succ_r by lia. lia.
  - exists r, e. pose proof (digits_le r 53 ltac:(lia) ltac:(lia)) as Hk.
    replace (Z.max (digits r + e - 53) (-1074) - e) with 0.
    2:{ destruct Hc as [->|Hc]; [lia|]. pose proof (digits_ge r 53 ltac:(lia) ltac:(lia)). lia. }
    split; [done|]. split; [done|]. lia.
Qed.

(** Binary64 values that are not negative, not NaN and not [-0]. *)
Definition nonneg (x : f64) : Prop :=
  match x with
  | S754_zero false | S754_infinity false => True
  | S754_finite false m e => bounded 53 1024 m e = true
  | _ => False
  end.

Definition finite (x : f64) : Prop := nonneg x /\ is_finite x = true.

(** [x] is on the same side as [a / b] of every finite value. *)
Definition brackets (x : f64) (a b : Z) : Prop :=
  nonneg x /\ forall y, finite y ->
    (mag y * b <= a -> mag y <= mag x) /\ (a <= mag y * b -> mag x <= mag y).

Lemma finite_mag x : finite x -> 0 <= mag x < 2 ^ 2098.
Proof.
  intros [Hx Hf]. destruct x as [|[]| |[] m e]; try done; cbn [mag].
  pose proof (mag_finite m e Hx). lia.
Qed.

(** What [round64] makes of a nearest integer [r] at exponent [e]. *)
Lemma rounded_mag r e x :
  0 <= r <= 2 ^ 53 -> -1074 <= e -> (e = -1074 \/ 2 ^ 52 <= r) ->
  x = (let '(mrs'', e'') := shr_fexp 53 1024 r e loc_Exact in
       match shr_m mrs'' with
       | Z0 => S754_zero false
       | Zpos m => if Z.leb e'' 971 then S754_finite false m e'' else S754_infinity false
       | _ => S754_nan
       end) ->
  nonneg x /\ (mag x = r * 2 ^ (e + 1074) \/ 2 ^ 2098 = mag x /\ mag x <= r * 2 ^ (e + 1074)).
Proof.
  intros Hr He Hc ->. destruct (carry_shape r e Hr He Hc) as (r' & e' & -> & Hv & Hr' & He' & Hc').
  rewrite <- Hv. cbn [shr_m]. destruct r' as [|p|]; [|destruct (Z.leb_spec e' 971)|lia].
  - split; [done|]. left. cbn [mag]. lia.
  - split; [apply bounded_iff; lia|]. by left.
  - split; [done|]. right. cbn [mag]. split; [done|]. destruct Hc' as [->|Hc']; [lia|].
    pose proof (pow2_mono 2046 (e' + 1074) ltac:(lia)).
    change 2098 with (52 + 2046). rewrite Z.pow_add_r by lia. apply Z.mul_le_mono_nonneg; lia.
Qed.

(** Comparing [g * p] with [a / b] is comparing [g] with [n / d]. *)
Lemma cross_le g p a b n d :
  0 < p -> 0 < b -> 0 < d -> a * d = n * p * b ->
  (g * p * b <= a <-> g * d <= n) /\ (a <= g * p * b <-> n <= g * d).
Proof.
  intros Hp Hb Hd E. assert (0 < p * b) as Hpb by lia.
  rewrite (Z.mul_le_mono_pos_r (g * p * b) a d), (Z.mul_le_mono_pos_r a (g * p * b) d) by done.
  rewrite (Z.mul_le_mono_pos_r (g * d) n (p * b)), (Z.mul_le_mono_pos_r n (g * d) (p * b)) by done.
  rewrite E. replace (g * p * b * d) with (g * d * (p * b)) by lia.
  replace (n * p * b) with (n * (p * b)) by lia. done.
Qed.

Lemma round64_brackets mx ex lx n d :
  0 < d -> 0 <= mx -> at_loc (shr_record_of_loc mx lx) n d -> ex <= fexp64 (digits mx + ex) ->
  brackets (round64 false mx ex lx) (n * 2 ^ Z.max 0 (ex + 1074)) (d * 2 ^ Z.max 0 (-1074 - ex)).
Proof.
  intros Hd Hm Hl He. destruct (round64_shape false mx ex lx n d Hd Hm Hl He) as (mrs & Hl' & Hb & Hc & Ex).
  set (e := fexp64 (digits mx + ex)) in *. set (d' := 2 ^ (e - ex) * d) in *.
  assert (-1074 <= e) as He' by (unfold e; rewrite fexp64_eq; lia).
  pose proof (pow2_pos (e - ex) ltac:(unfold e; lia)) as Hp. assert (0 < d') as Hd' by (unfold d'; nia).
  set (a := n * 2 ^ Z.max 0 (ex + 1074)). set (b := d * 2 ^ Z.max 0 (-1074 - ex)).
  assert (0 < b) as Hb' by (unfold b; pose proof (pow2_pos (Z.max 0 (-1074 - ex)) ltac:(lia)); nia).
  assert (a * d' = n * 2 ^ (e + 1074) * b) as Hab.
  { unfold a, b, d'. destruct (Z.le_gt_cases (-1074) ex).
    - rewrite Z.max_r, Z.max_l, (pow2_split (ex + 1074) (e + 1074)) by lia.
      replace (e + 1074 - (ex + 1074)) with (e - ex) by lia. lia.
    - rewrite Z.max_l, Z.max_r, (pow2_split (e + 1074) (e - ex)) by lia.
      replace (e - ex - (e + 1074)) with (-1074 - ex) by lia. lia. }
  pose proof (fun g => nearest_bracket mrs n d' g Hd' Hl') as Hn.
  destruct (Hn 0) as (_ & _ & Hr). pose proof (pow2_pos (e + 1074) ltac:(lia)) as Hpe.
  destruct (rounded_mag (nearest mrs) e _ ltac:(lia) He' ltac:(lia) Ex) as [Hx Hmag].
  split; [exact Hx|]. intros y Hy. pose proof (finite_mag y Hy) as Hym.
  pose proof (mag_nonneg (round64 false mx ex lx)) as Hv. revert Hmag Hym Hv.
  generalize (mag (round64 false mx ex lx)). intros v Hmag Hym Hv.
  destruct Hy as [Hy Hyf]. destruct y as [[]|[]| |[] mg eg]; try done; cbn [mag] in *.
  - split; [lia|]. intros Ha. assert (n <= 0) by nia. destruct (Hn 0) as (_ & Hn0 & _).
    assert (nearest mrs = 0) as E by lia. rewrite E in Hmag. lia.
  - apply bounded_iff in Hy as (Heg & Hmg & Hcg). destruct (Z.le_gt_cases e eg) as [Hle|Hlt].
    + rewrite (pow2_split (e + 1074) (eg + 1074)) in * by lia.
      replace (eg + 1074 - (e + 1074)) with (eg - e) in * by lia.
      set (G := Zpos mg * 2 ^ (eg - e)). replace (Zpos mg * (2 ^ (e + 1074) * 2 ^ (eg - e))) with (G * 2 ^ (e + 1074)) in * by (unfold G; lia).
      destruct (Hn G) as (Hn1 & Hn2 & _).
      destruct (cross_le G (2 ^ (e + 1074)) a b n d' Hpe Hb' Hd' Hab) as [Hc1 Hc2]. split; intros Ha.
      * apply Hc1, Hn1, (Z.mul_le_mono_pos_r _ _ _ Hpe) in Ha. lia.
      * apply Hc2, Hn2, (Z.mul_le_mono_pos_r _ _ _ Hpe) in Ha. lia.
    + destruct Hc as [Hc|Hc]; [lia|].
      assert (Zpos mg * 2 ^ (eg + 1074) < 2 ^ 52 * 2 ^ (e + 1074)) as Hg.
      { pose proof (pow2_mono (eg + 1074 + 1) (e + 1074) ltac:(lia)) as Hpm.
        rewrite Z.pow_add_r in Hpm by lia. pose proof (pow2_pos (eg + 1074) ltac:(lia)). nia. }
      assert (2 ^ 52 * 2 ^ (e + 1074) <= nearest mrs * 2 ^ (e + 1074))
        by (apply Z.mul_le_mono_nonneg_r; lia).
      split; intros Ha; [lia|]. exfalso.
      assert (shr_m mrs * d' <= n) by (clear -Hl' Hd'; destruct mrs as [m r s]; unfold at_loc in Hl'; cbn in *; destruct r, s; nia).
      destruct (cross_le (2 ^ 52) (2 ^ (e + 1074)) a b n d' Hpe Hb' Hd' Hab) as [[_ Hc1] _].
      apply (Z.mul_lt_mono_pos_r b _ _ Hb') in Hg.
      assert (2 ^ 52 * d' <= shr_m mrs * d') by (apply Z.mul_le_mono_nonneg_r; lia). lia.
Qed.

(** ** Comparison *)
Lemma compare_mag x y : nonneg x -> nonneg y -> SFcompare x y = Some (Z.compare (mag x) (mag y)).
Proof.
  assert (forall m1 e1 m2 e2, bounded 53 1024 m1 e1 = true -> bounded 53 1024 m2 e2 = true -> e1 < e2 ->
    Zpos m1 * 2 ^ (e1 + 1074) < Zpos m2 * 2 ^ (e2 + 1074)) as Hlt.
  { intros m1 e1 m2 e2 (He1 & Hm1 & _)%bounded_iff (He2 & Hm2 & Hc)%bounded_iff He.
    destruct Hc as [Hc|Hc]; [lia|]. pose proof (pow2_pos (e1 + 1074) ltac:(lia)).
    pose proof (pow2_mono (e1 + 1074 + 1) (e2 + 1074) ltac:(lia)) as Hp. rewrite Z.pow_add_r in Hp by lia.
    apply Z.lt_le_trans with (2 ^ 53 * 2 ^ (e1 + 1074)); [by apply Z.mul_lt_mono_pos_r|].
    apply Z.le_trans with (2 ^ 52 * 2 ^ (e2 + 1074)); [lia|]. apply Z.mul_le_mono_nonneg_r; lia. }
  intros Hx Hy.
  destruct x as [[]|[]| |[] m1 e1]; try done; destruct y as [[]|[]| |[] m2 e2]; try done; cbn [SFcompare mag].
  all: repeat match goal with H : nonneg (S754_finite _ _ _) |- _ => cbn in H end.
  all: try (pose proof (mag_finite _ _ Hx)); try (pose proof (mag_finite _ _ Hy)); f_equal; symmetry.
  all: try (apply Z.compare_lt_iff; lia); try (apply Z.compare_gt_iff; lia).
  destruct (Z.compare_spec e1 e2) as [<-|He|He].
  - rewrite <- Zmult_compare_compat_r by (apply Z.lt_gt, pow2_pos; apply bounded_iff in Hx; lia). done.
  - by apply Z.compare_lt_iff, Hlt.
  - by apply Z.compare_gt_iff, Hlt.
Qed.

Lemma fle_mag x y : nonneg x -> nonneg y -> fle x y = true <-> mag x <= mag y.
Proof.
  intros Hx Hy. unfold fle, SFleb. rewrite compare_mag by done.
  destruct (Z.compare_spec (mag x) (mag y)); split; (done || lia).
Qed.

Lemma flt_mag x y : nonneg x -> nonneg y -> flt x y = true <-> mag x < mag y.
Proof.
  intros Hx Hy. unfold flt, SFltb. rewrite compare_mag by done.
  destruct (Z.compare_spec (mag x) (mag y)); split; (done || lia).
Qed.

Lemma flt_mag_false x y : nonneg x -> nonneg y -> flt x y = false <-> mag y <= mag x.
Proof. intros Hx Hy. rewrite <- not_true_iff_false, flt_mag by done. lia. Qed.

Lemma nonneg_not_nan x : nonneg x -> is_nan x = false.
Proof. by destruct x as [[]|[]| |[]]. Qed.

Lemma fmin_mag x y : nonneg x -> nonneg y -> nonneg (fmin x y) /\ mag (fmin x y) = Z.min (mag x) (mag y).
Proof.
  intros Hx Hy. unfold fmin. rewrite !nonneg_not_nan by done.
  destruct (x <? y)%f64 eqn:E; [apply flt_mag in E | apply flt_mag_false in E]; try done; split; (done || lia).
Qed.

Lemma fmax_mag x y : nonneg x -> nonneg y -> nonneg (fmax x y) /\ mag (fmax x y) = Z.max (mag x) (mag y).
Proof.
  intros Hx Hy. unfold fmax. rewrite !nonneg_not_nan by done.
  destruct (y <? x)%f64 eqn:E; [apply flt_mag in E | apply flt_mag_false in E]; try done; split; (done || lia).
Qed.

(** [clamp] succeeds on an ordered range and lands in it. *)
Lemma fclamp_mag x lo hi :
  nonneg x -> nonneg lo -> nonneg hi -> mag lo <= mag hi ->
  exists y, fclamp x lo hi = Some y /\ nonneg y /\ mag lo <= mag y <= mag hi
            /\ mag y = Z.min (Z.max (mag x) (mag lo)) (mag hi).
Proof.
  intros Hx Hlo Hhi Hle. unfold fclamp. rewrite (proj2 (fle_mag lo hi Hlo Hhi) Hle).
  eexists. split; [done|]. destruct (x <? lo)%f64 eqn:E1.
  - apply flt_mag in E1; [|done..]. rewrite (proj2 (flt_mag_false hi lo Hhi Hlo) Hle). split; [done|]. lia.
  - apply flt_mag_false in E1; [|done..].
    destruct (hi <? x)%f64 eqn:E2; [apply flt_mag in E2 | apply flt_mag_false in E2]; try done; split; (done || lia).
Qed.

(** ** Operations *)
Lemma brackets_ext x a b a' b' : 0 < b -> 0 < b' -> a * b' = a' * b -> brackets x a b -> brackets x a' b'.
Proof.
  intros Hb Hb' E [Hx H]. split; [done|]. intros y Hy. destruct (H y Hy) as [H1 H2]. split; intros Ha.
  - apply H1. apply (Z.mul_le_mono_pos_r _ _ b' Hb'). rewrite E. apply (Z.mul_le_mono_pos_r _ _ b Hb) in Ha. lia.
  - apply H2. apply (Z.mul_le_mono_pos_r _ _ b' Hb'). rewrite E. apply (Z.mul_le_mono_pos_r _ _ b Hb) in Ha. lia.
Qed.

Lemma brackets_self x : finite x -> brackets x (mag x) 1.
Proof. intros [Hx Hf]. split; [done|]. intros y Hy. lia. Qed.

Lemma brackets_zero b : 0 < b -> brackets (S754_zero false) 0 b.
Proof. intros Hb. split; [done|]. intros y Hy. pose proof (mag_nonneg y). cbn [mag]. nia. Qed.

Lemma shl_spec (m d : positive) : Zpos (Pos.iter xO m d) = Zpos m * 2 ^ Zpos d.
Proof.
  revert m. induction d as [|d IH] using Pos.peano_ind; intros m; [cbn; lia|].
  rewrite Pos.iter_succ, Pos2Z.inj_succ, Z.pow_succ_r, (Pos2Z.inj_xO (Pos.iter _ _ _)), IH by lia. lia.
Qed.

Lemma digits_shift m k : 0 < m -> 0 <= k -> digits (m * 2 ^ k) = digits m + k.
Proof.
  intros Hm Hk. destruct (digits_bounds m Hm) as (Hd & Hl & Hu). pose proof (pow2_pos k Hk).
  apply Z.le_antisymm.
  - apply digits_le; [|lia]. rewrite Z.pow_add_r by lia. nia.
  - apply digits_ge; [|lia]. replace (digits m + k - 1) with (digits m - 1 + k) by lia.
    rewrite Z.pow_add_r by lia. nia.
Qed.

(** Rounding an integer number of [2^e]. *)
Lemma normalize_brackets n e :
  0 <= n ->
  brackets (binary_normalize 53 1024 n e false) (n * 2 ^ Z.max 0 (e + 1074)) (2 ^ Z.max 0 (-1074 - e)).
Proof.
  intros Hn. pose proof (pow2_pos (Z.max 0 (-1074 - e)) ltac:(lia)) as Hb.
  destruct n as [|p|]; [by apply brackets_zero | | lia].
  cbn [binary_normalize]. unfold binary_round, shl_align. set (e' := fexp64 (Zpos (digits2_pos p) + e)).
  destruct (e' - e) as [|k|k] eqn:Ek.
  1,2: rewrite <- (Z.mul_1_l (2 ^ Z.max 0 (-1074 - e))); apply round64_brackets;
    [done | done | cbn; lia | cbn [digits Zdigits2]; fold e'; lia].
  pose proof (shl_spec p k) as Es. set (mz := Pos.iter xO p k) in *.
  eapply brackets_ext; [| |  |apply (round64_brackets _ _ _ (Zpos mz) 1); [done | done | cbn; lia |]].
  - rewrite Z.mul_1_l. apply pow2_pos. lia.
  - done.
  - rewrite Es, Z.mul_1_l. replace e' with (e - Zpos k) by lia.
    transitivity (Zpos p * 2 ^ (Zpos k + Z.max 0 (e - Zpos k + 1074) + Z.max 0 (-1074 - e))).
    { rewrite !Z.pow_add_r by lia. lia. }
    rewrite <- Z.mul_assoc, <- Z.pow_add_r by lia. f_equal. f_equal.
    assert (-1074 <= e') by (unfold e'; rewrite fexp64_eq; lia). lia.
  - rewrite Es, digits_shift by lia. cbn [digits Zdigits2].
    replace (Zpos (digits2_pos p) + Zpos k + e') with (Zpos (digits2_pos p) + e) by lia. fold e'. lia.
Qed.

Lemma of_Z_brackets n : 0 <= n -> brackets (f64_of_Z n) (n * 2 ^ 1074) 1.
Proof. intros Hn. pose proof (normalize_brackets n 0 Hn). exact H. Qed.

(** The ratio of a result computed at exponent [e], in units of [2^-1074]. *)
Lemma scale_eq e k : 0 <= k -> 0 <= e + 1074 + k ->
  2 ^ Z.max 0 (e + 1074) * 2 ^ k = 2 ^ (e + 1074 + k) * 2 ^ Z.max 0 (-1074 - e).
Proof. intros. rewrite <- !Z.pow_add_r by lia. f_equal. lia. Qed.

Lemma fmul_brackets x y : finite x -> finite y -> brackets (x * y)%f64 (mag x * mag y) (2 ^ 1074).
Proof.
  intros [Hx Fx] [Hy Fy]. pose proof (pow2_pos 1074 ltac:(lia)).
  destruct x as [[]|[]| |[] mx ex]; try done; destruct y as [[]|[]| |[] my ey]; try done.
  1,2,3: cbn -[Z.pow]; rewrite ?Z.mul_0_l, ?Z.mul_0_r; by apply brackets_zero.
  cbn [fmul SFmul xorb mag]. cbn in Hx, Hy.
  pose proof (proj1 (bounded_iff _ _) Hx) as (Hex & Hmx & Hcx). pose proof (proj1 (bounded_iff _ _) Hy) as (Hey & Hmy & Hcy).
  eapply brackets_ext; [| |  |apply (round64_brackets _ _ _ (Zpos (mx * my)) 1); [done | done | cbn; lia |]].
  - rewrite Z.mul_1_l. apply pow2_pos. lia.
  - done.
  - pose proof (scale_eq (ex + ey) 1074 ltac:(lia) ltac:(lia)) as E.
    replace (ex + ey + 1074 + 1074) with ((ex + 1074) + (ey + 1074)) in E by lia. rewrite Z.pow_add_r in E by lia.
    rewrite <- Z.mul_assoc, E. rewrite Pos2Z.inj_mul. generalize (2 ^ (ex + 1074)) (2 ^ (ey + 1074)). intros. lia.
  - rewrite fexp64_eq. destruct (decide (ex + ey <= -1074)); [lia|].
    assert (53 <= digits (Zpos (mx * my))); [|lia]. apply digits_ge; [|lia]. rewrite Pos2Z.inj_mul.
    destruct Hcx as [->|Hcx]; destruct Hcy as [->|Hcy]; [lia | nia..].
Qed.

(** The location of a remainder. *)
Lemma new_location_loc d q r :
  0 < d -> 0 <= r < d -> at_loc (shr_record_of_loc q (new_location d r)) (q * d + r) d.
Proof.
  intros Hd Hr. unfold new_location, new_location_even, new_location_odd.
  destruct (Z.even d) eqn:Ee; destruct (Z.eqb_spec r 0); cbn [shr_record_of_loc at_loc shr_m shr_r shr_s]; try lia.
  - destruct (Z.compare_spec (2 * r) d); cbn; lia.
  - apply (f_equal negb) in Ee. rewrite Z.negb_even in Ee. apply Z.odd_spec in Ee as [h Hh].
    destruct (Z.compare_spec (2 * r + 1) d); cbn; lia.
Qed.

Lemma fdiv_brackets x y :
  finite x -> finite y -> 0 < mag y -> brackets (x / y)%f64 (mag x * 2 ^ 1074) (mag y).
Proof.
  intros [Hx Fx] [Hy Fy] Hp. destruct y as [[]|[]| |[] my ey]; try done.
  destruct x as [[]|[]| |[] mx ex]; try done; [by apply brackets_zero|].
  cbn [fdiv SFdiv xorb]. cbn in Hx, Hy. unfold SFdiv_core_binary.
  pose proof (proj1 (bounded_iff _ _) Hx) as (Hex & Hmx & Hcx). pose proof (proj1 (bounded_iff _ _) Hy) as (Hey & Hmy & Hcy).
  set (d1 := digits (Zpos mx)). set (d2 := digits (Zpos my)).
  set (e' := Z.min (fexp64 (d1 + ex - (d2 + ey))) (ex - ey)).
  assert (match ex - ey - e' with Zpos _ => Z.shiftl (Zpos mx) (ex - ey - e') | Z0 => Zpos mx | Zneg _ => 0 end
          = Zpos mx * 2 ^ (ex - ey - e')) as ->.
  { destruct (ex - ey - e') eqn:E; [by rewrite Z.pow_0_r, Z.mul_1_r | by apply Z.shiftl_mul_pow2 | unfold e' in E; lia]. }
  set (k := ex - ey - e'). assert (0 <= k) as Hk by (unfold k, e'; lia).
  pose proof (pow2_pos k Hk) as Hpk. set (n := Zpos mx * 2 ^ k).
  pose proof (Z.div_mod n (Zpos my) ltac:(lia)) as Hdm. pose proof (Z.mod_pos_bound n (Zpos my) ltac:(lia)) as Hr.
  unfold Z.div, Z.modulo in Hdm, Hr. destruct (Z.div_eucl n (Zpos my)) as [q r] eqn:Edm.
  assert (0 <= q) as Hq.
  { pose proof (Z.div_pos n (Zpos my) ltac:(unfold n; lia) ltac:(lia)) as Hq. unfold Z.div in Hq. by rewrite Edm in Hq. }
  pose proof (new_location_loc (Zpos my) q r ltac:(lia) Hr) as Hl. replace (q * Zpos my + r) with n in Hl by lia.
  eapply brackets_ext; [| | |apply (round64_brackets _ _ _ n (Zpos my)); [done | done | exact Hl |]].
  - apply Z.mul_pos_pos; [done | apply pow2_pos; lia].
  - done.
  - cbn [mag]. unfold n.
    transitivity (Zpos mx * Zpos my * (2 ^ (k + Z.max 0 (e' + 1074) + (ey + 1074)))).
    { rewrite pow2_add3 by lia. lia. }
    transitivity (Zpos mx * Zpos my * (2 ^ ((ex + 1074) + 1074 + Z.max 0 (-1074 - e')))).
    { f_equal. f_equal. unfold k. lia. }
    rewrite pow2_add3 by lia. lia.
  - destruct (digits_bounds (Zpos mx) ltac:(lia)) as (Hd1 & Hl1 & Hu1). fold d1 in Hd1, Hl1, Hu1.
    destruct (digits_bounds (Zpos my) ltac:(lia)) as (Hd2 & Hl2 & Hu2). fold d2 in Hd2, Hl2, Hu2.
    rewrite fexp64_eq. destruct (Z.le_gt_cases e' (-1074)) as [Hle|Hgt]; [lia|].
    assert (e' <= d1 + ex - (d2 + ey) - 53) as He' by (unfold e' in *; rewrite fexp64_eq in *; lia).
    assert (53 <= digits q); [|lia]. apply digits_ge; [|lia].
    assert (2 ^ (53 - 1) * 2 ^ d2 <= n) as Hn.
    { unfold n. rewrite <- Z.pow_add_r by lia.
      apply Z.le_trans with (2 ^ (d1 - 1) * 2 ^ k); [|apply Z.mul_le_mono_nonneg_r; lia].
      rewrite <- Z.pow_add_r by lia. apply pow2_mono. unfold k. lia. }
    assert (2 ^ (53 - 1) * Zpos my <= 2 ^ (53 - 1) * 2 ^ d2) by (apply Z.mul_le_mono_nonneg_l; lia).
    assert (2 ^ (53 - 1) * Zpos my <= q * Zpos my + r) by lia. nia.
Qed.

(** Aligning to the lower exponent keeps the magnitude. *)
Lemma align_mag m e ez :
  -1074 <= ez <= e -> Zpos (shl_align m e ez).1 * 2 ^ (ez + 1074) = Zpos m * 2 ^ (e + 1074).
Proof.
  intros He. unfold shl_align. destruct (ez - e) as [|k|k] eqn:E; [|lia|]; cbn [fst].
  - by replace ez with e by lia.
  - rewrite shl_spec, <- Z.mul_assoc, <- Z.pow_add_r by lia. f_equal. f_equal. lia.
Qed.

Lemma normalize_mag n e :
  0 <= n -> -1074 <= e -> brackets (binary_normalize 53 1024 n e false) (n * 2 ^ (e + 1074)) 1.
Proof.
  intros Hn He. pose proof (normalize_brackets n e Hn) as H.
  by rewrite Z.max_r, Z.max_l in H by lia.
Qed.

Lemma fadd_brackets x y : finite x -> finite y -> brackets (x + y)%f64 (mag x + mag y) 1.
Proof.
  intros [Hx Fx] [Hy Fy].
  destruct x as [[]|[]| |[] mx ex]; try done; destruct y as [[]|[]| |[] my ey]; try done; cbn [fadd SFadd].
  - by apply brackets_zero.
  - by apply (brackets_self (S754_finite false my ey)).
  - cbn [mag]. rewrite Z.add_0_r. by apply (brackets_self (S754_finite false mx ex)).
  - cbn in Hx, Hy. apply bounded_iff in Hx as (Hex & _). apply bounded_iff in Hy as (Hey & _).
    cbn [mag]. rewrite <- (align_mag mx ex (Z.min ex ey)), <- (align_mag my ey (Z.min ex ey)) by lia.
    rewrite <- Z.mul_add_distr_r. apply normalize_mag; [cbn; lia | lia].
Qed.

Lemma fsub_brackets x y :
  finite x -> finite y -> mag y <= mag x -> brackets (x - y)%f64 (mag x - mag y) 1.
Proof.
  intros [Hx Fx] [Hy Fy] Hle.
  destruct x as [[]|[]| |[] mx ex]; try done; destruct y as [[]|[]| |[] my ey]; try done; cbn [fsub SFsub].
  - by apply brackets_zero.
  - cbn in Hy. pose proof (mag_finite _ _ Hy). cbn [mag] in Hle. lia.
  - cbn [mag]. rewrite Z.sub_0_r. by apply (brackets_self (S754_finite false mx ex)).
  - cbn in Hx, Hy. apply bounded_iff in Hx as (Hex & _). apply bounded_iff in Hy as (Hey & _).
    cbn [mag] in *. rewrite <- (align_mag mx ex (Z.min ex ey)), <- (align_mag my ey (Z.min ex ey)) in * by lia.
    rewrite <- Z.mul_sub_distr_r in *. pose proof (pow2_pos (Z.min ex ey + 1074) ltac:(lia)).
    apply normalize_mag; [cbn [cond_Zopp]; nia | lia].
Qed.

(** ** Using the brackets *)
Lemma finite_inv x :
  finite x -> x = S754_zero false \/ exists m e, x = S754_finite false m e /\ bounded 53 1024 m e = true.
Proof. intros [Hx Hf]. destruct x as [[]|[]| |[] m e]; try done; [by left | right; eauto]. Qed.

Lemma infinite_inv x : nonneg x -> is_finite x = false -> x = S754_infinity false.
Proof. by destruct x as [[]|[]| |[]]. Qed.

Lemma finite_iff x : finite x <-> nonneg x /\ mag x < 2 ^ 2098.
Proof.
  split; [intros Hx; split; [apply Hx | apply (finite_mag x Hx)]|].
  intros [Hx Hm]. split; [done|]. destruct x as [[]|[]| |[]]; try contradiction; [done | | done].
  cbn [mag] in Hm. lia.
Qed.

Lemma brackets_below x a b y : brackets x a b -> finite y -> a <= mag y * b -> finite x /\ mag x <= mag y.
Proof.
  intros [Hx H] Hy Ha. destruct (H y Hy) as [_ H2]. specialize (H2 Ha).
  pose proof (finite_mag y Hy). split; [apply finite_iff; split; [done | lia] | done].
Qed.

Lemma brackets_above x a b y : brackets x a b -> finite y -> mag y * b <= a -> mag y <= mag x.
Proof. intros [Hx H] Hy Ha. by destruct (H y Hy) as [H1 _]; apply H1. Qed.

(** Powers of two, and small integers, are values. *)
Lemma pow2_value k : -1022 <= k <= 1023 -> exists y, finite y /\ mag y = 2 ^ (k + 1074).
Proof.
  intros Hk. exists (S754_finite false (2 ^ 52)%positive (k - 52)). split.
  - split; [|done]. cbn [nonneg]. apply bounded_iff. rewrite Pos2Z.inj_pow. lia.
  - cbn [mag]. rewrite Pos2Z.inj_pow, <- Z.pow_add_r by lia. f_equal. lia.
Qed.

Lemma least_value : exists y, finite y /\ mag y = 1.
Proof. exists (S754_finite false 1 (-1074)). done. Qed.

Lemma int_value n : 0 <= n <= 2 ^ 53 -> exists y, finite y /\ mag y = n * 2 ^ 1074.
Proof.
  intros Hn. destruct (decide (n = 0)) as [->|Hz]; [by exists (S754_zero false)|].
  destruct (decide (n = 2 ^ 53)) as [->|Hne].
  { destruct (pow2_value 53 ltac:(lia)) as (y & Hy & Hm). exists y. split; [done|]. rewrite Hm.
    by rewrite Z.pow_add_r. }
  destruct (digits_bounds n ltac:(lia)) as (Hd & Hl & Hu). set (k := digits n) in *.
  pose proof (digits_le n 53 ltac:(lia) ltac:(lia)) as Hk. fold k in Hk.
  pose proof (pow2_pos (53 - k) ltac:(lia)).
  exists (S754_finite false (Z.to_pos (n * 2 ^ (53 - k))) (k - 53)).
  assert (Zpos (Z.to_pos (n * 2 ^ (53 - k))) = n * 2 ^ (53 - k)) as Ep by (rewrite Z2Pos.id; lia).
  split; [split; [|done]; cbn [nonneg]; apply bounded_iff; rewrite Ep; split_and!|].
  - lia.
  - lia.
  - pose proof (pow2_split k 53 ltac:(lia)). nia.
  - right. pose proof (pow2_split (k - 1) 52 ltac:(lia)) as E. replace (52 - (k - 1)) with (53 - k) in E by lia. nia.
  - cbn [mag]. rewrite Ep, <- Z.mul_assoc, <- Z.pow_add_r by lia. do 2 f_equal. lia.
Qed.

Lemma of_Z_exact n : 0 <= n <= 2 ^ 53 -> finite (f64_of_Z n) /\ mag (f64_of_Z n) = n * 2 ^ 1074.
Proof.
  intros Hn. destruct (int_value n Hn) as (y & Hy & Hm). pose proof (of_Z_brackets n ltac:(lia)) as Hb.
  destruct (brackets_below _ _ _ y Hb Hy ltac:(lia)) as [Hf Hle].
  pose proof (brackets_above _ _ _ y Hb Hy ltac:(lia)). split; [done | lia].
Qed.

Lemma of_Z_nonneg n : 0 <= n -> nonneg (f64_of_Z n).
Proof. intros Hn. apply (of_Z_brackets n Hn). Qed.

Lemma of_Z_pos n : 1 <= n -> 2 ^ 1074 <= mag (f64_of_Z n).
Proof.
  intros Hn. destruct (int_value 1 ltac:(lia)) as (y & Hy & Hm).
  pose proof (brackets_above _ _ _ y (of_Z_brackets n ltac:(lia)) Hy ltac:(lia)). lia.
Qed.

Lemma of_Z_below n k : 0 <= n <= 2 ^ k -> 0 <= k <= 1023 ->
  finite (f64_of_Z n) /\ mag (f64_of_Z n) <= 2 ^ (k + 1074).
Proof.
  intros Hn Hk. destruct (pow2_value k ltac:(lia)) as (y & Hy & Hm).
  rewrite <- Hm. apply (brackets_below _ _ _ y (of_Z_brackets n ltac:(lia)) Hy).
  rewrite Hm, Z.pow_add_r by lia. lia.
Qed.

(** Casting to an integer. *)
Lemma to_u64_mag x : finite x -> f64_to_u64 x = Z.min (mag x / 2 ^ 1074) u64_max.
Proof.
  intros [Hx Hf]. destruct x as [[]|[]| |[] m e]; try contradiction; try discriminate; [done|].
  cbn [nonneg] in Hx. apply bounded_iff in Hx as (He & _).
  cbn [f64_to_u64 mag]. f_equal. unfold trunc_mag. destruct (Z.leb_spec 0 e).
  - rewrite Z.pow_add_r, Z.mul_assoc by lia. by rewrite Z.div_mul by lia.
  - replace 1074 with ((- e) + (e + 1074)) at 2 by lia. rewrite (Z.pow_add_r 2 (- e)) by lia.
    rewrite Z.div_mul_cancel_r; [done | |]; pose proof (pow2_pos (e + 1074)); pose proof (pow2_pos (- e)); lia.
Qed.

(** Rounding to an integer stays between integers. *)
Lemma round_to_u64 z a b :
  0 <= a -> b <= 2 ^ 53 -> finite z -> a * 2 ^ 1074 <= mag z <= b * 2 ^ 1074 ->
  a <= f64_to_u64 (fround z) <= b.
Proof.
  intros Ha Hb Hz Hm. pose proof (pow2_pos 1074 ltac:(lia)) as Hp.
  assert (2 ^ 53 < u64_max) as Hu by done.
  assert (forall x, finite x -> a * 2 ^ 1074 <= mag x <= b * 2 ^ 1074 -> a <= f64_to_u64 x <= b) as Hcast.
  { intros x Hx [Hl Hh]. rewrite to_u64_mag by done.
    assert (a <= mag x / 2 ^ 1074) by (apply Z.div_le_lower_bound; lia).
    assert (mag x / 2 ^ 1074 <= b) by (apply Z.div_le_upper_bound; lia). lia. }
  destruct z as [[]|[]| |[] m e]; try (by destruct Hz); [by apply Hcast|].
  cbn [fround]. destruct (Z.leb_spec 0 e); [by apply Hcast|].
  pose proof (proj1 (bounded_iff _ _) (proj1 Hz)) as (He & _).
  assert (2 ^ 1074 = 2 ^ (- e) * 2 ^ (e + 1074)) as E1074 by (rewrite <- Z.pow_add_r by lia; f_equal; lia).
  cbn [mag] in Hm. rewrite E1074 in Hm. pose proof (pow2_pos (e + 1074) ltac:(lia)) as Hpe.
  pose proof (pow2_pos (- e) ltac:(lia)) as Hpn.
  assert (a * 2 ^ (- e) <= Zpos m <= b * 2 ^ (- e)) as Hmm.
  { rewrite !Z.mul_assoc in Hm. split; apply (Z.mul_le_mono_pos_r _ _ _ Hpe); lia. }
  assert (2 ^ (- e) = 2 * 2 ^ (- e - 1)) as Eh by (rewrite <- Z.pow_succ_r by lia; f_equal; lia).
  set (n := (Zpos m + 2 ^ (- e - 1)) / 2 ^ (- e)).
  assert (a <= n <= b) as Hn.
  { unfold n. pose proof (pow2_pos (- e - 1) ltac:(lia)). split; [apply Z.div_le_lower_bound; lia|].
    apply Z.lt_succ_r, Z.div_lt_upper_bound; lia. }
  destruct (Z.eqb_spec n 0); [cbn; lia|].
  destruct (of_Z_exact n ltac:(lia)) as [Hf Hmag]. rewrite to_u64_mag, Hmag by done.
  rewrite Z.div_mul by lia. lia.
Qed.

(** ** Non-negative results *)
Lemma fadd_nonneg x y : nonneg x -> nonneg y -> nonneg (x + y)%f64.
Proof.
  intros Hx Hy. destruct (is_finite x) eqn:Fx, (is_finite y) eqn:Fy.
  - by apply fadd_brackets.
  - by destruct x as [[]|[]| |[]], y as [[]|[]| |[]].
  - by destruct x as [[]|[]| |[]], y as [[]|[]| |[]].
  - by destruct x as [[]|[]| |[]], y as [[]|[]| |[]].
Qed.

Lemma fmul_nonneg x y : nonneg x -> finite y -> 0 < mag y -> nonneg (x * y)%f64.
Proof.
  intros Hx Hy Hp. destruct (is_finite x) eqn:Fx; [by apply fmul_brackets|].
  destruct Hy as [Hy Fy]. by destruct x as [[]|[]| |[]], y as [[]|[]| |[]].
Qed.

Lemma fdiv_nonneg x y : nonneg x -> finite y -> 0 < mag y -> nonneg (x / y)%f64.
Proof.
  intros Hx Hy Hp. destruct (is_finite x) eqn:Fx; [by apply fdiv_brackets|].
  destruct Hy as [Hy Fy]. by destruct x as [[]|[]| |[]], y as [[]|[]| |[]].
Qed.

End Rounding.
