(* ===== verification/Host.v ===== *)
(** * Host: the host services the pool reads its settings through

    The parts of Rust's standard library that touch text files and numbers in
    text: UTF-8 validity, [str::trim], [parse::<i64>] and [parse::<f64>], paths,
    and a file system as a map from paths to files, whose faults are inputs. *)
From S2P Require Import Prelude Text F64.

Module Host.

(** ** Text *)

(** UTF-8 of one code point. *)
Definition utf8_encode1 (c : Z) : list Z :=
  if c <? 0x80 then [c]
  else if c <? 0x800 then [0xC0 + c / 64; 0x80 + c mod 64]
  else if c <? 0x10000 then [0xE0 + c / 4096; 0x80 + c / 64 mod 64; 0x80 + c mod 64]
  else [0xF0 + c / 262144; 0x80 + c / 4096 mod 64; 0x80 + c / 64 mod 64; 0x80 + c mod 64].

Definition string_of_vals (l : list Z) : string := bytes_string (byte_of <$> l).

Fixpoint skip_white (l : list Z) : list Z :=
  match l with
  | c :: l' => if is_whitespace c then skip_white l' else l
  | [] => []
  end.

(** [str::trim]. *)
Definition trim (s : string) : string :=
  string_of_vals (reverse (skip_white (reverse (skip_white (chars s)))) ≫= utf8_encode1).

(** [str::from_utf8(_).is_ok()]: nothing had to be replaced. *)
Definition valid_utf8 (l : bytes) : bool := bool_decide (string_bytes (from_utf8_lossy l) = l).

(** [str::strip_prefix] for a string pattern. *)
Fixpoint strip_prefix (p s : string) : option string :=
  match p, s with
  | EmptyString, _ => Some s
  | String a p', String b s' => if bool_decide (a = b) then strip_prefix p' s' else None
  | String _ _, EmptyString => None
  end.

(** [str::strip_suffix(c)] for one ASCII character. *)
Fixpoint strip_suffix1 (c : Ascii.ascii) (s : string) : option string :=
  match s with
  | EmptyString => None
  | String d EmptyString => if bool_decide (d = c) then Some EmptyString else None
  | String d s' => String d <$> strip_suffix1 c s'
  end.

(** [str::split_once] for a string pattern. *)
Fixpoint split_once_str (p s : string) : option (string * string) :=
  match strip_prefix p s with
  | Some rest => Some (EmptyString, rest)
  | None =>
      match s with
      | EmptyString => None
      | String d s' => '(a, b) ← split_once_str p s'; Some (String d a, b)
      end
  end.

(** [str::to_ascii_lowercase]. *)
Definition to_ascii_lowercase (s : string) : string := string_of_vals (ascii_lower <$> string_vals s).

(** ** Numbers in text *)
Definition is_digit (v : Z) : bool := within 48 v 57.

Fixpoint span_digits (l : list Z) : list Z * list Z :=
  match l with
  | d :: l' => if is_digit d then let '(a, b) := span_digits l' in (d - 48 :: a, b) else ([], l)
  | [] => ([], [])
  end.

Definition digits_val (l : list Z) : Z := fold_left (fun acc d => acc * 10 + d) l 0.

(** An optional sign: whether it was a minus, and the rest. *)
Definition sign_of (l : list Z) : bool * list Z :=
  match l with
  | c :: l' => if c =? 45 then (true, l') else if c =? 43 then (false, l') else (false, l)
  | [] => (false, [])
  end.

(** [str::parse::<i64>]. *)
Definition parse_i64 (s : string) : option Z :=
  let '(neg, l) := sign_of (string_vals s) in
  match span_digits l with
  | (d :: ds, []) =>
      let v := digits_val (d :: ds) in
      let z := if neg : bool then - v else v in
      if (- 2 ^ 63 <=? z) && (z <? 2 ^ 63) then Some z else None
  | _ => None
  end.

(** The quotient of two positive integers, correctly rounded. *)
Definition f64_ratio (neg : bool) (p q : positive) : f64 :=
  let '(mz, ez, lz) := SFdiv_core_binary 53 1024 (Zpos p) 0 (Zpos q) 0 in
  binary_round_aux 53 1024 neg mz ez lz.

(** [(-1)^neg * m * 10^e]. *)
Definition f64_decimal (neg : bool) (m e : Z) : f64 :=
  match m with
  | Zpos p =>
      if 0 <=? e then f64_ratio neg (p * Z.to_pos (10 ^ e)) 1 else f64_ratio neg p (Z.to_pos (10 ^ (- e)))
  | _ => S754_zero neg
  end.

(** The exponent of a float literal: nothing, or [e] and a signed number. *)
Definition exponent_of (l : list Z) : option Z :=
  match l with
  | [] => Some 0
  | c :: l1 =>
      if ascii_lower c =? 101 then
        let '(neg, l2) := sign_of l1 in
        match span_digits l2 with
        | (d :: ds, []) => Some (if neg : bool then - digits_val (d :: ds) else digits_val (d :: ds))
        | _ => None
        end
      else None
  end.

(** [str::parse::<f64>]: infinities and NaN by name in any case, or digits
    with an optional point and exponent, at least one digit in all. *)
Definition parse_f64 (s : string) : option f64 :=
  let '(neg, l) := sign_of (string_vals s) in
  let name := string_of_vals (ascii_lower <$> l) in
  if bool_decide (name = "inf"%string) || bool_decide (name = "infinity"%string)
  then Some (S754_infinity neg)
  else if bool_decide (name = "nan"%string) then Some S754_nan
  else
    let '(whole, l1) := span_digits l in
    let '(frac, l2) := match l1 with
                       | c :: l' => if c =? 46 then span_digits l' else ([], l1)
                       | [] => ([], [])
                       end in
    match whole ++ frac with
    | [] => None
    | ds => e ← exponent_of l2; Some (f64_decimal neg (digits_val ds) (e - Z.of_nat (length frac)))
    end.

(** [str::parse::<bool>]. *)
Definition parse_bool (s : string) : option bool :=
  if bool_decide (s = "true"%string) then Some true
  else if bool_decide (s = "false"%string) then Some false else None.

(** ** Paths and files *)

(** [Path::join] on Unix paths. *)
Definition path_join (base rest : string) : string :=
  match rest with
  | String c _ =>
      if ascii_val c =? 47 then rest
      else match base with
           | EmptyString => rest
           | _ => match strip_suffix1 (Ascii.ascii_of_nat 47) base with
                  | Some _ => base +:+ rest
                  | None => base +:+ "/" +:+ rest
                  end
           end
  | EmptyString =>
      match base with
      | EmptyString => rest
      | _ => match strip_suffix1 (Ascii.ascii_of_nat 47) base with
             | Some _ => base
             | None => base +:+ "/"
             end
      end
  end.

Record File := mkFile { f_bytes : bytes; f_mode : Z }.
Abbreviation Fs := (gmap string File).

(** [io::ErrorKind], as far as the code tells kinds apart. *)
Inductive IoError : Type := NotFound | OtherError.

(** [fs::read_to_string]; [fault] is a failure of the host. *)
Definition read_to_string (fs : Fs) (path : string) (fault : bool) : result IoError string :=
  if fault then Err OtherError
  else match fs !! path with
       | None => Err NotFound
       | Some f => if valid_utf8 (f_bytes f) then Ok (bytes_string (f_bytes f)) else Err OtherError
       end.

(** ** Lemmas *)
Lemma string_bytes_app s t : string_bytes (s +:+ t) = string_bytes s ++ string_bytes t.
Proof.
  induction s as [|c s IH]; [done|]. change (String c s +:+ t) with (String c (s +:+ t)).
  cbn [string_bytes app]. by rewrite IH.
Qed.

Lemma string_vals_app s t : string_vals (s +:+ t) = string_vals s ++ string_vals t.
Proof. unfold string_vals. by rewrite string_bytes_app, fmap_app. Qed.

Lemma bytes_string_bytes s : bytes_string (string_bytes s) = s.
Proof.
  induction s as [|c s IH]; [done|]. cbn [string_bytes bytes_string]. rewrite IH. f_equal.
  rewrite <- (Ascii.ascii_N_embedding c) at 2. f_equal.
  pose proof (byte_val_of (ascii_val c)) as Hb. unfold byte_val, ascii_val in *.
  pose proof (Ascii.N_ascii_bounded c) as Hlt. rewrite Z.mod_small in Hb by lia. lia.
Qed.

Lemma string_of_vals_vals s : string_of_vals (string_vals s) = s.
Proof.
  unfold string_of_vals, string_vals. rewrite <- list_fmap_compose.
  rewrite (list_fmap_ext _ id), list_fmap_id; [apply bytes_string_bytes|].
  intros _ b _. apply byte_of_val.
Qed.

Definition ascii_text (s : string) : Prop := Forall (fun v => v < 0x80) (string_vals s).

Lemma chars_ascii s : ascii_text s -> chars s = string_vals s.
Proof.
  unfold ascii_text, chars. generalize (string_vals s); intros l HF.
  induction HF as [|v l Hv _ IH]; [done|]. cbn.
  rewrite (proj2 (Z.ltb_lt v 0x80)) by done. by rewrite IH.
Qed.

Lemma valid_utf8_ascii s : ascii_text s -> valid_utf8 (string_bytes s) = true.
Proof. intros Hs. apply bool_decide_eq_true. by rewrite from_utf8_lossy_ascii. Qed.

Lemma skip_white_none l : Forall (fun v => is_whitespace v = false) l -> skip_white l = l.
Proof. intros HF. destruct HF as [|v l Hv _]; [done|]. cbn. by rewrite Hv. Qed.

(** Trimming a line of ASCII text with no white space in it drops the line
    feed. *)
Lemma trim_line s :
  ascii_text s -> Forall (fun v => is_whitespace v = false) (string_vals s) ->
  trim (s +:+ String (Ascii.ascii_of_nat 10) EmptyString) = s.
Proof.
  intros Ha Hw. unfold trim. rewrite chars_ascii.
  2:{ unfold ascii_text. rewrite string_vals_app. apply Forall_app. split; [done|]. by repeat constructor. }
  rewrite string_vals_app. change (string_vals (String _ _)) with [10].
  assert (skip_white (string_vals s ++ [10]) = string_vals s ++ [10] \/ string_vals s = []) as [E|E].
  { destruct Hw as [|v l Hv _]; [by right|]. left. cbn. by rewrite Hv. }
  - rewrite E, reverse_snoc. cbn [skip_white]. change (is_whitespace 10) with true. cbn iota.
    rewrite skip_white_none by (by apply Forall_reverse). rewrite reverse_involutive.
    rewrite <- (string_of_vals_vals s) at 2. f_equal. clear Hw E.
    unfold ascii_text in Ha. induction Ha as [|v l Hv _ IH]; [done|]. cbn.
    rewrite IH. unfold utf8_encode1. by rewrite (proj2 (Z.ltb_lt v 0x80)).
  - rewrite E. cbn. destruct s; [done|]. done.
Qed.

(** Nothing the alphabet of base58 offers is white space. *)
Definition is_alnum (v : Z) : bool := within 48 v 57 || within 65 v 90 || within 97 v 122.

Lemma alnum_text s :
  Forall (fun v => is_alnum v = true) (string_vals s) ->
  ascii_text s /\ Forall (fun v => is_whitespace v = false) (string_vals s).
Proof.
  intros HF. unfold ascii_text. split; (eapply Forall_impl; [exact HF|]); cbn; intros v Hv;
    unfold is_alnum, within in Hv; rewrite ?orb_true_iff, ?andb_true_iff, ?Z.leb_le in Hv; [lia|].
  unfold is_whitespace. rewrite !orb_false_iff, !andb_false_iff, !Z.leb_gt, !Z.eqb_neq. lia.
Qed.

(** The readers on samples. *)
Example parse_i64_samples :
  (parse_i64 "-42", parse_i64 "+7", parse_i64 "9223372036854775808", parse_i64 "-", parse_i64 "1x")
  = (Some (-42), Some 7, None, None, None).
Proof. vm_compute. reflexivity. Qed.

Example parse_f64_samples :
  (parse_f64 "1.5", parse_f64 "-0", parse_f64 ".5e1", parse_f64 "1e400", parse_f64 ".", parse_f64 "0.1")
  = (Some (f64_lit 3 2), Some (S754_zero true), Some (f64_of_Z 5), Some finf, None,
     Some (f64_lit 1 10)).
Proof. vm_compute. reflexivity. Qed.

Example trim_samples : (trim "  a b 	", trim "", trim " x") = ("a b", "", "x")%string.
Proof. vm_compute. reflexivity. Qed.

End Host.
