(* ===== verification/Json.v ===== *)
(** * Json: the [serde_json::Value] the protocol code works on

    The public data type of [serde_json] and the accessors the sources call
    ([as_str], [as_array], [as_object], [as_u64], [as_f64], [get]), from their
    documentation.  Parsing and printing JSON text is the library's. *)
From S2P Require Import Prelude F64.

(** [serde_json::Number]: a non-negative integer, a negative one, or a finite
    double. *)
Inductive Number : Type :=
| PosInt (n : Z)
| NegInt (n : Z)
| Float (f : f64).

Inductive Value : Type :=
| VNull
| VBool (b : bool)
| VNumber (n : Number)
| VString (s : string)
| VArray (l : list Value)
| VObject (m : list (string * Value)).

Definition as_str (v : Value) : option string :=
  match v with VString s => Some s | _ => None end.
Definition as_array (v : Value) : option (list Value) :=
  match v with VArray l => Some l | _ => None end.
Definition as_object (v : Value) : option (list (string * Value)) :=
  match v with VObject m => Some m | _ => None end.
Definition as_u64 (v : Value) : option Z :=
  match v with VNumber (PosInt n) => Some n | _ => None end.
Definition as_f64 (v : Value) : option f64 :=
  match v with
  | VNumber (PosInt n) => Some (f64_of_Z n)
  | VNumber (NegInt n) => Some (f64_of_Z n)
  | VNumber (Float f) => Some f
  | _ => None
  end.
Definition is_null (v : Value) : bool := match v with VNull => true | _ => false end.

(** [Map::get]: keys of a map are distinct, so the first match is the entry. *)
Fixpoint map_get (k : string) (m : list (string * Value)) : option Value :=
  match m with
  | [] => None
  | (k', v) :: m' => if bool_decide (k' = k) then Some v else map_get k m'
  end.

(** [Value::get(key)] on an object. *)
Definition value_get (v : Value) (k : string) : option Value :=
  m ← as_object v; map_get k m.

Definition VU64 (n : Z) : Value := VNumber (PosInt n).
