(* ===== verification/Errors.v ===== *)
(** * Errors: [src/error.rs]

    [PoolError] with the source's constructors, the closed metric label of a
    failed block submission and the Stratum error tuple sent to miners. *)
From S2P Require Import Prelude F64 Json.

(** What the pool distinguishes of [bitcoincore_rpc::Error]: a JSON-RPC error
    object with its code, or anything else. *)
Inductive RpcError : Type :=
| JsonRpcError (code : Z)
| TransportError (msg : string).

Inductive PoolError : Type :=
| Parse (msg : string)
| UnknownMethod (m : string)
| NotSubscribed
| NotAuthorized
| InvalidParams (method detail : string)
| StaleJob (job_id : string)
| DuplicateShare
| LowDifficulty
| InvalidHeader
| Rpc (e : RpcError)
| TemplateUnavailable
| SubmitBlockRejected (reason : string)
| Banned (reason : string)
| RateLimited
| MessageTooLarge (nbytes : Z)
| Io (msg : string)
| ConnectionClosed
| Other (msg : string).

Inductive StratumErrCode : Type :=
| CodeUnknown | CodeJobNotFound | CodeDuplicateShare
| CodeLowDifficultyShare | CodeUnauthorized | CodeNotSubscribed.

(** The discriminants of the Rust enum ([code as u32]). *)
Definition err_code (c : StratumErrCode) : Z :=
  match c with
  | CodeUnknown => 20 | CodeJobNotFound => 21 | CodeDuplicateShare => 22
  | CodeLowDifficultyShare => 23 | CodeUnauthorized => 24 | CodeNotSubscribed => 25
  end.

Definition err_message (c : StratumErrCode) : string :=
  match c with
  | CodeUnknown => "Unknown problem"
  | CodeJobNotFound => "Job not found"
  | CodeDuplicateShare => "Duplicate share"
  | CodeLowDifficultyShare => "Low difficulty share"
  | CodeUnauthorized => "Unauthorized worker"
  | CodeNotSubscribed => "Not subscribed"
  end.

Definition submit_failure_label (e : PoolError) : string :=
  match e with
  | Rpc _ => "rpc_error"
  | SubmitBlockRejected _ => "rejected"
  | TemplateUnavailable => "template_unavailable"
  | Io _ => "io"
  | _ => "other"
  end.

Definition stratum_code (e : PoolError) : StratumErrCode :=
  match e with
  | StaleJob _ => CodeJobNotFound
  | DuplicateShare => CodeDuplicateShare
  | LowDifficulty => CodeLowDifficultyShare
  | NotAuthorized => CodeUnauthorized
  | NotSubscribed => CodeNotSubscribed
  | _ => CodeUnknown
  end.

(** [to_stratum_error]: the JSON array [[code, message, null]]. *)
Definition to_stratum_error (e : PoolError) : Value :=
  let c := stratum_code e in
  VArray [VU64 (err_code c); VString (err_message c); VNull].
