(* ===== verification/Interfaces.v ===== *)
(** * Interfaces: the third-party code the pool is built on

    SHA-256 (crate [sha2]), the [hex] codec, transaction serialisation and
    address parsing (crate [bitcoin]) are not part of the repository.  Each is
    a type class: the operations the pool calls, and the documented facts its
    correctness rests on.  The instances at the end are concrete functions that
    satisfy the laws, so that every theorem stated against an interface can be
    evaluated. *)
From S2P Require Import Prelude Text.

(** ** SHA-256 *)
Class Sha256 := {
  sha256 : bytes -> bytes;
  sha256_length m : length (sha256 m) = 32%nat
}.

(** ** Hexadecimal text *)
Class HexCodec := {
  hex_encode : bytes -> string;
  hex_decode : string -> option bytes;
  hex_decode_encode b : hex_decode (hex_encode b) = Some b;
  hex_encode_length b : String.length (hex_encode b) = (2 * length b)%nat
}.

(** [hex::decode_to_slice] into an array of [n] bytes: also fails when the
    text is not exactly [2 * n] characters long. *)
Definition hex_decode_to_slice `{HexCodec} (n : nat) (s : string) : option bytes :=
  b ← hex_decode s; if bool_decide (length b = n) then Some b else None.

Lemma hex_encode_inj `{HexCodec} a b : hex_encode a = hex_encode b -> a = b.
Proof.
  intros E. pose proof (hex_decode_encode a) as Ha. rewrite E, hex_decode_encode in Ha. by simplify_eq.
Qed.

Lemma hex_slice_encode `{HexCodec} n b :
  length b = n -> hex_decode_to_slice n (hex_encode b) = Some b.
Proof.
  intros Hl. unfold hex_decode_to_slice. rewrite hex_decode_encode. simpl.
  by rewrite bool_decide_true.
Qed.

Lemma hex_slice_Some `{HexCodec} n s b :
  hex_decode_to_slice n s = Some b -> hex_decode s = Some b /\ length b = n.
Proof.
  unfold hex_decode_to_slice. destruct (hex_decode s); simpl; [|done].
  case_bool_decide; [|done]. by intros [= ->].
Qed.

(** ** Transactions *)
Record OutPoint := mkOutPoint { op_txid : bytes; op_vout : Z }.
Record TxIn := mkTxIn {
  previous_output : OutPoint;
  script_sig : bytes;
  sequence : Z;
  witness : list bytes
}.
Record TxOut := mkTxOut { txout_value : Z; txout_script : bytes }.
Record Transaction := mkTx {
  tx_version : Z;
  tx_lock_time : Z;
  tx_input : list TxIn;
  tx_output : list TxOut
}.

(** Bitcoin's CompactSize integer. *)
Definition compact_size (n : Z) : bytes :=
  if n <? 0xfd then to_le_bytes 1 n
  else if n <=? 0xffff then xfd :: to_le_bytes 2 n
  else if n <=? 0xffffffff then xfe :: to_le_bytes 4 n
  else xff :: to_le_bytes 8 n.

Definition var_bytes (b : bytes) : bytes := compact_size (Z.of_nat (length b)) ++ b.

Definition txin_layout (i : TxIn) : bytes :=
  op_txid (previous_output i) ++ to_le_bytes 4 (op_vout (previous_output i))
  ++ var_bytes (script_sig i) ++ to_le_bytes 4 (sequence i).

Definition txout_layout (o : TxOut) : bytes :=
  to_le_bytes 8 (txout_value o) ++ var_bytes (txout_script o).

(** The witness-free transaction format of the Bitcoin protocol. *)
Definition legacy_layout (tx : Transaction) : bytes :=
  to_le_bytes 4 (tx_version tx)
  ++ compact_size (Z.of_nat (length (tx_input tx))) ++ concat (txin_layout <$> tx_input tx)
  ++ compact_size (Z.of_nat (length (tx_output tx))) ++ concat (txout_layout <$> tx_output tx)
  ++ to_le_bytes 4 (tx_lock_time tx).

Definition witness_free (tx : Transaction) : Prop := Forall (fun i => witness i = []) (tx_input tx).

(** [consensus::encode::{serialize, deserialize}] at [Transaction]. *)
Class TxCodec := {
  tx_serialize : Transaction -> bytes;
  tx_deserialize : bytes -> option Transaction;
  tx_serialize_legacy tx :
    tx_input tx <> [] -> witness_free tx -> tx_serialize tx = legacy_layout tx
}.

(** ** Addresses *)
Inductive Network : Type := Bitcoin | Testnet | Testnet4 | Signet | Regtest.

(** [Address<NetworkUnchecked>] parsed from text, the network check, and the
    canonical text and script of a checked address. *)
Class AddressCodec := {
  unchecked_address : Type;
  checked_address : Type;
  address_parse : string -> option unchecked_address;
  require_network : unchecked_address -> Network -> option checked_address;
  address_to_string : checked_address -> string;
  address_script : checked_address -> bytes;
  (** [Display] and [FromStr] are inverse: the canonical text parses back to
      the same address on the network it was checked for. *)
  address_roundtrip u n c :
    require_network u n = Some c ->
    exists u', address_parse (address_to_string c) = Some u' /\ require_network u' n = Some c;
  (** An address is written without a dot, and is never empty. *)
  address_no_dot c : split_once c_dot (address_to_string c) = None;
  address_nonempty c : address_to_string c <> EmptyString
}.

(** ** Instances *)

(** Lower-case hexadecimal. *)
Fixpoint hex_text (b : bytes) : string :=
  match b with
  | [] => EmptyString
  | x :: b' =>
      String (hex_digit (byte_val x / 16)) (String (hex_digit (byte_val x mod 16)) (hex_text b'))
  end.

Fixpoint hex_parse (s : string) : option bytes :=
  match s with
  | EmptyString => Some []
  | String _ EmptyString => None
  | String c (String d s') =>
      hi ← hex_digit_val c; lo ← hex_digit_val d; b ← hex_parse s';
      Some (byte_of (hi * 16 + lo) :: b)
  end.

Lemma hex_digit_roundtrip_all :
  forallb (fun n => bool_decide (hex_digit_val (hex_digit (Z.of_nat n)) = Some (Z.of_nat n)))
    (seq 0 16) = true.
Proof. vm_compute. reflexivity. Qed.

Lemma hex_digit_roundtrip z : 0 <= z < 16 -> hex_digit_val (hex_digit z) = Some z.
Proof.
  intros Hz. pose proof hex_digit_roundtrip_all as H. rewrite forallb_forall in H.
  specialize (H (Z.to_nat z) ltac:(apply in_seq; lia)).
  apply bool_decide_eq_true in H. by rewrite Z2Nat.id in H by lia.
Qed.

Lemma hex_parse_text b : hex_parse (hex_text b) = Some b.
Proof.
  induction b as [|x b IH]; [done|]. cbn [hex_text hex_parse].
  pose proof (byte_val_range x).
  rewrite !hex_digit_roundtrip
    by first [apply Z.mod_pos_bound; lia
             | split; [apply Z.div_pos | apply Z.div_lt_upper_bound]; lia].
  simpl. rewrite IH. simpl. do 2 f_equal.
  rewrite Z.mul_comm, <- Z.div_mod by lia. apply byte_of_val.
Qed.

Lemma hex_text_length b : String.length (hex_text b) = (2 * length b)%nat.
Proof. induction b as [|x b IH]; [done|]. simpl. rewrite IH. lia. Qed.

#[export] Instance hex_codec : HexCodec := {|
  hex_encode := hex_text;
  hex_decode := hex_parse;
  hex_decode_encode := hex_parse_text;
  hex_encode_length := hex_text_length
|}.

(** A 32-byte digest that depends on the whole message, for evaluation only:
    it satisfies the interface but is not collision resistant. *)
Definition toy_digest (m : bytes) : bytes :=
  to_le_bytes 32 (fold_left (fun acc b => (acc * 257 + byte_val b + 1) mod 2 ^ 256) m 7).

Lemma toy_digest_length m : length (toy_digest m) = 32%nat.
Proof. apply length_to_le_bytes. Qed.

Definition toy_sha256 : Sha256 := {| sha256 := toy_digest; sha256_length := toy_digest_length |}.

(** Serialise in the legacy format and refuse to deserialise. *)
Definition legacy_codec : TxCodec := {|
  tx_serialize := legacy_layout;
  tx_deserialize := fun _ => None;
  tx_serialize_legacy := fun tx _ _ => eq_refl
|}.
