(* ===== verification/Target.v ===== *)
(** * Target: 256-bit targets, share difficulty and compact [nBits]

    Models the numeric half of [src/bitcoin/template.rs]
    ([difficulty_to_target], [div_be_u256_by_u64], [hash_to_difficulty],
    [compact_to_target], [bits_to_target], [block_subsidy]) and
    [meets_target] of [src/mining/validator.rs].  A [[u8; 32]] is a list of
    bytes of length 32; a hash is in internal (little-endian) order and a
    target in big-endian order, as in the code. *)
From S2P Require Import Prelude Text.

Module Target.

(** ** Definitions *)

(** [DIFF1_TARGET]: [0x00000000FFFF0000...] as 32 big-endian bytes. *)
Definition DIFF1_TARGET : bytes := [x00; x00; x00; x00; xff; xff] ++ repeat x00 26.

(** The long-division loop over the bytes of [value], most significant first:
    [accum = (rem << 8) | byte], [out[i] = (accum / divisor) as u8],
    [rem = accum % divisor], on [u128].  (A zero divisor panics in Rust; the
    only caller passes [difficulty >= 2].) *)
Fixpoint div_be_loop (divisor rem : Z) (value : bytes) : bytes :=
  match value with
  | [] => []
  | b :: rest =>
      let accum := Z.lor (Z.shiftl rem 8 mod 2 ^ 128) (byte_val b) in
      byte_of (accum / divisor) :: div_be_loop divisor (accum mod divisor) rest
  end.

Definition div_be_u256_by_u64 (value : bytes) (divisor : Z) : bytes :=
  div_be_loop divisor 0 value.

Definition difficulty_to_target (difficulty : Z) : bytes :=
  if difficulty <=? 1 then DIFF1_TARGET
  else div_be_u256_by_u64 DIFF1_TARGET difficulty.

(** [hash_be.iter().position(|&b| b != 0)]. *)
Fixpoint position_nonzero (l : bytes) : option nat :=
  match l with
  | [] => None
  | b :: l' => if bool_decide (b = x00) then S <$> position_nonzero l' else Some O
  end.

(** [for j in 0..take { sig = (sig << 8) | hash_be[nz + j] }] on [u64]. *)
Fixpoint sig_loop (sig : Z) (l : bytes) : Z :=
  match l with
  | [] => sig
  | b :: l' => sig_loop (Z.lor (Z.shiftl sig 8 mod 2 ^ 64) (byte_val b)) l'
  end.

Definition DIFF1_NZ : Z := 4.
Definition DIFF1_SIG : Z := 0xFFFF000000000000.

Definition hash_to_difficulty (hash_le : bytes) : Z :=
  let hash_be := reverse hash_le in
  let nz := default 31%nat (position_nonzero hash_be) in
  let take_n := Nat.min 8 (32 - nz) in
  let sig0 := sig_loop 0 (take take_n (drop nz hash_be)) in
  let hash_sig := Z.shiftl sig0 (Z.of_nat ((8 - take_n) * 8)) mod 2 ^ 64 in
  if hash_sig =? 0 then u64_max
  else
    let ratio := Z.shiftl DIFF1_SIG 64 / hash_sig in
    let exp := (Z.of_nat nz - DIFF1_NZ) * 8 in
    if 64 <? exp then u64_max
    else
      let r := Z.shiftr ratio (64 - exp) in
      if r <=? u64_max then r else u64_max.

(** Errors of the two target builders carry only a message. *)
Definition compact_to_target (bits : Z) : option bytes :=
  let exponent := Z.land (Z.shiftr bits 24) 0xff in
  let mantissa := Z.land bits 0x007fffff in
  if mantissa =? 0 then Some (repeat x00 32)
  else if exponent <=? 3 then
    let value := Z.shiftr mantissa (8 * (3 - exponent)) in
    Some (repeat x00 28 ++ to_be_bytes 4 value)
  else
    let shift := exponent - 3 in
    if 29 <? shift then None
    else
      let mantissa_bytes :=
        [byte_of (Z.land (Z.shiftr mantissa 16) 0xff);
         byte_of (Z.land (Z.shiftr mantissa 8) 0xff);
         byte_of (Z.land mantissa 0xff)] in
      let offset := Z.to_nat (32 - 3 - shift) in
      Some (repeat x00 offset ++ mantissa_bytes ++ repeat x00 (29 - offset)).

(** Outer [None]: not a hexadecimal [u32]; inner failures as above. *)
Definition bits_to_target (bits_hex : string) : option bytes :=
  bits ← u32_from_hex bits_hex; compact_to_target bits.

(** [meets_target]: reverse the hash to big-endian, compare lexicographically. *)
Definition meets_target (hash target : bytes) : bool := lex_leb (reverse hash) target.

Definition HALVING_INTERVAL : Z := 210000.
Definition INITIAL_SUBSIDY : Z := 50 * 100000000.

Definition block_subsidy (height : Z) : Z :=
  let halvings := height / HALVING_INTERVAL in
  if 64 <=? halvings then 0 else Z.shiftr INITIAL_SUBSIDY halvings.

(** ** The numeric reading of a 32-byte array *)

Definition DIFF1 : Z := 0xffff * 2 ^ 208.

Lemma DIFF1_TARGET_val : be_val DIFF1_TARGET = DIFF1.
Proof. reflexivity. Qed.

Lemma lor_shift8 a b : 0 <= a -> 0 <= b < 256 -> Z.lor (Z.shiftl a 8) b = a * 256 + b.
Proof.
  intros Ha Hb. rewrite Z.shiftl_mul_pow2 by lia. change (2 ^ 8) with 256.
  rewrite <- Z.add_lor_land, (Z.land_comm (a * 256)).
  replace (Z.land b (a * 256)) with 0; [lia|].
  symmetry. apply Z.bits_inj'. intros n Hn.
  rewrite Z.land_spec, Z.bits_0.
  destruct (Z.lt_ge_cases n 8) as [H8|H8].
  - change 256 with (2 ^ 8). rewrite Z.mul_pow2_bits_low by lia. apply andb_false_r.
  - rewrite (Z.bits_above_log2 b n); [done | lia |].
    destruct (Z.eq_dec b 0) as [->|]; [simpl; lia|].
    apply Z.log2_lt_pow2; [lia|].
    apply Z.lt_le_trans with (2 ^ 8); [simpl; lia | apply Z.pow_le_mono_r; lia].
Qed.

Lemma lor_shift8_mod w a b :
  8 < w -> 0 <= a < 2 ^ (w - 8) -> 0 <= b < 256 ->
  Z.lor (Z.shiftl a 8 mod 2 ^ w) b = a * 256 + b.
Proof.
  intros Hw Ha Hb.
  rewrite Z.mod_small; [apply lor_shift8; lia|].
  rewrite Z.shiftl_mul_pow2 by lia. split; [lia|].
  replace (2 ^ w) with (2 ^ (w - 8) * 2 ^ 8); [nia|].
  rewrite <- Z.pow_add_r by lia. f_equal; lia.
Qed.

Lemma length_div_be_loop d r v : length (div_be_loop d r v) = length v.
Proof. revert r; induction v; intros r; simpl; [done | by rewrite IHv]. Qed.

Lemma div_be_loop_val d r v :
  0 < d <= u64_max -> 0 <= r < d ->
  be_val (div_be_loop d r v) = (r * 256 ^ Z.of_nat (length v) + be_val v) / d.
Proof.
  intros Hd. revert r; induction v as [|b v IH]; intros r Hr.
  - change (be_val (div_be_loop d r [])) with 0. cbn. rewrite Z.div_small; lia.
  - cbn [div_be_loop].
    assert (2 ^ (128 - 8) > u64_max) by (unfold u64_max; lia).
    pose proof (byte_val_range b) as Hb.
    rewrite (lor_shift8_mod 128) by lia.
    set (a := r * 256 + byte_val b).
    pose proof (Z.mod_pos_bound a d ltac:(lia)) as Hm.
    pose proof (Z.div_mod a d ltac:(lia)) as Hdm.
    assert (0 <= a / d < 256) as Hq
      by (split; [apply Z.div_pos | apply Z.div_lt_upper_bound]; unfold a; lia).
    rewrite !be_val_cons, byte_val_of, Z.mod_small, length_div_be_loop by done.
    rewrite IH by done. cbn [length].
    rewrite Nat2Z.inj_succ, Z.pow_succ_r by lia.
    set (P := 256 ^ Z.of_nat (length v)).
    rewrite Z.add_comm, <- Z.div_add by lia. f_equal.
    transitivity ((d * (a / d) + a mod d) * P + be_val v); [ring|].
    rewrite <- Hdm. unfold a; ring.
Qed.

(** The byte-wise long division is exact floor division of the 256-bit value. *)
Lemma div_be_u256_by_u64_val value d :
  0 < d <= u64_max ->
  be_val (div_be_u256_by_u64 value d) = be_val value / d.
Proof.
  intros Hd. unfold div_be_u256_by_u64.
  rewrite div_be_loop_val by lia. by rewrite Z.mul_0_l.
Qed.

Lemma length_difficulty_to_target d : length (difficulty_to_target d) = 32%nat.
Proof.
  unfold difficulty_to_target, div_be_u256_by_u64. case_match; [done|].
  by rewrite length_div_be_loop.
Qed.
#[export] Hint Rewrite length_difficulty_to_target : pool_simp.

Lemma difficulty_to_target_val d :
  0 <= d <= u64_max -> be_val (difficulty_to_target d) = DIFF1 / Z.max 1 d.
Proof.
  intros Hd. unfold difficulty_to_target.
  destruct (Z.leb_spec d 1).
  - rewrite Z.max_l by lia. rewrite Z.div_1_r. apply DIFF1_TARGET_val.
  - rewrite Z.max_r, div_be_u256_by_u64_val, DIFF1_TARGET_val by lia. done.
Qed.

Lemma meets_target_val hash target :
  length hash = length target ->
  meets_target hash target = (le_val hash <=? be_val target).
Proof.
  intros Hl. unfold meets_target.
  rewrite lex_leb_be_val by (by rewrite length_reverse). by rewrite be_val_reverse.
Qed.

(** ** Difficulty of a hash *)

Lemma position_nonzero_Some l n :
  position_nonzero l = Some n ->
  exists b rest, l = repeat x00 n ++ b :: rest /\ 1 <= byte_val b.
Proof.
  revert n; induction l as [|c l IH]; intros n H; [done|]. simpl in H.
  case_bool_decide as Hc.
  - destruct (position_nonzero l) as [m|]; simplify_eq/=.
    destruct (IH m eq_refl) as (b & rest & -> & Hb). exists b, rest. done.
  - simplify_eq. exists c, l. split; [done|].
    pose proof (byte_val_range c).
    destruct (Z.eq_dec (byte_val c) 0) as [E|]; [|lia].
    destruct Hc. by apply byte_val_inj.
Qed.

Lemma position_nonzero_None l : position_nonzero l = None -> be_val l = 0.
Proof.
  induction l as [|c l IH]; intros H; [done|]. simpl in H. case_bool_decide; [|done].
  subst. destruct (position_nonzero l); [done|].
  rewrite be_val_cons, IH by done. change (byte_val x00) with 0. lia.
Qed.

Lemma sig_loop_val sig l :
  0 <= sig -> (sig + 1) * 256 ^ Z.of_nat (length l) <= 2 ^ 64 ->
  sig_loop sig l = sig * 256 ^ Z.of_nat (length l) + be_val l.
Proof.
  revert sig; induction l as [|b l IH]; intros sig Hs Hb.
  - cbn. lia.
  - cbn [sig_loop length] in *. rewrite be_val_cons.
    rewrite Nat2Z.inj_succ, Z.pow_succ_r in * by lia.
    pose proof (byte_val_range b).
    assert (0 < 256 ^ Z.of_nat (length l)) by (apply Z.pow_pos_nonneg; lia).
    rewrite (lor_shift8_mod 64); [|lia| |lia].
    + rewrite IH; [ring | lia | nia].
    + split; [lia|]. change (64 - 8) with 56. nia.
Qed.

(** Where the most significant non-zero byte of the hash sits, and what the
    code computes from the eight bytes that start there. *)
Variant hash_shape (H r : Z) : Prop :=
| shape_saturates : H < 256 ^ 19 -> r = u64_max -> hash_shape H r
| shape_quotient (S T k : Z) :
    0 <= k -> H = S * 256 ^ k + T -> 0 <= T < 256 ^ k ->
    2 ^ 56 <= S < 2 ^ 64 -> r = Z.min u64_max (DIFF1 / (S * 256 ^ k)) ->
    hash_shape H r.

Lemma ratio_shift S nz :
  0 <= nz <= 12 -> 0 < S ->
  Z.shiftr (Z.shiftl DIFF1_SIG 64 / S) (64 - (nz - DIFF1_NZ) * 8)
  = DIFF1 / (S * 256 ^ (24 - nz)).
Proof.
  intros Hnz HS. unfold DIFF1_NZ.
  replace (64 - (nz - 4) * 8) with (8 * (12 - nz)) by lia.
  rewrite Z.shiftl_mul_pow2, Z.shiftr_div_pow2, Z.div_div by (try apply Z.pow_pos_nonneg; lia).
  replace (24 - nz) with ((12 - nz) + 12) by lia.
  change 256 with (2 ^ 8). rewrite <- Z.pow_mul_r by lia.
  replace (8 * (12 - nz + 12)) with (8 * (12 - nz) + 96) by lia.
  rewrite Z.pow_add_r, Z.mul_assoc by lia.
  replace DIFF1 with (DIFF1_SIG * 2 ^ 64 * 2 ^ 96) by reflexivity.
  rewrite Z.div_mul_cancel_r; [done | | done].
  assert (0 < 2 ^ (8 * (12 - nz))) by (apply Z.pow_pos_nonneg; lia). nia.
Qed.

(** A leading non-zero byte followed by [n] more: at least [256^n]. *)
Lemma be_val_lead b l : 1 <= byte_val b -> 256 ^ Z.of_nat (length l) <= be_val (b :: l).
Proof.
  intros Hb. rewrite be_val_cons. pose proof (be_val_bounds l).
  assert (0 < 256 ^ Z.of_nat (length l)) by (apply Z.pow_pos_nonneg; lia). nia.
Qed.

Lemma be_val_zeros_app n l : be_val (repeat x00 n ++ l) = be_val l.
Proof. rewrite be_val_app, be_val_repeat_zero. lia. Qed.

(** The eight significant bytes: value, remainder and magnitude. *)
Lemma significant_bytes nz b rest :
  (nz + S (length rest) = 32)%nat -> (nz <= 12)%nat -> 1 <= byte_val b ->
  let t := take 8 (b :: rest) in
  be_val (b :: rest) = be_val t * 256 ^ (24 - Z.of_nat nz) + be_val (drop 8 (b :: rest))
  /\ 0 <= be_val (drop 8 (b :: rest)) < 256 ^ (24 - Z.of_nat nz)
  /\ 2 ^ 56 <= be_val t < 2 ^ 64 /\ length t = 8%nat.
Proof.
  intros Hlen Hnz Hb t.
  assert (length t = 8%nat) as Ht by (unfold t; rewrite length_take; cbn [length]; lia).
  assert (Z.of_nat (length (drop 8 (b :: rest))) = 24 - Z.of_nat nz) as Hd
    by (rewrite length_drop; cbn [length]; lia).
  repeat split.
  - rewrite <- (take_drop 8 (b :: rest)) at 1. by rewrite be_val_app, Hd.
  - apply be_val_bounds.
  - rewrite <- Hd. apply be_val_bounds.
  - unfold t. cbn [take]. etrans; [|by apply be_val_lead].
    rewrite length_take. rewrite Nat.min_l by lia. done.
  - pose proof (be_val_bounds t) as Hv. rewrite Ht in Hv. apply Hv.
  - done.
Qed.

Lemma hash_to_difficulty_shape hash :
  length hash = 32%nat -> hash_shape (le_val hash) (hash_to_difficulty hash).
Proof.
  intros Hl. unfold hash_to_difficulty. rewrite <- be_val_reverse.
  assert (length (reverse hash) = 32%nat) as Hlb by (by rewrite length_reverse).
  set (hb := reverse hash) in *. clearbody hb. clear Hl.
  destruct (position_nonzero hb) as [nz|] eqn:E; cbn [default id from_option].
  - apply position_nonzero_Some in E as (b & rest & -> & Hb).
    rewrite length_app, repeat_length in Hlb. cbn [length] in Hlb.
    rewrite drop_app_length' by (by rewrite repeat_length).
    rewrite be_val_zeros_app.
    destruct (decide (nz <= 12)%nat) as [Hnz|Hnz].
    + rewrite Nat.min_l by lia.
      destruct (significant_bytes nz b rest Hlb Hnz Hb) as (HH & HT & HS & Ht).
      rewrite sig_loop_val by (rewrite ?Ht; simpl; lia).
      rewrite Z.mul_0_l, Z.add_0_l. cbn [Nat.sub Nat.mul].
      rewrite Z.shiftl_0_r, Z.mod_small by lia.
      assert (2 ^ 56 = 72057594037927936) by reflexivity.
      rewrite (proj2 (Z.eqb_neq _ 0)) by lia.
      rewrite (proj2 (Z.ltb_ge _ _)) by (unfold DIFF1_NZ; lia).
      rewrite ratio_shift by (cbv zeta in HS; lia).
      eapply shape_quotient; [|exact HH|exact HT|exact HS|]; [lia|].
      destruct (Z.leb_spec (DIFF1 / (be_val (take 8 (b :: rest)) * 256 ^ (24 - Z.of_nat nz))) u64_max);
        lia.
    + apply shape_saturates.
      * pose proof (be_val_bounds (b :: rest)) as [_ Hu]. eapply Z.lt_le_trans; [exact Hu|].
        cbn [length]. apply Z.pow_le_mono_r; lia.
      * rewrite (proj2 (Z.ltb_lt 64 _)) by (unfold DIFF1_NZ; lia). by case_match.
  - apply position_nonzero_None in E. apply shape_saturates; [rewrite E; done|].
    rewrite (proj2 (Z.ltb_lt 64 _)) by done. by case_match.
Qed.

(** ** Compact targets *)

Lemma land_low z n : 0 <= n -> Z.land z (Z.ones n) = z mod 2 ^ n.
Proof. intros. by apply Z.land_ones. Qed.

Lemma be_val_app_zeros l n : be_val (l ++ repeat x00 n) = be_val l * 256 ^ Z.of_nat n.
Proof. rewrite be_val_app, be_val_repeat_zero, repeat_length. lia. Qed.

Lemma three_bytes_val m :
  0 <= m < 2 ^ 23 ->
  be_val [byte_of (Z.land (Z.shiftr m 16) 0xff);
          byte_of (Z.land (Z.shiftr m 8) 0xff);
          byte_of (Z.land m 0xff)] = m.
Proof.
  intros Hm. rewrite !be_val_cons, !byte_val_of.
  change 0xff with (Z.ones 8). rewrite !land_low, !Z.shiftr_div_pow2 by lia.
  change (2 ^ 8) with 256. rewrite !Z.mod_mod by lia. cbn [length].
  change (be_val []) with 0.
  change (256 ^ Z.of_nat 2) with 65536. change (256 ^ Z.of_nat 1) with 256.
  change (256 ^ Z.of_nat 0) with 1. change (2 ^ 16) with 65536.
  change (2 ^ 23) with 8388608 in Hm.
  pose proof (Z.div_mod m 256 ltac:(lia)).
  pose proof (Z.div_mod (m / 256) 256 ltac:(lia)).
  rewrite Z.div_div in * by lia. change (256 * 256) with 65536 in *.
  assert (0 <= m / 65536 < 256) by (split; [apply Z.div_pos | apply Z.div_lt_upper_bound]; lia).
  rewrite (Z.mod_small (m / 65536)) by lia. lia.
Qed.

(** The compact exponent and mantissa, and the value they denote. *)
Definition compact_exponent (bits : Z) : Z := Z.land (Z.shiftr bits 24) 0xff.
Definition compact_mantissa (bits : Z) : Z := Z.land bits 0x007fffff.

Lemma compact_mantissa_range bits : 0 <= bits -> 0 <= compact_mantissa bits < 2 ^ 23.
Proof.
  intros. unfold compact_mantissa. change 0x007fffff with (Z.ones 23).
  rewrite land_low by lia. apply Z.mod_pos_bound. done.
Qed.

Lemma compact_exponent_range bits : 0 <= bits -> 0 <= compact_exponent bits < 256.
Proof.
  intros. unfold compact_exponent. change 0xff with (Z.ones 8).
  rewrite land_low by lia. apply Z.mod_pos_bound. done.
Qed.

Lemma div_pow256 m e : 0 <= e <= 3 -> m / 2 ^ (8 * (3 - e)) = m * 256 ^ e / 256 ^ 3.
Proof.
  intros He. change 256 with (2 ^ 8). rewrite <- !Z.pow_mul_r by lia.
  replace (8 * 3) with (8 * (3 - e) + 8 * e) by lia.
  rewrite Z.pow_add_r, Z.div_mul_cancel_r by (try apply Z.pow_nonzero; lia). done.
Qed.

Lemma mul_pow256 m e : 3 <= e -> m * 256 ^ (e - 3) = m * 256 ^ e / 256 ^ 3.
Proof.
  intros He. replace e with ((e - 3) + 3) at 2 by lia.
  rewrite Z.pow_add_r, Z.mul_assoc, Z.div_mul by lia. done.
Qed.

Lemma compact_to_target_val bits :
  0 <= bits ->
  match compact_to_target bits with
  | Some t =>
      length t = 32%nat
      /\ be_val t = compact_mantissa bits * 256 ^ compact_exponent bits / 256 ^ 3
  | None => compact_mantissa bits <> 0 /\ 32 < compact_exponent bits
  end.
Proof.
  intros Hb. unfold compact_to_target.
  fold (compact_exponent bits) (compact_mantissa bits).
  pose proof (compact_mantissa_range bits Hb) as Hm.
  pose proof (compact_exponent_range bits Hb) as He.
  set (m := compact_mantissa bits) in *. set (e := compact_exponent bits) in *.
  clearbody m e.
  destruct (Z.eqb_spec m 0) as [->|Hm0]; [by rewrite Z.mul_0_l|].
  destruct (Z.leb_spec e 3).
  - rewrite be_val_zeros_app, be_val_to_be_bytes, Z.shiftr_div_pow2, div_pow256 by lia.
    split; [done|]. apply Z.mod_small. rewrite <- div_pow256 by lia.
    split; [apply Z.div_pos; [lia | apply Z.pow_pos_nonneg; lia]|].
    eapply Z.le_lt_trans; [apply Z.div_le_upper_bound with (q := m)|];
      [apply Z.pow_pos_nonneg; lia | | simpl in *; lia].
    assert (0 < 2 ^ (8 * (3 - e))) by (apply Z.pow_pos_nonneg; lia). nia.
  - destruct (Z.ltb_spec 29 (e - 3)); [lia|].
    rewrite !length_app, !repeat_length. cbn [length].
    split; [lia|].
    rewrite be_val_zeros_app, be_val_app_zeros, three_bytes_val by lia.
    rewrite <- mul_pow256 by lia. do 2 f_equal. lia.
Qed.

(** A hash meets the target of a difficulty iff hash times difficulty stays
    within the difficulty-1 target. *)
Lemma meets_difficulty_iff d hash :
  0 <= d <= u64_max -> length hash = 32%nat ->
  meets_target hash (difficulty_to_target d) = true <-> le_val hash * Z.max 1 d <= DIFF1.
Proof.
  intros Hd Hl. rewrite meets_target_val by (by rewrite length_difficulty_to_target).
  rewrite difficulty_to_target_val, Z.leb_le by lia.
  split; intros H.
  - pose proof (Z.mul_div_le DIFF1 (Z.max 1 d) ltac:(lia)). nia.
  - apply Z.div_le_lower_bound; lia.
Qed.

Lemma meets_target_reads_difficulty d hash :
  1 <= d <= u64_max -> length hash = 32%nat ->
  meets_target hash (difficulty_to_target d) = true -> d <= hash_to_difficulty hash.
Proof.
  intros Hd Hl Hm.
  rewrite meets_target_val in Hm by (by rewrite length_difficulty_to_target).
  rewrite difficulty_to_target_val, Z.max_r in Hm by lia. zbool.
  pose proof (Z.mul_div_le DIFF1 d ltac:(lia)).
  destruct (hash_to_difficulty_shape hash Hl) as [_ -> | S T k Hk HH HT HS ->]; [lia|].
  apply Z.min_glb; [lia|].
  assert (0 < 256 ^ k) by (apply Z.pow_pos_nonneg; lia).
  assert (0 < S) by (change (2 ^ 56) with 72057594037927936 in HS; lia).
  apply Z.div_le_lower_bound; nia.
Qed.

(** ** Properties *)

(** C5. The share target test is exact: a 32-byte hash meets the target built
    for difficulty [d] (0 is served as 1) precisely when
    [hash * d <= 0xFFFF * 2^208], on every [u64] difficulty. *)
Theorem difficulty_target_exact (d : Z) (hash : bytes) :
  0 <= d <= u64_max -> length hash = 32%nat ->
  meets_target hash (difficulty_to_target d) = true <-> le_val hash * Z.max 1 d <= DIFF1.
Proof. apply meets_difficulty_iff. Qed.

Lemma difficulty_target_exact_witness :
  meets_target (repeat x00 32) (difficulty_to_target 1024) = true
  <-> le_val (repeat x00 32) * Z.max 1 1024 <= DIFF1.
Proof.
  apply (difficulty_target_exact 1024 (repeat x00 32)); [unfold u64_max; lia | reflexivity].
Defined.

(** C11. The difficulty read back from an accepted share is never below the
    difficulty it was accepted at: if the hash meets the target of [d] then
    [hash_to_difficulty hash >= d].  (A comment of [mining/credit.rs] says it
    can read a hair under.) *)
Theorem accepted_share_reads_its_difficulty (d : Z) (hash : bytes) :
  1 <= d <= u64_max -> length hash = 32%nat ->
  meets_target hash (difficulty_to_target d) = true -> d <= hash_to_difficulty hash.
Proof. apply meets_target_reads_difficulty. Qed.

Lemma accepted_share_reads_its_difficulty_witness :
  1024 <= hash_to_difficulty (repeat xff 20 ++ repeat x00 12).
Proof.
  apply (accepted_share_reads_its_difficulty 1024 (repeat xff 20 ++ repeat x00 12));
    [unfold u64_max; lia | reflexivity | vm_compute; reflexivity].
Defined.

(** Accuracy of [hash_to_difficulty] on a non-zero hash of value [H]: it is
    at least the exact quotient [floor(DIFF1 / H)] (capped at [u64::MAX]) and
    exceeds the real quotient by a relative error of at most [2^-56]. *)
Lemma hash_to_difficulty_accuracy (hash : bytes) :
  length hash = 32%nat -> 0 < le_val hash ->
  Z.min u64_max (DIFF1 / le_val hash) <= hash_to_difficulty hash <= u64_max
  /\ hash_to_difficulty hash * le_val hash * 2 ^ 56 <= DIFF1 * (2 ^ 56 + 1).
Proof.
  intros Hl Hpos.
  destruct (hash_to_difficulty_shape hash Hl) as [Hs -> | S T k Hk HH HT HS ->].
  - assert (u64_max * 256 ^ 19 <= DIFF1) as HD by (vm_compute; discriminate).
    split; [lia|]. change (2 ^ 56) with 72057594037927936. unfold u64_max in *. nia.
  - set (P := 256 ^ k) in *.
    assert (0 < P) by (apply Z.pow_pos_nonneg; lia).
    change (2 ^ 56) with 72057594037927936 in *.
    assert (0 < S * P) as HSP by nia.
    pose proof (Z.mul_div_le DIFF1 (S * P) HSP) as Hq.
    assert (0 <= DIFF1 / (S * P)) by (apply Z.div_pos; [done | lia]).
    assert (DIFF1 / le_val hash <= DIFF1 / (S * P))
      by (apply Z.div_le_compat_l; [done | lia]).
    split; [lia|].
    set (q := Z.min u64_max (DIFF1 / (S * P))).
    assert (0 <= q) by (unfold q, u64_max; lia).
    assert (q * (S * P) <= DIFF1) by (unfold q; nia).
    assert (72057594037927936 * T <= S * P) by nia.
    rewrite HH. nia.
Qed.

Lemma hash_to_difficulty_accuracy_witness :
  Z.min u64_max (DIFF1 / le_val (x01 :: repeat x00 31))
    <= hash_to_difficulty (x01 :: repeat x00 31) <= u64_max
  /\ hash_to_difficulty (x01 :: repeat x00 31) * le_val (x01 :: repeat x00 31) * 2 ^ 56
       <= DIFF1 * (2 ^ 56 + 1).
Proof.
  apply (hash_to_difficulty_accuracy (x01 :: repeat x00 31)); [reflexivity | vm_compute; reflexivity].
Defined.

(** C12. Compact [nBits] decode to the consensus target
    [floor(mantissa * 256^(exponent-3))] in 32 big-endian bytes; the only
    error is a non-zero mantissa whose exponent exceeds 32. *)
Theorem compact_target_exact (bits : Z) :
  is_u32 bits ->
  match compact_to_target bits with
  | Some t =>
      length t = 32%nat
      /\ be_val t = compact_mantissa bits * 256 ^ compact_exponent bits / 256 ^ 3
  | None => compact_mantissa bits <> 0 /\ 32 < compact_exponent bits
  end.
Proof. intros [H _]. by apply compact_to_target_val. Qed.

Lemma compact_target_exact_witness :
  match compact_to_target 0x1d00ffff with
  | Some t =>
      length t = 32%nat
      /\ be_val t = compact_mantissa 0x1d00ffff * 256 ^ compact_exponent 0x1d00ffff / 256 ^ 3
  | None => compact_mantissa 0x1d00ffff <> 0 /\ 32 < compact_exponent 0x1d00ffff
  end.
Proof. apply (compact_target_exact 0x1d00ffff). unfold is_u32, u32_max. lia. Defined.

End Target.
