(* ===== verification/Rpc.v ===== *)
(** * Rpc: what the pool reads from the node ([src/bitcoin/rpc.rs])

    The data decoded from [getblocktemplate], the classification of
    [submitblock] and [getblockheader] answers, and the cookie-rotation retry
    of [call_with_refresh].  The JSON-RPC client itself is a parameter: an
    abstract [Client] type, a [build_client] function, and calls as functions
    of a client and of the outside world. *)
From S2P Require Import Prelude Text F64 Json Errors Interfaces.

Module Rpc.

(** ** Data *)
Record GbtTransaction := mkGbtTransaction {
  data : bytes;
  txid : string;
  hash : string;
  fee : Z;
  weight : Z
}.

Record GbtResult := mkGbtResult {
  version : Z;
  prev_hash : string;
  bits : string;
  cur_time : Z;
  height : Z;
  coinbase_value : Z;
  transactions : list GbtTransaction;
  longpoll_id : option string;
  default_witness_commitment : option string;
  rules : list string;
  vbrequired : Z
}.

Inductive BlockSubmitOutcome : Type := Accepted | Duplicate | Inconclusive.

Definition outcome_label (o : BlockSubmitOutcome) : string :=
  match o with
  | Accepted => "accepted" | Duplicate => "duplicate" | Inconclusive => "inconclusive"
  end.

Definition is_win (o : BlockSubmitOutcome) : bool :=
  match o with Inconclusive => false | _ => true end.

Inductive BlockChainPosition : Type :=
| OnChain (confirmations tip_height : Z)
| SideBranch (tip_height : Z)
| Unknown.

#[export] Instance BlockChainPosition_eq_dec : EqDecision BlockChainPosition.
Proof. solve_decision. Defined.

(** ** Decoding a template *)
Definition missing_field (key : string) : PoolError :=
  Other ("missing or invalid getblocktemplate field: " +:+ key).

Definition value_as_string (v : Value) (key : string) : result PoolError string :=
  ok_or (missing_field key) (x ← value_get v key; as_str x).

Definition value_as_u64 (v : Value) (key : string) : result PoolError Z :=
  ok_or (missing_field key) (x ← value_get v key; as_u64 x).

Definition value_as_u32 (v : Value) (key : string) : result PoolError Z :=
  n ← value_as_u64 v key;
  if n <=? u32_max then Ok n
  else Err (Other ("getblocktemplate field out of range for u32: " +:+ key)).

Definition parse_gbt_transaction `{HexCodec} (tx : Value) : result PoolError GbtTransaction :=
  data_hex ← ok_or (Other "GBT transaction missing data field") (x ← value_get tx "data"; as_str x);
  d ← ok_or (Other "GBT transaction data hex decode") (hex_decode data_hex);
  id ← value_as_string tx "txid";
  let h := match (x ← value_get tx "hash"; as_str x) with
           | Some s => s
           | None => default EmptyString (x ← value_get tx "wtxid"; as_str x)
           end in
  f ← value_as_u64 tx "fee";
  w ← value_as_u64 tx "weight";
  Ok (mkGbtTransaction d id h f w).

(** The body of [get_block_template_blocking] after the RPC round trip. *)
Definition gbt_of_value `{HexCodec} (r : Value) : result PoolError GbtResult :=
  txs ← match (x ← value_get r "transactions"; as_array x) with
        | Some l => collect_results parse_gbt_transaction l
        | None => Ok []
        end;
  v ← value_as_u32 r "version";
  ph ← value_as_string r "previousblockhash";
  b ← value_as_string r "bits";
  ct ← value_as_u32 r "curtime";
  h ← value_as_u64 r "height";
  cv ← value_as_u64 r "coinbasevalue";
  Ok (mkGbtResult v ph b ct h cv txs
        (x ← value_get r "longpollid"; as_str x)
        (x ← value_get r "default_witness_commitment"; as_str x)
        (match (x ← value_get r "rules"; as_array x) with
         | Some l => omap as_str l
         | None => []
         end)
        (wrap32 (default 0 (x ← value_get r "vbrequired"; as_u64 x)))).

(** ** Classifying answers *)
Definition classify_submit_response (r : Value) : result PoolError BlockSubmitOutcome :=
  if is_null r then Ok Accepted
  else match as_str r with
       | Some s =>
           if bool_decide (s = "duplicate") then Ok Duplicate
           else if bool_decide (s = "inconclusive") || bool_decide (s = "duplicate-inconclusive")
                then Ok Inconclusive
           else Err (SubmitBlockRejected s)
       | None => Err (Other "unexpected submitblock response")
       end.

(** [is_block_not_found]: Core's [RPC_INVALID_ADDRESS_OR_KEY]. *)
Definition is_block_not_found (e : RpcError) : bool :=
  match e with JsonRpcError code => code =? -5 | TransportError _ => false end.

(** The closure of [block_chain_position_blocking]: the header's
    [confirmations] (negative off the active chain), then the tip height. *)
Definition block_chain_position (header tip : result RpcError Z)
  : result PoolError BlockChainPosition :=
  match header with
  | Err e => if is_block_not_found e then Ok Unknown else Err (Rpc e)
  | Ok confirmations =>
      match tip with
      | Err e => Err (Rpc e)
      | Ok tip_height =>
          Ok (if confirmations <? 0 then SideBranch tip_height
              else OnChain confirmations tip_height)
      end
  end.

(** ** Recovering from cookie rotation *)
Section Refresh.
Context {Client W T : Type}.
Abbreviation cookie_t := (string * string)%type.
Variable build_client : cookie_t -> result string Client.

Record Inner := mkInner { client : Client; cookie : option cookie_t }.

(** [call_with_refresh(f)]: [read_cookie] is what the cookie file holds at
    the time of the retry decision, [None] when it is unreadable. *)
Definition call_with_refresh (f : Client -> W -> result PoolError T * W)
    (read_cookie : option cookie_t) (st : Inner) (w : W)
  : result PoolError T * Inner * W :=
  match f (client st) w with
  | (Ok v, w1) => (Ok v, st, w1)
  | (Err first_err, w1) =>
      match read_cookie with
      | None => (Err first_err, st, w1)
      | Some fresh =>
          if bool_decide (cookie st = Some fresh) then (Err first_err, st, w1)
          else match build_client fresh with
               | Err m => (Err (Other m), st, w1)
               | Ok c =>
                   let '(r, w2) := f c w1 in
                   (r, mkInner c (Some fresh), w2)
               end
      end
  end.
End Refresh.

(** ** Lemmas *)
Lemma value_as_u32_range v k n : value_as_u32 v k = Ok n -> n <= u32_max.
Proof.
  unfold value_as_u32. intros H. bind_inv H. case_match; simplify_eq. by zbool.
Qed.

Lemma classify_win r o :
  classify_submit_response r = Ok o ->
  is_win o = true <-> r = VNull \/ r = VString "duplicate".
Proof.
  unfold classify_submit_response. destruct r; simpl; intros H; simplify_eq/=; try naive_solver.
  repeat case_bool_decide; simplify_eq/=; naive_solver.
Qed.

(** ** Properties *)

(** C40. Only the answers [null] and ["duplicate"] to [submitblock] count as a
    won block; ["inconclusive"] and ["duplicate-inconclusive"] are stored side
    branches, every other string is a permanent rejection carrying the node's
    reason, and anything else is an error that is not a rejection. *)
Theorem submit_response_classified (r : Value) :
  match classify_submit_response r with
  | Ok o => (is_win o = true <-> r = VNull \/ r = VString "duplicate")
            /\ (is_win o = false <->
                  r = VString "inconclusive" \/ r = VString "duplicate-inconclusive")
  | Err (SubmitBlockRejected s) =>
      r = VString s /\ s <> "duplicate" /\ s <> "inconclusive" /\ s <> "duplicate-inconclusive"
  | Err _ => r <> VNull /\ as_str r = None
  end.
Proof.
  destruct (classify_submit_response r) as [o|e] eqn:E.
  - split; [by eapply classify_win|].
    unfold classify_submit_response in E. destruct r; simplify_eq/=; try naive_solver.
    repeat case_bool_decide; simplify_eq/=; naive_solver.
  - unfold classify_submit_response in E. destruct r; simplify_eq/=; try done.
    repeat case_bool_decide; simplify_eq/=; naive_solver.
Qed.

(** Cookie rotation: a call makes at most two attempts; the client is
    rebuilt exactly when the first attempt failed and the cookie on disk is
    readable and differs from the one the client was built with; afterwards
    the remembered cookie is the one on disk, so a further failure with the
    same file rebuilds nothing. *)
Lemma call_with_refresh_rebuilds_once {Client W T : Type}
    (build : string * string -> result string Client)
    (f : Client -> W -> result PoolError T * W) (rc : option (string * string))
    (st : Inner) (w : W) :
  let '(r, st', w') := call_with_refresh build f rc st w in
  (st' = st \/
   exists c e w1, rc = Some c /\ cookie st <> Some c /\ f (client st) w = (Err e, w1)
     /\ build c = Ok (client st') /\ cookie st' = Some c
     /\ f (client st') w1 = (r, w')
     /\ forall e2 w2 w3, f (client st') w2 = (Err e2, w3) ->
          call_with_refresh build f rc st' w2 = (Err e2, st', w3))
  /\ (forall v, fst (f (client st) w) = Ok v -> st' = st /\ r = Ok v).
Proof.
  unfold call_with_refresh.
  destruct (f (client st) w) as [[v|e] w1] eqn:E1; [split; [by left | naive_solver]|].
  destruct rc as [c|]; [|split; [by left | naive_solver]].
  case_bool_decide as Hc; [split; [by left | naive_solver]|].
  destruct (build c) as [cl|m] eqn:Eb; [|split; [by left | naive_solver]].
  destruct (f cl w1) as [r w2] eqn:E2. split; [|done]. right.
  exists c, e, w1. do 6 (split; [done|]).
  intros e2 w2' w3 Hf. simpl in *. rewrite Hf. by rewrite bool_decide_true.
Qed.

End Rpc.
