(* ===== verification/Hashrate.v ===== *)
(** * Hashrate: exponentially decaying averages ([src/mining/hashrate.rs])

    The ckpool estimator in binary64: [decay_time], [sane_tdiff], [time_bias]
    and the seven-window meter [HashrateDecay] with its restore path.  [exp]
    and [powf] come from [Libm]. *)
From S2P Require Import Prelude F64.

Module Hashrate.

Definition NONCES : f64 := f64_of_Z 4294967296.
Definition SECS_PER_MINUTE : f64 := f64_of_Z 60.
Definition WINDOW_SECS : list f64 :=
  f64_of_Z <$> [60; 300; 600; 3600; 10800; 21600; 86400].
Definition WINDOW_COUNT : nat := 7.
Definition TICK_SECS : Z := 2.

(** The literals [36.0], [0.001] and [2e-16]. *)
Definition EXP_CAP : f64 := f64_of_Z 36.
Definition MIN_TDIFF : f64 := f64_lit 1 1000.
Definition DUST : f64 := f64_lit 2 10000000000000000.

(** [if *f < 2e-16 { *f = 0.0 }]. *)
Definition drop_dust (f : f64) : f64 := if (f <? DUST)%f64 then f0 else f.

Definition sane_tdiff (end_ start : Instant) : f64 :=
  fmax (as_secs_f64 (duration_since end_ start)) MIN_TDIFF.

Section Decay.
Context `{Libm}.

Definition decay_time (f fadd_ fsecs interval : f64) : f64 :=
  if (fsecs <=? f0)%f64 then f
  else
    let dexp := fmin (fsecs / interval)%f64 EXP_CAP in
    let fprop := (f1 - f1 / fexp_ dexp)%f64 in
    let ftotal := (f1 + fprop)%f64 in
    drop_dust ((f + fadd_ / fsecs * fprop) / ftotal)%f64.

Definition time_bias (age_secs interval : f64) : f64 :=
  (f1 - f1 / fexp_ (fmin (age_secs / interval) EXP_CAP))%f64.

(** ** The meter *)
Record HashrateDecay := mkDecay {
  dsps : list f64;
  pending : f64;
  last_decay : Instant
}.

Definition decay_new (now : Instant) : HashrateDecay :=
  mkDecay (repeat f0 WINDOW_COUNT) f0 now.

Definition idle_window (whole_ticks remainder step interval value : f64) : f64 :=
  let step_factor := (f1 / (f64_of_Z 2 - fexp_ (fneg step / interval)))%f64 in
  let v1 := (value * fpowf step_factor whole_ticks)%f64 in
  let v2 := if (f0 <? remainder)%f64 then decay_time v1 f0 remainder interval else v1 in
  drop_dust v2.

Definition decay_idle_for (d : HashrateDecay) (elapsed_secs : f64) : HashrateDecay :=
  if negb (is_finite elapsed_secs) || (elapsed_secs <=? f0)%f64 then d
  else
    let step := f64_of_Z TICK_SECS in
    let whole_ticks := ffloor (elapsed_secs / step)%f64 in
    let remainder := (elapsed_secs - whole_ticks * step)%f64 in
    mkDecay (zip_with (fun v i => idle_window whole_ticks remainder step i v) (dsps d) WINDOW_SECS)
      (pending d) (last_decay d).

Definition restored_rates (now : Instant) (rates : list f64) (offline_for : Z) : HashrateDecay :=
  decay_idle_for
    (mkDecay ((fun r => if is_finite r && (f0 <? r)%f64 then r else f0) <$> rates) f0 now)
    (as_secs_f64 offline_for).

Definition restored (now : Instant) (hashrates : list f64) (offline_for : Z) : HashrateDecay :=
  restored_rates now ((fun hps => hps / NONCES)%f64 <$> hashrates) offline_for.

Definition restored_per_minute (now : Instant) (per_minute : list f64) (offline_for : Z)
  : HashrateDecay :=
  restored_rates now ((fun v => v / SECS_PER_MINUTE)%f64 <$> per_minute) offline_for.

Definition add_share (d : HashrateDecay) (diff : f64) : HashrateDecay :=
  if is_finite diff && (f0 <? diff)%f64
  then mkDecay (dsps d) (pending d + diff)%f64 (last_decay d)
  else d.

Definition tick (d : HashrateDecay) (now : Instant) : HashrateDecay :=
  let tdiff := sane_tdiff now (last_decay d) in
  mkDecay (zip_with (fun f i => decay_time f (pending d) tdiff i) (dsps d) WINDOW_SECS) f0 now.

Definition rates (d : HashrateDecay) : list f64 := dsps d.
Definition per_minute (d : HashrateDecay) : list f64 :=
  (fun v => v * SECS_PER_MINUTE)%f64 <$> dsps d.
Definition hashrates (d : HashrateDecay) : list f64 := (fun v => v * NONCES)%f64 <$> dsps d.

Definition is_idle (d : HashrateDecay) : bool :=
  (pending d =? f0)%f64 && forallb (fun v => v =? f0)%f64 (dsps d).
End Decay.

End Hashrate.
