(* ===== verification/Credit.v ===== *)
(** * Credit: what an accepted share is worth ([src/mining/credit.rs])

    [ShareCredit] watches whether a session honours [set_difficulty] and
    credits its shares at the effective difficulty while it does, at the floor
    while it does not. *)
From S2P Require Import Prelude F64.

Module Credit.

Definition EVIDENCE_SHARES : Z := 3.
Definition REDEEM_SHARES : Z := 20.
Definition RETARGET_GRACE : Z := 30 * NANOS.
Definition BELOW_TOLERANCE : f64 := f64_lit 99 100.

Record ShareCredit := mkCredit {
  floor : Z;
  assigned : Z;
  assigned_at : Instant;
  below_assigned : Z;
  redeeming : Z;
  honors_assigned : bool
}.

Definition credit_new (floor : Z) (now : Instant) : ShareCredit :=
  mkCredit (Z.max floor 1) 0 now 0 0 true.

(** The head of [credit]: a changed assignment opens a grace window. *)
Definition note_assigned (c : ShareCredit) (new_assigned : Z) (now : Instant) : ShareCredit :=
  if new_assigned =? assigned c then c
  else mkCredit (floor c) new_assigned now 0 (redeeming c) (honors_assigned c).

Definition effective (c : ShareCredit) (job_difficulty : Z) : Z :=
  Z.max (Z.min (assigned c) job_difficulty) (floor c).

Definition meets_effective (hash_difficulty eff : Z) : bool :=
  (f64_of_Z eff * BELOW_TOLERANCE <=? f64_of_Z hash_difficulty)%f64.

(** The verdict update for one share. *)
Definition judge (c : ShareCredit) (meets : bool) (now : Instant) : ShareCredit :=
  if honors_assigned c then
    if negb meets && (RETARGET_GRACE <? duration_since now (assigned_at c)) then
      let n := below_assigned c + 1 in
      if EVIDENCE_SHARES <=? n
      then mkCredit (floor c) (assigned c) (assigned_at c) n 0 false
      else mkCredit (floor c) (assigned c) (assigned_at c) n (redeeming c) true
    else c
  else if meets then
    let n := redeeming c + 1 in
    if REDEEM_SHARES <=? n
    then mkCredit (floor c) (assigned c) now 0 n true
    else mkCredit (floor c) (assigned c) (assigned_at c) (below_assigned c) n false
  else mkCredit (floor c) (assigned c) (assigned_at c) (below_assigned c) 0 false.

Definition credit (c : ShareCredit) (new_assigned job_difficulty hash_difficulty : Z)
    (now : Instant) : Z * ShareCredit :=
  let c1 := note_assigned c new_assigned now in
  let eff := effective c1 job_difficulty in
  let c2 := judge c1 (meets_effective hash_difficulty eff) now in
  (if honors_assigned c2 then eff else floor c2, c2).

(** ** A session's shares in order *)
Record ShareInput := mkInput {
  i_assigned : Z;
  i_job_difficulty : Z;
  i_hash_difficulty : Z;
  i_now : Instant
}.

Definition credit_step (c : ShareCredit) (i : ShareInput) : ShareCredit :=
  (credit c (i_assigned i) (i_job_difficulty i) (i_hash_difficulty i) (i_now i)).2.

(** The difficulty the share had to clear, and whether it did. *)
Definition step_effective (c : ShareCredit) (i : ShareInput) : Z :=
  effective (note_assigned c (i_assigned i) (i_now i)) (i_job_difficulty i).
Definition step_meets (c : ShareCredit) (i : ShareInput) : bool :=
  meets_effective (i_hash_difficulty i) (step_effective c i).

(** A share below the effective difficulty, later than the grace window of the
    assignment in force. *)
Definition is_evidence (c : ShareCredit) (i : ShareInput) : bool :=
  negb (step_meets c i)
  && (RETARGET_GRACE <? duration_since (i_now i)
                          (assigned_at (note_assigned c (i_assigned i) (i_now i)))).

(** What each share of a run was credited, next to its effective difficulty. *)
Fixpoint credit_run (c : ShareCredit) (ins : list ShareInput) : list (Z * Z) :=
  match ins with
  | [] => []
  | i :: ins' =>
      ((credit c (i_assigned i) (i_job_difficulty i) (i_hash_difficulty i) (i_now i)).1,
       step_effective c i) :: credit_run (credit_step c i) ins'
  end.

Fixpoint evidence_count (c : ShareCredit) (ins : list ShareInput) : Z :=
  match ins with
  | [] => 0
  | i :: ins' => (if is_evidence c i then 1 else 0) + evidence_count (credit_step c i) ins'
  end.

Fixpoint all_meet (c : ShareCredit) (ins : list ShareInput) : Prop :=
  match ins with
  | [] => True
  | i :: ins' => step_meets c i = true /\ all_meet (credit_step c i) ins'
  end.

Lemma evidence_count_nonneg c ins : 0 <= evidence_count c ins.
Proof. revert c; induction ins; intros c; simpl; [lia|]. specialize (IHins (credit_step c a)). case_match; lia. Qed.

Lemma note_assigned_keeps c a now :
  floor (note_assigned c a now) = floor c
  /\ honors_assigned (note_assigned c a now) = honors_assigned c
  /\ redeeming (note_assigned c a now) = redeeming c
  /\ (below_assigned (note_assigned c a now) = below_assigned c
      \/ below_assigned (note_assigned c a now) = 0).
Proof. unfold note_assigned. case_match; simpl; auto. Qed.

Lemma credit_step_floor c i : floor (credit_step c i) = floor c.
Proof.
  destruct (note_assigned_keeps c (i_assigned i) (i_now i)) as (<- & _).
  unfold credit_step, credit, judge. cbn [snd]. by repeat case_match.
Qed.

(** One share of a session in good standing: it stays so while the evidence is
    below the threshold, and each evidence share counts once. *)
Lemma honoring_step c i :
  honors_assigned c = true -> 0 <= below_assigned c ->
  below_assigned c + (if is_evidence c i then 1 else 0) < EVIDENCE_SHARES ->
  honors_assigned (credit_step c i) = true
  /\ 0 <= below_assigned (credit_step c i)
       <= below_assigned c + (if is_evidence c i then 1 else 0)
  /\ (credit c (i_assigned i) (i_job_difficulty i) (i_hash_difficulty i) (i_now i)).1
     = step_effective c i.
Proof.
  intros Hh Hb. unfold credit_step, credit, is_evidence, step_meets, step_effective.
  destruct (note_assigned_keeps c (i_assigned i) (i_now i)) as (_ & Hh' & _ & Hb').
  set (c1 := note_assigned c (i_assigned i) (i_now i)) in *.
  cbn [fst snd]. unfold judge. rewrite Hh', Hh.
  destruct (negb _ && _) eqn:E; intros Hlt.
  - destruct (Z.leb_spec EVIDENCE_SHARES (below_assigned c1 + 1)); [lia|]. cbn. repeat split; lia.
  - rewrite Hh', Hh. repeat split; lia.
Qed.

Lemma honoring_run c ins :
  honors_assigned c = true -> 0 <= below_assigned c ->
  below_assigned c + evidence_count c ins < EVIDENCE_SHARES ->
  Forall (fun p => p.1 = p.2) (credit_run c ins)
  /\ honors_assigned (foldl credit_step c ins) = true.
Proof.
  revert c; induction ins as [|i ins IH]; intros c Hh Hb Hlt; simpl in *; [by split|].
  pose proof (evidence_count_nonneg (credit_step c i) ins).
  destruct (honoring_step c i Hh Hb) as (Hh' & Hb' & Hc); [lia|].
  destruct (IH (credit_step c i) Hh') as [HF Hf]; [lia | lia |].
  split; [|done]. constructor; [done | done].
Qed.

(** One share of a flagged session: a share that meets its difficulty advances
    the redeeming run, one that does not restarts it; either way it is worth the
    floor until the run is complete. *)
Lemma flagged_step c i :
  honors_assigned c = false ->
  if step_meets c i && (REDEEM_SHARES <=? redeeming c + 1) then
    honors_assigned (credit_step c i) = true
  else
    honors_assigned (credit_step c i) = false
    /\ redeeming (credit_step c i) = (if step_meets c i then redeeming c + 1 else 0)
    /\ (credit c (i_assigned i) (i_job_difficulty i) (i_hash_difficulty i) (i_now i)).1 = floor c.
Proof.
  intros Hh. unfold credit_step, credit, step_meets, step_effective.
  destruct (note_assigned_keeps c (i_assigned i) (i_now i)) as (Hf & Hh' & Hr & _).
  set (c1 := note_assigned c (i_assigned i) (i_now i)) in *.
  cbn [fst snd]. unfold judge. rewrite Hh', Hh, Hr.
  destruct (meets_effective _ _); cbn [andb]; [destruct (_ <=? _)|]; cbn; by rewrite ?Hf.
Qed.

Lemma flagged_run c ins :
  honors_assigned c = false -> redeeming c < REDEEM_SHARES -> all_meet c ins ->
  redeeming c + Z.of_nat (length ins) <= REDEEM_SHARES ->
  honors_assigned (foldl credit_step c ins)
    = (REDEEM_SHARES <=? redeeming c + Z.of_nat (length ins))
  /\ forall n p, credit_run c ins !! n = Some p ->
       redeeming c + Z.of_nat n + 1 < REDEEM_SHARES -> p.1 = floor c.
Proof.
  revert c; induction ins as [|i ins IH]; intros c Hh Hr Hm Hl; cbn [length foldl credit_run] in *.
  - split; [|done]. rewrite Hh. symmetry. apply Z.leb_gt. lia.
  - destruct Hm as [Hm Hms]. pose proof (flagged_step c i Hh) as Hs.
    rewrite Hm in Hs. cbn [andb] in Hs.
    destruct (Z.leb_spec REDEEM_SHARES (redeeming c + 1)) as [Hd|Hd].
    + assert (ins = []) as -> by (destruct ins; [done | cbn [length] in *; lia]). cbn [foldl length credit_run] in *.
      split; [rewrite Hs; symmetry; apply Z.leb_le; lia|].
      intros [|n] pr; [intros _; lia | done].
    + destruct Hs as (Hh' & Hr' & Hc).
      destruct (IH (credit_step c i)) as [IH1 IH2]; [done | lia | done | lia |].
      rewrite credit_step_floor in IH2. split.
      * rewrite IH1, Hr'. f_equal. lia.
      * intros [|n] pr Hp Hn; [injection Hp as <-; exact Hc|]. apply (IH2 n); [done | lia].
Qed.

(** ** Properties *)

(** C37. A session is never docked without evidence: from a fresh session, as
    long as fewer than three shares have fallen below their effective
    difficulty (the smaller of the current assignment and the job's stamp, at
    least the floor) later than thirty seconds after the assignment last
    changed, every share is credited at its full effective difficulty. *)
Theorem docked_only_on_evidence (fl : Z) (t0 : Instant) (ins : list ShareInput) :
  evidence_count (credit_new fl t0) ins < EVIDENCE_SHARES ->
  Forall (fun p => p.1 = p.2) (credit_run (credit_new fl t0) ins)
  /\ honors_assigned (foldl credit_step (credit_new fl t0) ins) = true.
Proof. intros H. apply honoring_run; [done | done | exact H]. Qed.

Definition demo_inputs : list ShareInput :=
  [mkInput 1000 1000 1500 0; mkInput 1000 1000 10 NANOS; mkInput 1000 1000 10 (40 * NANOS);
   mkInput 4000 1000 1200 (50 * NANOS); mkInput 4000 4000 10 (90 * NANOS)].

Lemma docked_only_on_evidence_witness :
  credit_run (credit_new 100 0) demo_inputs
    = [(1000, 1000); (1000, 1000); (1000, 1000); (1000, 1000); (4000, 4000)]
  /\ honors_assigned (foldl credit_step (credit_new 100 0) demo_inputs) = true.
Proof.
  split; [vm_compute; reflexivity|].
  apply (docked_only_on_evidence 100 0 demo_inputs). vm_compute. reflexivity.
Defined.

(** Redemption takes exactly twenty in a row: a flagged session at the
    start of a run, all of whose following shares meet their effective
    difficulty, is restored by the twentieth and not before, and is credited
    the floor for each of the first nineteen. *)
Lemma redeemed_by_twenty_in_a_row (c : ShareCredit) (ins : list ShareInput) :
  honors_assigned c = false -> redeeming c = 0 -> all_meet c ins ->
  (length ins <= 20)%nat ->
  honors_assigned (foldl credit_step c ins) = (20 <=? length ins)%nat
  /\ forall n p, (n < 19)%nat -> credit_run c ins !! n = Some p -> p.1 = floor c.
Proof.
  intros Hh Hr Hm Hl. unfold REDEEM_SHARES in *.
  destruct (flagged_run c ins) as [H1 H2]; [done | unfold REDEEM_SHARES; lia | done
    | unfold REDEEM_SHARES; lia |].
  unfold REDEEM_SHARES in *. split.
  - rewrite H1, Hr. destruct (Nat.leb_spec 20 (length ins)); [apply Z.leb_le | apply Z.leb_gt]; lia.
  - intros n p Hn Hp. apply (H2 n p Hp). lia.
Qed.

Lemma redeemed_by_twenty_in_a_row_witness :
  honors_assigned (foldl credit_step (mkCredit 100 1000 0 3 0 false)
                     (repeat (mkInput 1000 1000 1500 0) 20)) = true.
Proof.
  apply (redeemed_by_twenty_in_a_row (mkCredit 100 1000 0 3 0 false)
           (repeat (mkInput 1000 1000 1500 0) 20)); vm_compute; try done; repeat constructor.
Defined.

End Credit.
