(* ===== verification/Vardiff.v ===== *)
(** * Vardiff: per-session variable difficulty ([src/mining/vardiff.rs])

    The controller in binary64, with the clock as an argument.  A Rust panic of
    [clamp] is the [None] of [check_retarget]. *)
From S2P Require Import Prelude F64 Hashrate.
Import Hashrate.

Module Vardiff.

(** [config::VardiffConfig]. *)
Record VardiffConfig := mkVardiffConfig {
  target_share_time_secs : Z;
  retarget_interval_secs : Z;
  min_difficulty : Z;
  max_difficulty : Z;
  max_retarget_factor : f64;
  deadzone_low : f64;
  deadzone_high : f64
}.

Definition FAST_WINDOW_MULTIPLE : f64 := f64_of_Z 20.
Definition SLOW_WINDOW_MULTIPLE : f64 := f64_of_Z 120.

Record Vardiff := mkVardiff {
  cfg : VardiffConfig;
  current : Z;
  fast : f64;
  slow : f64;
  fast_secs : f64;
  slow_secs : f64;
  v_last_decay : Instant;
  first_share : option Instant;
  last_change : Instant;
  shares_since_change : Z;
  retarget_shares : Z
}.

Definition vardiff_new (c : VardiffConfig) (initial_difficulty : Z) (now : Instant) : Vardiff :=
  let target := f64_of_Z (Z.max (target_share_time_secs c) 1) in
  let n := f64_to_u64 (fmax (fround (f64_of_Z (retarget_interval_secs c) / target)%f64)
                            (f64_of_Z 4)) in
  mkVardiff c initial_difficulty f0 f0 (FAST_WINDOW_MULTIPLE * target)%f64
    (SLOW_WINDOW_MULTIPLE * target)%f64 now None now 0 n.

(** The updates of single fields. *)
Definition set_window (v : Vardiff) (cur : Z) (change : Instant) (shares : Z) : Vardiff :=
  mkVardiff (cfg v) cur (fast v) (slow v) (fast_secs v) (slow_secs v) (v_last_decay v)
    (first_share v) change shares (retarget_shares v).

Definition open_window (v : Vardiff) (now : Instant) : Vardiff := set_window v (current v) now 0.

(** [u64::clamp]: panics unless [min <= max]. *)
Definition clamp_u64 (x lo hi : Z) : option Z :=
  if lo <=? hi then Some (Z.min (Z.max x lo) hi) else None.

Definition suggest (v : Vardiff) (difficulty : Z) (now : Instant) : option (Z * Vardiff) :=
  clamped ← clamp_u64 difficulty (min_difficulty (cfg v)) (max_difficulty (cfg v));
  Some (clamped, set_window v clamped now 0).

Section Control.
Context `{Libm}.

Definition decay (v : Vardiff) (credit : f64) (now : Instant) : Vardiff :=
  let tdiff := sane_tdiff now (v_last_decay v) in
  mkVardiff (cfg v) (current v)
    (decay_time (fast v) credit tdiff (fast_secs v))
    (decay_time (slow v) credit tdiff (slow_secs v))
    (fast_secs v) (slow_secs v) now (first_share v) (last_change v) (shares_since_change v)
    (retarget_shares v).

Definition record_share (v : Vardiff) (credit : Z) (now : Instant) : Vardiff :=
  let v1 := decay v (f64_of_Z credit) now in
  mkVardiff (cfg v1) (current v1) (fast v1) (slow v1) (fast_secs v1) (slow_secs v1)
    (v_last_decay v1) (Some (default now (first_share v))) (last_change v1)
    (shares_since_change v1 + 1) (retarget_shares v1).

Definition hit_share_trigger (v : Vardiff) : bool := retarget_shares v <=? shares_since_change v.

(** Whether a retarget is due at all. *)
Definition retarget_due (v : Vardiff) (now : Instant) : bool :=
  hit_share_trigger v
  || negb (as_secs_f64 (duration_since now (last_change v))
           <? f64_of_Z (retarget_interval_secs (cfg v)))%f64.

(** The difficulty at which the measured rate meets the target share time. *)
Definition optimal (v : Vardiff) (first : Instant) (now : Instant) : f64 :=
  let '(rate, window) := if hit_share_trigger v then (fast v, fast_secs v)
                         else (slow v, slow_secs v) in
  let age := sane_tdiff now first in
  (rate / time_bias age window * f64_of_Z (target_share_time_secs (cfg v)))%f64.

Definition in_deadzone (v : Vardiff) (opt : f64) : bool :=
  let ratio := (opt / f64_of_Z (current v))%f64 in
  (deadzone_low (cfg v) <? ratio)%f64 && (ratio <? deadzone_high (cfg v))%f64.

Definition ceiling (c : VardiffConfig) (network_difficulty : option Z) : Z :=
  Z.max (match network_difficulty with
         | Some network => Z.min (max_difficulty c) network
         | None => max_difficulty c
         end) (min_difficulty c).

(** The two clamps, rounding and cast; [None] is a panic of [f64::clamp]. *)
Definition clamp_new (v : Vardiff) (network_difficulty : option Z) (opt : f64) : option Z :=
  let factor := max_retarget_factor (cfg v) in
  let cur := f64_of_Z (current v) in
  y ← fclamp opt (cur / factor)%f64 (cur * factor)%f64;
  z ← fclamp y (f64_of_Z (min_difficulty (cfg v)))
        (f64_of_Z (ceiling (cfg v) network_difficulty));
  Some (f64_to_u64 (fround z)).

Definition check_retarget (v0 : Vardiff) (now : Instant) (network_difficulty : option Z)
  : option (option Z * Vardiff) :=
  let v := decay v0 f0 now in
  match first_share v with
  | None => Some (None, v)
  | Some first =>
      if negb (retarget_due v now) then Some (None, v)
      else
        let opt := optimal v first now in
        if in_deadzone v opt then Some (None, open_window v now)
        else
          new_diff ← clamp_new v network_difficulty opt;
          if (new_diff <? current v) && (shares_since_change v <=? 1)
          then Some (None, set_window v (current v) now (shares_since_change v))
          else if new_diff =? current v then Some (None, open_window v now)
          else Some (Some new_diff, set_window v new_diff now 0)
  end.
End Control.

End Vardiff.
