(* ===== verification/VardiffRange.v ===== *)
(** * VardiffRange: the difficulties the controller can assign
    ([src/mining/vardiff.rs])

    The averages of the controller stay non-negative numbers, so neither [clamp]
    of [check_retarget] panics, no NaN reaches the cast to [u64], and what is
    assigned lies in the configured range.  Of [exp] only its documented accuracy
    matters: above [2^-40] its value exceeds one. *)
From S2P Require Import Prelude F64 Rounding Hashrate Vardiff.
Import Rounding Hashrate Vardiff.

Module VardiffRange.

(** What the pool relies on in [f64::exp], whose error is a few units in the
    last place. *)
Class ExpAccurate (L : Libm) : Prop := {
  exp_above_one : forall x, nonneg x ->
    (f64_lit 1 (2 ^ 40) <=? x)%f64 = true -> (x <=? EXP_CAP)%f64 = true ->
    finite (fexp_ x) /\ (f1 <? fexp_ x)%f64 = true
}.

(** The configurations in range: what [Config::validate] checks, with the share
    time below a month and the difficulties exactly representable. *)
Record vardiff_ok (c : VardiffConfig) : Prop := {
  vo_target : 1 <= target_share_time_secs c <= 2 ^ 22;
  vo_min : 1 <= min_difficulty c;
  vo_max : min_difficulty c <= max_difficulty c;
  vo_exact : max_difficulty c <= 2 ^ 53;
  vo_factor : finite (max_retarget_factor c);
  vo_grow : (f1 <? max_retarget_factor c)%f64 = true
}.

(** A window length: positive, at most [2^29] seconds. *)
Definition window_ok (i : f64) : Prop := finite i /\ 0 < mag i <= 2 ^ (29 + 1074).

Record vardiff_wf (v : Vardiff) : Prop := {
  vw_cfg : vardiff_ok (cfg v);
  vw_fast : nonneg (fast v);
  vw_slow : nonneg (slow v);
  vw_fast_secs : window_ok (fast_secs v);
  vw_slow_secs : window_ok (slow_secs v);
  vw_current : 0 <= current v <= 2 ^ 64
}.

(** ** Constants *)
Lemma f1_mag : finite f1 /\ mag f1 = 2 ^ 1074.
Proof. unfold f1. destruct (of_Z_exact 1 ltac:(lia)) as [H1 ->]. split; [done | lia]. Qed.

Lemma min_tdiff_mag : finite MIN_TDIFF /\ 2 ^ 1064 <= mag MIN_TDIFF.
Proof. split; [split; vm_compute; reflexivity | vm_compute; discriminate]. Qed.

Lemma cap_mag : finite EXP_CAP /\ mag EXP_CAP = 36 * 2 ^ 1074.
Proof. apply (of_Z_exact 36). lia. Qed.

Lemma tiny_mag : nonneg (f64_lit 1 (2 ^ 40)) /\ mag (f64_lit 1 (2 ^ 40)) = 2 ^ 1034.
Proof. split; vm_compute; reflexivity. Qed.

(** ** Elapsed times *)
Lemma as_secs_nonneg d : 0 <= d -> nonneg (as_secs_f64 d).
Proof.
  intros Hd. unfold as_secs_f64. pose proof (Z.mod_pos_bound d NANOS ltac:(done)).
  destruct (of_Z_exact NANOS ltac:(done)) as [Hn Hm].
  apply fadd_nonneg; [apply of_Z_nonneg, Z.div_pos; (done || lia)|].
  apply fdiv_nonneg; [apply of_Z_nonneg; lia | done|]. rewrite Hm. unfold NANOS. lia.
Qed.

Lemma sane_tdiff_mag a b : nonneg (sane_tdiff a b) /\ 2 ^ 1064 <= mag (sane_tdiff a b).
Proof.
  unfold sane_tdiff. destruct min_tdiff_mag as [[Hm _] Hmag].
  destruct (fmax_mag (as_secs_f64 (duration_since a b)) MIN_TDIFF) as [Hf Hx]; [|done|split; [done | lia]].
  apply as_secs_nonneg. unfold duration_since. lia.
Qed.

Section Exp.
Context `{L : Libm} `{!ExpAccurate L}.

(** The exponent of a decay step is in the range of [exp_above_one]. *)
Lemma exponent_range t i :
  nonneg t -> 2 ^ 1064 <= mag t -> window_ok i ->
  finite (fexp_ (fmin (t / i)%f64 EXP_CAP)) /\ 2 ^ 1074 < mag (fexp_ (fmin (t / i)%f64 EXP_CAP)).
Proof.
  intros Ht Htm [Hi Him]. destruct cap_mag as [[Hc _] Hcm]. destruct tiny_mag as [Hy Hym].
  destruct f1_mag as [[H1 _] H1m].
  assert (nonneg (t / i)%f64) as Hq by (apply fdiv_nonneg; [done | done | lia]).
  assert (2 ^ 1034 <= mag (t / i)%f64) as Hqm.
  { destruct (is_finite t) eqn:Ft.
    - destruct (pow2_value (-40) ltac:(lia)) as (y & Hyf & Hyv). change (-40 + 1074) with 1034 in Hyv.
      rewrite <- Hyv. apply (brackets_above _ _ _ y (fdiv_brackets t i (conj Ht Ft) Hi ltac:(lia)) Hyf).
      rewrite Hyv. change (29 + 1074) with 1103 in Him. apply Z.le_trans with (2 ^ 1034 * 2 ^ 1103).
      { apply Z.mul_le_mono_nonneg_l; lia. }
      apply Z.le_trans with (2 ^ 1064 * 2 ^ 1074); [rewrite <- !Z.pow_add_r by lia; apply pow2_mono; lia|].
      apply Z.mul_le_mono_nonneg_r; lia.
    - rewrite (infinite_inv t Ht Ft). destruct (finite_inv i Hi) as [->|(m & x & -> & _)]; cbn [mag fdiv SFdiv xorb]; lia. }
  destruct (fmin_mag (t / i)%f64 EXP_CAP Hq Hc) as [Hmn Hmm].
  destruct (exp_above_one (fmin (t / i)%f64 EXP_CAP) Hmn) as [He Hgt].
  - apply fle_mag; [done..|]. lia.
  - apply fle_mag; [done..|]. lia.
  - split; [done|]. apply flt_mag in Hgt; [lia | done | apply He].
Qed.

(** [1 - 1 / e] for [e] above one: a positive number, at most one. *)
Lemma bias_mag e :
  finite e -> 2 ^ 1074 < mag e ->
  finite (f1 - f1 / e)%f64 /\ 0 < mag (f1 - f1 / e)%f64 <= 2 ^ 1074.
Proof.
  intros He Hm. destruct f1_mag as [H1 H1m].
  set (p := S754_finite false (2 ^ 53 - 1)%positive (-53)).
  assert (finite p) as Hp by (by split).
  assert (mag p = (2 ^ 53 - 1) * 2 ^ 1021) as Hpm by reflexivity.
  assert (2 ^ 1074 + 2 ^ 1022 <= mag e) as Hgap.
  { destruct (finite_inv e He) as [->|(m & x & -> & Hb)]; [cbn [mag] in Hm; lia|].
    cbn [mag] in *. apply bounded_iff in Hb as (Hx & Hmm & _).
    assert (-52 <= x) as Hx'.
    { destruct (Z.le_gt_cases (-52) x); [done|]. pose proof (pow2_mono (x + 1074) 1021 ltac:(lia)).
      pose proof (pow2_pos (x + 1074) ltac:(lia)). assert (Zpos m * 2 ^ (x + 1074) < 2 ^ 53 * 2 ^ 1021) by nia.
      rewrite <- Z.pow_add_r in * by lia. lia. }
    rewrite (pow2_split 1022 (x + 1074)) in * by lia. set (k := 2 ^ (x + 1074 - 1022)) in *.
    assert (2 ^ 1074 = 2 ^ 52 * 2 ^ 1022) as E by (rewrite <- Z.pow_add_r by lia; done). rewrite E in *.
    pose proof (pow2_pos 1022 ltac:(lia)).
    replace (Zpos m * (2 ^ 1022 * k)) with (Zpos m * k * 2 ^ 1022) in * by lia.
    assert (2 ^ 52 < Zpos m * k) by (apply (Z.mul_lt_mono_pos_r (2 ^ 1022)); done). nia. }
  assert (0 < mag e) as Hpos by lia.
  pose proof (fdiv_brackets f1 e H1 He Hpos) as Hd. rewrite H1m in Hd.
  destruct (brackets_below _ _ _ p Hd Hp) as [Hi Him].
  { rewrite Hpm. apply Z.le_trans with ((2 ^ 53 - 1) * 2 ^ 1021 * (2 ^ 1074 + 2 ^ 1022)).
    - replace (2 ^ 1074) with (2 ^ 53 * 2 ^ 1021) by (rewrite <- Z.pow_add_r by lia; done).
      replace (2 ^ 1022) with (2 * 2 ^ 1021) by (rewrite <- Z.pow_succ_r by lia; done). nia.
    - apply Z.mul_le_mono_nonneg_l; lia. }
  assert (mag p < 2 ^ 1074) as Hp1.
  { rewrite Hpm. replace (2 ^ 1074) with (2 ^ 53 * 2 ^ 1021) by (rewrite <- Z.pow_add_r by lia; done). lia. }
  pose proof (fsub_brackets f1 (f1 / e)%f64 H1 Hi ltac:(lia)) as Hs. rewrite H1m in Hs.
  destruct (brackets_below _ _ _ f1 Hs H1) as [Hf Hle]; [pose proof (mag_nonneg (f1 / e)%f64); lia|].
  destruct least_value as (y & Hy & Hym).
  pose proof (brackets_above _ _ _ y Hs Hy ltac:(lia)). split; [done | lia].
Qed.

Lemma time_bias_mag t i :
  nonneg t -> 2 ^ 1064 <= mag t -> window_ok i ->
  finite (time_bias t i) /\ 0 < mag (time_bias t i) <= 2 ^ 1074.
Proof. intros Ht Hm Hi. destruct (exponent_range t i Ht Hm Hi). by apply bias_mag. Qed.

(** ** The averages *)
Lemma drop_dust_nonneg x : nonneg x -> nonneg (drop_dust x).
Proof. unfold drop_dust. by case_match. Qed.

Lemma decay_time_nonneg f a t i :
  nonneg f -> finite a -> mag a <= 2 ^ (64 + 1074) -> nonneg t -> 2 ^ 1064 <= mag t -> window_ok i ->
  nonneg (decay_time f a t i).
Proof.
  intros Hf Ha Ham Ht Htm Hi. unfold decay_time. case_match; [done|].
  destruct (exponent_range t i Ht Htm Hi) as [He Hem]. destruct (bias_mag _ He Hem) as [Hp Hpm].
  set (p := (f1 - f1 / _)%f64) in *. destruct f1_mag as [H1 H1m].
  assert (finite (a / t)%f64) as Hq.
  { destruct (is_finite t) eqn:Ft.
    - destruct (pow2_value 74 ltac:(lia)) as (y & Hy & Hym).
      eapply (brackets_below _ _ _ y (fdiv_brackets a t Ha (conj Ht Ft) ltac:(lia)) Hy).
      rewrite Hym. apply Z.le_trans with (2 ^ (64 + 1074) * 2 ^ 1074); [apply Z.mul_le_mono_nonneg_r; lia|].
      apply Z.le_trans with (2 ^ (74 + 1074) * 2 ^ 1064); [rewrite <- !Z.pow_add_r by lia; apply pow2_mono; lia|].
      apply Z.mul_le_mono_nonneg_l; lia.
    - rewrite (infinite_inv t Ht Ft). by destruct (finite_inv a Ha) as [->|(m & x & -> & _)]. }
  pose proof (fadd_brackets f1 p H1 Hp) as Hs. rewrite H1m in Hs.
  destruct (pow2_value 1 ltac:(lia)) as (two & H2 & H2m).
  destruct (brackets_below _ _ _ two Hs H2) as [Htot _].
  { rewrite H2m, Z.pow_add_r by lia. lia. }
  pose proof (brackets_above _ _ _ f1 Hs H1 ltac:(lia)) as Htm1.
  apply drop_dust_nonneg, fdiv_nonneg; [|done | lia].
  apply fadd_nonneg; [done|]. apply fmul_nonneg; [apply Hq | done | lia].
Qed.

Lemma decay_wf v credit now :
  vardiff_wf v -> finite credit -> mag credit <= 2 ^ (64 + 1074) -> vardiff_wf (decay v credit now).
Proof.
  intros [Hc Hf Hs Hfs Hss Hcur] Ha Ham. destruct (sane_tdiff_mag now (v_last_decay v)) as [Ht Htm].
  split; cbn; try done; by apply decay_time_nonneg.
Qed.

Lemma record_share_wf v credit now : vardiff_wf v -> 0 <= credit <= 2 ^ 64 -> vardiff_wf (record_share v credit now).
Proof.
  intros Hw Hcr. destruct (of_Z_below credit 64 Hcr ltac:(lia)) as [Hf Hm].
  by destruct (decay_wf v (f64_of_Z credit) now Hw Hf Hm) as [Hc Hfa Hs Hfs Hss Hcur]; split.
Qed.

Lemma set_window_wf v cur change shares :
  vardiff_wf v -> 0 <= cur <= 2 ^ 64 -> vardiff_wf (set_window v cur change shares).
Proof. intros [] Hcur. by split. Qed.

Lemma window_secs c k :
  vardiff_ok c -> 0 < k <= 120 -> window_ok (f64_of_Z k * f64_of_Z (Z.max (target_share_time_secs c) 1))%f64.
Proof.
  intros [Ht _ _ _ _ _] Hk. set (t := Z.max (target_share_time_secs c) 1).
  destruct (of_Z_exact k ltac:(lia)) as [Hkf Hkm]. destruct (of_Z_exact t ltac:(unfold t; lia)) as [Htf Htm].
  pose proof (fmul_brackets _ _ Hkf Htf) as Hb. rewrite Hkm, Htm in Hb. pose proof (pow2_pos 1074 ltac:(lia)) as Hp.
  destruct (pow2_value 29 ltac:(lia)) as (y & Hy & Hym). destruct (int_value 1 ltac:(lia)) as (o & Ho & Hom).
  assert (1 <= k * t <= 2 ^ 29) as Hkt by (unfold t; nia).
  replace (k * 2 ^ 1074 * (t * 2 ^ 1074)) with (k * t * 2 ^ 1074 * 2 ^ 1074) in Hb by lia.
  destruct (brackets_below _ _ _ y Hb Hy) as [Hf Hle].
  { rewrite Hym, Z.pow_add_r by lia. do 2 (apply Z.mul_le_mono_nonneg_r; [lia|]). lia. }
  pose proof (brackets_above _ _ _ o Hb Ho) as Hge. rewrite Hom in Hge.
  split; [done|]. split; [|lia]. specialize (Hge ltac:(do 2 (apply Z.mul_le_mono_nonneg_r; [lia|]); lia)). lia.
Qed.

Lemma vardiff_new_wf c initial now :
  vardiff_ok c -> 0 <= initial <= 2 ^ 64 -> vardiff_wf (vardiff_new c initial now).
Proof.
  intros Hc Hi. split; [done | done | done | | | done].
  - by apply (window_secs c 20).
  - by apply (window_secs c 120).
Qed.

(** ** The retarget *)
Lemma suggest_wf v d now :
  vardiff_wf v ->
  exists v', suggest v d now = Some (current v', v') /\ vardiff_wf v' /\ cfg v' = cfg v
    /\ min_difficulty (cfg v) <= current v' <= max_difficulty (cfg v).
Proof.
  intros Hw. pose proof (vw_cfg v Hw) as [_ Hmin Hle Hex _ _]. unfold suggest, clamp_u64.
  rewrite (proj2 (Z.leb_le _ _) Hle). cbn.
  exists (set_window v (Z.min (Z.max d (min_difficulty (cfg v))) (max_difficulty (cfg v))) now 0).
  split; [done|]. cbn [cfg current set_window].
  split; [apply set_window_wf; [done | lia]|]. split; [done | lia].
Qed.

Lemma optimal_nonneg v first now : vardiff_wf v -> nonneg (optimal v first now).
Proof.
  intros Hw. pose proof (vw_cfg v Hw) as [Ht _ _ _ _ _]. unfold optimal.
  destruct (sane_tdiff_mag now first) as [Ha Ham].
  destruct (of_Z_exact (target_share_time_secs (cfg v)) ltac:(lia)) as [Htf Htm].
  destruct (hit_share_trigger v).
  all: apply fmul_nonneg; [|done|rewrite Htm; lia].
  - destruct (time_bias_mag _ _ Ha Ham (vw_fast_secs v Hw)). apply fdiv_nonneg; [by apply vw_fast | done | lia].
  - destruct (time_bias_mag _ _ Ha Ham (vw_slow_secs v Hw)). apply fdiv_nonneg; [by apply vw_slow | done | lia].
Qed.

(** Both clamps succeed, and the result is in the configured range. *)
Lemma clamp_new_range v net opt :
  vardiff_wf v -> nonneg opt ->
  exists d, clamp_new v net opt = Some d /\ min_difficulty (cfg v) <= d <= ceiling (cfg v) net.
Proof.
  intros Hw Ho. pose proof (vw_cfg v Hw) as [_ Hmin Hle Hex Hf Hg]. unfold clamp_new.
  destruct f1_mag as [[H1 _] H1m]. apply flt_mag in Hg; [|done | apply Hf]. rewrite H1m in Hg.
  destruct (of_Z_below (current v) 64 (vw_current v Hw) ltac:(lia)) as [Hcf Hcm].
  set (cur := f64_of_Z (current v)) in *. set (k := max_retarget_factor (cfg v)) in *.
  pose proof (mag_nonneg cur) as Hcn.
  pose proof (fdiv_brackets cur k Hcf Hf ltac:(lia)) as Hd. pose proof (fmul_brackets cur k Hcf Hf) as Hm.
  destruct (brackets_below _ _ _ cur Hd Hcf) as [Hlo Hlom]; [apply Z.mul_le_mono_nonneg_l; lia|].
  pose proof (brackets_above _ _ _ cur Hm Hcf ltac:(apply Z.mul_le_mono_nonneg_l; lia)) as Hhim.
  destruct (fclamp_mag opt (cur / k)%f64 (cur * k)%f64 Ho (proj1 Hlo) (proj1 Hm) ltac:(lia))
    as (y & -> & Hy & _). cbn.
  assert (min_difficulty (cfg v) <= ceiling (cfg v) net <= 2 ^ 53) as Hceil by (unfold ceiling; case_match; lia).
  destruct (of_Z_exact (min_difficulty (cfg v)) ltac:(lia)) as [Hmf Hmm].
  destruct (of_Z_exact (ceiling (cfg v) net) ltac:(lia)) as [Hxf Hxm].
  pose proof (pow2_pos 1074 ltac:(lia)) as Hp.
  destruct (fclamp_mag y (f64_of_Z (min_difficulty (cfg v))) (f64_of_Z (ceiling (cfg v) net)) Hy (proj1 Hmf) (proj1 Hxf))
    as (z & -> & Hz & Hzm & _).
  { rewrite Hmm, Hxm. apply Z.mul_le_mono_nonneg_r; lia. }
  cbn. eexists. split; [done|]. rewrite Hmm, Hxm in Hzm. apply round_to_u64; [lia | lia | | done].
  apply finite_iff. split; [done|]. pose proof (finite_mag _ Hxf). lia.
Qed.

(** The retarget never panics, keeps the controller well-formed, and moves the
    difficulty only into the range. *)
Lemma check_retarget_wf v now net :
  vardiff_wf v ->
  exists r v', check_retarget v now net = Some (r, v') /\ vardiff_wf v' /\ cfg v' = cfg v
    /\ match r with
       | Some d => min_difficulty (cfg v) <= d <= ceiling (cfg v) net /\ current v' = d /\ d <> current v
       | None => current v' = current v
       end.
Proof.
  intros Hw0. unfold check_retarget.
  pose proof (decay_wf v f0 now Hw0 ltac:(by split) ltac:(cbn; lia)) as Hw.
  assert (cfg (decay v f0 now) = cfg v /\ current (decay v f0 now) = current v) as [Ec Ecur] by done.
  set (v1 := decay v f0 now) in *. rewrite <- Ec, <- Ecur. clearbody v1.
  destruct (first_share v1) as [first|]; [|by exists None, v1].
  destruct (negb _); [by exists None, v1|].
  destruct (in_deadzone _ _).
  { exists None, (open_window v1 now). split; [done|]. split; [|done]. by apply set_window_wf, Hw. }
  destruct (clamp_new_range v1 net (optimal v1 first now) Hw (optimal_nonneg v1 first now Hw)) as (d & -> & Hd).
  cbn. assert (ceiling (cfg v1) net <= 2 ^ 53) as Hceil.
  { pose proof (vw_cfg v1 Hw) as [_ Hmin Hle Hex _ _]. unfold ceiling. case_match; lia. }
  assert (1 <= min_difficulty (cfg v1)) by apply (vw_cfg v1 Hw).
  destruct ((d <? current v1) && _).
  { eexists None, _. split; [done|]. split; [|done]. by apply set_window_wf, Hw. }
  destruct (Z.eqb_spec d (current v1)).
  { exists None, (open_window v1 now). split; [done|]. split; [|done]. by apply set_window_wf, Hw. }
  eexists (Some d), _. split; [done|]. split; [apply set_window_wf; [done | lia]|]. done.
Qed.
End Exp.

(** ** Runs of the controller *)
Inductive VardiffOp : Type :=
| VShare (credit : Z) (now : Instant)
| VSuggest (difficulty : Z) (now : Instant)
| VRetarget (now : Instant) (network_difficulty : option Z).

(** What an operation assigns, if anything, and its limits; [None] is a panic. *)
Definition vardiff_step `{Libm} (v : Vardiff) (op : VardiffOp) : option (option Z * Vardiff) :=
  match op with
  | VShare credit now => Some (None, record_share v credit now)
  | VSuggest d now => '(applied, v') ← suggest v d now; Some (Some applied, v')
  | VRetarget now net => check_retarget v now net
  end.

Definition op_ceiling (c : VardiffConfig) (op : VardiffOp) : Z :=
  match op with VRetarget _ net => ceiling c net | _ => max_difficulty c end.

Fixpoint vardiff_run `{Libm} (v : Vardiff) (ops : list VardiffOp)
  : option (list (VardiffOp * Z) * Vardiff) :=
  match ops with
  | [] => Some ([], v)
  | op :: rest =>
      '(r, v1) ← vardiff_step v op;
      '(log, v2) ← vardiff_run v1 rest;
      Some (match r with Some d => (op, d) :: log | None => log end, v2)
  end.

Definition op_typed (op : VardiffOp) : Prop :=
  match op with VShare credit _ => 0 <= credit <= u64_max | _ => True end.

Lemma vardiff_step_safe `{L : Libm} `{!ExpAccurate L} v op :
  vardiff_wf v -> op_typed op ->
  exists r v', vardiff_step v op = Some (r, v') /\ vardiff_wf v' /\ cfg v' = cfg v
    /\ match r with
       | Some d => min_difficulty (cfg v) <= d <= op_ceiling (cfg v) op /\ current v' = d
       | None => current v' = current v
       end.
Proof.
  intros Hw Ht. destruct op as [credit now|d now|now net]; cbn [vardiff_step op_ceiling].
  - exists None, (record_share v credit now). split; [done|]. split; [|done].
    apply record_share_wf; [done|]. cbn in Ht. unfold u64_max in Ht. lia.
  - destruct (suggest_wf v d now Hw) as (v' & -> & Hw' & Hc & Hr). exists (Some (current v')), v'. done.
  - destruct (check_retarget_wf v now net Hw) as (r & v' & E & Hw' & Hc & Hr). exists r, v'.
    split; [done|]. split; [done|]. split; [done|]. destruct r; [|done]. by destruct Hr as (? & ? & _).
Qed.

Lemma vardiff_run_safe `{L : Libm} `{!ExpAccurate L} ops : forall v,
  vardiff_wf v -> Forall op_typed ops ->
  exists log v', vardiff_run v ops = Some (log, v') /\ cfg v' = cfg v
    /\ Forall (fun x => min_difficulty (cfg v) <= x.2 <= op_ceiling (cfg v) x.1) log
    /\ current v' = default (current v) (snd <$> last log).
Proof.
  induction ops as [|op ops IH]; intros v Hw Ht; [by exists [], v|].
  apply Forall_cons in Ht as [Ht1 Ht2]. cbn [vardiff_run].
  destruct (vardiff_step_safe v op Hw Ht1) as (r & v1 & -> & Hw1 & Hc1 & Hr). cbn.
  destruct (IH v1 Hw1 Ht2) as (log & v2 & -> & Hc2 & Hl & Hcur). cbn. rewrite Hc1 in *.
  destruct r as [d|].
  - exists ((op, d) :: log), v2. destruct Hr as [Hr Hd]. split_and!; [done | done | by constructor |].
    rewrite Hcur, last_cons. by destruct (last log).
  - exists log, v2. split_and!; [done | done | done |]. by rewrite Hcur, Hr.
Qed.

(** ** Properties *)

(** C23. On a configuration in the bounds of [vardiff_ok] (a target share time
    of 1 to 2^22 seconds, which is 48 days; 1 <= [min_difficulty] <=
    [max_difficulty] <= 2^53, the integers a double holds exactly; a finite
    retarget factor above 1), and with an [exp] of the C library accurate in the
    sense of [ExpAccurate], the controller does not panic and assigns only
    difficulties in range: from any start, through any shares, suggestions and
    retarget checks at any times, every [clamp] succeeds, every difficulty
    assigned is at least [min_difficulty] and at most [max_difficulty] and, for a
    retarget, at most the difficulty of the block being mined (unless that is
    below the floor), and the difficulty in force is the last one assigned.
    [Config.validate] does not impose the bound on the share time, and without it
    the claim is false: [long_share_time_assigns_zero]. *)
Theorem vardiff_assigns_in_range `{L : Libm} `{!ExpAccurate L} (c : VardiffConfig) (initial : Z)
    (start : Instant) (ops : list VardiffOp) :
  vardiff_ok c -> 0 <= initial <= u64_max -> Forall op_typed ops ->
  exists log v, vardiff_run (vardiff_new c initial start) ops = Some (log, v)
    /\ Forall (fun x => min_difficulty c <= x.2 <= op_ceiling c x.1) log
    /\ current v = default initial (snd <$> last log).
Proof.
  intros Hc Hi Ht. assert (0 <= initial <= 2 ^ 64) as Hi' by (unfold u64_max in Hi; lia).
  destruct (vardiff_run_safe ops _ (vardiff_new_wf c initial start Hc Hi') Ht) as (log & v & E & _ & Hl & Hcur).
  by exists log, v.
Qed.

(** A first-order [exp], which exceeds one as [exp] does. *)
Definition linear_libm : Libm := {| fexp_ := fun x => (f1 + x)%f64; fpowf := fun x _ => x |}.

#[export] Instance linear_accurate : ExpAccurate linear_libm.
Proof.
  split. intros x Hx Hlo Hhi. cbn [fexp_ linear_libm].
  destruct f1_mag as [H1 H1m]. destruct tiny_mag as [Hy Hym]. destruct cap_mag as [[Hc _] Hcm].
  apply fle_mag in Hlo; [|done..]. apply fle_mag in Hhi; [|done..]. rewrite Hym in Hlo. rewrite Hcm in Hhi.
  assert (finite x) as Hxf.
  { apply finite_iff. split; [done|]. pose proof (finite_mag EXP_CAP ltac:(apply cap_mag)). lia. }
  pose proof (fadd_brackets f1 x H1 Hxf) as Hs. rewrite H1m in Hs.
  destruct (pow2_value 6 ltac:(lia)) as (top & Ht & Htm).
  destruct (brackets_below _ _ _ top Hs Ht) as [Hf _]; [rewrite Htm, Z.pow_add_r by lia; lia|].
  split; [done|]. apply flt_mag; [apply H1 | apply Hf|]. rewrite H1m.
  set (y := S754_finite false (2 ^ 52 + 2 ^ 12)%positive (-52)).
  assert (mag y = 2 ^ 1074 + 2 ^ 1034) as Hym' by (vm_compute; reflexivity).
  pose proof (brackets_above _ _ _ y Hs ltac:(split; vm_compute; reflexivity) ltac:(lia)). lia.
Qed.

(** Five shares in two seconds: the miner runs above the target rate. *)
Definition demo_vardiff : VardiffConfig :=
  mkVardiffConfig 10 60 1000 1000000 (f64_of_Z 4) (f64_lit 667 1000) (f64_lit 3 2).
Definition demo_ops : list VardiffOp :=
  [VShare 2000 NANOS; VShare 2000 (2 * NANOS); VShare 2000 (2 * NANOS); VShare 2000 (3 * NANOS);
   VShare 2000 (3 * NANOS); VShare 2000 (3 * NANOS); VRetarget (3 * NANOS) (Some 5000)].

Lemma vardiff_assigns_in_range_witness :
  exists v, @vardiff_run linear_libm (vardiff_new demo_vardiff 2000 0) demo_ops
            = Some ([(VRetarget (3 * NANOS) (Some 5000), current v)], v)
            /\ 1000 <= current v <= 5000.
Proof.
  destruct (@vardiff_assigns_in_range linear_libm linear_accurate demo_vardiff 2000 0 demo_ops)
    as (log & v & E & Hl & Hcur).
  - split; try (vm_compute; done).
  - done.
  - by repeat constructor.
  - assert (exists d, log = [(VRetarget (3 * NANOS) (Some 5000), d)]) as [d ->].
    { eexists. apply (f_equal (fmap fst)) in E. vm_compute in E. cbn in E. injection E as <-. reflexivity. }
    cbn in Hcur. subst d. exists v. split; [exact E|]. by apply Forall_inv in Hl.
Defined.

(** Without the bound on the share time the controller can assign a difficulty
    of zero: validation accepts any share time, and when the windows are so long
    that [exp] of an elapsed fraction rounds to one, the averages stay at zero,
    the warm-up correction is zero as well, and their quotient is NaN, which
    both clamps pass on and the cast turns into zero. *)
Lemma long_share_time_assigns_zero :
  let c := mkVardiffConfig (10 ^ 18) 60 1000 1000000 (f64_of_Z 4) (f64_lit 667 1000) (f64_lit 3 2) in
  let ops := [VShare 2000 NANOS; VShare 2000 NANOS; VShare 2000 NANOS; VShare 2000 NANOS;
              VRetarget (2 * NANOS) None] in
  (fun x => (x.1.*2, current x.2)) <$> @vardiff_run linear_libm (vardiff_new c 2000 0) ops = Some ([0], 0).
Proof. vm_compute. reflexivity. Qed.

End VardiffRange.
