(* ===== verification/Stats.v ===== *)
(** * Stats: the pool's in-memory statistics ([src/stats.rs], [PoolStats])

    Share counters and the round, found blocks and their confirmation set, the
    minute ledger, per-worker state and the decaying meters.  Atomics and maps
    under a lock are plain state; the writer thread's queue is the list of
    messages enqueued so far ([store], [None] without a stats database); each
    read of the wall clock is an argument. *)
From S2P Require Import Prelude F64 Json Errors Interfaces Rpc Hashrate.
Import Hashrate.

Module Stats.

(** ** Found blocks *)
Record PendingBlock := mkPendingBlock {
  pb_hash : string;
  pb_height : Z;
  pb_worker : string;
  pb_payout : string;
  found_ts : Z;
  won_at_submit : bool
}.

Inductive BlockResolution : Type := Confirmed | Orphaned | Abandoned.

#[export] Instance BlockResolution_eq_dec : EqDecision BlockResolution.
Proof. solve_decision. Defined.

Definition resolution_label (r : BlockResolution) : string :=
  match r with
  | Confirmed => "confirmed" | Orphaned => "orphaned" | Abandoned => "abandoned"
  end.

Definition BLOCK_STATUS_PENDING : string := "pending".

(** ** The minute ledger *)
Definition LEDGER_INTERVAL_SECS : Z := 60.

Record LedgerPending := mkAmounts { work : Z; accepted : Z; rejected : Z }.
Record LedgerEntry := mkLedgerEntry { le_worker : string; le_amounts : LedgerPending }.
Record LedgerAccum := mkAccum { minute_ts : Z; staged : gmap string LedgerPending }.

(** The minute a time belongs to. *)
Definition minute_of (now : Z) : Z := now / LEDGER_INTERVAL_SECS * LEDGER_INTERVAL_SECS.

Definition take_open (a : LedgerAccum) : option (Z * list LedgerEntry) * LedgerAccum :=
  if bool_decide (staged a = ∅) then (None, a)
  else (Some (minute_ts a, (fun kv => mkLedgerEntry kv.1 kv.2) <$> map_to_list (staged a)),
        mkAccum (minute_ts a) ∅).

Definition roll_to (a : LedgerAccum) (now : Z) : option (Z * list LedgerEntry) * LedgerAccum :=
  let minute := minute_of now in
  if minute =? minute_ts a then (None, a)
  else if minute <? minute_ts a then (None, a)
  else let '(closed, a1) := take_open a in (closed, mkAccum minute (staged a1)).

(** ** Messages to the writer thread *)
Record SnapshotWrite := mkSnapshotWrite {
  history_ts : Z;
  state_ts : Z;
  sw_rates : list f64;
  sw_worker_rates : gmap string (list f64);
  sw_accepted : Z;
  sw_rejected : Z;
  sw_round_reject_reasons : gmap string Z;
  sw_round_work : Z;
  sw_round_epoch : Z;
  sw_share_rates : list f64
}.

Inductive StoreWrite : Type :=
| BestShare (difficulty : Z)
| BestHashrate (hps : f64)
| WorkerBestShare (worker : string) (difficulty : Z)
| Snapshot (s : SnapshotWrite)
| Ledger (minute_ts : Z) (entries : list LedgerEntry)
| RoundReset (epoch since_ts : Z)
| PruneWorkerBestShares (keep : nat)
| BlockFound (b : PendingBlock)
| BlockResolved (hash : string) (resolution : BlockResolution) (resolved_ts : Z)
| Flush.

(** ** State *)
Record SessionHashrate := mkSessionHashrate { sh_worker : string; sh_decay : HashrateDecay }.

Record WorkerState := mkWorkerState {
  ws_protocol : string;
  ws_online : bool;
  ws_current_vardiff : Z;
  ws_shares_accepted : Z;
  ws_shares_rejected : Z;
  ws_shares_stale : Z;
  ws_reject_reasons : gmap string Z;
  ws_best_share_difficulty : Z;
  ws_active_sessions : Z;
  ws_connected_ts : Z;
  ws_last_submit_ts : Z
}.

(** This boot's counters and watermarks. *)
Record Counters := mkCounters {
  shares_accepted : Z;
  shares_rejected : Z;
  rate_limited_drops : Z;
  pending_shares : Z;
  reject_reasons : gmap string Z;
  best_share_difficulty : Z;
  session_best_share_difficulty : Z;
  best_hashrate_bits : Z;
  session_best_hashrate_bits : Z;
  connected_miners : Z
}.

(** What the current round is measured from. *)
Record RoundState := mkRound {
  round_accepted_base : Z;
  round_rejected_base : Z;
  round_offset_accepted : Z;
  round_offset_rejected : Z;
  round_work : Z;
  round_epoch : Z;
  round_since_ts : Z;
  round_reject_reasons_base : gmap string Z;
  round_offset_reject_reasons : gmap string Z
}.

Record BlockCounters := mkBlocks {
  blocks_found : Z;
  blocks_inconclusive : Z;
  blocks_orphaned : Z;
  pending_blocks : gmap string PendingBlock
}.

Record WorkerMaps := mkWorkers {
  worker_states : gmap string WorkerState;
  worker_best_shares : gmap string Z;
  worker_protocol : gmap string string;
  worker_last_submit_ts : gmap string Z;
  session_hashrates : gmap string SessionHashrate
}.

Record PoolStats := mkStats {
  counters : Counters;
  round : RoundState;
  blocks : BlockCounters;
  workers : WorkerMaps;
  share_rate : HashrateDecay;
  ledger : LedgerAccum;
  store : option (list StoreWrite)
}.

Definition with_counters (s : PoolStats) (c : Counters) : PoolStats :=
  mkStats c (round s) (blocks s) (workers s) (share_rate s) (ledger s) (store s).
Definition with_round (s : PoolStats) (r : RoundState) : PoolStats :=
  mkStats (counters s) r (blocks s) (workers s) (share_rate s) (ledger s) (store s).
Definition with_blocks (s : PoolStats) (b : BlockCounters) : PoolStats :=
  mkStats (counters s) (round s) b (workers s) (share_rate s) (ledger s) (store s).
Definition with_workers (s : PoolStats) (w : WorkerMaps) : PoolStats :=
  mkStats (counters s) (round s) (blocks s) w (share_rate s) (ledger s) (store s).
Definition with_ledger (s : PoolStats) (l : LedgerAccum) : PoolStats :=
  mkStats (counters s) (round s) (blocks s) (workers s) (share_rate s) l (store s).

(** [StatsStore::enqueue], when there is a store. *)
Definition enqueue (s : PoolStats) (w : StoreWrite) : PoolStats :=
  mkStats (counters s) (round s) (blocks s) (workers s) (share_rate s) (ledger s)
    ((fun q => q ++ [w]) <$> store s).

(** ** Boot *)
Record PersistedWorkerHashrate := mkPersistedHashrate {
  ph_worker : string;
  ph_updated_ts : Z;
  ph_rates : list f64
}.

(** What is read back; the [store] itself is only whether there is one, and
    pending blocks are keyed by their hash. *)
Record Persisted := mkPersisted {
  p_store : bool;
  p_best_share_difficulty : Z;
  p_best_hashrate_hps : f64;
  p_worker_best_shares : gmap string Z;
  p_hashrates : list PersistedWorkerHashrate;
  p_pending_blocks : gmap string PendingBlock;
  p_blocks_found : Z;
  p_blocks_orphaned : Z;
  p_blocks_inconclusive : Z;
  p_round_accepted : Z;
  p_round_rejected : Z;
  p_round_since_ts : Z;
  p_round_work : Z;
  p_round_reject_reasons : gmap string Z;
  p_share_rate : option (Z * list f64)
}.

(** A worker's meter resumed from its checkpoint, unless it has died out. *)
Definition restore_session `{Libm} (wall_now : Z) (instant_now : Instant)
    (m : gmap string SessionHashrate) (p : PersistedWorkerHashrate) : gmap string SessionHashrate :=
  let d := restored instant_now (ph_rates p) (sat_sub wall_now (ph_updated_ts p) * NANOS) in
  if is_idle d then m
  else <["restored:" +:+ ph_worker p := mkSessionHashrate (ph_worker p) d]> m.

Definition from_persisted `{Libm} (p : Persisted) (wall_now : Z) (instant_now : Instant) : PoolStats :=
  let sessions := foldl (restore_session wall_now instant_now) ∅ (p_hashrates p) in
  let rate := match p_share_rate p with
              | Some (updated_ts, rates) =>
                  restored_per_minute instant_now rates (sat_sub wall_now updated_ts * NANOS)
              | None => decay_new instant_now
              end in
  mkStats
    (mkCounters 0 0 0 0 ∅ (p_best_share_difficulty p) 0 (f64_to_bits (p_best_hashrate_hps p)) 0 0)
    (mkRound (p_round_accepted p) (p_round_rejected p) 0 0 (p_round_work p) 0
       (if p_round_since_ts p =? 0 then wall_now else p_round_since_ts p)
       (p_round_reject_reasons p) ∅)
    (mkBlocks (p_blocks_found p) (p_blocks_inconclusive p) (p_blocks_orphaned p)
       (p_pending_blocks p))
    (mkWorkers ∅ (p_worker_best_shares p) ∅ ∅ sessions) rate
    (mkAccum (minute_of wall_now) ∅) (if p_store p then Some [] else None).

(** A fresh pool without history, as [from_persisted] builds from
    [Persisted::default]; [has_store] is whether a database is configured. *)
Definition stats_new (has_store : bool) (wall_now : Z) (instant_now : Instant) : PoolStats :=
  mkStats (mkCounters 0 0 0 0 ∅ 0 0 0 0 0) (mkRound 0 0 0 0 0 0 wall_now ∅ ∅)
    (mkBlocks 0 0 0 ∅) (mkWorkers ∅ ∅ ∅ ∅ ∅) (decay_new instant_now)
    (mkAccum (minute_of wall_now) ∅) (if has_store then Some [] else None).

Definition persisted_default (has_store : bool) : Persisted :=
  mkPersisted has_store 0 f0 ∅ [] ∅ 0 0 0 0 0 0 0 ∅ None.

Lemma stats_new_persisted `{Libm} has_store wall_now instant_now :
  stats_new has_store wall_now instant_now
  = from_persisted (persisted_default has_store) wall_now instant_now.
Proof. reflexivity. Qed.

(** [*map.entry(k).or_insert(0) += n]. *)
Definition bump (m : gmap string Z) (k : string) (n : Z) : gmap string Z :=
  <[k := default 0 (m !! k) + n]> m.

(** ** Shares *)
Definition share_accepted (s : PoolStats) (credit hash_difficulty : Z) : PoolStats :=
  let c := counters s in
  let raised := best_share_difficulty c <? hash_difficulty in
  let s1 := with_counters s (mkCounters
    (wrap64 (shares_accepted c + 1)) (shares_rejected c) (rate_limited_drops c)
    (wrap64 (pending_shares c + 1)) (reject_reasons c)
    (Z.max (best_share_difficulty c) hash_difficulty)
    (Z.max (session_best_share_difficulty c) hash_difficulty)
    (best_hashrate_bits c) (session_best_hashrate_bits c) (connected_miners c)) in
  let r := round s in
  let s2 := with_round s1 (mkRound (round_accepted_base r) (round_rejected_base r)
    (round_offset_accepted r) (round_offset_rejected r) (wrap64 (round_work r + credit))
    (round_epoch r) (round_since_ts r) (round_reject_reasons_base r)
    (round_offset_reject_reasons r)) in
  if raised then enqueue s2 (BestShare hash_difficulty) else s2.

Definition share_rejected (s : PoolStats) (reason : string) : PoolStats :=
  let c := counters s in
  with_counters s (mkCounters (shares_accepted c) (wrap64 (shares_rejected c + 1))
    (rate_limited_drops c) (pending_shares c) (bump (reject_reasons c) reason 1)
    (best_share_difficulty c) (session_best_share_difficulty c) (best_hashrate_bits c)
    (session_best_hashrate_bits c) (connected_miners c)).

Definition message_rate_limited (s : PoolStats) : PoolStats :=
  let c := counters s in
  with_counters s (mkCounters (shares_accepted c) (shares_rejected c)
    (wrap64 (rate_limited_drops c + 1)) (pending_shares c) (reject_reasons c)
    (best_share_difficulty c) (session_best_share_difficulty c) (best_hashrate_bits c)
    (session_best_hashrate_bits c) (connected_miners c)).

Definition set_connected (s : PoolStats) (n : Z) : PoolStats :=
  let c := counters s in
  with_counters s (mkCounters (shares_accepted c) (shares_rejected c) (rate_limited_drops c)
    (pending_shares c) (reject_reasons c) (best_share_difficulty c)
    (session_best_share_difficulty c) (best_hashrate_bits c) (session_best_hashrate_bits c) n).

Definition miner_connected (s : PoolStats) : PoolStats :=
  set_connected s (wrap64 (connected_miners (counters s) + 1)).
Definition miner_disconnected (s : PoolStats) : PoolStats :=
  set_connected s (wrap64 (connected_miners (counters s) - 1)).

(** ** The ledger on the share path *)
Definition persist_ledger_minute (s : PoolStats) (closed : option (Z * list LedgerEntry))
  : PoolStats :=
  match closed with
  | Some (m, entries) => enqueue s (Ledger m entries)
  | None => s
  end.

Definition add_amounts (a b : LedgerPending) : LedgerPending :=
  mkAmounts (sat_add64 (work a) (work b)) (sat_add64 (accepted a) (accepted b))
    (sat_add64 (rejected a) (rejected b)).
Definition no_amounts : LedgerPending := mkAmounts 0 0 0.

Definition record_ledger (s : PoolStats) (worker : string) (amounts : LedgerPending) (now : Z)
  : PoolStats :=
  match store s with
  | None => s
  | Some _ =>
      match worker_states (workers s) !! worker with
      | None => s
      | Some _ =>
          let '(closed, a) := roll_to (ledger s) now in
          let entry := default no_amounts (staged a !! worker) in
          let a1 := mkAccum (minute_ts a) (<[worker := add_amounts entry amounts]> (staged a)) in
          persist_ledger_minute (with_ledger s a1) closed
      end
  end.

Definition ledger_share_accepted (s : PoolStats) (worker : string) (credit now : Z) : PoolStats :=
  record_ledger s worker (mkAmounts credit 1 0) now.
Definition ledger_share_rejected (s : PoolStats) (worker : string) (now : Z) : PoolStats :=
  record_ledger s worker (mkAmounts 0 0 1) now.

Definition flush_ledger_at (s : PoolStats) (now : Z) : PoolStats :=
  match store s with
  | None => s
  | Some _ => let '(closed, a) := roll_to (ledger s) now in
              persist_ledger_minute (with_ledger s a) closed
  end.

Definition flush_ledger_partial (s : PoolStats) : PoolStats :=
  match store s with
  | None => s
  | Some _ => let '(closed, a) := take_open (ledger s) in
              persist_ledger_minute (with_ledger s a) closed
  end.

(** ** The round *)
Definition round_shares_accepted (s : PoolStats) : Z :=
  sat_sub (sat_add64 (round_accepted_base (round s)) (shares_accepted (counters s)))
    (round_offset_accepted (round s)).
Definition round_shares_rejected (s : PoolStats) : Z :=
  sat_sub (sat_add64 (round_rejected_base (round s)) (shares_rejected (counters s)))
    (round_offset_rejected (round s)).

(** [base.clone()] with this boot's reasons added in. *)
Definition merged_reasons (s : PoolStats) : gmap string Z :=
  map_fold (fun k n m => bump m k n) (round_reject_reasons_base (round s))
    (reject_reasons (counters s)).

Definition round_reject_reasons (s : PoolStats) : gmap string Z :=
  map_imap (fun k n =>
    let n' := sat_sub n (default 0 (round_offset_reject_reasons (round s) !! k)) in
    if 0 <? n' then Some n' else None) (merged_reasons s).

Definition zero_best (w : WorkerState) : WorkerState :=
  mkWorkerState (ws_protocol w) (ws_online w) (ws_current_vardiff w) (ws_shares_accepted w)
    (ws_shares_rejected w) (ws_shares_stale w) (ws_reject_reasons w) 0 (ws_active_sessions w)
    (ws_connected_ts w) (ws_last_submit_ts w).

Definition round_reset (s : PoolStats) (now : Z) : PoolStats :=
  let c := counters s in
  let r := round s in
  let w := workers s in
  let epoch := wrap64 (round_epoch r + 1) in
  let r1 := mkRound (round_accepted_base r) (round_rejected_base r)
    (sat_add64 (round_accepted_base r) (shares_accepted c))
    (sat_add64 (round_rejected_base r) (shares_rejected c))
    0 epoch now (round_reject_reasons_base r) (merged_reasons s) in
  let c1 := mkCounters (shares_accepted c) (shares_rejected c) (rate_limited_drops c)
    (pending_shares c) (reject_reasons c) 0 (session_best_share_difficulty c) 0
    (session_best_hashrate_bits c) (connected_miners c) in
  let w1 := mkWorkers (zero_best <$> worker_states w) ∅ (worker_protocol w)
    (worker_last_submit_ts w) (session_hashrates w) in
  enqueue (mkStats c1 r1 (blocks s) w1 (share_rate s) (ledger s) (store s)) (RoundReset epoch now).

(** ** Blocks *)
Definition set_blocks_found (b : BlockCounters) (n : Z) : BlockCounters :=
  mkBlocks n (blocks_inconclusive b) (blocks_orphaned b) (pending_blocks b).
Definition set_blocks_inconclusive (b : BlockCounters) (n : Z) : BlockCounters :=
  mkBlocks (blocks_found b) n (blocks_orphaned b) (pending_blocks b).
Definition set_blocks_orphaned (b : BlockCounters) (n : Z) : BlockCounters :=
  mkBlocks (blocks_found b) (blocks_inconclusive b) n (pending_blocks b).
Definition set_pending (b : BlockCounters) (p : gmap string PendingBlock) : BlockCounters :=
  mkBlocks (blocks_found b) (blocks_inconclusive b) (blocks_orphaned b) p.

Definition block_found (s : PoolStats) (now : Z) : PoolStats :=
  round_reset (with_blocks s (set_blocks_found (blocks s)
                                (wrap64 (blocks_found (blocks s) + 1)))) now.

Definition block_inconclusive (s : PoolStats) : PoolStats :=
  with_blocks s (set_blocks_inconclusive (blocks s) (wrap64 (blocks_inconclusive (blocks s) + 1))).

Definition enroll_pending_block (s : PoolStats) (height : Z) (hash worker payout : string)
    (won : bool) (now : Z) : PoolStats :=
  let block := mkPendingBlock hash height worker payout now won in
  match pending_blocks (blocks s) !! hash with
  | Some _ => s
  | None =>
      enqueue (with_blocks s (set_pending (blocks s) (<[hash := block]> (pending_blocks (blocks s)))))
        (BlockFound block)
  end.

(** [resolve_block]; the clock is read by [block_found] and for the store. *)
Definition resolve_block (s : PoolStats) (block : PendingBlock) (resolution : BlockResolution)
    (now : Z) : bool * PoolStats :=
  match pending_blocks (blocks s) !! pb_hash block with
  | None => (false, s)
  | Some _ =>
      let s1 := with_blocks s (set_pending (blocks s)
                                 (delete (pb_hash block) (pending_blocks (blocks s)))) in
      let s2 :=
        match won_at_submit block, resolution with
        | true, Orphaned =>
            let b := set_blocks_orphaned (blocks s1) (wrap64 (blocks_orphaned (blocks s1) + 1)) in
            with_blocks s1 (set_blocks_found b (sat_sub (blocks_found b) 1))
        | false, Confirmed =>
            block_found (with_blocks s1 (set_blocks_inconclusive (blocks s1)
                                           (sat_sub (blocks_inconclusive (blocks s1)) 1))) now
        | _, _ => s1
        end in
      (true, enqueue s2 (BlockResolved (pb_hash block) resolution now))
  end.

(** ** Workers *)
Definition set_states (w : WorkerMaps) (m : gmap string WorkerState) : WorkerMaps :=
  mkWorkers m (worker_best_shares w) (worker_protocol w) (worker_last_submit_ts w)
    (session_hashrates w).

Definition alter_state (s : PoolStats) (worker : string) (f : WorkerState -> WorkerState)
  : PoolStats :=
  with_workers s (set_states (workers s) (alter f worker (worker_states (workers s)))).

Definition set_worker_protocol (s : PoolStats) (worker protocol : string) : PoolStats :=
  let w := workers s in
  let s1 := with_workers s (mkWorkers (worker_states w) (worker_best_shares w)
    (<[worker := protocol]> (worker_protocol w)) (worker_last_submit_ts w)
    (session_hashrates w)) in
  alter_state s1 worker (fun st =>
    mkWorkerState protocol (ws_online st) (ws_current_vardiff st) (ws_shares_accepted st)
      (ws_shares_rejected st) (ws_shares_stale st) (ws_reject_reasons st)
      (ws_best_share_difficulty st) (ws_active_sessions st) (ws_connected_ts st)
      (ws_last_submit_ts st)).

Definition mark_worker_submit (s : PoolStats) (worker : string) (now : Z) : PoolStats :=
  let w := workers s in
  let s1 := with_workers s (mkWorkers (worker_states w) (worker_best_shares w) (worker_protocol w)
    (<[worker := now]> (worker_last_submit_ts w)) (session_hashrates w)) in
  alter_state s1 worker (fun st =>
    mkWorkerState (ws_protocol st) (ws_online st) (ws_current_vardiff st) (ws_shares_accepted st)
      (ws_shares_rejected st) (ws_shares_stale st) (ws_reject_reasons st)
      (ws_best_share_difficulty st) (ws_active_sessions st) (ws_connected_ts st) now).

Definition mark_worker_online (s : PoolStats) (worker : string) (vardiff now : Z) : PoolStats :=
  let w := workers s in
  match worker_states w !! worker with
  | Some _ => alter_state s worker (fun st =>
      mkWorkerState (ws_protocol st) true vardiff (ws_shares_accepted st)
        (ws_shares_rejected st) (ws_shares_stale st) (ws_reject_reasons st)
        (ws_best_share_difficulty st) (sat_add64 (ws_active_sessions st) 1) now
        (ws_last_submit_ts st))
  | None =>
      let st := mkWorkerState (default "sv1" (worker_protocol w !! worker)) true vardiff 0 0 0 ∅
                  (default 0 (worker_best_shares w !! worker)) 1 now 0 in
      with_workers s (set_states w (<[worker := st]> (worker_states w)))
  end.

Definition mark_worker_offline (s : PoolStats) (worker : string) : PoolStats :=
  alter_state s worker (fun st =>
    let last := ws_active_sessions st <=? 1 in
    mkWorkerState (ws_protocol st) (if last then false else ws_online st) (ws_current_vardiff st)
      (ws_shares_accepted st) (ws_shares_rejected st) (ws_shares_stale st) (ws_reject_reasons st)
      (ws_best_share_difficulty st) (if last then 0 else ws_active_sessions st - 1)
      (ws_connected_ts st) (ws_last_submit_ts st)).

Definition update_worker_vardiff (s : PoolStats) (worker : string) (vardiff now : Z) : PoolStats :=
  match worker_states (workers s) !! worker with
  | Some _ => alter_state s worker (fun st =>
      mkWorkerState (ws_protocol st) (ws_online st) vardiff (ws_shares_accepted st)
        (ws_shares_rejected st) (ws_shares_stale st) (ws_reject_reasons st)
        (ws_best_share_difficulty st) (ws_active_sessions st) (ws_connected_ts st)
        (ws_last_submit_ts st))
  | None => mark_worker_online s worker vardiff now
  end.

Definition worker_share_accepted (s : PoolStats) (worker : string) (difficulty : Z) : PoolStats :=
  let s1 := alter_state s worker (fun st =>
    mkWorkerState (ws_protocol st) (ws_online st) (ws_current_vardiff st)
      (ws_shares_accepted st + 1) (ws_shares_rejected st) (ws_shares_stale st)
      (ws_reject_reasons st) (Z.max (ws_best_share_difficulty st) difficulty)
      (ws_active_sessions st) (ws_connected_ts st) (ws_last_submit_ts st)) in
  let w := workers s1 in
  let old := default 0 (worker_best_shares w !! worker) in
  let s2 := with_workers s1 (mkWorkers (worker_states w)
    (<[worker := Z.max old difficulty]> (worker_best_shares w)) (worker_protocol w)
    (worker_last_submit_ts w) (session_hashrates w)) in
  if old <? difficulty then enqueue s2 (WorkerBestShare worker difficulty) else s2.

Definition worker_share_rejected (s : PoolStats) (worker reason : string) : PoolStats :=
  alter_state s worker (fun st =>
    mkWorkerState (ws_protocol st) (ws_online st) (ws_current_vardiff st) (ws_shares_accepted st)
      (ws_shares_rejected st + 1)
      (if bool_decide (reason = "stale") then ws_shares_stale st + 1 else ws_shares_stale st)
      (bump (ws_reject_reasons st) reason 1) (ws_best_share_difficulty st)
      (ws_active_sessions st) (ws_connected_ts st) (ws_last_submit_ts st)).

(** ** Meters *)
Definition set_sessions (w : WorkerMaps) (m : gmap string SessionHashrate) : WorkerMaps :=
  mkWorkers (worker_states w) (worker_best_shares w) (worker_protocol w)
    (worker_last_submit_ts w) m.

Definition add_share_diff (s : PoolStats) (session_id worker : string) (difficulty : f64)
    (now : Instant) : PoolStats :=
  let m := session_hashrates (workers s) in
  let entry := match m !! session_id with
               | Some e => mkSessionHashrate worker (add_share (sh_decay e) difficulty)
               | None => mkSessionHashrate worker (add_share (decay_new now) difficulty)
               end in
  with_workers s (set_sessions (workers s) (<[session_id := entry]> m)).

Definition windows_add (a b : list f64) : list f64 := zip_with fadd a b.
Definition windows_zero : list f64 := repeat f0 WINDOW_COUNT.

Definition hashrates_by_worker (s : PoolStats) : gmap string (list f64) :=
  map_fold (fun _ e m =>
    <[sh_worker e := windows_add (default windows_zero (m !! sh_worker e)) (hashrates (sh_decay e))]> m)
    ∅ (session_hashrates (workers s)).

Definition total_hashrate (s : PoolStats) : list f64 :=
  map_fold (fun _ r acc => windows_add acc r) windows_zero (hashrates_by_worker s).

Definition record_best_hashrate (s : PoolStats) (total_10m : f64) : PoolStats :=
  if negb (is_finite total_10m) || (total_10m <? f0)%f64 then s
  else
    let bits := f64_to_bits total_10m in
    let c := counters s in
    let s1 := with_counters s (mkCounters (shares_accepted c) (shares_rejected c)
      (rate_limited_drops c) (pending_shares c) (reject_reasons c) (best_share_difficulty c)
      (session_best_share_difficulty c) (Z.max (best_hashrate_bits c) bits)
      (Z.max (session_best_hashrate_bits c) bits) (connected_miners c)) in
    if best_hashrate_bits c <? bits then enqueue s1 (BestHashrate total_10m) else s1.

Definition take_pending_shares (s : PoolStats) : PoolStats :=
  let c := counters s in
  with_counters s (mkCounters (shares_accepted c) (shares_rejected c) (rate_limited_drops c) 0
    (reject_reasons c) (best_share_difficulty c) (session_best_share_difficulty c)
    (best_hashrate_bits c) (session_best_hashrate_bits c) (connected_miners c)).

Definition tick_hashrates `{Libm} (s : PoolStats) (now : Instant) : PoolStats :=
  let ticked := (fun e => mkSessionHashrate (sh_worker e) (tick (sh_decay e) now))
                  <$> session_hashrates (workers s) in
  let s1 := with_workers s (set_sessions (workers s)
              (filter (fun kv => is_idle (sh_decay kv.2) = false) ticked)) in
  let total := total_hashrate s1 in
  let meter := tick (add_share (share_rate s1) (f64_of_Z (pending_shares (counters s1)))) now in
  let s2 := take_pending_shares (mkStats (counters s1) (round s1) (blocks s1) (workers s1) meter
              (ledger s1) (store s1)) in
  record_best_hashrate s2 (default f0 (total !! 2%nat)).

Definition SNAPSHOT_INTERVAL_SECS : Z := 10.

Definition record_hashrate_snapshot (s0 : PoolStats) (state_ts : Z) : PoolStats :=
  let s := flush_ledger_at s0 state_ts in
  enqueue s (Snapshot (mkSnapshotWrite
    (state_ts / SNAPSHOT_INTERVAL_SECS * SNAPSHOT_INTERVAL_SECS) state_ts
    (total_hashrate s) (hashrates_by_worker s) (round_shares_accepted s)
    (round_shares_rejected s) (round_reject_reasons s) (round_work (round s))
    (round_epoch (round s)) (per_minute (share_rate s)))).

Definition shutdown_persist (s : PoolStats) (now : Z) : PoolStats :=
  enqueue (flush_ledger_partial (record_hashrate_snapshot s now)) Flush.

(** ** Conservation of the ledger *)
Inductive LedgerOp : Type :=
| LRecord (worker : string) (amounts : LedgerPending) (now : Z)
| LFlush (now : Z)
| LPartial.

Definition ledger_step (s : PoolStats) (op : LedgerOp) : PoolStats :=
  match op with
  | LRecord w a now => record_ledger s w a now
  | LFlush now => flush_ledger_at s now
  | LPartial => flush_ledger_partial s
  end.

Section Conservation.
(** A column of the ledger. *)
Variable q : LedgerPending -> Z.
Hypothesis q_none : q no_amounts = 0.
Hypothesis q_add : forall a b, q a + q b <= u64_max -> q (add_amounts a b) = q a + q b.

Definition entry_amount (w : string) (e : LedgerEntry) : Z :=
  if bool_decide (le_worker e = w) then q (le_amounts e) else 0.

Definition closed_amount (w : string) (c : option (Z * list LedgerEntry)) : Z :=
  match c with Some (_, es) => sum_Z (entry_amount w <$> es) | None => 0 end.

Definition write_amount (w : string) (m : StoreWrite) : Z :=
  match m with Ledger _ es => sum_Z (entry_amount w <$> es) | _ => 0 end.

(** What has been handed to the writer, and what is still staged. *)
Definition flushed (w : string) (s : PoolStats) : Z :=
  sum_Z (write_amount w <$> default [] (store s)).
Definition staged_amount (w : string) (a : LedgerAccum) : Z := from_option q 0 (staged a !! w).

Definition op_amount (w : string) (op : LedgerOp) : Z :=
  match op with
  | LRecord w' a _ => if bool_decide (w' = w) then q a else 0
  | _ => 0
  end.

Lemma sum_Z_app l1 l2 : sum_Z (l1 ++ l2) = sum_Z l1 + sum_Z l2.
Proof. unfold sum_Z. induction l1 as [|x l1 IH]; cbn; [done|]. rewrite IH. lia. Qed.

Lemma take_open_conserves w a c a' :
  take_open a = (c, a') ->
  closed_amount w c + staged_amount w a' = staged_amount w a
  /\ ((c = None /\ staged a' = staged a) \/ staged a' = ∅).
Proof.
  unfold take_open. case_bool_decide as E; intros [= <- <-]; [split; [cbn; lia | auto]|].
  split; [|auto]. unfold staged_amount. cbn. rewrite lookup_empty. cbn.
  rewrite <- (sum_map_at q (staged a) w), sum_map_foldr, Z.add_0_r. unfold sum_Z.
  induction (map_to_list (staged a)) as [|[k v] l IH]; [done|]. cbn in *. by rewrite IH.
Qed.

(** Rolling either leaves the staged amounts alone or hands all of them over. *)
Lemma roll_to_conserves w a now c a' :
  roll_to a now = (c, a') ->
  closed_amount w c + staged_amount w a' = staged_amount w a
  /\ ((c = None /\ staged a' = staged a) \/ staged a' = ∅).
Proof.
  unfold roll_to. destruct (_ =? _); [intros [= <- <-]; split; [cbn; lia | auto]|].
  destruct (_ <? _); [intros [= <- <-]; split; [cbn; lia | auto]|].
  destruct (take_open a) as [c0 a0] eqn:E. intros [= <- <-].
  apply (take_open_conserves w) in E. exact E.
Qed.

Lemma handed_over w a c a' :
  closed_amount w c + staged_amount w a' = staged_amount w a
  /\ ((c = None /\ staged a' = staged a) \/ staged a' = ∅) ->
  0 <= staged_amount w a -> 0 <= closed_amount w c /\ 0 <= staged_amount w a'.
Proof.
  intros [H [[-> E]|E]] Ha; unfold staged_amount in *; rewrite E in *; [cbn in *; lia|].
  rewrite lookup_empty in *. cbn in *. lia.
Qed.

Lemma flushed_persist w s c :
  is_Some (store s) -> flushed w (persist_ledger_minute s c) = flushed w s + closed_amount w c.
Proof.
  intros [l Hl]. destruct c as [[m es]|]; cbn; [|lia].
  unfold flushed. cbn [store enqueue]. rewrite Hl.
  cbn [fmap option_fmap option_map default from_option id].
  rewrite fmap_app, sum_Z_app. cbn. lia.
Qed.

Lemma persist_frame s c :
  ledger (persist_ledger_minute s c) = ledger s /\ workers (persist_ledger_minute s c) = workers s
  /\ (is_Some (store s) -> is_Some (store (persist_ledger_minute s c))).
Proof. destruct c as [[m es]|]; [|done]. repeat split. intros [l Hl]. cbn. rewrite Hl. eauto. Qed.

(** What every operation keeps: a store, the worker, and amounts that are not
    negative and add up to [total]. *)
Record conserved (w : string) (s : PoolStats) (total : Z) : Prop := {
  c_store : is_Some (store s);
  c_worker : is_Some (worker_states (workers s) !! w);
  c_flushed : 0 <= flushed w s;
  c_staged : 0 <= staged_amount w (ledger s);
  c_total : flushed w s + staged_amount w (ledger s) = total
}.

(** Handing over a closed minute. *)
Lemma conserved_persist w s c a total :
  conserved w s total ->
  closed_amount w c + staged_amount w a = staged_amount w (ledger s)
  /\ ((c = None /\ staged a = staged (ledger s)) \/ staged a = ∅) ->
  conserved w (persist_ledger_minute (with_ledger s a) c) total.
Proof.
  intros [H1 H2 H3 H4 H5] Hc. destruct (handed_over w (ledger s) c a Hc H4).
  destruct Hc as [Hc _]. destruct (persist_frame (with_ledger s a) c) as (El & Ew & Es).
  split; rewrite ?El, ?Ew, ?flushed_persist by done;
    change (flushed w (with_ledger s a)) with (flushed w s); cbn [ledger with_ledger workers];
    [by apply Es | done | lia..].
Qed.

Lemma conserved_step w s op total :
  conserved w s total -> 0 <= op_amount w op -> total + op_amount w op <= u64_max ->
  conserved w (ledger_step s op) (total + op_amount w op).
Proof.
  intros C Hop Hb. pose proof C as [[l Hl] [st Hst] H3 H4 H5].
  destruct op as [w' a now|now|]; cbn [ledger_step op_amount] in *.
  - unfold record_ledger. rewrite Hl.
    destruct (worker_states (workers s) !! w') as [st'|] eqn:Ew';
      [|rewrite bool_decide_false in * by congruence; by rewrite Z.add_0_r].
    destruct (roll_to (ledger s) now) as [c a1] eqn:Er.
    pose proof (roll_to_conserves w _ _ _ _ Er) as Hc.
    destruct (conserved_persist w s c a1 total C Hc) as [K1 K2 K3 K4 K5].
    destruct (persist_frame (with_ledger s a1) c) as (El & Ew & Es). rewrite El in K4, K5.
    set (a2 := mkAccum _ _). destruct (persist_frame (with_ledger s a2) c) as (El2 & Ew2 & Es2).
    rewrite flushed_persist in K3, K5 by done.
    assert (staged_amount w a2 = staged_amount w a1
              + (if bool_decide (w' = w) then q a else 0)) as Ha2.
    { unfold staged_amount, a2 in *. cbn in *. case_bool_decide.
      - subst w'. rewrite lookup_insert_eq. cbn.
        destruct (staged a1 !! w); cbn in *; rewrite q_add, ?q_none; lia.
      - rewrite lookup_insert_ne by done. lia. }
    split; rewrite ?El2, ?Ew2, ?flushed_persist by done; cbn [ledger with_ledger] in *;
      [by apply Es2 | eauto | exact K3 | lia |].
    change (flushed w (with_ledger s a2)) with (flushed w (with_ledger s a1)). lia.
  - rewrite Z.add_0_r. unfold flush_ledger_at. rewrite Hl.
    destruct (roll_to (ledger s) now) as [c a1] eqn:Er.
    apply conserved_persist; [done|]. by apply (roll_to_conserves w) in Er.
  - rewrite Z.add_0_r. unfold flush_ledger_partial. rewrite Hl.
    destruct (take_open (ledger s)) as [c a1] eqn:Er.
    apply conserved_persist; [done|]. by apply (take_open_conserves w) in Er.
Qed.

Lemma conserved_run w ops s total :
  conserved w s total -> Forall (fun op => 0 <= op_amount w op) ops ->
  total + sum_Z (op_amount w <$> ops) <= u64_max ->
  conserved w (foldl ledger_step s ops) (total + sum_Z (op_amount w <$> ops)).
Proof.
  revert s total; induction ops as [|op ops IH]; intros s total C Hnn Hb; cbn [foldl].
  - unfold sum_Z. cbn. by rewrite Z.add_0_r.
  - apply Forall_cons in Hnn as [Hop Hops].
    assert (0 <= sum_Z (op_amount w <$> ops)).
    { clear -Hops. induction Hops; [done|]. unfold sum_Z in *. cbn. lia. }
    change (sum_Z (op_amount w <$> op :: ops))
      with (op_amount w op + sum_Z (op_amount w <$> ops)) in *.
    rewrite Z.add_assoc in *. apply IH; [|done|done]. apply conserved_step; [done | done | lia].
Qed.
End Conservation.

(** ** The round *)

(** What shares and found blocks do to the pool-wide figures. *)
Inductive RoundOp : Type :=
| RAccept (credit hash_difficulty : Z)
| RReject (reason : string)
| RBlock (now : Z).

Definition round_step (s : PoolStats) (op : RoundOp) : PoolStats :=
  match op with
  | RAccept c h => share_accepted s c h
  | RReject r => share_rejected s r
  | RBlock now => block_found s now
  end.

(** The figures of a round, counted from its operations alone. *)
Record RoundFigures := mkFigures { n_accepted : Z; n_rejected : Z; n_work : Z; best : Z }.

Definition figures_step (f : RoundFigures) (op : RoundOp) : RoundFigures :=
  match op with
  | RAccept c h => mkFigures (n_accepted f + 1) (n_rejected f) (n_work f + c) (Z.max (best f) h)
  | RReject _ => mkFigures (n_accepted f) (n_rejected f + 1) (n_work f) (best f)
  | RBlock _ => mkFigures 0 0 0 0
  end.

Definition displayed (s : PoolStats) : RoundFigures :=
  mkFigures (round_shares_accepted s) (round_shares_rejected s) (round_work (round s))
    (best_share_difficulty (counters s)).

Definition op_credit (op : RoundOp) : Z := match op with RAccept c _ => c | _ => 0 end.

(** The counters are far from wrapping, the offsets never pass the totals, and
    the figures shown are [f]. *)
Record round_inv (s : PoolStats) (f : RoundFigures) (n work : Z) : Prop := {
  ri_acc : 0 <= round_accepted_base (round s) + shares_accepted (counters s) <= n;
  ri_rej : 0 <= round_rejected_base (round s) + shares_rejected (counters s) <= n;
  ri_acc0 : 0 <= shares_accepted (counters s) /\ 0 <= round_accepted_base (round s);
  ri_rej0 : 0 <= shares_rejected (counters s) /\ 0 <= round_rejected_base (round s);
  ri_offa : round_offset_accepted (round s)
            <= round_accepted_base (round s) + shares_accepted (counters s);
  ri_offr : round_offset_rejected (round s)
            <= round_rejected_base (round s) + shares_rejected (counters s);
  ri_work : 0 <= round_work (round s) <= work;
  ri_shown : displayed s = f
}.

Local Ltac round_arith :=
  unfold displayed, round_shares_accepted, round_shares_rejected in *; cbn in *;
  unfold wrap64, sat_add64, sat_sub, u64_max in *;
  rewrite ?Z.mod_small by lia; first [lia | f_equal; lia].

Lemma round_inv_step s f n work op :
  round_inv s f n work -> n < u64_max -> 0 <= op_credit op -> work + op_credit op <= u64_max ->
  round_inv (round_step s op) (figures_step f op) (n + 1) (work + op_credit op).
Proof.
  intros [H1 H2 H3 H4 H5 H6 H7 <-] Hn Hc Hw.
  destruct op as [c h|r|now]; cbn [round_step op_credit figures_step] in *.
  - unfold share_accepted. cbv zeta.
    destruct (_ <? _); split; round_arith.
  - split; round_arith.
  - split; round_arith.
Qed.

Lemma round_inv_run ops s f n work :
  round_inv s f n work -> Forall (fun op => 0 <= op_credit op) ops ->
  n + Z.of_nat (length ops) <= u64_max -> work + sum_Z (op_credit <$> ops) <= u64_max ->
  displayed (foldl round_step s ops) = foldl figures_step f ops.
Proof.
  revert s f n work; induction ops as [|op ops IH]; intros s f n work I Hnn Hn Hw.
  - apply I.
  - apply Forall_cons in Hnn as [Hop Hops]. cbn [length foldl] in *.
    assert (0 <= sum_Z (op_credit <$> ops)).
    { clear -Hops. induction Hops; [done|]. unfold sum_Z in *. cbn. lia. }
    change (sum_Z (op_credit <$> op :: ops)) with (op_credit op + sum_Z (op_credit <$> ops)) in Hw.
    eapply (IH _ _ (n + 1) (work + op_credit op)); [|done|lia|lia].
    apply round_inv_step; [done | lia | done | lia].
Qed.

(** ** Properties *)

(** The share ledger loses no work: for a worker the pool knows, whatever
    the interleaving of shares, minute flushes, partial flushes and clock
    readings (a clock stepping backwards included), the amounts handed to the
    writer plus those still staged add up to exactly the amounts recorded, in
    each of the three columns, as long as the total fits 64 bits. *)
Lemma ledger_conserves_amounts (t0 : Z) (i0 : Instant) (w : string) (vd : Z) (ops : list LedgerOp) :
  let s0 := mark_worker_online (stats_new true t0 i0) w vd t0 in
  let s := foldl ledger_step s0 ops in
  Forall (fun q => Forall (fun op => 0 <= op_amount q w op) ops
                   /\ sum_Z (op_amount q w <$> ops) <= u64_max) [work; accepted; rejected] ->
  Forall (fun q => flushed q w s + staged_amount q w (ledger s) = sum_Z (op_amount q w <$> ops))
    [work; accepted; rejected].
Proof.
  intros s0 s HF. rewrite Forall_forall in HF |- *. intros q Hq. destruct (HF q Hq) as [Hnn Hb].
  assert (q no_amounts = 0 /\
          forall a b, q a + q b <= u64_max -> q (add_amounts a b) = q a + q b) as [Q1 Q2].
  { rewrite !elem_of_cons in Hq. destruct Hq as [->|[->|[->|Hq]]]; [..|by apply not_elem_of_nil in Hq];
      (split; [done|]); intros a b Hab; cbn; unfold sat_add64; lia. }
  apply (conserved_run q Q1 Q2 w ops s0 0); [|done|done].
  unfold s0, mark_worker_online. cbn [workers stats_new worker_states]. rewrite lookup_empty.
  split; cbn; [by eexists | rewrite lookup_insert_eq; by eexists | done..].
Qed.

Definition demo_ops : list LedgerOp :=
  [LRecord "a" (mkAmounts 1000 1 0) 5; LRecord "b" (mkAmounts 7 1 0) 10;
   LRecord "a" (mkAmounts 500 1 0) 65; LFlush 130; LRecord "a" (mkAmounts 0 0 1) 20; LPartial].

Example demo_ledger_conserved :
  let s := foldl ledger_step (mark_worker_online (stats_new true 0 0) "a" 1 0) demo_ops in
  Forall (fun q => flushed q "a" s + staged_amount q "a" (ledger s)
                   = sum_Z (op_amount q "a" <$> demo_ops)) [work; accepted; rejected]
  /\ sum_Z (op_amount work "a" <$> demo_ops) = 1500.
Proof.
  split; [|reflexivity].
  apply (ledger_conserves_amounts 0 0 "a" 1 demo_ops).
  repeat constructor; vm_compute; try discriminate; reflexivity.
Qed.

(** C19. The dashboard's round figures are those of the current round: from a
    fresh pool, over any sequence of accepted shares, rejected shares and found
    blocks, the accepted and rejected counts, the credited work and the best
    share shown equal those counted from the shares since the last found block
    alone, as long as the totals fit 64 bits. *)
Theorem round_figures_since_last_block (has_store : bool) (t0 : Z) (i0 : Instant)
    (ops : list RoundOp) :
  Forall (fun op => 0 <= op_credit op) ops ->
  Z.of_nat (length ops) <= u64_max -> sum_Z (op_credit <$> ops) <= u64_max ->
  displayed (foldl round_step (stats_new has_store t0 i0) ops)
  = foldl figures_step (mkFigures 0 0 0 0) ops.
Proof.
  intros H1 H2 H3. apply (round_inv_run ops _ _ 0 0); [|done|lia|lia].
  split; cbn; (lia || done).
Qed.

Lemma round_figures_since_last_block_witness :
  displayed (foldl round_step (stats_new true 0 0)
    [RAccept 1000 1200; RReject "stale"; RBlock 50; RAccept 64 90; RAccept 64 70])
  = mkFigures 2 0 128 90.
Proof.
  apply (round_figures_since_last_block true 0 0
    [RAccept 1000 1200; RReject "stale"; RBlock 50; RAccept 64 90; RAccept 64 70]).
  - repeat constructor; cbn; lia.
  - vm_compute. discriminate.
  - vm_compute. discriminate.
Defined.

End Stats.
