(* ===== verification/Store.v ===== *)
(** * Store: the stats database and its writer thread ([src/stats.rs])

    The durable and round-scoped tables as finite maps, each SQL statement as
    the function of the tables it computes, and the writer loop with its retry
    backlog.  Whether the disk accepts a write is an oracle; a write that fails
    leaves the tables unchanged (every multi-statement write is one
    transaction).  The chart caches and checkpoints are [Meters]; the queries
    over the tables are in [History]. *)
From S2P Require Import Prelude Text F64 Json Errors Interfaces Rpc Hashrate Stats.
Import Stats.

Module Store.

(** ** Tables *)
Record BlockRow := mkBlockRow {
  row_block : PendingBlock;
  row_status : string;
  row_resolved_ts : option Z
}.

Record RoundRow := mkRoundRow {
  rr_accepted : Z;
  rr_rejected : Z;
  rr_work : Z;
  rr_since_ts : Z;
  rr_best_share : Z;
  rr_best_hashrate : f64
}.

(** A worker row is a user (payout address) and a label. *)
Definition WorkerKey : Type := string * string.
#[export] Instance WorkerKey_eq_dec : EqDecision WorkerKey.
Proof. solve_decision. Defined.
#[export] Instance WorkerKey_countable : Countable WorkerKey.
Proof. unfold WorkerKey. apply _. Defined.

(** The caches of the meters: two charted series by time, the workers' last
    rates and the pool's share rate with the time they were written.  A series
    row has six of the seven windows. *)
Record Meters := mkMeters {
  hashrate_history : gmap Z (list f64);
  share_rate_history : gmap Z (list f64);
  worker_hashrate_state : gmap string (Z * list f64);
  share_rate_state : option (Z * list f64)
}.

Record Db := mkDb {
  found_blocks : gmap string BlockRow;
  round_stats : RoundRow;
  round_reasons : gmap string Z;
  round_worker_best : gmap string Z;
  worker_rows : gset WorkerKey;
  share_intervals : gmap (WorkerKey * Z) LedgerPending;
  share_intervals_hourly : gmap (WorkerKey * Z) LedgerPending;
  meters : Meters
}.

(** A file [StatsStore::open] has just created. *)
Definition db_new (now : Z) : Db :=
  mkDb ∅ (mkRoundRow 0 0 0 now 0 f0) ∅ ∅ ∅ ∅ ∅ (mkMeters ∅ ∅ ∅ None).

Definition set_found_blocks (d : Db) (m : gmap string BlockRow) : Db :=
  mkDb m (round_stats d) (round_reasons d) (round_worker_best d) (worker_rows d)
    (share_intervals d) (share_intervals_hourly d) (meters d).
Definition set_round (d : Db) (r : RoundRow) (reasons best : gmap string Z) : Db :=
  mkDb (found_blocks d) r reasons best (worker_rows d) (share_intervals d)
    (share_intervals_hourly d) (meters d).
Definition set_intervals (d : Db) (rows : gset WorkerKey)
    (fine hourly : gmap (WorkerKey * Z) LedgerPending) : Db :=
  mkDb (found_blocks d) (round_stats d) (round_reasons d) (round_worker_best d) rows fine hourly
    (meters d).
Definition set_meters (d : Db) (m : Meters) : Db :=
  mkDb (found_blocks d) (round_stats d) (round_reasons d) (round_worker_best d) (worker_rows d)
    (share_intervals d) (share_intervals_hourly d) m.

(** ** The writer's state *)
Record WriterState := mkWriter {
  writer_epoch : Z;
  worker_ids : gmap string WorkerKey
}.
Definition writer_new : WriterState := mkWriter 0 ∅.

Definition is_durable (w : StoreWrite) : bool :=
  match w with
  | Ledger _ _ | BlockFound _ | BlockResolved _ _ _ | RoundReset _ _ => true
  | _ => false
  end.

(** ** The ledger *)
Definition MAX_LEDGER_WORKERS : nat := 100 * 100.
Definition LEDGER_FINE_RETENTION_SECS : Z := 8 * 86400.

(** [ON CONFLICT DO UPDATE SET x = x + excluded.x]. *)
Definition add_row (a b : LedgerPending) : LedgerPending :=
  mkAmounts (work a + work b) (accepted a + accepted b) (rejected a + rejected b).

Definition upsert_add {K} `{Countable K} (m : gmap K LedgerPending) (k : K) (a : LedgerPending)
  : gmap K LedgerPending :=
  <[k := match m !! k with Some old => add_row old a | None => a end]> m.

Definition worker_key (name : string) : WorkerKey :=
  match split_once c_dot name with Some p => p | None => (name, EmptyString) end.

Definition resolve_worker_id (rows : gset WorkerKey) (name : string)
  : option WorkerKey * gset WorkerKey :=
  let key := worker_key name in
  if bool_decide (key ∈ rows) then (Some key, rows)
  else if (MAX_LEDGER_WORKERS <=? size rows)%nat then (None, rows)
  else (Some key, {[key]} ∪ rows).

(** The loop body over one flushed entry. *)
Definition write_entry (minute : Z)
    (acc : gset WorkerKey * gmap (WorkerKey * Z) LedgerPending * gmap string WorkerKey)
    (e : LedgerEntry) : gset WorkerKey * gmap (WorkerKey * Z) LedgerPending * gmap string WorkerKey :=
  let '(rows, fine, ids) := acc in
  match ids !! le_worker e with
  | Some key => (rows, upsert_add fine (key, minute) (le_amounts e), ids)
  | None =>
      match resolve_worker_id rows (le_worker e) with
      | (Some key, rows') =>
          (rows', upsert_add fine (key, minute) (le_amounts e), <[le_worker e := key]> ids)
      | (None, rows') => (rows', fine, ids)
      end
  end.

Definition write_ledger_minute (d : Db) (minute : Z) (entries : list LedgerEntry)
    (ids : gmap string WorkerKey) : Db * gmap string WorkerKey :=
  let '(rows, fine, ids') := foldl (write_entry minute) (worker_rows d, share_intervals d, ids)
                               entries in
  (set_intervals d rows fine (share_intervals_hourly d), ids').

Definition hour_of (ts : Z) : Z := ts / 3600 * 3600.

Definition rollup_cutoff (now : Z) : Z := hour_of (sat_sub now LEDGER_FINE_RETENTION_SECS).

Definition roll_up_ledger (d : Db) (now : Z) : Db :=
  let cutoff := rollup_cutoff now in
  let due := filter (fun kv => kv.1.2 < cutoff) (share_intervals d) in
  if bool_decide (due = ∅) then d
  else
    set_intervals d (worker_rows d)
      (filter (fun kv => ~ kv.1.2 < cutoff) (share_intervals d))
      (map_fold (fun k a m => upsert_add m (k.1, hour_of k.2) a) (share_intervals_hourly d) due).

(** ** Round tables *)
Definition apply_round_reset (d : Db) (since_ts : Z) : Db :=
  set_round d (mkRoundRow 0 0 0 since_ts 0 f0) ∅ ∅.

(** The round-scoped part of [write_snapshot]. *)
Definition merge_snapshot (d : Db) (s : SnapshotWrite) : Db :=
  let r := round_stats d in
  set_round d
    (mkRoundRow (Z.max (rr_accepted r) (sw_accepted s)) (Z.max (rr_rejected r) (sw_rejected s))
       (Z.max (rr_work r) (sw_round_work s)) (rr_since_ts r) (rr_best_share r) (rr_best_hashrate r))
    (union_with (fun a b => Some (Z.max a b)) (round_reasons d) (sw_round_reject_reasons s))
    (round_worker_best d).

Definition FINE_HISTORY_RETENTION_SECS : Z := 48 * 3600.

(** The charted windows: all but the three-hour one. *)
Definition chart_row (r : list f64) : list f64 := take 4 r ++ drop 5 r.

(** The checkpoint part: a point in each series, the workers' rates replaced
    as a whole, the share rate, and the old points dropped. *)
Definition write_meters (m : Meters) (s : SnapshotWrite) : Meters :=
  let cutoff := sat_sub (history_ts s) FINE_HISTORY_RETENTION_SECS in
  let recent (h : gmap Z (list f64)) := filter (fun kv => ~ kv.1 < cutoff) h in
  mkMeters (recent (<[history_ts s := chart_row (sw_rates s)]> (hashrate_history m)))
    (recent (<[history_ts s := chart_row (sw_share_rates s)]> (share_rate_history m)))
    ((fun r => (state_ts s, r)) <$> sw_worker_rates s)
    (Some (state_ts s, sw_share_rates s)).

Definition write_snapshot (d : Db) (s : SnapshotWrite) (stale_round : bool) : Db :=
  set_meters (if stale_round then d else merge_snapshot d s) (write_meters (meters d) s).

Definition raise_worker_best (m : gmap string Z) (worker : string) (difficulty : Z) : gmap string Z :=
  match m !! worker with
  | Some old => if old <? difficulty then <[worker := difficulty]> m else m
  | None => <[worker := difficulty]> m
  end.

(** ** Applying one write

    [Some] is a committed write, [None] an error (the tables are unchanged).
    [prune] stands for the order SQLite breaks ties in when it keeps the best
    rows; [rollup_ok] is whether the rollup that follows a ledger minute
    succeeds. *)
Section Apply.
Variable prune : nat -> gmap string Z -> gmap string Z.

Definition apply_write (d : Db) (st : WriterState) (w : StoreWrite) (rollup_ok : bool)
  : option (Db * WriterState) :=
  let r := round_stats d in
  match w with
  | BestShare n =>
      Some (set_round d (mkRoundRow (rr_accepted r) (rr_rejected r) (rr_work r) (rr_since_ts r)
                           (if rr_best_share r <? n then n else rr_best_share r)
                           (rr_best_hashrate r)) (round_reasons d) (round_worker_best d), st)
  | BestHashrate h =>
      Some (set_round d (mkRoundRow (rr_accepted r) (rr_rejected r) (rr_work r) (rr_since_ts r)
                           (rr_best_share r)
                           (if (rr_best_hashrate r <? h)%f64 then h else rr_best_hashrate r))
              (round_reasons d) (round_worker_best d), st)
  | WorkerBestShare worker n =>
      Some (set_round d r (round_reasons d) (raise_worker_best (round_worker_best d) worker n), st)
  | PruneWorkerBestShares keep =>
      Some (set_round d r (round_reasons d) (prune keep (round_worker_best d)), st)
  | BlockFound b =>
      match found_blocks d !! pb_hash b with
      | Some _ => Some (d, st)
      | None => Some (set_found_blocks d
                        (<[pb_hash b := mkBlockRow b BLOCK_STATUS_PENDING None]> (found_blocks d)), st)
      end
  | BlockResolved hash resolution ts =>
      match found_blocks d !! hash with
      | None => None
      | Some row =>
          if bool_decide (row_status row = BLOCK_STATUS_PENDING)
          then Some (set_found_blocks d
                       (<[hash := mkBlockRow (row_block row) (resolution_label resolution) (Some ts)]>
                          (found_blocks d)), st)
          else Some (d, st)
      end
  | Snapshot s =>
      Some (write_snapshot d s (negb (sw_round_epoch s =? writer_epoch st)), st)
  | Ledger minute entries =>
      let '(d1, ids) := write_ledger_minute d minute entries (worker_ids st) in
      Some (if rollup_ok then roll_up_ledger d1 minute else d1, mkWriter (writer_epoch st) ids)
  | RoundReset epoch since_ts =>
      Some (apply_round_reset d since_ts, mkWriter (Z.max (writer_epoch st) epoch) (worker_ids st))
  | Flush => Some (d, st)
  end.

(** [apply_write] on a disk that accepts the write or not.  A failed ledger
    minute also clears the worker cache. *)
Definition try_apply (d : Db) (st : WriterState) (w : StoreWrite) (disk rollup_ok : bool)
  : bool * Db * WriterState :=
  match (if disk then apply_write d st w rollup_ok else None) with
  | Some (d', st') => (true, d', st')
  | None => (false, d, match w with
                       | Ledger _ _ => mkWriter (writer_epoch st) ∅
                       | _ => st
                       end)
  end.

Definition MAX_WRITE_BACKLOG : nat := 100 * 100.

Record Writer := mkWriterThread { db : Db; wstate : WriterState; backlog : list StoreWrite }.

Definition handle_write (t : Writer) (w : StoreWrite) (disk rollup_ok : bool) : Writer :=
  let '(ok, d, st) := try_apply (db t) (wstate t) w disk rollup_ok in
  if negb ok && is_durable w then
    let kept := if (MAX_WRITE_BACKLOG <=? length (backlog t))%nat then tail (backlog t)
                else backlog t in
    mkWriterThread d st (kept ++ [w])
  else mkWriterThread d st (backlog t).

(** [retry_backlog]: oldest first, stop at the first failure.  The disk's
    answers are consumed in order. *)
Fixpoint retry_backlog (d : Db) (st : WriterState) (parked : list StoreWrite)
    (disk : list (bool * bool)) : Writer :=
  match parked with
  | [] => mkWriterThread d st []
  | w :: rest =>
      let '(ok, rollup_ok) := default (false, false) (head disk) in
      match try_apply d st w ok rollup_ok with
      | (true, d', st') => retry_backlog d' st' rest (tail disk)
      | (false, d', st') => mkWriterThread d' st' parked
      end
  end.

(** One turn of [writer_loop]: the retry pass, then the received write, if
    the wait did not time out. *)
Record Turn := mkTurn {
  received : option StoreWrite;
  retry_disk : list (bool * bool);
  write_disk : bool;
  write_rollup : bool
}.

Definition writer_turn (t : Writer) (turn : Turn) : Writer :=
  let t1 := retry_backlog (db t) (wstate t) (backlog t) (retry_disk turn) in
  match received turn with
  | Some w => handle_write t1 w (write_disk turn) (write_rollup turn)
  | None => t1
  end.
End Apply.

(** ** Reading back at boot *)
Definition load_pending_blocks (d : Db) : gmap string PendingBlock :=
  row_block <$> filter (fun kv => row_status kv.2 = BLOCK_STATUS_PENDING) (found_blocks d).

Definition is_found_row (r : BlockRow) : bool :=
  (won_at_submit (row_block r) && bool_decide (row_status r <> "orphaned"))
  || (negb (won_at_submit (row_block r)) && bool_decide (row_status r = "confirmed")).
Definition is_orphaned_row (r : BlockRow) : bool :=
  won_at_submit (row_block r) && bool_decide (row_status r = "orphaned").
Definition is_inconclusive_row (r : BlockRow) : bool :=
  negb (won_at_submit (row_block r)) && bool_decide (row_status r <> "confirmed").

Definition count_rows (P : BlockRow -> bool) (m : gmap string BlockRow) : Z :=
  sum_map (fun _ r => if P r then 1 else 0) m.

(** [load_block_counts]: found, orphaned, inconclusive. *)
Definition load_block_counts (d : Db) : Z * Z * Z :=
  (count_rows is_found_row (found_blocks d), count_rows is_orphaned_row (found_blocks d),
   count_rows is_inconclusive_row (found_blocks d)).

(** The latest submit-time win on record. *)
Definition last_win (d : Db) : option Z :=
  map_fold (fun _ r acc =>
    if won_at_submit (row_block r)
    then Some (match acc with Some t => Z.max t (found_ts (row_block r))
                            | None => found_ts (row_block r) end)
    else acc) None (found_blocks d).

(** The boot-time recovery of a lost round reset in [StatsStore::open]. *)
Definition recover_round (d : Db) : Db :=
  match last_win d with
  | Some win_ts => if rr_since_ts (round_stats d) <? win_ts then apply_round_reset d win_ts else d
  | None => d
  end.

Definition MAX_WORKER_BEST_SHARES : nat := 512.

(** What [StatsStore::open] does to an existing file: the recovery, then the row
    cap on the best shares. *)
Definition open_file (prune : nat -> gmap string Z -> gmap string Z) (d : Db) : Db :=
  let d1 := recover_round d in
  set_round d1 (round_stats d1) (round_reasons d1)
    (prune MAX_WORKER_BEST_SHARES (round_worker_best d1)).

(** [Persisted::load], after [open] has reconciled the file and every loader
    has succeeded. *)
Definition load (d : Db) : Persisted :=
  let r := round_stats d in
  let '(found, orphaned, inconclusive) := load_block_counts d in
  mkPersisted true (rr_best_share r) (rr_best_hashrate r) (round_worker_best d)
    ((fun kv => mkPersistedHashrate kv.1 kv.2.1 kv.2.2)
       <$> map_to_list (worker_hashrate_state (meters d)))
    (load_pending_blocks d) found orphaned inconclusive (rr_accepted r) (rr_rejected r)
    (rr_since_ts r) (rr_work r) (round_reasons d) (share_rate_state (meters d)).

(** ** Sums over the interval tables *)
Definition additive (q : LedgerPending -> Z) : Prop := forall a b, q (add_row a b) = q a + q b.

Lemma additive_columns : additive work /\ additive accepted /\ additive rejected.
Proof. done. Qed.

Lemma sum_upsert {K} `{Countable K} (f : K -> LedgerPending -> Z) m k a :
  (forall k, additive (f k)) -> sum_map f (upsert_add m k a) = sum_map f m + f k a.
Proof.
  intros Hf. unfold upsert_add. rewrite sum_map_insert.
  destruct (m !! k) as [old|]; simpl; [rewrite Hf|]; lia.
Qed.

Lemma hour_of_idem ts : hour_of (hour_of ts) = hour_of ts.
Proof. unfold hour_of. by rewrite Z.div_mul by lia. Qed.

(** The part of a column that belongs to one worker and one hour. *)
Definition in_hour (q : LedgerPending -> Z) (w : WorkerKey) (h : Z) (k : WorkerKey * Z)
    (a : LedgerPending) : Z :=
  if bool_decide (k.1 = w /\ hour_of k.2 = h) then q a else 0.

Definition hour_total (q : LedgerPending -> Z) (w : WorkerKey) (h : Z) (d : Db) : Z :=
  sum_map (in_hour q w h) (share_intervals d) + sum_map (in_hour q w h) (share_intervals_hourly d).

Lemma in_hour_additive q w h k : additive q -> additive (in_hour q w h k).
Proof. intros Hq a b. unfold in_hour. case_bool_decide; [apply Hq | lia]. Qed.

Lemma in_hour_floor q w h k a : in_hour q w h (k.1, hour_of k.2) a = in_hour q w h k a.
Proof. unfold in_hour. cbn. by rewrite hour_of_idem. Qed.

(** A sum that sees only the hour of a row is the same after the rollup. *)
Section RolledSum.
Variable f : WorkerKey * Z -> LedgerPending -> Z.
Hypothesis f_additive : forall k, additive (f k).
Hypothesis f_hour : forall k a, f (k.1, hour_of k.2) a = f k a.

Lemma sum_rolled hourly due :
  sum_map f (map_fold (fun k a m => upsert_add m (k.1, hour_of k.2) a) hourly due)
  = sum_map f hourly + sum_map f due.
Proof.
  apply (map_fold_weak_ind (fun r m => sum_map f r = sum_map f hourly + sum_map f m)).
  - rewrite sum_map_empty. lia.
  - intros k a m r Hk IH. rewrite sum_upsert by done.
    rewrite IH, sum_map_insert_fresh, f_hour by done. lia.
Qed.

Lemma rollup_keeps_sum d now :
  sum_map f (share_intervals (roll_up_ledger d now)) + sum_map f (share_intervals_hourly (roll_up_ledger d now))
  = sum_map f (share_intervals d) + sum_map f (share_intervals_hourly d).
Proof.
  unfold roll_up_ledger. case_bool_decide; [done|]. cbn. rewrite sum_rolled.
  rewrite (sum_map_filter _ (share_intervals d) (fun kv => kv.1.2 < rollup_cutoff now)). lia.
Qed.
End RolledSum.

Lemma hour_total_rollup q w h d now :
  additive q -> hour_total q w h (roll_up_ledger d now) = hour_total q w h d.
Proof.
  intros Hq. apply rollup_keeps_sum; [intros; by apply in_hour_additive | intros; apply in_hour_floor].
Qed.

(** ** The backlog *)
Section Backlog.
Variable prune : nat -> gmap string Z -> gmap string Z.
Local Abbreviation try_apply := (try_apply prune).
Local Abbreviation retry_backlog := (retry_backlog prune).
Local Abbreviation handle_write := (handle_write prune).
Local Abbreviation writer_turn := (writer_turn prune).

(** The writes a retry pass, a received write and a whole turn commit. *)
Fixpoint retry_commits (d : Db) (st : WriterState) (parked : list StoreWrite)
    (disk : list (bool * bool)) : list StoreWrite :=
  match parked with
  | [] => []
  | w :: rest =>
      let '(ok, rollup_ok) := default (false, false) (head disk) in
      match try_apply d st w ok rollup_ok with
      | (true, d', st') => w :: retry_commits d' st' rest (tail disk)
      | (false, _, _) => []
      end
  end.

Definition write_commits (t : Writer) (w : StoreWrite) (disk rollup_ok : bool) : list StoreWrite :=
  if (try_apply (db t) (wstate t) w disk rollup_ok).1.1 then [w] else [].

Definition turn_commits (t : Writer) (turn : Turn) : list StoreWrite :=
  let t1 := retry_backlog (db t) (wstate t) (backlog t) (retry_disk turn) in
  retry_commits (db t) (wstate t) (backlog t) (retry_disk turn)
  ++ match received turn with
     | Some w => write_commits t1 w (write_disk turn) (write_rollup turn)
     | None => []
     end.

Fixpoint run_commits (t : Writer) (turns : list Turn) : list StoreWrite :=
  match turns with
  | [] => []
  | turn :: rest => turn_commits t turn ++ run_commits (writer_turn t turn) rest
  end.

Definition durables (l : list StoreWrite) : list StoreWrite := List.filter is_durable l.

Lemma durables_app l1 l2 : durables (l1 ++ l2) = durables l1 ++ durables l2.
Proof. apply List.filter_app. Qed.

Lemma durables_all l : Forall (fun w => is_durable w = true) l -> durables l = l.
Proof. induction 1 as [|w l Hw _ IH]; [done|]. unfold durables in *. cbn. by rewrite Hw, IH. Qed.

(** A retry pass commits a prefix of the backlog and keeps the rest. *)
Lemma retry_prefix d st parked disk :
  parked = retry_commits d st parked disk ++ backlog (retry_backlog d st parked disk).
Proof.
  revert d st disk; induction parked as [|w rest IH]; intros d st disk; [done|].
  cbn [retry_commits Store.retry_backlog].
  destruct (default (false, false) (head disk)) as [ok rok].
  destruct (try_apply d st w ok rok) as [[[] d'] st']; [|done].
  cbn. f_equal. apply IH.
Qed.

(** Below the cap, a turn turns "parked before, plus received" into
    "committed, plus parked after". *)
Lemma turn_conserves t turn :
  Forall (fun w => is_durable w = true) (backlog t) ->
  (length (backlog t) < MAX_WRITE_BACKLOG)%nat ->
  Forall (fun w => is_durable w = true) (backlog (writer_turn t turn))
  /\ (length (backlog (writer_turn t turn)) <= S (length (backlog t)))%nat
  /\ backlog t ++ durables (option_list (received turn))
     ≡ₚ durables (turn_commits t turn) ++ backlog (writer_turn t turn).
Proof.
  intros HF Hl. pose proof (retry_prefix (db t) (wstate t) (backlog t) (retry_disk turn)) as Hp.
  unfold Store.writer_turn, turn_commits.
  set (t1 := retry_backlog (db t) (wstate t) (backlog t) (retry_disk turn)) in *.
  set (cs := retry_commits _ _ _ _) in *.
  rewrite Hp in HF. apply Forall_app in HF as [HFc HFb].
  assert (length (backlog t1) <= length (backlog t))%nat as Hlen
    by (rewrite Hp, length_app; lia).
  rewrite durables_app, (durables_all cs) by done.
  destruct (received turn) as [w|]; cbn [option_list].
  - unfold Store.handle_write, write_commits.
    destruct (try_apply (db t1) (wstate t1) w _ _) as [[ok d'] st']. cbn [fst].
    destruct ok; cbn [negb andb].
    + cbn [backlog]. split; [done|]. split; [lia|]. rewrite Hp, <- !app_assoc.
      apply Permutation_app_head. apply Permutation_app_comm.
    + destruct (is_durable w) eqn:Ew; cbn [backlog].
      * destruct (Nat.leb_spec MAX_WRITE_BACKLOG (length (backlog t1))); [lia|].
        split; [by apply Forall_app; split; [|constructor]|].
        split; [rewrite length_app; cbn; lia|].
        rewrite Hp. cbn. rewrite Ew, app_nil_r. by rewrite <- app_assoc.
      * split; [done|]. split; [lia|]. rewrite Hp at 1. cbn. by rewrite Ew, !app_nil_r.
  - cbn. split; [done|]. split; [lia|]. rewrite Hp at 1. by rewrite !app_nil_r.
Qed.

(** The backlog stays below its cap all along a run. *)
Fixpoint never_full (t : Writer) (turns : list Turn) : Prop :=
  match turns with
  | [] => True
  | turn :: rest => (length (backlog t) < MAX_WRITE_BACKLOG)%nat /\ never_full (writer_turn t turn) rest
  end.

Lemma run_conserves turns t :
  Forall (fun w => is_durable w = true) (backlog t) -> never_full t turns ->
  backlog t ++ durables (omap received turns)
  ≡ₚ durables (run_commits t turns) ++ backlog (foldl writer_turn t turns).
Proof.
  revert t; induction turns as [|turn turns IH]; intros t HF Hl.
  - cbn. by rewrite app_nil_r.
  - destruct Hl as [Hl Hn], (turn_conserves t turn HF Hl) as (HF' & Hl' & HP).
    specialize (IH (writer_turn t turn) HF' Hn).
    cbn [foldl run_commits]. rewrite durables_app, <- app_assoc, <- IH, app_assoc, <- HP.
    rewrite <- app_assoc. apply Permutation_app_head.
    rewrite <- durables_app. cbn. by destruct (received turn).
Qed.

(** It cannot fill in fewer turns than the cap. *)
Lemma short_never_full turns t :
  Forall (fun w => is_durable w = true) (backlog t) ->
  (length (backlog t) + length turns <= MAX_WRITE_BACKLOG)%nat -> never_full t turns.
Proof.
  revert t; induction turns as [|turn turns IH]; intros t HF Hl; [done|]. cbn [length] in Hl.
  split; [lia|]. destruct (turn_conserves t turn HF) as (HF' & Hl' & _); [lia|]. apply IH; [done | lia].
Qed.
End Backlog.

(** ** Properties *)

(** The hourly rollup is lossless: for every worker, every hour and every
    column (work, accepted, rejected), the minute rows plus the hourly row add
    up to the same total after [roll_up_ledger] as before, and no minute row
    older than the retention horizon is left. *)
Lemma rollup_preserves_every_hour (d : Db) (now : Z) (w : WorkerKey) (h : Z) :
  hour_total work w h (roll_up_ledger d now) = hour_total work w h d
  /\ hour_total accepted w h (roll_up_ledger d now) = hour_total accepted w h d
  /\ hour_total rejected w h (roll_up_ledger d now) = hour_total rejected w h d
  /\ map_Forall (fun k _ => rollup_cutoff now <= k.2) (share_intervals (roll_up_ledger d now)).
Proof.
  destruct additive_columns as (H1 & H2 & H3).
  rewrite !hour_total_rollup by done. do 3 (split; [done|]).
  unfold roll_up_ledger. case_bool_decide as Hd; cbn; intros k a Hk.
  - destruct (Z_lt_ge_dec k.2 (rollup_cutoff now)); [|lia].
    apply map_empty with (i := k) in Hd.
    apply map_lookup_filter_None in Hd as [Hd|Hd]; [congruence|]. by destruct (Hd a Hk).
  - apply map_lookup_filter_Some in Hk as [_ Hk]. cbn in Hk. lia.
Qed.

(** No durable record is lost to a failing disk: whatever the disk answers,
    over any run of the writer thread short enough that the backlog cannot
    overflow, the ledger minutes, found blocks, resolutions and round resets
    received are exactly those committed plus those still parked, each once. *)
Lemma durable_writes_never_lost (prune : nat -> gmap string Z -> gmap string Z) (d : Db)
    (turns : list Turn) :
  (length turns <= MAX_WRITE_BACKLOG)%nat ->
  let t0 := mkWriterThread d writer_new [] in
  durables (omap received turns)
  ≡ₚ durables (run_commits prune t0 turns) ++ backlog (foldl (writer_turn prune) t0 turns).
Proof.
  intros Hl. apply (run_conserves prune turns (mkWriterThread d writer_new [])); [constructor|].
  apply short_never_full; [constructor | done].
Qed.

Lemma durable_writes_never_lost_witness :
  durables (omap received [mkTurn (Some (RoundReset 1 5)) [] false true; mkTurn None [(true, true)] true true])
  ≡ₚ [RoundReset 1 5] ++ [].
Proof.
  apply (durable_writes_never_lost (fun _ m => m) (db_new 0)
    [mkTurn (Some (RoundReset 1 5)) [] false true; mkTurn None [(true, true)] true true]).
  apply Nat.leb_le. reflexivity.
Defined.

End Store.
