(* ===== verification/History.v ===== *)
(** * History: the queries behind the charts ([src/stats.rs])

    [get_work_history], the exact sums the ledger tables give per bucket and
    scope, across the seam between the minute rows and the hourly rollup; and
    the bucketed means of the two sampled series.  A query is the function of
    the tables its SQL computes; the mean of a column is SQLite's, a parameter.
    SQLite's SUM raises an error when it leaves the 64-bit integers; here it is
    the sum.  The two agree while a whole column of the file comes to less than
    2^63 ([sums_fit]: then no SUM of either query does). *)
From stdpp Require Import sorting.
From S2P Require Import Prelude Text F64 Json Errors Interfaces Rpc Hashrate Stats Store.
Import Stats Store.

Module History.

Record WorkHistoryPoint := mkPoint {
  wp_ts : Z;
  wp_work : Z;
  wp_accepted : Z;
  wp_rejected : Z;
  wp_span_secs : Z
}.

Inductive LedgerScope : Type := SPool | SUser (address : string) | SWorker (name : string).

(** The text a worker row is known by: the address, and the label behind a dot
    when there is one. *)
Definition row_name (k : WorkerKey) : string :=
  k.1 +:+ (if bool_decide (k.2 = ""%string) then EmptyString else String c_dot k.2).

Definition in_scope (scope : LedgerScope) (k : WorkerKey) : bool :=
  match scope with
  | SPool => true
  | SUser address => bool_decide (k.1 = address)
  | SWorker name => bool_decide (row_name k = name)
  end.

(** [(ts / b) * b]. *)
Definition grid (b ts : Z) : Z := ts / b * b.

(** One branch of the union: the rows in range and in scope, summed by bucket. *)
Definition grouped (b since : Z) (scope : LedgerScope) (t : gmap (WorkerKey * Z) LedgerPending)
  : gmap Z LedgerPending :=
  map_fold (fun k a m => if (since <=? k.2) && in_scope scope k.1 then upsert_add m (grid b k.2) a
                         else m) ∅ t.

(** The grid rolled-up rows are served on. *)
Definition hourly_bucket (bucket : Z) : Z := Z.max bucket 3600 / 3600 * 3600.

(** The outer aggregation over both branches, with the widest span. *)
Definition merged (d : Db) (since bucket : Z) (scope : LedgerScope) : gmap Z (LedgerPending * Z) :=
  union_with (fun x y => Some (add_row x.1 y.1, Z.max x.2 y.2))
    ((fun a => (a, bucket)) <$> grouped bucket since scope (share_intervals d))
    ((fun a => (a, hourly_bucket bucket))
       <$> grouped (hourly_bucket bucket) since scope (share_intervals_hourly d)).

Definition bucket_le {A} (x y : Z * A) : Prop := x.1 <= y.1.
#[export] Instance bucket_le_dec {A} : RelDecision (@bucket_le A).
Proof. intros x y. unfold bucket_le. apply _. Defined.

Definition point_of (x : Z * (LedgerPending * Z)) : WorkHistoryPoint :=
  let '(ts, (a, span)) := x in
  mkPoint ts (Z.max (work a) 0) (Z.max (accepted a) 0) (Z.max (rejected a) 0) (Z.max span 1).

(** Buckets whose span has fully elapsed. *)
Definition elapsed (now : Z) (p : WorkHistoryPoint) : bool := wp_ts p + wp_span_secs p <=? now.

Definition get_work_history (d : Db) (since_ts bucket_secs now : Z) (scope : LedgerScope)
  : list WorkHistoryPoint :=
  let bucket := Z.max bucket_secs 1 in
  let since := grid bucket since_ts in
  List.filter (elapsed now)
    (point_of <$> merge_sort bucket_le (map_to_list (merged d since bucket scope))).

(** [PoolStats::work_history_at]: nothing without a database. *)
Definition work_history_at (store : option Db) (since_ts bucket_secs now : Z) (scope : LedgerScope)
  : list WorkHistoryPoint :=
  match store with Some d => get_work_history d since_ts bucket_secs now scope | None => [] end.

(** ** The sampled series *)
Record RateHistoryPoint := mkRatePoint {
  rp_ts : Z;
  one_minute : option f64;
  five_minutes : option f64;
  ten_minutes : option f64;
  one_hour : option f64;
  six_hours : option f64;
  twenty_four_hours : option f64
}.

Section Rates.
(** SQLite's [AVG] over a column. *)
Variable avg : list f64 -> f64.

Definition rate_point (ts : Z) (rows : list (list f64)) : RateHistoryPoint :=
  let col (i : nat) := Some (avg (omap (fun r => r !! i) rows)) in
  mkRatePoint ts (col 0%nat) (col 1%nat) (col 2%nat) (col 3%nat) (col 4%nat) (col 5%nat).

Definition bucket_rows (since b : Z) (h : gmap Z (list f64)) : gmap Z (list (list f64)) :=
  map_fold (fun ts r m => if since <=? ts
                          then <[grid b ts := r :: default [] (m !! grid b ts)]> m else m) ∅ h.

Definition rate_history (h : gmap Z (list f64)) (since_ts bucket_secs : Z) : list RateHistoryPoint :=
  (fun x => rate_point x.1 x.2)
    <$> merge_sort bucket_le
          (map_to_list (bucket_rows since_ts (Z.max bucket_secs 1) h)).

Definition get_hashrate_history (d : Db) (since_ts bucket_secs : Z) : list RateHistoryPoint :=
  rate_history (hashrate_history (meters d)) since_ts bucket_secs.

Definition get_share_rate_history (d : Db) (since_ts bucket_secs : Z) : list RateHistoryPoint :=
  rate_history (share_rate_history (meters d)) since_ts bucket_secs.
End Rates.

(** ** Sums with an absent case: a bucket with no row is absent, not zero *)
Definition oplus (x y : option LedgerPending) : option LedgerPending :=
  union_with (fun a b => Some (add_row a b)) x y.

Lemma add_row_comm a b : add_row a b = add_row b a.
Proof. unfold add_row. f_equal; lia. Qed.
Lemma add_row_assoc a b c : add_row a (add_row b c) = add_row (add_row a b) c.
Proof. unfold add_row. cbn. f_equal; lia. Qed.

Lemma oplus_comm x y : oplus x y = oplus y x.
Proof. destruct x, y; cbn; [by rewrite add_row_comm | done..]. Qed.
Lemma oplus_assoc x y z : oplus x (oplus y z) = oplus (oplus x y) z.
Proof. destruct x, y, z; cbn; [by rewrite add_row_assoc | done..]. Qed.
Lemma oplus_None_l x : oplus None x = x.
Proof. by destruct x. Qed.
Lemma oplus_None_r x : oplus x None = x.
Proof. by destruct x. Qed.

Section Totals.
(** The rows a bucket collects. *)
Variable sel : WorkerKey * Z -> bool.

Definition total (t : gmap (WorkerKey * Z) LedgerPending) : option LedgerPending :=
  map_fold (fun k a acc => if sel k then oplus (Some a) acc else acc) None t.

Lemma total_insert_fresh t k a :
  t !! k = None -> total (<[k := a]> t) = if sel k then oplus (Some a) (total t) else total t.
Proof.
  intros Hk. unfold total. rewrite map_fold_insert_L; [done| |done].
  intros j1 j2 z1 z2 y _ _ _. destruct (sel j1), (sel j2); try done.
  by rewrite !oplus_assoc, (oplus_comm (Some z1)).
Qed.

Lemma total_empty : total ∅ = None.
Proof. apply map_fold_empty. Qed.

Lemma total_delete t k a :
  t !! k = Some a -> total t = if sel k then oplus (Some a) (total (delete k t)) else total (delete k t).
Proof.
  intros Hk. rewrite <- (insert_delete_id t k a Hk) at 1. apply total_insert_fresh, lookup_delete_eq.
Qed.

Lemma total_upsert t k a :
  total (upsert_add t k a) = if sel k then oplus (total t) (Some a) else total t.
Proof.
  unfold upsert_add. destruct (t !! k) as [old|] eqn:E.
  - rewrite (total_delete t k old E), <- insert_delete_eq.
    rewrite total_insert_fresh by apply lookup_delete_eq. destruct (sel k); [|done].
    change (Some (add_row old a)) with (oplus (Some old) (Some a)).
    by rewrite <- oplus_assoc, (oplus_comm (Some a)), oplus_assoc.
  - rewrite total_insert_fresh by done. destruct (sel k); [|done]. apply oplus_comm.
Qed.

Lemma total_filter t (P : WorkerKey * Z * LedgerPending -> Prop) `{forall x, Decision (P x)} :
  total t = oplus (total (filter P t)) (total (filter (fun x => ~ P x) t)).
Proof.
  induction t as [|k a t Hk IH] using map_ind; [by rewrite !map_filter_empty, total_empty|].
  rewrite total_insert_fresh, IH by done. destruct (decide (P (k, a))).
  - rewrite map_filter_insert_True, (map_filter_insert_False (fun x => ~ P x)), delete_id by (done || tauto).
    rewrite total_insert_fresh by (apply map_lookup_filter_None; by left).
    destruct (sel k); [by rewrite oplus_assoc | done].
  - rewrite (map_filter_insert_True (fun x => ~ P x)), (map_filter_insert_False P), delete_id by done.
    rewrite total_insert_fresh by (apply map_lookup_filter_None; by left).
    destruct (sel k); [|done]. by rewrite !oplus_assoc, (oplus_comm (Some a)).
Qed.

Lemma total_none t : map_Forall (fun k _ => sel k = false) t -> total t = None.
Proof.
  induction t as [|k a t Hk IH] using map_ind; intros HF; [apply total_empty|].
  apply map_Forall_insert in HF as [Hs HF]; [|done]. rewrite total_insert_fresh, Hs by done. auto.
Qed.
End Totals.

Lemma total_ext sel sel' t :
  (forall k a, t !! k = Some a -> sel k = sel' k) -> total sel t = total sel' t.
Proof.
  induction t as [|k a t Hk IH] using map_ind; intros Hext; [by rewrite !total_empty|].
  rewrite !total_insert_fresh by done. rewrite (Hext k a) by apply lookup_insert_eq.
  rewrite IH; [done|]. intros j b Hj. apply (Hext j b).
  rewrite lookup_insert_ne; [done|]. congruence.
Qed.

(** Rolled up rows count under the hour they moved to. *)
Lemma total_rolled sel hourly due :
  total sel (map_fold (fun k a m => upsert_add m (k.1, hour_of k.2) a) hourly due)
  = oplus (total sel hourly) (total (fun k => sel (k.1, hour_of k.2)) due).
Proof.
  apply (map_fold_weak_ind (fun r m => total sel r
           = oplus (total sel hourly) (total (fun k => sel (k.1, hour_of k.2)) m))).
  - by rewrite total_empty, oplus_None_r.
  - intros k a m r Hk IH. rewrite total_upsert, IH, total_insert_fresh by done.
    destruct (sel _); [|done]. by rewrite <- oplus_assoc, (oplus_comm _ (Some a)).
Qed.

(** A present total is the sum of its rows, column by column. *)
Lemma total_sum (q : LedgerPending -> Z) sel t :
  additive q ->
  from_option q 0 (total sel t) = sum_map (fun k a => if sel k then q a else 0) t.
Proof.
  intros Hq. induction t as [|k a t Hk IH] using map_ind; [by rewrite total_empty, sum_map_empty|].
  rewrite total_insert_fresh, sum_map_insert_fresh, <- IH by done. destruct (sel k); [|lia].
  destruct (total sel t); cbn; [apply Hq | lia].
Qed.

(** ** Buckets *)
Definition bucket_sel (b since : Z) (scope : LedgerScope) (B : Z) (k : WorkerKey * Z) : bool :=
  (since <=? k.2) && in_scope scope k.1 && (grid b k.2 =? B).

Lemma lookup_upsert (m : gmap Z LedgerPending) k a B :
  upsert_add m k a !! B = if k =? B then oplus (Some a) (m !! B) else m !! B.
Proof.
  unfold upsert_add. destruct (Z.eqb_spec k B) as [->|Hne].
  - rewrite lookup_insert_eq. destruct (m !! B); cbn; [by rewrite add_row_comm | done].
  - by rewrite lookup_insert_ne.
Qed.

Lemma grouped_lookup b since scope t B :
  grouped b since scope t !! B = total (bucket_sel b since scope B) t.
Proof.
  unfold grouped. revert B.
  apply (map_fold_weak_ind (fun r m => forall B, r !! B = total (bucket_sel b since scope B) m)).
  - intros B. by rewrite lookup_empty, total_empty.
  - intros k a m r Hk IH B. rewrite total_insert_fresh, <- IH by done. unfold bucket_sel.
    destruct (_ && _) eqn:E; rewrite ?E; cbn [andb]; [apply lookup_upsert | done].
Qed.

Lemma hourly_bucket_whole k : 0 < k -> hourly_bucket (3600 * k) = 3600 * k.
Proof.
  intros Hk. unfold hourly_bucket. rewrite Z.max_l, (Z.mul_comm 3600), Z.div_mul by lia. lia.
Qed.

(** Over whole hours the two branches share one grid, and the union is a sum. *)
Lemma merged_rows_lookup d since k scope B :
  0 < k ->
  merged d since (3600 * k) scope !! B
  = (fun a => (a, 3600 * k))
      <$> oplus (total (bucket_sel (3600 * k) since scope B) (share_intervals d))
                (total (bucket_sel (3600 * k) since scope B) (share_intervals_hourly d)).
Proof.
  intros Hk. unfold merged. rewrite lookup_union_with, !lookup_fmap, !grouped_lookup.
  rewrite hourly_bucket_whole by done.
  destruct (total _ (share_intervals d)), (total _ (share_intervals_hourly d)); cbn; try done.
  by rewrite Z.max_id.
Qed.

Lemma grid_hour b k ts : b = 3600 * k -> 0 < k -> grid b (hour_of ts) = grid b ts.
Proof.
  intros -> Hk. unfold grid, hour_of. f_equal.
  rewrite <- !Z.div_div by lia. by rewrite Z.div_mul by lia.
Qed.

Lemma grid_bounds b ts : 0 < b -> grid b ts <= ts < grid b ts + b.
Proof.
  intros Hb. unfold grid. pose proof (Z.div_mod ts b ltac:(lia)).
  pose proof (Z.mod_pos_bound ts b Hb). lia.
Qed.

Lemma grid_mono b x y : 0 < b -> x <= y -> grid b x <= grid b y.
Proof. intros Hb Hxy. unfold grid. apply Z.mul_le_mono_nonneg_r; [lia|]. apply Z.div_le_mono; lia. Qed.

Lemma grid_idem b x : 0 < b -> grid b (grid b x) = grid b x.
Proof. intros Hb. unfold grid. by rewrite Z.div_mul by lia. Qed.

(** A time in the bucket that starts at a grid point. *)
Lemma grid_unique b B ts : 0 < b -> grid b B = B -> (grid b ts = B <-> B <= ts < B + b).
Proof.
  intros Hb HB. split.
  - intros <-. by apply grid_bounds.
  - intros Hts. unfold grid in *.
    rewrite <- (Z.div_unique ts b (B / b) (ts - B)); [exact HB | lia | lia].
Qed.

Lemma aligned_since b k s ts :
  b = 3600 * k -> 0 < k -> (grid b s <=? hour_of ts) = (grid b s <=? ts).
Proof.
  intros -> Hk. assert (hour_of ts = grid 3600 ts) as -> by done.
  pose proof (grid_bounds 3600 ts ltac:(lia)).
  destruct (Z.leb_spec (grid (3600 * k) s) ts) as [Hle|Hgt].
  - apply Z.leb_le. assert (grid (3600 * k) s = grid 3600 (grid (3600 * k) s)) as ->.
    { assert (grid (3600 * k) s = s / (3600 * k) * k * 3600) as -> by (unfold grid; lia).
      unfold grid. by rewrite Z.div_mul by lia. }
    apply grid_mono; lia.
  - apply Z.leb_gt. lia.
Qed.

(** ** The rollup leaves the queries alone *)
Lemma bucket_sel_hour b k s scope B x :
  b = 3600 * k -> 0 < k ->
  bucket_sel b (grid b s) scope B (x.1, hour_of x.2) = bucket_sel b (grid b s) scope B x.
Proof.
  intros Hb Hk. unfold bucket_sel. cbn [fst snd].
  by rewrite (aligned_since b k), (grid_hour b k) by done.
Qed.

Lemma merged_rollup_whole d now k s scope :
  0 < k ->
  merged (roll_up_ledger d now) (grid (3600 * k) s) (3600 * k) scope
  = merged d (grid (3600 * k) s) (3600 * k) scope.
Proof.
  intros Hk. apply map_eq. intros B. rewrite !merged_rows_lookup by done. f_equal.
  unfold roll_up_ledger. case_bool_decide; [done|]. cbn [share_intervals share_intervals_hourly set_intervals].
  set (sel := bucket_sel _ _ _ _). rewrite total_rolled.
  rewrite (total_ext (fun x => sel (x.1, hour_of x.2)) sel)
    by (intros x a _; by apply bucket_sel_hour with (k := k)).
  rewrite (total_filter sel (share_intervals d) (fun kv => kv.1.2 < rollup_cutoff now)).
  set (due := total sel (filter (fun kv => kv.1.2 < _) _)).
  rewrite (oplus_comm due), <- oplus_assoc. f_equal. apply oplus_comm.
Qed.

(** Nor does a rollup of rows that all lie before the range. *)
Lemma merged_rollup_before d now since bucket scope :
  rollup_cutoff now <= since ->
  merged (roll_up_ledger d now) since bucket scope = merged d since bucket scope.
Proof.
  intros Hc. unfold merged, roll_up_ledger. case_bool_decide; [done|].
  cbn [share_intervals share_intervals_hourly set_intervals]. f_equal; f_equal; apply map_eq; intros B;
    rewrite !grouped_lookup.
  - rewrite (total_filter _ (share_intervals d) (fun kv => kv.1.2 < rollup_cutoff now)).
    rewrite (total_none _ (filter (fun kv => kv.1.2 < _) _)), oplus_None_l; [done|].
    intros x a Hx. apply map_lookup_filter_Some in Hx as [_ Hx]. cbn in Hx. unfold bucket_sel.
    by rewrite (proj2 (Z.leb_gt since x.2)) by lia.
  - rewrite total_rolled, (total_none _ (filter _ _)), oplus_None_r; [done|].
    intros x a Hx. apply map_lookup_filter_Some in Hx as [_ Hx]. cbn in Hx. unfold bucket_sel. cbn [fst snd].
    assert (hour_of x.2 <= x.2) by (apply (grid_bounds 3600); lia).
    by rewrite (proj2 (Z.leb_gt since (hour_of x.2))) by lia.
Qed.

Lemma get_work_history_rollup d now0 since_ts bucket_secs now scope :
  (exists k, 0 < k /\ bucket_secs = 3600 * k)
  \/ rollup_cutoff now0 <= grid (Z.max bucket_secs 1) since_ts ->
  get_work_history (roll_up_ledger d now0) since_ts bucket_secs now scope
  = get_work_history d since_ts bucket_secs now scope.
Proof.
  unfold get_work_history. intros [(k & Hk & ->)|Hc].
  - rewrite Z.max_l by lia. by rewrite merged_rollup_whole.
  - by rewrite merged_rollup_before.
Qed.

(** ** Exactness *)

(** What the ledger holds for a scope over [lo, hi), in either table. *)
Definition in_range (scope : LedgerScope) (lo hi : Z) (k : WorkerKey * Z) : bool :=
  in_scope scope k.1 && (lo <=? k.2) && (k.2 <? hi).

Definition range_total (q : LedgerPending -> Z) (d : Db) (scope : LedgerScope) (lo hi : Z) : Z :=
  sum_map (fun k a => if in_range scope lo hi k then q a else 0) (share_intervals d)
  + sum_map (fun k a => if in_range scope lo hi k then q a else 0) (share_intervals_hourly d).

Definition row_nonneg (a : LedgerPending) : Prop := 0 <= work a /\ 0 <= accepted a /\ 0 <= rejected a.

Definition nonneg_rows (d : Db) : Prop :=
  map_Forall (fun _ a => row_nonneg a) (share_intervals d)
  /\ map_Forall (fun _ a => row_nonneg a) (share_intervals_hourly d).

Lemma bucket_sel_range b s scope B k :
  0 < b -> grid b B = B -> grid b s <= B ->
  bucket_sel b (grid b s) scope B k = in_range scope B (B + b) k.
Proof.
  intros Hb HB Hs. unfold bucket_sel, in_range. pose proof (grid_unique b B k.2 Hb HB) as Hu.
  destruct (in_scope scope k.1); [|by rewrite andb_false_r].
  rewrite andb_true_r. cbn [andb]. apply eq_true_iff_eq.
  rewrite !andb_true_iff, !Z.leb_le, Z.eqb_eq, Z.ltb_lt. rewrite Hu. lia.
Qed.

Lemma total_Some_sel sel t a :
  total sel t = Some a -> exists k r, t !! k = Some r /\ sel k = true.
Proof.
  revert a; induction t as [|k r t Hk IH] using map_ind; intros a H; [by rewrite total_empty in H|].
  rewrite total_insert_fresh in H by done. destruct (sel k) eqn:E.
  - exists k, r. by rewrite lookup_insert_eq.
  - destruct (IH a H) as (k' & r' & Hk' & Hs'). exists k', r'.
    rewrite lookup_insert_ne; [done|]. congruence.
Qed.

Lemma total_is_Some sel t k r : t !! k = Some r -> sel k = true -> is_Some (total sel t).
Proof. intros Hk Hs. rewrite (total_delete sel t k r Hk), Hs. destruct (total _ _); cbn; eauto. Qed.

Lemma merged_Some d s k scope B x :
  0 < k -> merged d (grid (3600 * k) s) (3600 * k) scope !! B = Some x ->
  x.2 = 3600 * k /\ grid (3600 * k) B = B /\ grid (3600 * k) s <= B
  /\ (forall q, additive q -> q x.1 = range_total q d scope B (B + 3600 * k)).
Proof.
  intros Hk Hx. rewrite merged_rows_lookup in Hx by done.
  set (sel := bucket_sel _ _ _ _) in Hx.
  destruct (oplus _ _) as [a|] eqn:E in Hx; [|done]. injection Hx as <-. cbn [fst snd].
  assert (exists k0, sel k0 = true) as [k0 Hk0].
  { destruct (total sel (share_intervals d)) as [a1|] eqn:E1.
    - destruct (total_Some_sel _ _ _ E1) as (? & ? & _ & ?). eauto.
    - rewrite oplus_None_l in E. destruct (total_Some_sel _ _ _ E) as (? & ? & _ & ?). eauto. }
  unfold sel, bucket_sel in Hk0. apply andb_true_iff in Hk0 as [Hk0 HB].
  apply andb_true_iff in Hk0 as [Hs _]. apply Z.leb_le in Hs. apply Z.eqb_eq in HB.
  assert (grid (3600 * k) B = B) as HBB by (subst; apply grid_idem; lia).
  assert (grid (3600 * k) s <= B) as HsB.
  { rewrite <- HB, <- (grid_idem (3600 * k) s) by lia. apply grid_mono; lia. }
  split_and!; [done..|]. intros q Hq. unfold range_total.
  assert (q a = from_option q 0 (total sel (share_intervals d))
                + from_option q 0 (total sel (share_intervals_hourly d))) as ->.
  { destruct (total sel (share_intervals d)), (total sel (share_intervals_hourly d));
      cbn in E; simplify_eq; cbn; rewrite ?Hq; lia. }
  rewrite !total_sum by done.
  assert (forall k', sel k' = in_range scope B (B + 3600 * k) k') as Hsel
    by (intros; apply bucket_sel_range; lia).
  f_equal; apply sum_map_ext; intros; by rewrite Hsel.
Qed.

(** Within a file whose column comes to less than 2^63, so does every sum the
    query takes: of the rows of a bucket in either table, and over both. *)
Lemma total_fits q sel t :
  additive q -> map_Forall (fun _ a => 0 <= q a) t ->
  0 <= from_option q 0 (total sel t) <= sum_map (fun _ a => q a) t.
Proof.
  intros Hq HF. rewrite total_sum by done.
  induction t as [|k a t Hk IH] using map_ind; [by rewrite !sum_map_empty|].
  apply map_Forall_insert in HF as [Ha HF]; [|done]. rewrite !sum_map_insert_fresh by done.
  specialize (IH HF). destruct (sel k); lia.
Qed.

Lemma sums_fit q d since bucket scope :
  additive q -> map_Forall (fun _ a => 0 <= q a) (share_intervals d) ->
  map_Forall (fun _ a => 0 <= q a) (share_intervals_hourly d) ->
  sum_map (fun _ a => q a) (share_intervals d) + sum_map (fun _ a => q a) (share_intervals_hourly d) < 2 ^ 63 ->
  map_Forall (fun _ a => 0 <= q a < 2 ^ 63) (grouped bucket since scope (share_intervals d))
  /\ map_Forall (fun _ a => 0 <= q a < 2 ^ 63)
       (grouped (hourly_bucket bucket) since scope (share_intervals_hourly d))
  /\ map_Forall (fun _ x => 0 <= q x.1 < 2 ^ 63) (merged d since bucket scope).
Proof.
  intros Hq Hf Hh Hsum.
  assert (forall b B, 0 <= from_option q 0 (grouped b since scope (share_intervals d) !! B)
            <= sum_map (fun _ a => q a) (share_intervals d)) as H1
    by (intros; rewrite grouped_lookup; by apply total_fits).
  assert (forall b B, 0 <= from_option q 0 (grouped b since scope (share_intervals_hourly d) !! B)
            <= sum_map (fun _ a => q a) (share_intervals_hourly d)) as H2
    by (intros; rewrite grouped_lookup; by apply total_fits).
  pose proof (H1 bucket) as G1. pose proof (H2 (hourly_bucket bucket)) as G2.
  split_and!; intros B x Hx; specialize (G1 B); specialize (G2 B).
  - rewrite Hx in G1. cbn in G1. lia.
  - rewrite Hx in G2. cbn in G2. lia.
  - unfold merged in Hx. rewrite lookup_union_with, !lookup_fmap in Hx.
    destruct (grouped bucket _ _ _ !! B), (grouped (hourly_bucket bucket) _ _ _ !! B); cbn in Hx, G1, G2;
      simplify_eq; cbn; rewrite ?Hq; lia.
Qed.

Lemma range_total_nonneg q d scope lo hi :
  nonneg_rows d -> (forall a, row_nonneg a -> 0 <= q a) -> 0 <= range_total q d scope lo hi.
Proof.
  intros [Hf Hh] Hq. unfold range_total.
  assert (forall t, map_Forall (fun _ a => row_nonneg a) t ->
            0 <= sum_map (fun k a => if in_range scope lo hi k then q a else 0) t) as Hsum.
  { intros t. induction t as [|k a t Hk IH] using map_ind; intros HF; [by rewrite sum_map_empty|].
    apply map_Forall_insert in HF as [Ha HF]; [|done]. rewrite sum_map_insert_fresh by done.
    specialize (IH HF). specialize (Hq a Ha). destruct (in_range _ _ _ _); lia. }
  specialize (Hsum _ Hf) as H1. specialize (Hsum _ Hh) as H2. lia.
Qed.

Lemma sorted_strict {A} (l : list (Z * A)) :
  StronglySorted bucket_le l -> NoDup l.*1 -> StronglySorted Z.lt l.*1.
Proof.
  induction 1 as [|x l Hs IH HF]; cbn; intros Hn; [constructor|].
  apply NoDup_cons in Hn as [Hx Hn]. constructor; [by apply IH|].
  apply Forall_fmap, Forall_forall. intros y Hy. rewrite Forall_forall in HF. specialize (HF y Hy).
  unfold bucket_le in HF. cbn. assert (x.1 <> y.1); [|lia].
  intros E. apply Hx. rewrite E. by apply list_elem_of_fmap_2.
Qed.

Lemma filter_sorted {A} (f : A -> Z) (P : A -> bool) (l : list A) :
  StronglySorted Z.lt (f <$> l) -> StronglySorted Z.lt (f <$> List.filter P l).
Proof.
  induction l as [|x l IH]; cbn; intros Hs; [done|]. inversion Hs as [|? ? Hs' HF]; subst.
  destruct (P x); cbn; [|auto]. constructor; [auto|].
  apply Forall_forall. intros y Hy. apply list_elem_of_fmap in Hy as (z & -> & Hz).
  apply list_elem_of_In, filter_In in Hz as [Hz _].
  rewrite Forall_forall in HF. apply HF. apply list_elem_of_fmap_2. by apply list_elem_of_In.
Qed.

Lemma elem_of_history d since_ts bucket now scope p :
  p ∈ get_work_history d since_ts bucket now scope
  <-> exists B x, merged d (grid (Z.max bucket 1) since_ts) (Z.max bucket 1) scope !! B = Some x
                  /\ p = point_of (B, x) /\ elapsed now p = true.
Proof.
  unfold get_work_history. rewrite list_elem_of_In, filter_In, <- list_elem_of_In, list_elem_of_fmap.
  setoid_rewrite merge_sort_Permutation. split.
  - intros [([B x] & -> & Hx) He]. apply elem_of_map_to_list in Hx. eauto.
  - intros (B & x & Hx & -> & He). split; [|done]. exists (B, x). by rewrite elem_of_map_to_list.
Qed.

Lemma history_sorted d since_ts bucket now scope :
  StronglySorted Z.lt (wp_ts <$> get_work_history d since_ts bucket now scope).
Proof.
  unfold get_work_history. apply filter_sorted. rewrite <- list_fmap_compose.
  rewrite (list_fmap_ext (wp_ts ∘ point_of) fst) by (by intros ? [? [? ?]] ?).
  apply sorted_strict.
  - apply StronglySorted_merge_sort; [intros x y z; unfold bucket_le; lia|].
    intros x y. unfold bucket_le. lia.
  - rewrite merge_sort_Permutation. apply NoDup_fst_map_to_list.
Qed.

(** A point carries what the ledger holds over its bucket. *)
Lemma point_exact d since_ts k now scope p :
  0 < k -> p ∈ get_work_history d since_ts (3600 * k) now scope ->
  let held q := range_total q d scope (wp_ts p) (wp_ts p + 3600 * k) in
  wp_span_secs p = 3600 * k /\ grid (3600 * k) (wp_ts p) = wp_ts p
  /\ grid (3600 * k) since_ts <= wp_ts p /\ wp_ts p + 3600 * k <= now
  /\ wp_work p = Z.max (held work) 0 /\ wp_accepted p = Z.max (held accepted) 0
  /\ wp_rejected p = Z.max (held rejected) 0.
Proof.
  intros Hk Hp held. apply elem_of_history in Hp as (B & [a span] & Hx & -> & He).
  rewrite Z.max_l in Hx by lia.
  destruct (merged_Some _ _ _ _ _ _ Hk Hx) as (Hsp & HB & Hs & Hq).
  cbn [fst snd] in *. subst span held. unfold elapsed in He. cbn in He |- *. rewrite Z.max_l in He |- * by lia.
  apply Z.leb_le in He. destruct additive_columns as (H1 & H2 & H3). by rewrite !Hq by done.
Qed.

(** Every row in range whose bucket has elapsed is in some point. *)
Lemma row_has_point d since_ts k now scope key r :
  0 < k -> share_intervals d !! key = Some r \/ share_intervals_hourly d !! key = Some r ->
  in_scope scope key.1 = true -> grid (3600 * k) since_ts <= key.2 -> grid (3600 * k) key.2 + 3600 * k <= now ->
  exists p, p ∈ get_work_history d since_ts (3600 * k) now scope /\ wp_ts p = grid (3600 * k) key.2.
Proof.
  intros Hk Hr Hsc Hs He. setoid_rewrite elem_of_history. rewrite !Z.max_l by lia.
  assert (is_Some (merged d (grid (3600 * k) since_ts) (3600 * k) scope !! grid (3600 * k) key.2)) as [x Hx].
  { rewrite merged_rows_lookup by done. apply fmap_is_Some. set (sel := bucket_sel _ _ _ _).
    assert (sel key = true) as Hsel.
    { unfold sel, bucket_sel. rewrite Hsc, Z.eqb_refl. by rewrite (proj2 (Z.leb_le _ _) Hs). }
    destruct Hr as [Hr|Hr]; destruct (total_is_Some sel _ _ _ Hr Hsel) as [a ->].
    - destruct (total sel (share_intervals_hourly d)); cbn; eauto.
    - rewrite oplus_comm. destruct (total sel (share_intervals d)); cbn; eauto. }
  destruct x as [a span]. destruct (merged_Some _ _ _ _ _ _ Hk Hx) as (Hsp & _).
  cbn in Hsp. subst span. exists (point_of (grid (3600 * k) key.2, (a, 3600 * k))).
  split; [|done]. do 2 eexists. split; [exact Hx|]. split; [done|].
  unfold elapsed. cbn. rewrite Z.max_l by lia. by apply Z.leb_le.
Qed.

(** ** Properties *)

(** C10. The long-range history is exact and does not depend on the rollup: for
    buckets of whole hours, over any tables with non-negative rows, the points
    are in strictly increasing order; each covers one bucket that has fully
    elapsed and carries exactly the work, accepted and rejected shares the ledger
    holds for that scope over it, minute rows and hourly rows together; every row
    in range whose bucket has elapsed is in some point; and running the rollup
    first, at any time, gives the same answer.  Sums are those of integers, which
    SQLite's are while a column of the file comes to less than 2^63
    ([sums_fit]). *)
Theorem work_history_exact (d : Db) (since_ts k now now0 : Z) (scope : LedgerScope) :
  0 < k -> nonneg_rows d ->
  let b := 3600 * k in
  let points := get_work_history d since_ts b now scope in
  get_work_history (roll_up_ledger d now0) since_ts b now scope = points
  /\ StronglySorted Z.lt (wp_ts <$> points)
  /\ (forall p, p ∈ points ->
      wp_span_secs p = b /\ grid b since_ts <= wp_ts p /\ wp_ts p + b <= now
      /\ wp_work p = range_total work d scope (wp_ts p) (wp_ts p + b)
      /\ wp_accepted p = range_total accepted d scope (wp_ts p) (wp_ts p + b)
      /\ wp_rejected p = range_total rejected d scope (wp_ts p) (wp_ts p + b))
  /\ (forall key r, share_intervals d !! key = Some r \/ share_intervals_hourly d !! key = Some r ->
      in_scope scope key.1 = true -> grid b since_ts <= key.2 -> grid b key.2 + b <= now ->
      exists p, p ∈ points /\ wp_ts p = grid b key.2).
Proof.
  intros Hk Hn b points. split; [apply get_work_history_rollup; left; by exists k|].
  split; [apply history_sorted|]. split.
  - intros p Hp. destruct (point_exact _ _ _ _ _ _ Hk Hp) as (H1 & _ & H2 & H3 & -> & -> & ->).
    rewrite !Z.max_l by (apply range_total_nonneg; [done|]; by intros ? (? & ? & ?)). done.
  - intros key r Hr Hsc Hs He. by apply (row_has_point _ _ _ _ _ _ r).
Qed.

(** A ledger that straddles the seam: two minute rows and an hourly one. *)
Definition demo_ledger : Db :=
  set_intervals (db_new 0) {[("a", "x"); ("b", "")]}%string
    {[ (("a", "x")%string, 7260) := mkAmounts 100 2 1; (("b", "")%string, 10800) := mkAmounts 7 1 0 ]}
    {[ (("a", "x")%string, 3600) := mkAmounts 40 4 0 ]}.

Lemma demo_ledger_nonneg : nonneg_rows demo_ledger.
Proof.
  split; cbn; repeat (apply map_Forall_insert_2; [cbn; unfold row_nonneg; cbn; lia|]);
    apply map_Forall_empty.
Qed.

Example demo_history :
  (get_work_history demo_ledger 0 7200 20000 SPool, get_work_history demo_ledger 0 7200 20000 (SUser "b"),
   get_work_history demo_ledger 0 60 20000 (SWorker "a.x"))
  = ([mkPoint 0 40 4 0 7200; mkPoint 7200 107 3 1 7200], [mkPoint 7200 7 1 0 7200],
     [mkPoint 3600 40 4 0 3600; mkPoint 7260 100 2 1 60]).
Proof. vm_compute. reflexivity. Qed.

Lemma work_history_exact_witness :
  get_work_history (roll_up_ledger demo_ledger 900000) 0 7200 20000 SPool
  = get_work_history demo_ledger 0 7200 20000 SPool.
Proof. exact (proj1 (work_history_exact demo_ledger 0 2 20000 900000 SPool eq_refl demo_ledger_nonneg)). Defined.

End History.
