(* ===== verification/Snapshot.v ===== *)
(** * Snapshot: what the dashboard reads, and the pruning of idle workers
    ([src/stats.rs])

    [prune_idle_workers] with the cap on the best shares, the figures about the
    node that [PoolStats] only stores and shows ([NodeFigures]), [snapshot], and
    how the statistics calls move a session between workers ([moves]).
    The windows of a meter are lists in the order of [Hashrate.WINDOW_SECS]. *)
From stdpp Require Import sorting.
From S2P Require Import Prelude Text F64 Json Errors Interfaces Rpc Hashrate Stats Store.
Import Hashrate Stats Store.

Module Snapshot.

(** ** Pruning *)
Definition IDLE_WORKER_EVICT_SECS : Z := 24 * 3600.

(** An offline worker whose last sign of life is older than the cutoff. *)
Definition is_stale (w : WorkerMaps) (cutoff : Z) (kv : string * WorkerState) : bool :=
  let '(name, st) := kv in
  if ws_online st then false
  else
    let last_submit := default (ws_last_submit_ts st) (worker_last_submit_ts w !! name) in
    Z.max last_submit (ws_connected_ts st) <? cutoff.

Definition stale_workers (w : WorkerMaps) (cutoff : Z) : gset string :=
  dom (filter (fun kv => is_stale w cutoff kv = true) (worker_states w)).

Definition evict {V} (stale : gset string) (m : gmap string V) : gmap string V :=
  filter (fun kv => kv.1 ∉ stale) m.

Section Prune.
(** [sort_unstable_by_key(Reverse(difficulty))] on the entries of the map: the
    order of equal difficulties is not specified. *)
Variable by_difficulty : gmap string Z -> list (string * Z).

Definition keep_best (m : gmap string Z) : gmap string Z :=
  if (MAX_WORKER_BEST_SHARES <? size m)%nat
  then foldl (fun acc kv => delete kv.1 acc) m (drop MAX_WORKER_BEST_SHARES (by_difficulty m))
  else m.

Definition prune_idle_workers (s : PoolStats) (now : Z) : PoolStats :=
  let cutoff := sat_sub now IDLE_WORKER_EVICT_SECS in
  let w := workers s in
  let stale := stale_workers w cutoff in
  let w1 := mkWorkers (evict stale (worker_states w)) (worker_best_shares w)
              (evict stale (worker_protocol w)) (evict stale (worker_last_submit_ts w))
              (filter (fun kv => sh_worker kv.2 ∉ stale) (session_hashrates w)) in
  let best := worker_best_shares w1 in
  let w2 := mkWorkers (worker_states w1) (keep_best best) (worker_protocol w1)
              (worker_last_submit_ts w1) (session_hashrates w1) in
  if (MAX_WORKER_BEST_SHARES <? size best)%nat
  then enqueue (with_workers s w2) (PruneWorkerBestShares MAX_WORKER_BEST_SHARES)
  else with_workers s w2.
End Prune.

(** ** Figures about the node *)
Record NodeInfoDisplay := mkNodeInfo { ni_implementation : string; ni_version : string; ni_subversion : string }.

(** [node_info_ok_at_secs] is [u64::MAX] until the first answer. *)
Record NodeFigures := mkNode {
  current_height : Z;
  current_coinbase_value : Z;
  current_block_transaction_count : Z;
  network_hashrate_hps : Z;
  network_difficulty : Z;
  est_difficulty_change_pct : Z;
  node_info : NodeInfoDisplay;
  node_info_ok_at_secs : Z;
  start_time : Instant
}.

Definition node_new (now : Instant) : NodeFigures :=
  mkNode 0 0 0 0 0 0 (mkNodeInfo "" "" "") u64_max now.

Definition update_height (n : NodeFigures) (height coinbase_value tx_count : Z) : NodeFigures :=
  mkNode height coinbase_value tx_count (network_hashrate_hps n) (network_difficulty n)
    (est_difficulty_change_pct n) (node_info n) (node_info_ok_at_secs n) (start_time n).
Definition set_network_hashrate (n : NodeFigures) (hps : f64) : NodeFigures :=
  mkNode (current_height n) (current_coinbase_value n) (current_block_transaction_count n)
    (f64_to_bits hps) (network_difficulty n) (est_difficulty_change_pct n) (node_info n)
    (node_info_ok_at_secs n) (start_time n).
Definition set_network_difficulty (n : NodeFigures) (difficulty : f64) : NodeFigures :=
  mkNode (current_height n) (current_coinbase_value n) (current_block_transaction_count n)
    (network_hashrate_hps n) (f64_to_bits difficulty) (est_difficulty_change_pct n) (node_info n)
    (node_info_ok_at_secs n) (start_time n).
Definition set_est_difficulty_change_pct (n : NodeFigures) (pct : f64) : NodeFigures :=
  mkNode (current_height n) (current_coinbase_value n) (current_block_transaction_count n)
    (network_hashrate_hps n) (network_difficulty n) (f64_to_bits pct) (node_info n)
    (node_info_ok_at_secs n) (start_time n).

Definition uptime (n : NodeFigures) (now : Instant) : Z := as_secs (duration_since now (start_time n)).

Definition set_node_info (n : NodeFigures) (implementation version subversion : string) (now : Instant)
  : NodeFigures :=
  mkNode (current_height n) (current_coinbase_value n) (current_block_transaction_count n)
    (network_hashrate_hps n) (network_difficulty n) (est_difficulty_change_pct n)
    (mkNodeInfo implementation version subversion) (uptime n now) (start_time n).

(** ** The snapshot *)
Record WorkerHashrate := mkWorkerHashrate { wh_worker : string; wh_last_submit_ts : Z; wh_hps : list f64 }.

(** A row of the worker table: the state with its name and rates filled in. *)
Record WorkerRow := mkRow { wr_worker : string; wr_state : WorkerState; wr_hps : list f64 }.

Record StatsSnapshot := mkSnapshot {
  sn_counters : Counters;
  sn_round_shares_accepted : Z;
  sn_round_shares_rejected : Z;
  sn_round_since_ts : Z;
  sn_reject_reasons : gmap string Z;
  sn_round_reject_reasons : gmap string Z;
  sn_blocks_found : Z;
  sn_blocks_inconclusive : Z;
  sn_blocks_orphaned : Z;
  sn_blocks_pending_confirmation : Z;
  sn_node : NodeFigures;
  sn_best_hashrate_hps : f64;
  sn_session_best_hashrate_hps : f64;
  sn_total_hashrate : list f64;
  sn_shares_per_minute : list f64;
  sn_worker_hashrates : list WorkerHashrate;
  sn_worker_states : list WorkerRow;
  sn_node_rpc_last_ok_secs : option Z;
  sn_uptime_secs : Z;
  sn_pool_difficulty : Z;
  (** filled in by the dashboard *)
  sn_template_version : Z;
  sn_template_fresh : bool;
  sn_unsupported_rules : list string;
  sn_rules_block_work : bool
}.

(** A worker with a live state. *)
Definition live_row (w : WorkerMaps) (by_worker : gmap string (list f64)) (kv : string * WorkerState)
  : WorkerRow :=
  let '(name, st) := kv in
  mkRow name
    (mkWorkerState (default (ws_protocol st) (worker_protocol w !! name)) (ws_online st)
       (ws_current_vardiff st) (ws_shares_accepted st) (ws_shares_rejected st) (ws_shares_stale st)
       (ws_reject_reasons st)
       (default (ws_best_share_difficulty st) (worker_best_shares w !! name))
       (ws_active_sessions st) (ws_connected_ts st) (default 0 (worker_last_submit_ts w !! name)))
    (default windows_zero (by_worker !! name)).

(** A worker known only by its best share or by a restored meter. *)
Definition extra_row (w : WorkerMaps) (by_worker : gmap string (list f64)) (name : string) : WorkerRow :=
  mkRow name
    (mkWorkerState (default "sv1"%string (worker_protocol w !! name)) false 0 0 0 0 ∅
       (default 0 (worker_best_shares w !! name)) 0 0 (default 0 (worker_last_submit_ts w !! name)))
    (default windows_zero (by_worker !! name)).

Definition extra_workers (w : WorkerMaps) (by_worker : gmap string (list f64)) : gset string :=
  (dom (worker_best_shares w) ∪ dom by_worker) ∖ dom (worker_states w).

Definition node_rpc_last_ok (n : NodeFigures) (now : Instant) : option Z :=
  if node_info_ok_at_secs n =? u64_max then None
  else Some (sat_sub (uptime n now) (node_info_ok_at_secs n)).

Definition snapshot (s : PoolStats) (n : NodeFigures) (now : Instant) : StatsSnapshot :=
  let w := workers s in
  let by_worker := hashrates_by_worker s in
  mkSnapshot (counters s) (round_shares_accepted s) (round_shares_rejected s)
    (round_since_ts (round s)) (reject_reasons (counters s)) (round_reject_reasons s)
    (blocks_found (blocks s)) (blocks_inconclusive (blocks s)) (blocks_orphaned (blocks s))
    (Z.of_nat (size (pending_blocks (blocks s)))) n
    (f64_from_bits (best_hashrate_bits (counters s)))
    (f64_from_bits (session_best_hashrate_bits (counters s)))
    (total_hashrate s) (take 4 (per_minute (share_rate s)) ++ drop 5 (per_minute (share_rate s)))
    ((fun kv => mkWorkerHashrate kv.1 (default 0 (worker_last_submit_ts w !! kv.1)) kv.2)
       <$> map_to_list by_worker)
    ((live_row w by_worker <$> map_to_list (worker_states w))
     ++ (extra_row w by_worker <$> elements (extra_workers w by_worker)))
    (node_rpc_last_ok n now) (uptime n now) (round_work (round s)) 0 false [] false.

(** ** Lemmas on the best shares *)
Lemma lookup_deletes (l : list (string * Z)) (m : gmap string Z) k :
  foldl (fun acc kv => delete kv.1 acc) m l !! k
  = if bool_decide (k ∈ l.*1) then None else m !! k.
Proof.
  revert m; induction l as [|[k' v] l IH]; intros m; cbn.
  - by rewrite bool_decide_eq_false_2 by apply not_elem_of_nil.
  - rewrite IH. destruct (decide (k ∈ l.*1)).
    + by rewrite !bool_decide_eq_true_2 by set_solver.
    + rewrite (bool_decide_eq_false_2 (k ∈ l.*1)) by done. destruct (decide (k = k')) as [->|Hk].
      * rewrite bool_decide_eq_true_2 by set_solver. apply lookup_delete_eq.
      * rewrite bool_decide_eq_false_2 by set_solver. by rewrite lookup_delete_ne.
Qed.

Section KeepBest.
Variable by_difficulty : gmap string Z -> list (string * Z).
Hypothesis by_difficulty_perm : forall m, by_difficulty m ≡ₚ map_to_list m.
Hypothesis by_difficulty_sorted : forall m, StronglySorted (fun a b => b.2 <= a.2) (by_difficulty m).

Definition dropped (m : gmap string Z) : list (string * Z) := drop MAX_WORKER_BEST_SHARES (by_difficulty m).
Definition kept (m : gmap string Z) : list (string * Z) := take MAX_WORKER_BEST_SHARES (by_difficulty m).

Lemma sorted_nodup m : NoDup (by_difficulty m).*1.
Proof. rewrite by_difficulty_perm. apply NoDup_fst_map_to_list. Qed.

Lemma elem_of_sorted m k v : (k, v) ∈ by_difficulty m <-> m !! k = Some v.
Proof. by rewrite by_difficulty_perm, elem_of_map_to_list. Qed.

Lemma lookup_keep_best m k v :
  (MAX_WORKER_BEST_SHARES < size m)%nat ->
  keep_best by_difficulty m !! k = Some v <-> (k, v) ∈ kept m.
Proof.
  intros Hs. unfold keep_best. rewrite (proj2 (Nat.ltb_lt _ _) Hs). fold (dropped m).
  rewrite lookup_deletes. pose proof (sorted_nodup m) as Hn.
  pose proof (elem_of_sorted m k v) as Hiff.
  rewrite <- (take_drop MAX_WORKER_BEST_SHARES (by_difficulty m)) in Hn, Hiff.
  fold (dropped m) (kept m) in Hn, Hiff. rewrite fmap_app in Hn. apply NoDup_app in Hn as (_ & Hd & _).
  case_bool_decide as Hin.
  - split; [done|]. intros Hk. exfalso.
    exact (Hd k (list_elem_of_fmap_2 fst _ _ Hk) Hin).
  - rewrite <- Hiff, elem_of_app. split; [|by left]. intros [Hk|Hk]; [done|].
    exfalso. exact (Hin (list_elem_of_fmap_2 fst _ _ Hk)).
Qed.

Lemma keep_best_size m : (size (keep_best by_difficulty m) <= MAX_WORKER_BEST_SHARES)%nat.
Proof.
  destruct (Nat.ltb_spec MAX_WORKER_BEST_SHARES (size m)) as [Hs|Hs].
  - rewrite <- length_map_to_list. transitivity (length (kept m)); [|unfold kept; rewrite length_take; lia].
    apply submseteq_length, NoDup_submseteq; [apply NoDup_map_to_list|].
    intros [k v]. rewrite elem_of_map_to_list. by apply lookup_keep_best.
  - unfold keep_best. by rewrite (proj2 (Nat.ltb_ge _ _) Hs).
Qed.

Lemma keep_best_subset m : keep_best by_difficulty m ⊆ m.
Proof.
  apply map_subseteq_spec. intros k v. unfold keep_best. case_match; [|done].
  rewrite lookup_deletes. by case_bool_decide.
Qed.

Lemma keep_best_highest m k v k' v' :
  keep_best by_difficulty m !! k = Some v ->
  m !! k' = Some v' -> keep_best by_difficulty m !! k' = None -> v' <= v.
Proof.
  intros Hk Hk' Hn. destruct (Nat.ltb_spec MAX_WORKER_BEST_SHARES (size m)) as [Hs|Hs].
  2:{ unfold keep_best in Hn. by rewrite (proj2 (Nat.ltb_ge _ _) Hs), Hk' in Hn. }
  apply lookup_keep_best in Hk; [|done].
  assert ((k', v') ∈ dropped m) as Hd.
  { apply elem_of_sorted in Hk'. rewrite <- (take_drop MAX_WORKER_BEST_SHARES (by_difficulty m)) in Hk'.
    apply elem_of_app in Hk' as [Hk'|Hk']; [|done]. apply (lookup_keep_best m k' v') in Hk'; congruence. }
  pose proof (by_difficulty_sorted m) as HS.
  rewrite <- (take_drop MAX_WORKER_BEST_SHARES (by_difficulty m)) in HS.
  fold (kept m) (dropped m) in HS. clear -HS Hk Hd. induction (kept m) as [|x l IH]; [by apply elem_of_nil in Hk|].
  cbn in HS. inversion HS as [|? ? HS' HF]; subst. apply elem_of_cons in Hk as [<-|Hk]; [|by apply IH].
  rewrite Forall_forall in HF. apply (HF (k', v')). apply elem_of_app. by right.
Qed.
End KeepBest.

(** ** Sessions and the worker table *)

(** The state of a worker tells its open sessions. *)
Definition tells (n : Z) (o : option WorkerState) : Prop :=
  match o with
  | Some st => ws_online st = (0 <? n) /\ ws_active_sessions st = n
  | None => n = 0
  end.

(** The worker table tells the sessions open under each worker. *)
Definition table_tells (s : PoolStats) (opened : string -> Z) : Prop :=
  forall w, tells (opened w) (worker_states (workers s) !! w).

(** What a session under [o] adds to the sessions open under [w]. *)
Definition one (o : option string) (w : string) : Z := if bool_decide (o = Some w) then 1 else 0.

(** A step in which a session passes from worker [o] to worker [o'], while the
    other sessions are the [others]. *)
Record moves (o o' : option string) (s s' : PoolStats) : Prop := {
  moves_table : forall others, (forall w, 0 <= others w < u64_max) ->
    table_tells s (fun w => others w + one o w) -> table_tells s' (fun w => others w + one o' w);
  moves_connected : connected_miners (counters s') = connected_miners (counters s)
}.

Lemma moves_trans o1 o2 o3 s1 s2 s3 : moves o1 o2 s1 s2 -> moves o2 o3 s2 s3 -> moves o1 o3 s1 s3.
Proof. intros [H1 C1] [H2 C2]. split; [eauto | congruence]. Qed.

(** A step that leaves who is connected alone. *)
Record unmoved (s s' : PoolStats) : Prop := {
  unmoved_table : forall n w, 0 <= n ->
    tells n (worker_states (workers s) !! w) -> tells n (worker_states (workers s') !! w);
  unmoved_connected : connected_miners (counters s') = connected_miners (counters s)
}.

#[export] Instance unmoved_preorder : PreOrder unmoved.
Proof. split; [done|]. intros s1 s2 s3 [H1 C1] [H2 C2]. split; [eauto | congruence]. Qed.

Lemma one_bounds o w : 0 <= one o w <= 1.
Proof. unfold one. case_bool_decide; lia. Qed.

Lemma one_None w : one None w = 0.
Proof. unfold one. by rewrite bool_decide_eq_false_2. Qed.

Lemma unmoved_moves o s s' : unmoved s s' -> moves o o s s'.
Proof.
  intros [Ht Hc]. split; [|done]. intros others Hb Hs w. apply Ht; [|done].
  pose proof (one_bounds o w). specialize (Hb w). cbn. lia.
Qed.

Lemma moves_refl o s : moves o o s s.
Proof. by apply unmoved_moves. Qed.

Lemma unmoved_same s s' :
  worker_states (workers s') = worker_states (workers s) ->
  connected_miners (counters s') = connected_miners (counters s) -> unmoved s s'.
Proof. intros E Ec. split; [|done]. intros n w _. by rewrite E. Qed.

Lemma states_alter s w f :
  worker_states (workers (alter_state s w f)) = alter f w (worker_states (workers s)).
Proof. done. Qed.

(** An update of one worker's state that keeps its presence. *)
Definition keeps_presence (f : WorkerState -> WorkerState) : Prop :=
  forall st, ws_online (f st) = ws_online st /\ ws_active_sessions (f st) = ws_active_sessions st.

Lemma tells_fmap n (o : option WorkerState) f : keeps_presence f -> tells n o -> tells n (f <$> o).
Proof. intros Hf. destruct o as [st|]; [|done]. destruct (Hf st) as [H1 H2]. cbn. by rewrite H1, H2. Qed.

Lemma unmoved_alter s w f : keeps_presence f -> unmoved s (alter_state s w f).
Proof.
  intros Hf. split; [|done]. intros n x _ Ht. rewrite states_alter.
  destruct (decide (x = w)) as [->|Hx].
  - rewrite lookup_alter_eq. by apply tells_fmap.
  - by rewrite lookup_alter_ne.
Qed.

Lemma moves_online s w v now : moves None (Some w) s (mark_worker_online s w v now).
Proof.
  split; [|unfold mark_worker_online; by case_match]. intros others Hb Hs x. specialize (Hs x). cbn in Hs.
  specialize (Hb x). rewrite one_None, Z.add_0_r in Hs. unfold one.
  unfold mark_worker_online. case_bool_decide as E.
  - injection E as <-. destruct (worker_states (workers s) !! w) as [st|] eqn:Es.
    + rewrite states_alter, lookup_alter_eq, Es. cbn in *. destruct Hs as [_ ->].
      rewrite (proj2 (Z.ltb_lt 0 (others w + 1))) by lia. split; [done|]. unfold sat_add64. lia.
    + cbn. rewrite lookup_insert_eq. cbn in *. by rewrite Hs.
  - rewrite Z.add_0_r. destruct (worker_states (workers s) !! w) as [st|] eqn:Es.
    + rewrite states_alter, lookup_alter_ne by congruence. done.
    + cbn. rewrite lookup_insert_ne by congruence. done.
Qed.

Lemma moves_offline s w : moves (Some w) None s (mark_worker_offline s w).
Proof.
  split; [|done]. intros others Hb Hs x. specialize (Hs x). cbn in Hs. specialize (Hb x).
  rewrite one_None, Z.add_0_r.
  unfold mark_worker_offline. rewrite states_alter. unfold one in Hs. case_bool_decide as E.
  - injection E as <-. rewrite lookup_alter_eq.
    destruct (worker_states (workers s) !! w) as [st|]; [|cbn in *; lia].
    destruct Hs as [Hon Hn]. cbn. rewrite Hn, Hon. destruct (Z.leb_spec (others w + 1) 1).
    + rewrite (proj2 (Z.ltb_ge 0 (others w))) by lia. split; [done | lia].
    + rewrite !(proj2 (Z.ltb_lt 0 _)) by lia. split; [done | lia].
  - rewrite lookup_alter_ne by congruence. by rewrite Z.add_0_r in Hs.
Qed.

Lemma moves_vardiff s w v now : moves (Some w) (Some w) s (update_worker_vardiff s w v now).
Proof.
  unfold update_worker_vardiff. destruct (worker_states (workers s) !! w) eqn:E.
  - by apply unmoved_moves, unmoved_alter.
  - split; [|unfold mark_worker_online; by case_match]. intros others Hb Hs. specialize (Hs w).
    specialize (Hb w). cbn in Hs. rewrite E in Hs. unfold one in Hs.
    rewrite bool_decide_eq_true_2 in Hs by done. cbn in Hs. lia.
Qed.

Lemma unmoved_protocol s w p : unmoved s (set_worker_protocol s w p).
Proof. etrans; [|by apply unmoved_alter]. by apply unmoved_same. Qed.

Lemma unmoved_submit s w now : unmoved s (mark_worker_submit s w now).
Proof. etrans; [|by apply unmoved_alter]. by apply unmoved_same. Qed.

Lemma unmoved_worker_accepted s w d : unmoved s (worker_share_accepted s w d).
Proof.
  unfold worker_share_accepted.
  match goal with |- context [alter_state s w ?f] =>
    trans (alter_state s w f); [by apply unmoved_alter|] end.
  case_match; by apply unmoved_same.
Qed.

Lemma unmoved_worker_rejected s w r : unmoved s (worker_share_rejected s w r).
Proof. by apply unmoved_alter. Qed.

Lemma evict_keeps {V} stale (m : gmap string V) w :
  evict stale m !! w = if bool_decide (w ∈ stale) then None else m !! w.
Proof.
  unfold evict. case_bool_decide as E.
  - apply map_lookup_filter_None. right. intros v _. cbn. tauto.
  - destruct (m !! w) as [v|] eqn:Em.
    + by apply map_lookup_filter_Some.
    + apply map_lookup_filter_None. by left.
Qed.

(** Pruning drops only workers with no open session. *)
Lemma unmoved_prune by_difficulty s now : unmoved s (prune_idle_workers by_difficulty s now).
Proof.
  set (stale := stale_workers (workers s) (sat_sub now IDLE_WORKER_EVICT_SECS)).
  assert (worker_states (workers (prune_idle_workers by_difficulty s now))
          = evict stale (worker_states (workers s))) as E.
  { unfold prune_idle_workers. case_match; done. }
  split; [|unfold prune_idle_workers; by case_match]. intros n w Hn0 Ht. rewrite E, evict_keeps.
  case_bool_decide as Hst; [|done]. cbn.
  unfold stale, stale_workers in Hst. apply elem_of_dom in Hst as [st Hst].
  apply map_lookup_filter_Some in Hst as [Hs Hst].
  rewrite Hs in Ht. destruct Ht as [Hon Hn]. unfold is_stale in Hst. rewrite Hon in Hst.
  destruct (Z.ltb_spec 0 n); [done | lia].
Qed.

Lemma live_row_online w by_worker name st :
  wr_worker (live_row w by_worker (name, st)) = name
  /\ ws_online (wr_state (live_row w by_worker (name, st))) = ws_online st
  /\ ws_active_sessions (wr_state (live_row w by_worker (name, st))) = ws_active_sessions st.
Proof. done. Qed.

(** Every row of the worker table, by its worker. *)
Lemma snapshot_rows s n now row :
  row ∈ sn_worker_states (snapshot s n now) ->
  (exists st, worker_states (workers s) !! wr_worker row = Some st
              /\ row = live_row (workers s) (hashrates_by_worker s) (wr_worker row, st))
  \/ (worker_states (workers s) !! wr_worker row = None
      /\ row = extra_row (workers s) (hashrates_by_worker s) (wr_worker row)).
Proof.
  cbn. intros Hr. apply elem_of_app in Hr as [Hr|Hr]; apply list_elem_of_fmap in Hr as (x & -> & Hx).
  - left. destruct x as [name st]. apply elem_of_map_to_list in Hx. by exists st.
  - right. apply elem_of_elements in Hx. unfold extra_workers in Hx. cbn.
    split; [|done]. apply not_elem_of_dom. set_solver.
Qed.

(** The rows shown when the table tells the open sessions. *)
Lemma table_shown s n now opened :
  table_tells s opened ->
  (forall w, 0 < opened w ->
    exists row, row ∈ sn_worker_states (snapshot s n now) /\ wr_worker row = w)
  /\ (forall row, row ∈ sn_worker_states (snapshot s n now) ->
      ws_online (wr_state row) = (0 <? opened (wr_worker row))
      /\ ws_active_sessions (wr_state row) = opened (wr_worker row)).
Proof.
  intros Hi. split.
  - intros w Hw. specialize (Hi w).
    destruct (worker_states (workers s) !! w) as [st|] eqn:E; [|cbn in Hi; lia].
    exists (live_row (workers s) (hashrates_by_worker s) (w, st)). split; [|done].
    cbn [snapshot sn_worker_states]. apply elem_of_app. left. apply list_elem_of_fmap_2.
    by apply elem_of_map_to_list.
  - intros row Hrow. specialize (Hi (wr_worker row)).
    destruct (snapshot_rows _ _ _ _ Hrow) as [(st & E & ->)|[E ->]]; rewrite E in Hi.
    + by destruct (live_row_online (workers s) (hashrates_by_worker s) (wr_worker row) st) as (_ & -> & ->).
    + cbn in *. by rewrite Hi.
Qed.

(** ** Properties *)

Definition by_best (a b : string * Z) : Prop := b.2 <= a.2.
#[export] Instance by_best_dec : RelDecision by_best.
Proof. intros a b. unfold by_best. apply _. Defined.

#[export] Instance by_best_trans : Transitive by_best.
Proof. intros x y z. unfold by_best. lia. Qed.
#[export] Instance by_best_total : Total by_best.
Proof. intros x y. unfold by_best. lia. Qed.

Definition merge_order (m : gmap string Z) : list (string * Z) :=
  merge_sort by_best (map_to_list m).

(** The best shares are bounded and the best survive: a pruner run leaves at
    most [MAX_WORKER_BEST_SHARES] workers in memory, invents none, drops no share
    higher than one it keeps, whatever order equal difficulties are sorted in,
    and queues the same cap for the database exactly when it had to drop some. *)
Lemma prune_keeps_the_best (by_difficulty : gmap string Z -> list (string * Z)) (s : PoolStats)
    (now : Z) :
  (forall m, by_difficulty m ≡ₚ map_to_list m) ->
  (forall m, StronglySorted (fun a b => b.2 <= a.2) (by_difficulty m)) ->
  let s' := prune_idle_workers by_difficulty s now in
  let before := worker_best_shares (workers s) in
  let after := worker_best_shares (workers s') in
  (size after <= MAX_WORKER_BEST_SHARES)%nat /\ after ⊆ before
  /\ (forall k v k' v', after !! k = Some v -> before !! k' = Some v' -> after !! k' = None -> v' <= v)
  /\ store s' = (fun q => q ++ if (MAX_WORKER_BEST_SHARES <? size before)%nat
                              then [PruneWorkerBestShares MAX_WORKER_BEST_SHARES] else []) <$> store s.
Proof.
  intros Hp Hs s' before after.
  assert (after = keep_best by_difficulty before) as Ea.
  { unfold after, s', prune_idle_workers. by case_match. }
  rewrite Ea. split_and!.
  - by apply keep_best_size.
  - apply keep_best_subset.
  - intros k v k' v' Hk Hk' Hn. by eapply (keep_best_highest by_difficulty).
  - unfold s', prune_idle_workers. cbn [worker_best_shares]. fold before. case_match; [done|].
    change (store (with_workers s _)) with (store s). destruct (store s); cbn; [by rewrite app_nil_r | done].
Qed.

Lemma prune_keeps_the_best_witness :
  (size (worker_best_shares (workers (prune_idle_workers merge_order (stats_new true 0 0) 0)))
   <= MAX_WORKER_BEST_SHARES)%nat.
Proof.
  apply (prune_keeps_the_best merge_order (stats_new true 0 0) 0).
  - intros m. apply merge_sort_Permutation.
  - intros m. apply (StronglySorted_merge_sort by_best).
Defined.

End Snapshot.
