(* ===== verification/Security.v ===== *)
(** * Security: the DoS protection layer ([src/security/mod.rs])

    [BanList], [ConnectionRateLimiter] (both keyed by IP address, a [DashMap]
    each, here a [gmap]), the per-session [ShareRateLimiter],
    [InvalidShareCounter] and [SessionGuard], and worker-name validation.
    Every read of the clock is an argument, in the order the code makes them. *)
From S2P Require Import Prelude Text F64 Json Errors.

Module Security.

(** [config::SecurityConfig]. *)
Record SecurityConfig := mkSecurityConfig {
  max_connections_per_ip : Z;
  max_shares_per_sec : Z;
  ban_duration_secs : Z;
  cfg_max_invalid_shares : Z;
  cfg_max_message_bytes : Z;
  cfg_max_worker_name_len : Z;
  max_authorizations_per_session : Z
}.

Section PerIp.
Context {Ip : Type} `{Countable Ip}.

(** ** Ban list *)
Record BanEntry := mkBanEntry { until : Instant; reason : string }.
Record BanList := mkBanList { entries : gmap Ip BanEntry; ban_duration : Z }.

Definition ban_list_new (ban_duration_secs : Z) : BanList :=
  mkBanList ∅ (ban_duration_secs * NANOS).

Definition ban (b : BanList) (ip : Ip) (why : string) (now : Instant) : BanList :=
  mkBanList (<[ip := mkBanEntry (now + ban_duration b) why]> (entries b)) (ban_duration b).

(** The clock is read once for the test and once inside [remove_if]. *)
Definition is_banned (b : BanList) (ip : Ip) (now1 now2 : Instant) : bool * BanList :=
  let test := match entries b !! ip with
              | Some e => now1 <? until e
              | None => false
              end in
  if test then (true, b)
  else
    let entries' := match entries b !! ip with
                    | Some e => if until e <=? now2 then delete ip (entries b) else entries b
                    | None => entries b
                    end in
    (false, mkBanList entries' (ban_duration b)).

Definition ban_prune (b : BanList) (now : Instant) : BanList :=
  mkBanList (filter (fun kv => now < until kv.2) (entries b)) (ban_duration b).

(** ** Connection rate limiter: a sliding window per address *)
Record ConnectionRateLimiter := mkLimiter {
  windows : gmap Ip (list Instant);
  max_per_minute : Z
}.

Definition limiter_new (max : Z) : ConnectionRateLimiter := mkLimiter ∅ max.

Definition MINUTE : Z := 60 * NANOS.

(** [Instant::now().checked_sub(60s)]: [None] when the monotonic clock has
    run for less than a minute. *)
Definition one_minute_ago (now : Instant) : option Instant :=
  if now <? MINUTE then None else Some (now - MINUTE).

Definition evict (now : Instant) (times : list Instant) : list Instant :=
  match one_minute_ago now with
  | Some cutoff => filter (fun t => cutoff < t) times
  | None => times
  end.

Definition check_and_record (l : ConnectionRateLimiter) (ip : Ip) (now1 now2 : Instant)
  : bool * ConnectionRateLimiter :=
  let entry := evict now1 (default [] (windows l !! ip)) in
  if max_per_minute l <=? Z.of_nat (length entry)
  then (false, mkLimiter (<[ip := entry]> (windows l)) (max_per_minute l))
  else (true, mkLimiter (<[ip := entry ++ [now2]]> (windows l)) (max_per_minute l)).

Definition limiter_prune (l : ConnectionRateLimiter) (now : Instant) : ConnectionRateLimiter :=
  match one_minute_ago now with
  | None => l
  | Some cutoff =>
      mkLimiter (filter (fun kv => Exists (fun t => cutoff < t) kv.2) (windows l))
                (max_per_minute l)
  end.
End PerIp.
Arguments BanList Ip {_ _}.
Arguments ConnectionRateLimiter Ip {_ _}.

(** ** Worker names *)
Definition invalid_worker (detail : string) : PoolError := InvalidParams "worker name" detail.

Definition validate_worker_name (name : string) (max_len : Z) : result PoolError unit :=
  if bool_decide (name = EmptyString) then Err (invalid_worker "worker name must not be empty")
  else if max_len <? str_len name then Err (invalid_worker "worker name too long")
  else if existsb (fun c => is_control c || is_whitespace c) (chars name)
  then Err (invalid_worker "worker name must not contain control or whitespace characters")
  else Ok tt.

(** ** Token bucket *)
Record ShareRateLimiter := mkShareRate {
  tokens : f64;
  max_per_sec : f64;
  last_refill : Instant
}.

Definition share_rate_new (rate : Z) (now : Instant) : ShareRateLimiter :=
  mkShareRate (f64_of_Z rate) (f64_of_Z rate) now.

(** [last_refill.elapsed()] reads the clock at [now1]; the refill is stamped
    with a second read, [now2]. *)
Definition try_consume (s : ShareRateLimiter) (now1 now2 : Instant) : bool * ShareRateLimiter :=
  let elapsed := as_secs_f64 (duration_since now1 (last_refill s)) in
  let t := fmin (tokens s + elapsed * max_per_sec s)%f64 (max_per_sec s) in
  if (f1 <=? t)%f64 then (true, mkShareRate (t - f1)%f64 (max_per_sec s) now2)
  else (false, mkShareRate t (max_per_sec s) now2).

(** ** Invalid-share counter *)
Record InvalidShareCounter := mkInvalid { inv_count : Z; inv_max : Z }.

Definition invalid_new (max : Z) : InvalidShareCounter := mkInvalid 0 max.

Definition record_invalid (c : InvalidShareCounter) : bool * InvalidShareCounter :=
  if inv_max c =? 0 then (false, c)
  else
    let n := inv_count c + 1 in
    (inv_max c <=? n, mkInvalid n (inv_max c)).

(** ** Session guard *)
Record SessionGuard := mkGuard {
  share_rate : ShareRateLimiter;
  invalid_shares : InvalidShareCounter;
  max_message_bytes : Z;
  max_worker_name_len : Z;
  authorizations : Z;
  max_authorizations : Z
}.

Definition guard_new (cfg : SecurityConfig) (now : Instant) : SessionGuard :=
  mkGuard (share_rate_new (max_shares_per_sec cfg) now)
          (invalid_new (cfg_max_invalid_shares cfg))
          (cfg_max_message_bytes cfg) (cfg_max_worker_name_len cfg)
          0 (max_authorizations_per_session cfg).

Definition record_new_authorization (g : SessionGuard) : bool * SessionGuard :=
  if max_authorizations g =? 0 then (true, g)
  else
    let n := authorizations g + 1 in
    (n <=? max_authorizations g,
     mkGuard (share_rate g) (invalid_shares g) (max_message_bytes g) (max_worker_name_len g)
             n (max_authorizations g)).

Definition check_message_size (g : SessionGuard) (len : Z) : result PoolError unit :=
  if max_message_bytes g <? len then Err (MessageTooLarge len) else Ok tt.

Definition check_worker_name (g : SessionGuard) (name : string) : result PoolError unit :=
  validate_worker_name name (max_worker_name_len g).

(** Field updates of the guard the handlers perform through [&mut]. *)
Definition guard_set_rate (g : SessionGuard) (r : ShareRateLimiter) : SessionGuard :=
  mkGuard r (invalid_shares g) (max_message_bytes g) (max_worker_name_len g)
          (authorizations g) (max_authorizations g).
Definition guard_set_invalid (g : SessionGuard) (c : InvalidShareCounter) : SessionGuard :=
  mkGuard (share_rate g) c (max_message_bytes g) (max_worker_name_len g)
          (authorizations g) (max_authorizations g).

(** ** Runs of the connection limiter *)
Section LimiterRuns.
Context {Ip : Type} `{Countable Ip}.

(** The accept loop consults the limiter; a background task prunes it. *)
Inductive net_event :=
| Connect (ip : Ip) (now1 now2 : Instant)
| PruneTick (now : Instant).

(** The connections admitted, in order, with the recorded time. *)
Fixpoint run_limiter (l : ConnectionRateLimiter Ip) (evs : list net_event)
  : list (Ip * Instant) :=
  match evs with
  | [] => []
  | Connect ip now1 now2 :: evs' =>
      let '(ok, l') := check_and_record l ip now1 now2 in
      if ok then (ip, now2) :: run_limiter l' evs' else run_limiter l' evs'
  | PruneTick now :: evs' => run_limiter (limiter_prune l now) evs'
  end.

(** The monotonic clock never runs backwards. *)
Fixpoint clocked (c : Instant) (evs : list net_event) : Prop :=
  match evs with
  | [] => True
  | Connect _ now1 now2 :: evs' => c <= now1 <= now2 /\ clocked now2 evs'
  | PruneTick now :: evs' => c <= now /\ clocked now evs'
  end.

Definition times_of (ip : Ip) (acc : list (Ip * Instant)) : list Instant :=
  omap (fun kv => if bool_decide (kv.1 = ip) then Some kv.2 else None) acc.

Definition in_minute (T t : Instant) : Prop := T - MINUTE < t <= T.
Definition after (x t : Instant) : Prop := x - MINUTE < t.

#[export] Instance in_minute_dec T t : Decision (in_minute T t).
Proof. unfold in_minute. apply _. Defined.
#[export] Instance after_dec x t : Decision (after x t).
Proof. unfold after. apply _. Defined.

Definition within_limit (max : Z) (A : list Instant) : Prop :=
  forall T, Z.of_nat (length (filter (in_minute T) A)) <= max.

(** The stored window and the past admissions agree on every minute that
    ends now or later. *)
Definition window_inv (c : Instant) (W A : list Instant) : Prop :=
  forall x, c <= x -> filter (after x) A = filter (after x) W.

Lemma filter_evict x now W :
  now <= x -> filter (after x) (evict now W) = filter (after x) W.
Proof.
  intros Hx. unfold evict, one_minute_ago. destruct (now <? MINUTE); [done|].
  rewrite list_filter_filter_l; [done|]. unfold after. lia.
Qed.

Lemma filter_after_evict_length x now W :
  now <= x -> (length (filter (after x) W) <= length (evict now W))%nat.
Proof.
  intros Hx. rewrite <- (filter_evict x now W Hx). apply length_filter.
Qed.

Lemma window_inv_weaken c c' W A : c <= c' -> window_inv c W A -> window_inv c' W A.
Proof. intros Hc HI x Hx. apply HI. lia. Qed.

Lemma within_limit_snoc max now1 now2 W A :
  now1 <= now2 -> 0 <= max -> within_limit max A -> window_inv now1 W A ->
  Z.of_nat (length (evict now1 W)) < max -> within_limit max (A ++ [now2]).
Proof.
  intros Hn Hmax HA HI Hlen T. rewrite filter_app, length_app, filter_cons, filter_nil.
  case_decide as HT; [|cbn [length]; rewrite Nat.add_0_r; apply HA].
  unfold in_minute in HT.
  assert (length (filter (in_minute T) A) <= length (filter (after T) A))%nat as Hle.
  { rewrite <- (list_filter_filter_l (in_minute T) (after T)).
    - apply length_filter.
    - unfold in_minute, after. lia. }
  rewrite HI in Hle by lia.
  pose proof (filter_after_evict_length T now1 W ltac:(lia)). cbn [length]. lia.
Qed.

Lemma window_inv_snoc now1 now2 W A :
  now1 <= now2 -> window_inv now1 W A -> window_inv now2 (evict now1 W ++ [now2]) (A ++ [now2]).
Proof.
  intros Hn HI x Hx. rewrite !filter_app, filter_evict by lia. by rewrite HI by lia.
Qed.

Lemma window_inv_evict now1 W A : window_inv now1 W A -> window_inv now1 (evict now1 W) A.
Proof. intros HI x Hx. rewrite filter_evict by lia. by apply HI. Qed.

Lemma prune_window now (l : ConnectionRateLimiter Ip) (ip : Ip) A :
  window_inv now (default [] (windows l !! ip)) A ->
  window_inv now (default [] (windows (limiter_prune l now) !! ip)) A.
Proof.
  intros HI. unfold limiter_prune, one_minute_ago.
  destruct (now <? MINUTE); [done|]. cbn [windows]. rewrite map_lookup_filter.
  destruct (windows l !! ip) as [W|] eqn:EW; simpl in *; [|done].
  case_guard as Hex; simpl; [done|]. intros x Hx. rewrite HI by done.
  destruct (filter (after x) W) as [|t l'] eqn:EF; [done|]. exfalso.
  assert (t ∈ filter (after x) W) as [Hlt Ht]%list_elem_of_filter by (rewrite EF; left).
  apply Hex, Exists_exists. exists t. split; [done|]. unfold after in Hlt. simpl. lia.
Qed.

Lemma run_limiter_bounded evs : forall c (l : ConnectionRateLimiter Ip) A (ip : Ip),
  0 <= max_per_minute l -> clocked c evs ->
  within_limit (max_per_minute l) A -> window_inv c (default [] (windows l !! ip)) A ->
  within_limit (max_per_minute l) (A ++ times_of ip (run_limiter l evs)).
Proof.
  induction evs as [|[ip' now1 now2|now] evs IH]; intros c l A ip Hmax Hclk HA HI.
  - cbn. by rewrite app_nil_r.
  - destruct Hclk as [Hc Hclk]. simpl. unfold check_and_record.
    apply (window_inv_weaken c now1) in HI; [|lia].
    destruct (decide (ip' = ip)) as [->|Hip].
    + set (W := default [] (windows l !! ip)) in *.
      destruct (Z.leb_spec (max_per_minute l) (Z.of_nat (length (evict now1 W)))).
      * eapply (IH now2 (mkLimiter _ _)); simpl; [done..|]. rewrite lookup_insert_eq. simpl.
        eapply window_inv_weaken; [|by apply window_inv_evict]. lia.
      * unfold times_of. cbn [omap list_omap fst snd]. rewrite bool_decide_true by done.
        rewrite cons_middle, app_assoc.
        eapply (IH now2 (mkLimiter _ _)); simpl; [done|done| |].
        -- by eapply within_limit_snoc; [|done|done|done|]; [lia|].
        -- rewrite lookup_insert_eq. simpl. by apply window_inv_snoc; [lia|].
    + destruct (max_per_minute l
                 <=? Z.of_nat (length (evict now1 (default [] (windows l !! ip'))))).
      all: unfold times_of; cbn [omap list_omap fst snd]; rewrite ?bool_decide_false by done.
      all: eapply (IH now2 (mkLimiter _ _)); simpl; [done..|].
      all: rewrite lookup_insert_ne by done; eapply window_inv_weaken; [|done]; lia.
  - destruct Hclk as [Hc Hclk]. simpl.
    assert (max_per_minute (limiter_prune l now) = max_per_minute l) as Em
      by (unfold limiter_prune; by case_match).
    rewrite <- Em. eapply (IH now); [by rewrite Em|done|by rewrite Em|].
    apply prune_window. eapply window_inv_weaken; [|done]. lia.
Qed.
End LimiterRuns.
Arguments net_event Ip : clear implicits.

(** ** Properties *)

(** C36. Connection rate limiting: whatever the order in which addresses
    connect and the background task prunes, over a monotonic clock no address
    is ever admitted more than [max_per_minute] times within any 60-second
    window. *)
Theorem connection_rate_bounded {Ip : Type} `{Countable Ip} (max c : Z)
    (evs : list (net_event Ip)) (ip : Ip) (T : Instant) :
  0 <= max -> clocked c evs ->
  Z.of_nat (length (filter (in_minute T) (times_of ip (run_limiter (limiter_new max) evs)))) <= max.
Proof.
  intros Hmax Hclk.
  assert (within_limit max ([] ++ times_of ip (run_limiter (limiter_new max) evs))) as HL.
  { eapply (run_limiter_bounded evs c (limiter_new max)); [done | done | |].
    - intros T'. by rewrite filter_nil.
    - intros x _. simpl. by rewrite lookup_empty. }
  apply HL.
Qed.

Lemma connection_rate_bounded_witness :
  Z.of_nat (length (filter (in_minute (100 * NANOS))
    (times_of 7%N (run_limiter (limiter_new 2)
       [Connect 7%N (90 * NANOS) (90 * NANOS); Connect 7%N (91 * NANOS) (91 * NANOS);
        PruneTick (92 * NANOS); Connect 7%N (93 * NANOS) (93 * NANOS)])))) <= 2.
Proof.
  apply (connection_rate_bounded 2 0); [lia | simpl; unfold NANOS; lia].
Defined.

(** A ban lasts exactly [ban_duration]: banning [ip] at [t0] makes every
    later query answer [true] until [t0 + ban_duration] and [false] from then
    on, pruning in between changes no answer, and no other address is
    affected. *)
Lemma ban_lasts_its_duration {Ip : Type} `{Countable Ip} (b : BanList Ip) (ip ip' : Ip)
    (why : string) (t0 tp now1 now2 : Instant) :
  tp <= now1 ->
  (is_banned (ban b ip why t0) ip now1 now2).1 = (now1 <? t0 + ban_duration b)
  /\ (is_banned (ban_prune (ban b ip why t0) tp) ip now1 now2).1 = (now1 <? t0 + ban_duration b)
  /\ (ip' <> ip ->
      (is_banned (ban b ip why t0) ip' now1 now2).1 = (is_banned b ip' now1 now2).1).
Proof.
  intros Htp. unfold is_banned, ban_prune, ban; cbn [entries ban_duration].
  repeat split.
  - rewrite lookup_insert_eq; cbn [until]. by case_match.
  - rewrite map_lookup_filter, lookup_insert_eq; simpl.
    case_guard; simpl; [by case_match|].
    destruct (Z.ltb_spec now1 (t0 + ban_duration b)); [lia | done].
  - intros Hne. rewrite lookup_insert_ne by done.
    destruct (entries b !! ip') as [e|]; simpl; [|done]. by case_match.
Qed.

Lemma ban_lasts_its_duration_witness :
  (is_banned (ban (ban_list_new 600) 7%N "flood" 0) 7%N 5 6).1 = (5 <? 0 + 600 * NANOS)
  /\ (is_banned (ban_prune (ban (ban_list_new 600) 7%N "flood" 0) 4) 7%N 5 6).1
       = (5 <? 0 + 600 * NANOS)
  /\ (8%N <> 7%N ->
      (is_banned (ban (ban_list_new 600) 7%N "flood" 0) 8%N 5 6).1
       = (is_banned (ban_list_new 600) 8%N 5 6).1).
Proof. apply (ban_lasts_its_duration (ban_list_new 600) 7%N 8%N "flood" 0 4 5 6). lia. Defined.

End Security.
