(* ===== verification/Accounting.v ===== *)
(** * Accounting: bookkeeping of shares and blocks ([src/mining/accounting.rs])

    The closed set of reject reasons and the sequences of statistics calls the
    SV1 and SV2 loops and the engine share.  Their calls on the metrics recorder are in
    [Metrics]. *)
From S2P Require Import Prelude Text F64 Json Errors Interfaces Rpc Hashrate Stats Store.
From S2P Require Import Security.
Import Rpc Stats Store Security.

Module Accounting.

(** Discharge premises that hold by computation. *)
Local Ltac specialize_refl :=
  match goal with H : ?a = ?a -> _ |- _ => specialize (H eq_refl) end.

(** Equality of tuples of integers. *)
Local Ltac pairs_lia :=
  repeat match goal with |- (_, _) = (_, _) => apply f_equal2 end; lia.

Inductive RejectReason : Type :=
| Unauthorized | JobNotFound | RDuplicate | Stale | RLowDifficulty | BadExtranonce | Invalid.

Definition reason_label (r : RejectReason) : string :=
  match r with
  | Unauthorized => "unauthorized"
  | JobNotFound => "job_not_found"
  | RDuplicate => "duplicate"
  | Stale => "stale"
  | RLowDifficulty => "low_difficulty"
  | BadExtranonce => "bad_extranonce"
  | Invalid => "invalid"
  end.

Definition counts_as_invalid (r : RejectReason) : bool :=
  match r with RLowDifficulty | Stale | Unauthorized => false | _ => true end.

Definition from_error (e : PoolError) : RejectReason :=
  match e with
  | StaleJob _ => Stale
  | DuplicateShare => RDuplicate
  | LowDifficulty => RLowDifficulty
  | _ => Invalid
  end.

(** The instant of the meter and the two wall-clock reads, in order. *)
Definition record_accepted (s : PoolStats) (session_id worker : string) (credit hash_difficulty : Z)
    (tick_now : Instant) (now1 now2 : Z) : PoolStats :=
  let s1 := add_share_diff s session_id worker (f64_of_Z credit) tick_now in
  let s2 := share_accepted s1 credit hash_difficulty in
  let s3 := worker_share_accepted s2 worker hash_difficulty in
  let s4 := mark_worker_submit s3 worker now1 in
  ledger_share_accepted s4 worker credit now2.

(** The returned flag asks for a disconnect; [record_invalid] is only reached
    for reasons that count. *)
Definition record_rejected (s : PoolStats) (g : SessionGuard) (worker : string)
    (reason : RejectReason) (now : Z) : bool * PoolStats * SessionGuard :=
  let label := reason_label reason in
  let s1 := share_rejected s label in
  let s2 := worker_share_rejected s1 worker label in
  let s3 := ledger_share_rejected s2 worker now in
  if counts_as_invalid reason then
    let '(over, c) := record_invalid (invalid_shares g) in (over, s3, guard_set_invalid g c)
  else (false, s3, g).

Definition record_rate_limited (s : PoolStats) : PoolStats := message_rate_limited s.

(** [now1] is read by the round reset, [now2] by the enrolment. *)
Definition record_block_outcome (s : PoolStats) (outcome : BlockSubmitOutcome) (height : Z)
    (worker payout hash_hex : string) (now1 now2 : Z) : PoolStats :=
  let s1 := if is_win outcome then block_found s now1 else block_inconclusive s in
  enroll_pending_block s1 height hash_hex worker payout (is_win outcome) now2.

Definition record_block_resolution (s : PoolStats) (block : PendingBlock)
    (resolution : BlockResolution) (now : Z) : bool * PoolStats :=
  resolve_block s block resolution now.

(** ** The block counters and the database *)
Section Restart.
Variable prune : nat -> gmap string Z -> gmap string Z.
Local Abbreviation apply_write := (apply_write prune).

(** Apply the queued writes in order, on a disk that accepts them. *)
Definition drain (ds : Db * WriterState) (q : list StoreWrite) : Db * WriterState :=
  foldl (fun ds w => default ds (apply_write ds.1 ds.2 w true)) ds q.

Definition queue (s : PoolStats) : list StoreWrite := default [] (store s).

Inductive BlockEvent : Type :=
| Reported (outcome : BlockSubmitOutcome) (height : Z) (worker payout hash : string) (now1 now2 : Z)
| Settled (hash : string) (resolution : BlockResolution) (now : Z).

(** A resolution reaches [resolve_block] with the block of the pending set. *)
Definition block_step (s : PoolStats) (e : BlockEvent) : PoolStats :=
  match e with
  | Reported o height worker payout hash now1 now2 =>
      record_block_outcome s o height worker payout hash now1 now2
  | Settled hash r now =>
      match pending_blocks (blocks s) !! hash with
      | Some b => (record_block_resolution s b r now).2
      | None => s
      end
  end.

Definition reported_hash (e : BlockEvent) : option string :=
  match e with Reported _ _ _ _ h _ _ => Some h | Settled _ _ _ => None end.

(** What the counters of the pool and the rows of the database have in
    common, with the reported hashes [hs]. *)
Record agree (s : PoolStats) (d : Db) (hs : list string) : Prop := {
  agree_store : is_Some (store s);
  agree_pending : pending_blocks (blocks s) = load_pending_blocks d;
  agree_counts : load_block_counts d
    = (blocks_found (blocks s), blocks_orphaned (blocks s), blocks_inconclusive (blocks s));
  agree_hash : map_Forall (fun h (r : BlockRow) => pb_hash (row_block r) = h) (found_blocks d);
  agree_seen : forall h, is_Some (found_blocks d !! h) -> h ∈ hs;
  agree_size : (size (found_blocks d) <= length hs)%nat
}.

Lemma drain_app ds q1 q2 : drain ds (q1 ++ q2) = drain (drain ds q1) q2.
Proof. apply foldl_app. Qed.

Lemma queue_enqueue s w : is_Some (store s) -> queue (enqueue s w) = queue s ++ [w].
Proof. intros [q Hq]. unfold queue. cbn. by rewrite Hq. Qed.

Lemma count_rows_insert P m h r :
  count_rows P (<[h := r]> m)
  = count_rows P m - from_option (fun r => if P r then 1 else 0) 0 (m !! h)
    + (if P r then 1 else 0).
Proof. unfold count_rows. by rewrite sum_map_insert. Qed.

Lemma count_rows_bounds P m : 0 <= count_rows P m <= Z.of_nat (size m).
Proof. apply sum_map_bounds. intros k v. destruct (P v); lia. Qed.

Lemma count_settled P m h r r' :
  m !! h = Some r ->
  count_rows P (<[h := r']> m) = count_rows P m - (if P r then 1 else 0) + (if P r' then 1 else 0)
  /\ (P r = true -> 1 <= count_rows P m)
  /\ (P r = false -> P r' = true -> count_rows P m + 1 <= Z.of_nat (size m)).
Proof.
  intros Hr. pose proof (count_rows_insert P m h r') as E. rewrite Hr in E. cbn in E.
  pose proof (count_rows_bounds P (<[h := r']> m)) as B.
  rewrite (map_size_insert_Some _ _ _ (mk_is_Some _ _ Hr)) in B.
  split; [done|]. split; [|intros Hp Hq; rewrite Hp, Hq in E; lia].
  intros Hp. unfold count_rows. rewrite (sum_map_delete _ _ _ _ Hr), Hp.
  pose proof (count_rows_bounds P (delete h m)). unfold count_rows in *. lia.
Qed.

(** How a pending and a settled row are counted. *)
Lemma pending_row_flags b ts :
  let r := mkBlockRow b BLOCK_STATUS_PENDING ts in
  is_found_row r = won_at_submit b /\ is_orphaned_row r = false
  /\ is_inconclusive_row r = negb (won_at_submit b).
Proof.
  unfold is_found_row, is_orphaned_row, is_inconclusive_row. cbn.
  by destruct (won_at_submit b).
Qed.

Lemma settled_row_flags b res ts :
  let r := mkBlockRow b (resolution_label res) ts in
  is_found_row r = match won_at_submit b, res with
                   | true, Orphaned => false | true, _ => true
                   | false, Confirmed => true | false, _ => false end
  /\ is_orphaned_row r = match won_at_submit b, res with true, Orphaned => true | _, _ => false end
  /\ is_inconclusive_row r
     = match won_at_submit b, res with false, Confirmed => false | false, _ => true | _, _ => false end.
Proof.
  unfold is_found_row, is_orphaned_row, is_inconclusive_row. cbn.
  by destruct (won_at_submit b), res.
Qed.

Lemma load_pending_insert_pending d h b :
  found_blocks d !! h = None ->
  load_pending_blocks (set_found_blocks d
    (<[h := mkBlockRow b BLOCK_STATUS_PENDING None]> (found_blocks d)))
  = <[h := b]> (load_pending_blocks d).
Proof.
  intros Hn. unfold load_pending_blocks. cbn.
  by rewrite map_filter_insert_True, fmap_insert.
Qed.

Lemma load_pending_insert_settled d d' h b st ts :
  st <> BLOCK_STATUS_PENDING ->
  load_pending_blocks (set_found_blocks d' (<[h := mkBlockRow b st ts]> (found_blocks d)))
  = delete h (load_pending_blocks d).
Proof.
  intros Hst. unfold load_pending_blocks. cbn.
  rewrite map_filter_insert_False by done. by rewrite map_filter_delete, fmap_delete.
Qed.

Lemma load_pending_Some d h b :
  load_pending_blocks d !! h = Some b ->
  exists r, found_blocks d !! h = Some r /\ row_block r = b /\ row_status r = BLOCK_STATUS_PENDING.
Proof.
  unfold load_pending_blocks. rewrite lookup_fmap.
  intros (r & [Hr Hs]%map_lookup_filter_Some & ->)%fmap_Some. eauto.
Qed.

(** The database after the queue of [s], started from the file [d0]. *)
Definition drained (d0 : Db) (s : PoolStats) : Db := (drain (d0, writer_new) (queue s)).1.

Lemma drained_enqueue d0 s w :
  is_Some (store s) ->
  exists st, drained d0 (enqueue s w)
             = (default (drained d0 s, st) (apply_write (drained d0 s) st w true)).1.
Proof.
  intros Hs. unfold drained. rewrite queue_enqueue, drain_app by done.
  destruct (drain (d0, writer_new) (queue s)) as [d st]. exists st. done.
Qed.

Lemma store_enqueue s w : is_Some (store s) -> is_Some (store (enqueue s w)).
Proof. intros [q Hq]. cbn. by rewrite Hq. Qed.

(** A round reset touches neither the block counters nor the block table. *)
Lemma round_reset_frame d0 s now :
  is_Some (store s) ->
  found_blocks (drained d0 (round_reset s now)) = found_blocks (drained d0 s)
  /\ blocks (round_reset s now) = blocks s /\ is_Some (store (round_reset s now)).
Proof.
  intros Hs. split; [|split; [done | by apply store_enqueue]].
  unfold round_reset. cbv zeta.
  match goal with |- context [enqueue ?s1 ?w] => destruct (drained_enqueue d0 s1 w Hs) as [st ->] end.
  done.
Qed.

(** Enrolling a block whose hash is new, once it has been counted. *)
Lemma agree_enroll d0 s hs height hash worker payout (won : bool) now :
  is_Some (store s) ->
  pending_blocks (blocks s) = load_pending_blocks (drained d0 s) ->
  load_block_counts (drained d0 s)
    = (blocks_found (blocks s) - (if won then 1 else 0), blocks_orphaned (blocks s),
       blocks_inconclusive (blocks s) - (if won then 0 else 1)) ->
  map_Forall (fun h (r : BlockRow) => pb_hash (row_block r) = h) (found_blocks (drained d0 s)) ->
  (forall h : string, is_Some (found_blocks (drained d0 s) !! h) -> h ∈ hs) ->
  (size (found_blocks (drained d0 s)) <= length hs)%nat ->
  hash ∉ hs ->
  let s' := enroll_pending_block s height hash worker payout won now in
  agree s' (drained d0 s') (hash :: hs).
Proof.
  intros A1 A2 A3 A4 A5 A6 Hfresh. unfold enroll_pending_block.
  assert (found_blocks (drained d0 s) !! hash = None) as Hn.
  { destruct (found_blocks _ !! hash) eqn:E; [|done]. destruct Hfresh. apply A5. eauto. }
  assert (pending_blocks (blocks s) !! hash = None) as ->.
  { rewrite A2. destruct (load_pending_blocks _ !! hash) eqn:E; [|done].
    apply load_pending_Some in E as (r & Hr & _). congruence. }
  set (b := mkPendingBlock _ _ _ _ _ _). set (s1 := with_blocks s _).
  destruct (drained_enqueue d0 s1 (BlockFound b) A1) as [st Hst].
  change (drained d0 s1) with (drained d0 s) in Hst. cbn [Store.apply_write] in Hst.
  change (pb_hash b) with hash in Hst. rewrite Hn in Hst. cbn [default from_option id fst] in Hst.
  cbv zeta. rewrite Hst. split.
  - by apply store_enqueue.
  - cbn. by rewrite load_pending_insert_pending, A2.
  - unfold load_block_counts in *. cbn [found_blocks set_found_blocks].
    rewrite !count_rows_insert, Hn. cbn -[count_rows]. injection A3 as -> -> ->.
    destruct (pending_row_flags b None) as (-> & -> & ->). cbn. destruct won; cbn; pairs_lia.
  - cbn. by apply map_Forall_insert_2.
  - cbn. intros h [r Hr]. apply lookup_insert_Some in Hr as [[<- _]|[_ Hr]]; [left|right; eauto].
  - cbn. rewrite map_size_insert_None by done. lia.
Qed.

Lemma agree_report d0 s hs o height worker payout hash now1 now2 :
  agree s (drained d0 s) hs -> hash ∉ hs -> Z.of_nat (length hs) < u64_max ->
  let s' := record_block_outcome s o height worker payout hash now1 now2 in
  agree s' (drained d0 s') (hash :: hs).
Proof.
  intros A Hfresh Hlen. pose proof (agree_counts _ _ _ A) as Hc. injection Hc as H1 H2 H3.
  pose proof (agree_size _ _ _ A) as Hsz.
  assert (0 <= blocks_found (blocks s) < u64_max) as Hbf
    by (rewrite <- H1; pose proof (count_rows_bounds is_found_row (found_blocks (drained d0 s))); lia).
  assert (0 <= blocks_inconclusive (blocks s) < u64_max) as Hbi
    by (rewrite <- H3; pose proof (count_rows_bounds is_inconclusive_row (found_blocks (drained d0 s))); lia).
  unfold record_block_outcome. destruct (is_win o).
  - unfold block_found.
    set (s1 := with_blocks s (set_blocks_found (blocks s) _)).
    destruct A as [A1 A2 A3 A4 A5 A6].
    destruct (round_reset_frame d0 s1 now1 A1) as (Hf & Hb & Hs).
    change (drained d0 s1) with (drained d0 s) in Hf.
    apply agree_enroll; unfold load_pending_blocks, load_block_counts; rewrite ?Hf; try done.
    + rewrite Hb. cbn. rewrite H1, H2, H3. unfold wrap64. rewrite Z.mod_small by (unfold u64_max in *; lia).
      pairs_lia.
  - unfold block_inconclusive. destruct A as [A1 A2 A3 A4 A5 A6]. apply agree_enroll; try done.
    change (drained d0 (with_blocks s _)) with (drained d0 s). rewrite A3. cbn.
    unfold wrap64. rewrite Z.mod_small by (unfold u64_max in *; lia). pairs_lia.
Qed.

(** Settling a pending block: the row changes status and the counters follow. *)
Lemma agree_settle d0 s hs b res now :
  agree s (drained d0 s) hs -> Z.of_nat (length hs) <= u64_max ->
  pending_blocks (blocks s) !! pb_hash b = Some b ->
  let s' := (record_block_resolution s b res now).2 in
  agree s' (drained d0 s') hs.
Proof.
  intros A Hlen Hp. unfold record_block_resolution, resolve_block. rewrite Hp. cbn [snd].
  pose proof A as [A1 A2 A3 A4 A5 A6]. injection A3 as C1 C2 C3.
  rewrite A2 in Hp. apply load_pending_Some in Hp as (row & Hrow & Hb & Hst).
  set (h := pb_hash b) in *.
  set (s1 := with_blocks s (set_pending (blocks s) (delete h (pending_blocks (blocks s))))).
  set (s2 := match won_at_submit b with true => _ | false => _ end).
  assert (found_blocks (drained d0 s2) = found_blocks (drained d0 s)
          /\ is_Some (store s2)) as [Hf Hs2].
  { unfold s2. destruct (won_at_submit b), res; try done.
    unfold block_found. edestruct round_reset_frame as (-> & _ & Hs); [|by split].
    exact A1. }
  destruct (drained_enqueue d0 s2 (BlockResolved h res now) Hs2) as [st Hd].
  cbn [Store.apply_write] in Hd. rewrite Hf, Hrow, Hst in Hd.
  rewrite bool_decide_true in Hd by done. cbn [default from_option id fst] in Hd. rewrite Hb in Hd.
  set (row' := mkBlockRow b (resolution_label res) (Some now)) in Hd.
  assert (resolution_label res <> BLOCK_STATUS_PENDING) as Hne by (by destruct res).
  pose proof (count_rows_bounds is_found_row (found_blocks (drained d0 s))) as B1.
  pose proof (count_rows_bounds is_inconclusive_row (found_blocks (drained d0 s))) as B2.
  pose proof (count_rows_bounds is_orphaned_row (found_blocks (drained d0 s))) as B3.
  destruct row as [rb rst rts]. cbn in Hb, Hst. subst rb rst.
  destruct (pending_row_flags b rts) as (P1 & P2 & P3).
  destruct (settled_row_flags b res (Some now)) as (Q1 & Q2 & Q3).
  pose proof (count_settled is_found_row (found_blocks (drained d0 s)) h _ row' Hrow) as K1.
  pose proof (count_settled is_inconclusive_row (found_blocks (drained d0 s)) h _ row' Hrow) as K2.
  pose proof (count_settled is_orphaned_row (found_blocks (drained d0 s)) h _ row' Hrow) as K3.
  fold row' in Q1, Q2, Q3. rewrite P1, Q1 in K1. rewrite P3, Q3 in K2. rewrite P2, Q2 in K3.
  rewrite Hd. split.
  - by apply store_enqueue.
  - unfold row'. rewrite load_pending_insert_settled, <- A2 by done.
    unfold s2. by destruct (won_at_submit b), res.
  - unfold load_block_counts. cbn [found_blocks set_found_blocks].
    destruct K1 as (-> & K1 & K1'), K2 as (-> & K2 & K2'), K3 as (-> & K3 & K3').
    rewrite C1, C2, C3 in *. unfold s2, wrap64, sat_sub, u64_max in *.
    destruct (won_at_submit b), res; cbn in *; repeat specialize_refl; unfold wrap64;
      rewrite ?Z.mod_small by lia; pairs_lia.
  - cbn. by apply map_Forall_insert_2.
  - cbn. intros x [r Hr]. apply A5. apply lookup_insert_Some in Hr as [[<- _]|[_ Hr]]; eauto.
  - cbn. rewrite map_size_insert_Some by eauto. done.
Qed.

Lemma agree_run d0 evs s hs :
  agree s (drained d0 s) hs ->
  NoDup (rev (omap reported_hash evs) ++ hs) ->
  Z.of_nat (length hs + length evs) <= u64_max ->
  exists hs', agree (foldl block_step s evs) (drained d0 (foldl block_step s evs)) hs'.
Proof.
  revert s hs; induction evs as [|e evs IH]; intros s hs A HN Hl; [by exists hs|].
  cbn [foldl length omap list_omap] in *. destruct e as [o height worker payout hash now1 now2|hash res now].
  - cbn [reported_hash rev] in HN. rewrite <- app_assoc in HN. cbn [app] in HN.
    assert (hash ∉ hs) by (apply NoDup_app in HN as (_ & _ & HN); by apply NoDup_cons in HN as [? _]).
    eapply (IH _ (hash :: hs)); [| done | cbn; lia].
    apply agree_report; [done | done | lia].
  - cbn [block_step reported_hash] in *.
    destruct (pending_blocks (blocks s) !! hash) as [b|] eqn:Eb; [|eapply IH; [done | done | lia]].
    assert (pb_hash b = hash) as Hb.
    { pose proof Eb as Eb'. rewrite (agree_pending _ _ _ A) in Eb'.
      apply load_pending_Some in Eb' as (r & Hr & <- & _).
      exact (agree_hash _ _ _ A _ _ Hr). }
    eapply IH; [| done | lia]. apply agree_settle; [done | lia | by rewrite Hb].
Qed.
End Restart.

(** ** The invalid-share budget *)
Record Rejection := mkRejection { rj_worker : string; rj_reason : RejectReason; rj_now : Z }.

Definition reject_step (sg : PoolStats * SessionGuard) (r : Rejection) : PoolStats * SessionGuard :=
  let '(_, s, g) := record_rejected sg.1 sg.2 (rj_worker r) (rj_reason r) (rj_now r) in (s, g).

Definition disconnects (sg : PoolStats * SessionGuard) (r : Rejection) : bool :=
  (record_rejected sg.1 sg.2 (rj_worker r) (rj_reason r) (rj_now r)).1.1.

Definition counting (rs : list Rejection) : Z :=
  sum_Z ((fun r => if counts_as_invalid (rj_reason r) then 1 else 0) <$> rs).

Lemma reject_step_count s g r :
  inv_max (invalid_shares (reject_step (s, g) r).2) = inv_max (invalid_shares g)
  /\ (inv_max (invalid_shares g) <> 0 ->
      inv_count (invalid_shares (reject_step (s, g) r).2)
      = inv_count (invalid_shares g) + (if counts_as_invalid (rj_reason r) then 1 else 0)).
Proof.
  unfold reject_step, record_rejected, record_invalid. cbn [fst snd].
  destruct (counts_as_invalid _); [|split; [done | intros; cbn; lia]].
  destruct (Z.eqb_spec (inv_max (invalid_shares g)) 0); cbn; split; try done; lia.
Qed.

Lemma reject_run_count rs s g :
  inv_max (invalid_shares g) <> 0 ->
  inv_max (invalid_shares (foldl reject_step (s, g) rs).2) = inv_max (invalid_shares g)
  /\ inv_count (invalid_shares (foldl reject_step (s, g) rs).2)
     = inv_count (invalid_shares g) + counting rs.
Proof.
  revert s g; induction rs as [|r rs IH]; intros s g Hm; cbn [foldl].
  - unfold counting. cbn. split; [done | lia].
  - destruct (reject_step_count s g r) as [Hmax Hc]. specialize (Hc Hm).
    destruct (reject_step (s, g) r) as [s' g']. cbn [snd] in *.
    destruct (IH s' g') as [I1 I2]; [congruence|]. rewrite I1, I2, Hc. split; [done|].
    unfold counting, sum_Z. cbn. lia.
Qed.

(** ** Properties *)

(** The block counters survive a restart: over any sequence of block
    reports, each for a new hash, and of confirmation verdicts, once the queued
    writes are applied the counts read back from the database (found, orphaned,
    inconclusive) equal the ones the pool was showing, and the blocks read back
    as pending are exactly the pool's pending set. *)
Lemma block_counts_survive_restart (prune : nat -> gmap string Z -> gmap string Z) (t0 : Z)
    (i0 : Instant) (evs : list BlockEvent) :
  NoDup (rev (omap reported_hash evs)) -> Z.of_nat (length evs) <= u64_max ->
  let s := foldl block_step (stats_new true t0 i0) evs in
  load_block_counts (drained prune (db_new t0) s)
    = (blocks_found (blocks s), blocks_orphaned (blocks s), blocks_inconclusive (blocks s))
  /\ load_pending_blocks (drained prune (db_new t0) s) = pending_blocks (blocks s).
Proof.
  intros HN Hl s.
  destruct (agree_run prune (db_new t0) evs (stats_new true t0 i0) []) as [hs A].
  - split; [by eexists | done | done | apply map_Forall_empty | |].
    + intros h [r Hr]. change ((∅ : gmap string BlockRow) !! h = Some r) in Hr.
      by rewrite lookup_empty in Hr.
    + change (size (∅ : gmap string BlockRow) <= 0)%nat. by rewrite map_size_empty.
  - by rewrite app_nil_r.
  - cbn [length]. lia.
  - split; [apply (agree_counts _ _ _ A) | symmetry; apply (agree_pending _ _ _ A)].
Qed.

Definition demo_block_events : list BlockEvent :=
  [Reported Accepted 900000 "w" "addr" "aa" 100 100;
   Reported Inconclusive 900001 "w" "addr" "bb" 200 200;
   Settled "aa" Orphaned 300; Settled "bb" Confirmed 400;
   Reported Duplicate 900002 "w" "addr" "cc" 500 500].

Lemma block_counts_survive_restart_witness :
  load_block_counts (drained (fun _ m => m) (db_new 0) (foldl block_step (stats_new true 0 0) demo_block_events))
  = (2, 1, 0).
Proof.
  apply (block_counts_survive_restart (fun _ m => m) 0 0 demo_block_events).
  - apply (bool_decide_unpack _). vm_compute. exact I.
  - vm_compute. discriminate.
Defined.

(** Reporting one block twice counts it twice, but only until the next
    restart: after an [Accepted] and a [Duplicate] report of the same hash the
    pool shows two blocks found, while the database keeps one row and restores
    one.  The in-memory enrolment is idempotent, the counter is not. *)
Lemma repeated_report_counts_twice (h : Z) (worker payout hash : string) (now1 now2 : Z) :
  let s := foldl block_step (stats_new true 0 0)
             [Reported Accepted h worker payout hash now1 now1;
              Reported Duplicate h worker payout hash now2 now2] in
  blocks_found (blocks s) = 2 /\ size (pending_blocks (blocks s)) = 1%nat
  /\ load_block_counts (drained (fun _ m => m) (db_new 0) s) = (1, 0, 0).
Proof.
  cbn [foldl block_step]. unfold record_block_outcome, enroll_pending_block, block_found, round_reset.
  cbn [is_win blocks with_blocks enqueue set_blocks_found pending_blocks stats_new].
  rewrite lookup_empty. cbn. rewrite lookup_insert_eq. cbn.
  split; [reflexivity|]. split; [by rewrite insert_empty, map_size_singleton|].
  unfold drained, drain, queue. cbn. rewrite lookup_empty. cbn.
  unfold load_block_counts. cbn. by rewrite !count_rows_insert, !lookup_empty.
Qed.

(** A round in progress can be wiped at boot: the recovery of a lost reset
    compares the last win's [found_ts] with [since_ts], which the code reads
    from the clock separately; when the second turns between the two reads, a
    reset that was applied looks lost, and the next boot zeroes the round's
    persisted accepted shares and work. *)
Lemma boot_recovery_wipes_live_round :
  let s := record_hashrate_snapshot
             (share_accepted
                (record_block_outcome (stats_new true 0 0) Accepted 900000 "w" "addr" "aa" 100 101)
                64 90) 160 in
  let d := drained (fun _ m => m) (db_new 0) s in
  rr_accepted (round_stats d) = 1 /\ rr_work (round_stats d) = 64
  /\ rr_accepted (round_stats (recover_round d)) = 0 /\ rr_work (round_stats (recover_round d)) = 0.
Proof. vm_compute. auto. Qed.

(** The invalid-share ban counts exactly the rejections that show bad
    behaviour: with a budget [max > 0] and a fresh guard, the [n+1]-th rejection
    asks for a disconnect exactly when its reason counts and the counting
    rejections so far, itself included, have reached [max]; stale, low-difficulty
    and unauthorized shares never do. *)
Lemma ban_only_on_counting_rejects (s : PoolStats) (g : SessionGuard) (rs : list Rejection)
    (r : Rejection) :
  0 < inv_max (invalid_shares g) -> inv_count (invalid_shares g) = 0 ->
  disconnects (foldl reject_step (s, g) rs) r
  = counts_as_invalid (rj_reason r) && (inv_max (invalid_shares g) <=? counting (rs ++ [r])).
Proof.
  intros Hm Hc. destruct (reject_run_count rs s g) as [I1 I2]; [lia|].
  destruct (foldl reject_step (s, g) rs) as [s' g']. cbn [snd] in *.
  assert (counting (rs ++ [r]) = counting rs + (if counts_as_invalid (rj_reason r) then 1 else 0)) as ->.
  { unfold counting. rewrite fmap_app, sum_Z_app. unfold sum_Z at 2. cbn. lia. }
  unfold disconnects, record_rejected, record_invalid. cbn [fst snd].
  destruct (counts_as_invalid _); [|done]. rewrite I1, I2, Hc.
  destruct (Z.eqb_spec (inv_max (invalid_shares g)) 0); [lia|]. done.
Qed.

Lemma ban_only_on_counting_rejects_witness :
  disconnects (foldl reject_step (stats_new false 0 0, guard_new (mkSecurityConfig 1 1 1 2 1 1 1) 0)
                 [mkRejection "w" Invalid 0; mkRejection "w" Stale 0]) (mkRejection "w" RDuplicate 0)
  = true.
Proof.
  apply (ban_only_on_counting_rejects (stats_new false 0 0)
           (guard_new (mkSecurityConfig 1 1 1 2 1 1 1) 0)
           [mkRejection "w" Invalid 0; mkRejection "w" Stale 0] (mkRejection "w" RDuplicate 0));
    reflexivity.
Defined.

End Accounting.
