(* ===== verification/StoreThread.v ===== *)
(** * StoreThread: the channel to the writer thread ([src/stats.rs])

    [StatsStore] as the pool holds it: the queue [enqueue] feeds, [writer_loop] that
    empties it a turn at a time, [flush] and [Drop].  Events are the pool's sends,
    the closing of the channel, and turns of the thread with the disk's answers, in
    any interleaving.  The theorem is about an orderly end: the flush is always
    acknowledged, and nothing durable is then anywhere but in the file or in the
    backlog. *)
From S2P Require Import Prelude Text F64 Json Errors Interfaces Rpc Hashrate Stats Store.
From S2P Require Import Security Accounting.
Import Rpc Stats Store Accounting.

Module StoreThread.

(** ** The store *)

(** [acks] are the acknowledged flushes, oldest first, each with whether the
    backlog was empty then; [alive] is the thread. *)
Record StatsStore := mkStore {
  chan : list StoreWrite;
  sender : bool;
  thread : Writer;
  alive : bool;
  acks : list bool
}.

(** What the disk answers in one turn, and whether the wait timed out. *)
Record Disk := mkDisk { d_retry : list (bool * bool); d_write : bool; d_rollup : bool }.

Inductive StoreEvent : Type :=
| Enqueue (w : StoreWrite)
| Close
| Wake (d : Disk).

Definition store_open (d : Db) : StatsStore := mkStore [] true (mkWriterThread d writer_new []) true [].

Definition is_flush (w : StoreWrite) : bool := match w with Flush => true | _ => false end.

(** [enqueue]: dropped while shutting down, and when the thread is gone. *)
Definition store_enqueue (s : StatsStore) (w : StoreWrite) : StatsStore :=
  if sender s && alive s then mkStore (chan s ++ [w]) (sender s) (thread s) (alive s) (acks s) else s.

(** [Drop] takes the sender. *)
Definition store_close (s : StatsStore) : StatsStore :=
  mkStore (chan s) false (thread s) (alive s) (acks s).

Section Thread.
Variable prune : nat -> gmap string Z -> gmap string Z.

(** What one iteration of [writer_loop] receives: a write, a timeout ([Some
    None], only with a backlog), or the end of the channel; [None] is a thread
    that keeps waiting. *)
Inductive Received : Type := Got (w : StoreWrite) (rest : list StoreWrite) | TimedOut | Disconnected | Waiting.

Definition receive (s : StatsStore) : Received :=
  match chan s with
  | w :: rest => Got w rest
  | [] => if sender s then match backlog (thread s) with [] => Waiting | _ => TimedOut end
          else Disconnected
  end.

(** One iteration, or the retry pass after the loop. *)
Definition loop_step (s : StatsStore) (d : Disk) : StatsStore :=
  if alive s then
    match receive s with
    | Got w rest =>
        let t1 := writer_turn prune (thread s) (mkTurn (Some w) (d_retry d) (d_write d) (d_rollup d)) in
        mkStore rest (sender s) t1 true
          (acks s ++ if is_flush w then [bool_decide (backlog t1 = [])] else [])
    | TimedOut =>
        mkStore [] (sender s) (writer_turn prune (thread s) (mkTurn None (d_retry d) (d_write d) (d_rollup d)))
          true (acks s)
    | Disconnected =>
        mkStore [] (sender s) (writer_turn prune (thread s) (mkTurn None (d_retry d) (d_write d) (d_rollup d)))
          false (acks s)
    | Waiting => s
    end
  else s.

Definition store_step (s : StatsStore) (e : StoreEvent) : StatsStore :=
  match e with
  | Enqueue w => store_enqueue s w
  | Close => store_close s
  | Wake d => loop_step s d
  end.

Definition store_run (s : StatsStore) (evs : list StoreEvent) : StatsStore := foldl store_step s evs.

(** ** What the thread has committed *)

(** The turn an event is for the thread, if it is one. *)
Definition turn_of (s : StatsStore) (e : StoreEvent) : list Turn :=
  match e with
  | Wake d =>
      if alive s then
        match receive s with
        | Got w _ => [mkTurn (Some w) (d_retry d) (d_write d) (d_rollup d)]
        | TimedOut | Disconnected => [mkTurn None (d_retry d) (d_write d) (d_rollup d)]
        | Waiting => []
        end
      else []
  | _ => []
  end.

Fixpoint turns_of (s : StatsStore) (evs : list StoreEvent) : list Turn :=
  match evs with
  | [] => []
  | e :: rest => turn_of s e ++ turns_of (store_step s e) rest
  end.

(** The writes the channel took. *)
Definition sent (s : StatsStore) (e : StoreEvent) : list StoreWrite :=
  match e with Enqueue w => if sender s && alive s then [w] else [] | _ => [] end.

Fixpoint all_sent (s : StatsStore) (evs : list StoreEvent) : list StoreWrite :=
  match evs with
  | [] => []
  | e :: rest => sent s e ++ all_sent (store_step s e) rest
  end.

(** The store is the writer of [Store] fed through a first-in first-out queue. *)
Lemma step_turns s e :
  thread (store_step s e) = foldl (writer_turn prune) (thread s) (turn_of s e)
  /\ chan s ++ sent s e = omap received (turn_of s e) ++ chan (store_step s e).
Proof.
  destruct e as [w| |d]; cbn [store_step turn_of sent]; unfold store_enqueue, loop_step, receive.
  - destruct (sender s && alive s); cbn; by rewrite ?app_nil_r.
  - cbn. by rewrite app_nil_r.
  - destruct (alive s); [|by rewrite app_nil_r]. destruct (chan s) as [|w rest] eqn:Ec; [|by rewrite app_nil_r].
    destruct (sender s); [destruct (backlog (thread s))|]; by rewrite ?Ec.
Qed.

Lemma run_turns evs : forall s,
  thread (store_run s evs) = foldl (writer_turn prune) (thread s) (turns_of s evs)
  /\ chan s ++ all_sent s evs = omap received (turns_of s evs) ++ chan (store_run s evs).
Proof.
  induction evs as [|e evs IH]; intros s; [by rewrite app_nil_r|].
  destruct (step_turns s e) as [Et Ec], (IH (store_step s e)) as [Et' Ec'].
  cbn [turns_of all_sent]. change (store_run s (e :: evs)) with (store_run (store_step s e) evs).
  split.
  - by rewrite foldl_app, Et', Et.
  - by rewrite app_assoc, Ec, <- app_assoc, Ec', app_assoc, omap_app.
Qed.

(** Nothing durable that was sent is lost. *)
Lemma sent_conserved evs d :
  never_full prune (thread (store_open d)) (turns_of (store_open d) evs) ->
  let s := store_run (store_open d) evs in
  durables (all_sent (store_open d) evs)
  ≡ₚ durables (run_commits prune (thread (store_open d)) (turns_of (store_open d) evs))
     ++ backlog (thread s) ++ durables (chan s).
Proof.
  intros Hl s. destruct (run_turns evs (store_open d)) as [Et Ec]. fold s in Et, Ec.
  cbn [chan store_open app] in Ec. rewrite Ec, durables_app, Et.
  pose proof (run_conserves prune (turns_of (store_open d) evs) (thread (store_open d))) as HP.
  cbn [thread store_open backlog app length] in HP. rewrite HP; [by rewrite <- app_assoc | constructor | exact Hl].
Qed.

(** *** The flush at the end *)

(** A store the pool still holds: its thread runs. *)
Lemma held_running evs : forall s, Close ∉ evs -> sender s = true -> alive s = true ->
  sender (store_run s evs) = true /\ alive (store_run s evs) = true.
Proof.
  induction evs as [|e evs IH]; intros s Hn Hs Ha; [done|].
  apply not_elem_of_cons in Hn as [Hne Hn].
  change (store_run s (e :: evs)) with (store_run (store_step s e) evs).
  apply IH; [done|..]; destruct e as [w| |d]; try done; cbn [store_step]; unfold store_enqueue, loop_step, receive;
    rewrite Hs, Ha; try done; destruct (chan s); cbn; try done; by destruct (backlog (thread s)).
Qed.

(** One turn per queued write: the flush behind them is then acknowledged, with
    the backlog as it is at that moment. *)
Lemma flush_reached q : forall s ds,
  alive s = true -> chan s = q ++ [Flush] -> length ds = S (length q) ->
  let s' := store_run s (Wake <$> ds) in
  chan s' = [] /\ sender s' = sender s /\ alive s' = true
  /\ last (acks s') = Some (bool_decide (backlog (thread s') = [])).
Proof.
  induction q as [|w q IH]; intros s ds Ha Hc Hl; destruct ds as [|d ds]; try done; cbn in Hl;
    injection Hl as Hl; cbn [fmap list_fmap]; fold (Wake <$> ds);
    change (store_run s (Wake d :: ?l)) with (store_run (loop_step s d) l);
    unfold loop_step, receive; rewrite Ha, Hc; cbn [app].
  - apply nil_length_inv in Hl. subst ds. cbn. rewrite last_snoc. done.
  - by apply (IH (mkStore _ _ _ _ _) ds).
Qed.

(** *** A disk that accepts everything *)

(** Every write of the queue applies to the tables it finds. *)
Fixpoint applies (ds : Db * WriterState) (q : list StoreWrite) : Prop :=
  match q with
  | [] => True
  | w :: rest => exists ds', apply_write prune ds.1 ds.2 w true = Some ds' /\ applies ds' rest
  end.

(** Then the thread leaves in the file what [drain] computes, the file the next
    boot reads in [Restart] and [Startup]. *)
Lemma accepting_disk_drains q : forall s,
  alive s = true -> chan s = q -> backlog (thread s) = [] ->
  applies (db (thread s), wstate (thread s)) q ->
  let s' := store_run s (Wake <$> replicate (length q) (mkDisk [] true true)) in
  chan s' = [] /\ backlog (thread s') = []
  /\ (db (thread s'), wstate (thread s')) = drain prune (db (thread s), wstate (thread s)) q.
Proof.
  induction q as [|w q IH]; intros s Ha Hc Hb Hq; [done|]. destruct Hq as (ds' & Hw & Hq).
  cbn [length replicate fmap list_fmap]. change (store_run s (?e :: ?l)) with (store_run (store_step s e) l).
  set (s1 := store_step s (Wake (mkDisk [] true true))).
  assert (alive s1 = true /\ chan s1 = q /\ thread s1 = mkWriterThread ds'.1 ds'.2 []) as (Ha1 & Hc1 & Ht1).
  { unfold s1. cbn [store_step]. unfold loop_step, receive. rewrite Ha, Hc. cbn [chan alive thread].
    split; [done|]. split; [done|]. unfold writer_turn, handle_write, try_apply. rewrite Hb. cbn in Hw |- *.
    rewrite Hw. by destruct ds'. }
  destruct ds' as [d1 st1]. cbn [fst snd] in Ht1.
  destruct (IH s1 Ha1 Hc1) as (E1 & E2 & E3); [by rewrite Ht1..|].
  split; [exact E1|]. split; [exact E2|]. rewrite E3, Ht1. cbn [fst snd db wstate].
  unfold drain. cbn [foldl fst snd] in Hw |- *. by rewrite Hw.
Qed.
End Thread.

(** ** Reading back at boot *)

(** Which of the queries of [Persisted::load] succeed. *)
Record Reads := mkReads {
  values_ok : bool;
  hashrates_ok : bool;
  pending_ok : bool;
  counts_ok : bool;
  round_ok : bool;
  reasons_ok : bool;
  share_rate_ok : bool
}.

Definition reads_all : Reads := mkReads true true true true true true true.

Definition load_values (d : Db) : Z * f64 * gmap string Z :=
  (rr_best_share (round_stats d), rr_best_hashrate (round_stats d), round_worker_best d).
Definition load_hashrate_state (d : Db) : list PersistedWorkerHashrate :=
  (fun kv => mkPersistedHashrate kv.1 kv.2.1 kv.2.2) <$> map_to_list (worker_hashrate_state (meters d)).
Definition load_round_stats (d : Db) : (Z * Z) * Z * Z :=
  let r := round_stats d in ((rr_accepted r, rr_rejected r), rr_since_ts r, rr_work r).
Definition load_reject_reasons (d : Db) : gmap string Z := round_reasons d.
Definition load_share_rate_state (d : Db) : option (Z * list f64) := share_rate_state (meters d).

(** [unwrap_or_else] after a warning. *)
Definition or_warn {A} (ok : bool) (x dflt : A) : A := if ok then x else dflt.

(** Only the best shares must be readable; every other failure is the empty value. *)
Definition load_reads (o : Reads) (d : Db) : option Persisted :=
  if values_ok o then
    let '(best_share, best_hashrate, worker_best) := load_values d in
    let hashrates := or_warn (hashrates_ok o) (load_hashrate_state d) [] in
    let pending := or_warn (pending_ok o) (load_pending_blocks d) ∅ in
    let '(found, orphaned, inconclusive) := or_warn (counts_ok o) (load_block_counts d) (0, 0, 0) in
    let '(shares, since_ts, work) := or_warn (round_ok o) (load_round_stats d) ((0, 0), 0, 0) in
    let reasons := or_warn (reasons_ok o) (load_reject_reasons d) ∅ in
    let rate := or_warn (share_rate_ok o) (load_share_rate_state d) None in
    Some (mkPersisted true best_share best_hashrate worker_best hashrates pending found orphaned
            inconclusive shares.1 shares.2 since_ts work reasons rate)
  else None.

Lemma load_reads_all d : load_reads reads_all d = Some (load d).
Proof. unfold load_reads, load. by destruct (load_block_counts d) as [[found orphaned] inconclusive]. Qed.

(** [new_with_store_at]: an empty or unusable path runs without a store. *)
Definition new_with_store_at `{Libm} (path : option string) (file : string -> option Db) (o : Reads)
    (wall_now : Z) (instant_now : Instant) : PoolStats :=
  let opened := p ← path; if bool_decide (p = EmptyString) then None else (d ← file p; load_reads o d) in
  from_persisted (default (persisted_default false) opened) wall_now instant_now.

Lemma new_without_file `{Libm} path file o wall inst :
  (forall p d, path = Some p -> p <> EmptyString -> file p = Some d -> load_reads o d = None) ->
  new_with_store_at path file o wall inst = stats_new false wall inst.
Proof.
  intros Hf. unfold new_with_store_at. rewrite stats_new_persisted. f_equal.
  destruct path as [p|]; [|done]. cbn. case_bool_decide; [done|].
  destruct (file p) as [d|] eqn:Ed; [|done]. cbn. by rewrite (Hf p d).
Qed.

(** ** Properties *)

(** C17. An orderly shutdown drains the queue. However the sends of the pool and
    the turns of the writer thread have interleaved before, and whatever the disk
    answers: once a flush is queued, one turn per write still queued acknowledges
    it; the queue is then empty, every durable record ever sent (ledger minutes,
    found blocks, resolutions, round resets) has been committed exactly once or is
    parked, and the thread ends at its next turn once the store is dropped. A flush
    that finds the backlog empty vouches for all of them. The backlog never reached
    its cap. *)
Theorem shutdown_flush_drains (prune : nat -> gmap string Z -> gmap string Z) (d : Db)
    (evs : list StoreEvent) (ds : list Disk) (last_disk : Disk) :
  let s := store_run prune (store_open d) evs in
  let evs' := evs ++ Enqueue Flush :: (Wake <$> ds) in
  let s' := store_run prune (store_open d) evs' in
  let committed := durables (run_commits prune (thread (store_open d)) (turns_of prune (store_open d) evs')) in
  let all := durables (all_sent prune (store_open d) evs') in
  Close ∉ evs -> length ds = S (length (chan s)) ->
  never_full prune (thread (store_open d)) (turns_of prune (store_open d) evs') ->
  chan s' = [] /\ all ≡ₚ committed ++ backlog (thread s')
  /\ last (acks s') = Some (bool_decide (backlog (thread s') = []))
  /\ (last (acks s') = Some true -> all ≡ₚ committed)
  /\ alive (store_run prune s' [Close; Wake last_disk]) = false.
Proof.
  intros s evs' s' committed all Hn Hl Hf.
  destruct (held_running prune evs (store_open d) Hn eq_refl eq_refl) as [Hs Ha]. fold s in Hs, Ha.
  assert (s' = store_run prune (store_enqueue s Flush) (Wake <$> ds)) as E
    by (unfold s', evs', store_run; by rewrite foldl_app).
  destruct (flush_reached prune (chan s) (store_enqueue s Flush) ds) as (Hc & Hs' & Ha' & Hk);
    [unfold store_enqueue; by rewrite Hs, Ha | unfold store_enqueue; by rewrite Hs, Ha | done |].
  rewrite <- E in Hc, Hs', Ha', Hk.
  pose proof (sent_conserved prune evs' d Hf) as HP. cbv zeta in HP. fold s' all committed in HP.
  rewrite Hc in HP. cbn in HP. rewrite app_nil_r in HP.
  split; [done|]. split; [done|]. split; [done|]. split.
  - rewrite Hk. intros [= Hb]. apply bool_decide_eq_true in Hb. rewrite HP, Hb. by rewrite app_nil_r.
  - cbn. unfold loop_step, receive. cbn. by rewrite Ha', Hc.
Qed.

(** A disk that refuses the first write and takes the rest. *)
Definition demo_down : Disk := mkDisk [] false false.
Definition demo_up : Disk := mkDisk [(true, true)] true true.

Lemma shutdown_flush_drains_witness :
  let evs := [Enqueue (RoundReset 1 5); Wake demo_down; Enqueue (BestShare 7)] in
  let s' := store_run (fun _ m => m) (store_open (db_new 0)) (evs ++ Enqueue Flush :: (Wake <$> [demo_up; demo_up])) in
  last (acks s') = Some true /\ alive (store_run (fun _ m => m) s' [Close; Wake demo_up]) = false.
Proof.
  set (evs := [Enqueue (RoundReset 1 5); Wake demo_down; Enqueue (BestShare 7)]).
  destruct (shutdown_flush_drains (fun _ m => m) (db_new 0) evs [demo_up; demo_up] demo_up)
    as (_ & _ & Hk & _ & Ha).
  - intros Hin. repeat (apply elem_of_cons in Hin as [?|Hin]; [done|]). by apply not_elem_of_nil in Hin.
  - reflexivity.
  - repeat (split; [apply Nat.ltb_lt; reflexivity|]). exact I.
  - split; [rewrite Hk; vm_compute; reflexivity | exact Ha].
Defined.

(** A flush is acknowledged while a durable write is parked: only the log tells. *)
Lemma flush_acks_parked_writes :
  let s := store_run (fun _ m => m) (store_open (db_new 0))
             [Enqueue (RoundReset 1 5); Wake demo_down; Enqueue Flush; Wake demo_down] in
  length (acks s) = 1%nat /\ backlog (thread s) = [RoundReset 1 5].
Proof. vm_compute. done. Qed.

End StoreThread.
