(* ===== verification/Frame.v ===== *)
(** * Frame: what an operation on the statistics leaves alone ([src/stats.rs])

    One relation for the arguments that set most operations aside: a part of
    [PoolStats] stays as it was, and the writes queued for the store are all of a
    kind that does not concern it. *)
From S2P Require Import Prelude Text F64 Json Errors Interfaces Rpc Hashrate Stats Store.
From S2P Require Import Security Accounting.
Import Stats Accounting.

Module Frame.

Section Frame.
Context {V : Type} (view : PoolStats -> V) (off : StoreWrite -> Prop).

(** The queue grew by writes of the kind. *)
Definition grown (s s' : PoolStats) : Prop :=
  (is_Some (store s) -> is_Some (store s')) /\ exists ws, queue s' = queue s ++ ws /\ Forall off ws.

Definition framed (s s' : PoolStats) : Prop := view s' = view s /\ grown s s'.

Lemma grown_frame s s' : store s' = store s -> grown s s'.
Proof. intros E. unfold grown, queue. rewrite E. split; [done|]. exists []. by rewrite app_nil_r. Qed.

Lemma grown_trans s s' s'' : grown s s' -> grown s' s'' -> grown s s''.
Proof.
  intros (Hs & ws & Hq & Hn) (Hs' & ws' & Hq' & Hn'). split; [auto|]. exists (ws ++ ws').
  rewrite Hq', Hq, app_assoc. split; [done|]. by apply Forall_app.
Qed.

Lemma grown_enqueue s w : off w -> grown s (enqueue s w).
Proof.
  intros Hw. split; [apply store_enqueue|]. unfold queue. cbn [store enqueue].
  destruct (store s) as [q|]; cbn; [exists [w]; split; [done | by apply Forall_singleton] | by exists []].
Qed.

Lemma framed_refl s : framed s s.
Proof. split; [done | by apply grown_frame]. Qed.

Lemma framed_trans s s' s'' : framed s s' -> framed s' s'' -> framed s s''.
Proof. intros [E G] [E' G']. split; [congruence | by eapply grown_trans]. Qed.

(** Same view, same queue. *)
Lemma framed_frame s s' : view s' = view s -> store s' = store s -> framed s s'.
Proof. intros Ev Es. split; [done | by apply grown_frame]. Qed.

Lemma framed_enqueue s w : view (enqueue s w) = view s -> off w -> framed s (enqueue s w).
Proof. intros Ev Hw. split; [done | by apply grown_enqueue]. Qed.

Lemma framed_then s s1 w : framed s s1 -> view (enqueue s1 w) = view s1 -> off w -> framed s (enqueue s1 w).
Proof. intros H1 Ev Hw. eapply framed_trans; [exact H1 | by apply framed_enqueue]. Qed.

(** The ledger calls, for a part of the state that is not the ledger. *)
Section Ledger.
Hypothesis view_ledger : forall s a, view (with_ledger s a) = view s.
Hypothesis view_enqueue : forall s w, view (enqueue s w) = view s.
Hypothesis off_ledger : forall m es, off (Ledger m es).

Lemma framed_persist s a c : framed s (persist_ledger_minute (with_ledger s a) c).
Proof.
  eapply framed_trans; [by apply framed_frame; [apply view_ledger|]|].
  destruct c as [[m es]|]; [by apply framed_enqueue | apply framed_refl].
Qed.

Lemma framed_record_ledger s w a now : framed s (record_ledger s w a now).
Proof.
  unfold record_ledger. destruct (store s); [|apply framed_refl].
  destruct (_ !! w); [|apply framed_refl]. destruct (roll_to _ _). apply framed_persist.
Qed.

Lemma framed_flush_ledger s now : framed s (flush_ledger_at s now).
Proof.
  unfold flush_ledger_at. destruct (store s); [|apply framed_refl]. destruct (roll_to _ _). apply framed_persist.
Qed.

Lemma framed_flush_partial s : framed s (flush_ledger_partial s).
Proof.
  unfold flush_ledger_partial. destruct (store s); [|apply framed_refl]. destruct (take_open _). apply framed_persist.
Qed.
End Ledger.
End Frame.
Arguments framed_trans {V view off} s s' s'' _ _.

(** [auto] closes the steps that touch neither the view nor the queue, or add one
    write to such a step. *)
Create HintDb framed.
#[export] Hint Resolve framed_refl : framed.
#[export] Hint Extern 2 (framed _ _ _ _) => (apply framed_frame; reflexivity) : framed.
#[export] Hint Extern 3 (framed _ _ _ (enqueue _ _)) => (apply framed_then; [|reflexivity|]) : framed.

End Frame.
