(* ===== verification/Confirm.v ===== *)
(** * Confirm: the deferred confirmation pass ([src/mining/confirm.rs])

    [classify_confirmation], the abandonment rule, one sweep over the pending set with
    the lines it logs, and its repetition.  A probe's answer is an argument per block ([None] is a failed RPC);
    the map's iteration order is the order of [map_to_list]. *)
From S2P Require Import Prelude Text F64 Json Errors Interfaces Rpc Hashrate Stats Store.
From S2P Require Import Security Accounting.
Import Rpc Stats Accounting.

Module Confirm.

Definition ABANDON_AFTER_SECS : Z := 24 * 3600.

Inductive Verdict : Type := VPending | VFinal (r : BlockResolution).

Definition classify_confirmation (position : BlockChainPosition) (block_height depth : Z) : Verdict :=
  match position with
  | OnChain confirmations _ => if depth <=? confirmations then VFinal Confirmed else VPending
  | SideBranch tip_height =>
      if block_height + depth <=? tip_height then VFinal Orphaned else VPending
  | Unknown => VPending
  end.

Definition is_abandoned (block : PendingBlock) (position : BlockChainPosition) (now : Z) : bool :=
  match position with
  | Unknown => ABANDON_AFTER_SECS <=? sat_sub now (found_ts block)
  | _ => false
  end.

(** The severities of a log line that [report] uses. *)
Inductive Level : Type := LogInfo | LogError.

Section Sweep.
(** What the node answers for each hash, and the wall clock. *)
Variables (probe : string -> option BlockChainPosition) (depth now : Z).

(** The body of the loop up to the bookkeeping. *)
Definition decide_block (block : PendingBlock) : option BlockResolution :=
  position ← probe (pb_hash block);
  match classify_confirmation position (pb_height block) depth with
  | VFinal r => Some r
  | VPending => if is_abandoned block position now then Some Abandoned else None
  end.

Definition sweep_block (s : PoolStats) (block : PendingBlock) : PoolStats :=
  match decide_block block with
  | Some r => (record_block_resolution s block r now).2
  | None => s
  end.

Definition sweep (s : PoolStats) : PoolStats :=
  foldl sweep_block s ((map_to_list (pending_blocks (blocks s))).*2).

(** [report]: a block lost after it won its height, or given up, is an error. *)
Definition report (won_at_submit : bool) (r : BlockResolution) : Level :=
  match won_at_submit, r with
  | true, Orphaned | _, Abandoned => LogError
  | _, _ => LogInfo
  end.

(** The loop with the lines it logs. *)
Definition sweep_block_report (x : PoolStats * list (string * Level)) (b : PendingBlock)
  : PoolStats * list (string * Level) :=
  match decide_block b with
  | Some r =>
      let '(decided, s1) := record_block_resolution x.1 b r now in
      (s1, if decided then x.2 ++ [(pb_hash b, report (won_at_submit b) r)] else x.2)
  | None => x
  end.

Definition sweep_report (s : PoolStats) : PoolStats * list (string * Level) :=
  foldl sweep_block_report (s, []) ((map_to_list (pending_blocks (blocks s))).*2).

(** [run]: a pass at every tick. *)
Definition run (s : PoolStats) (ticks : nat) : PoolStats := Nat.iter ticks sweep s.

Lemma resolve_pending s b r :
  pending_blocks (blocks (record_block_resolution s b r now).2)
  = delete (pb_hash b) (pending_blocks (blocks s)).
Proof.
  unfold record_block_resolution, resolve_block.
  destruct (pending_blocks (blocks s) !! pb_hash b) eqn:E.
  - cbn. by destruct (won_at_submit b), r.
  - cbn. by rewrite delete_id.
Qed.

Lemma sweep_block_pending s b :
  pending_blocks (blocks (sweep_block s b))
  = match decide_block b with
    | Some _ => delete (pb_hash b) (pending_blocks (blocks s))
    | None => pending_blocks (blocks s)
    end.
Proof. unfold sweep_block. destruct (decide_block b); [apply resolve_pending | done]. Qed.

(** Sweeping a list of blocks removes exactly the decided ones. *)
Lemma sweep_list_pending l s h :
  pending_blocks (blocks (foldl sweep_block s l)) !! h
  = if bool_decide (Exists (fun b => pb_hash b = h /\ decide_block b <> None) l)
    then None else pending_blocks (blocks s) !! h.
Proof.
  revert s; induction l as [|b l IH]; intros s; cbn [foldl].
  - by rewrite bool_decide_false by (intros H; inversion H).
  - rewrite IH, sweep_block_pending.
    destruct (decide_block b) eqn:Ed; destruct (decide (pb_hash b = h)) as [<-|Hne].
    + rewrite lookup_delete_eq, (bool_decide_true (Exists _ (b :: l))).
      * by case_bool_decide.
      * left. split; [done | by rewrite Ed].
    + rewrite lookup_delete_ne by done. case_bool_decide as H1; case_bool_decide as H2; try done.
      * destruct H2. by right.
      * destruct H1. apply Exists_cons in H2 as [[? _]|H2]; done.
    + case_bool_decide as H1; case_bool_decide as H2; try done.
      * destruct H2. by right.
      * destruct H1. apply Exists_cons in H2 as [[_ ?]|H2]; done.
    + case_bool_decide as H1; case_bool_decide as H2; try done.
      * destruct H2. by right.
      * destruct H1. apply Exists_cons in H2 as [[_ ?]|H2]; done.
Qed.

(** A line is logged for exactly the blocks that leave the pending set. *)
Lemma sweep_block_report_fst x b : (sweep_block_report x b).1 = sweep_block x.1 b.
Proof.
  unfold sweep_block_report, sweep_block. destruct (decide_block b); [|done].
  by destruct (record_block_resolution _ _ _ _).
Qed.

Lemma resolve_decided s b r :
  (record_block_resolution s b r now).1 = bool_decide (is_Some (pending_blocks (blocks s) !! pb_hash b)).
Proof.
  unfold record_block_resolution, resolve_block. destruct (pending_blocks (blocks s) !! pb_hash b); reflexivity.
Qed.

Lemma sweep_list_reports l : forall x h,
  let y := foldl sweep_block_report x l in
  y.1 = foldl sweep_block x.1 l
  /\ (h ∈ y.2.*1 <-> h ∈ x.2.*1 \/ (is_Some (pending_blocks (blocks x.1) !! h)
                                  /\ pending_blocks (blocks y.1) !! h = None)).
Proof.
  induction l as [|b l IH]; intros x h; cbn [foldl].
  - split; [done|]. cbv zeta. split; [by left|]. intros [Hh|[[b' Hs] Hn]]; [done | congruence].
  - destruct (IH (sweep_block_report x b) h) as [E1 E2]. rewrite sweep_block_report_fst in E1, E2.
    cbv zeta. split; [done|]. rewrite E2, E1, sweep_list_pending, sweep_block_pending.
    unfold sweep_block_report. destruct (decide_block b) as [r|] eqn:Ed; [|done].
    pose proof (resolve_decided x.1 b r) as Hd.
    destruct (record_block_resolution x.1 b r now) as [decided s1]. cbn [fst snd] in Hd |- *. subst decided.
    destruct (decide (h = pb_hash b)) as [->|Hne].
    + rewrite lookup_delete_eq. case_bool_decide as Hs.
      * rewrite fmap_app, elem_of_app. cbn. rewrite list_elem_of_singleton.
        split; [intros _; right; split; [done|] | intros _; left; by right]. by case_bool_decide.
      * split; [intros [?|[[? ?] _]]; [by left | done] | intros [?|[? _]]; [by left | done]].
    + rewrite lookup_delete_ne by done. case_bool_decide; [|done].
      rewrite fmap_app, elem_of_app. cbn. rewrite list_elem_of_singleton. naive_solver.
Qed.

Lemma sweep_reports_settled s h :
  (sweep_report s).1 = sweep s
  /\ (h ∈ (sweep_report s).2.*1 <->
        is_Some (pending_blocks (blocks s) !! h) /\ pending_blocks (blocks (sweep s)) !! h = None).
Proof.
  unfold sweep_report, sweep.
  destruct (sweep_list_reports (map_to_list (pending_blocks (blocks s))).*2 (s, []) h) as [E1 E2].
  cbn [fst snd] in E1, E2. split; [done|]. rewrite E2, E1. cbn. rewrite elem_of_nil. naive_solver.
Qed.
End Sweep.

(** ** Properties *)

(** One confirmation sweep settles exactly the blocks the chain has
    decided: a pending block leaves the set if and only if the node answered and
    the block is [depth] deep on the active chain (confirmed), [depth] blocks
    below the tip of a chain it is not on (orphaned), or unknown to the node for
    24 hours (abandoned); a failed probe, a shallow block or a recent side
    branch keeps it pending, unchanged. *)
Lemma sweep_settles_decided_blocks (probe : string -> option BlockChainPosition) (depth now : Z)
    (s : PoolStats) (h : string) (b : PendingBlock) :
  map_Forall (fun k b => pb_hash b = k) (pending_blocks (blocks s)) ->
  pending_blocks (blocks s) !! h = Some b ->
  pending_blocks (blocks (sweep probe depth now s)) !! h
  = match probe h with
    | Some (OnChain confirmations _) => if depth <=? confirmations then None else Some b
    | Some (SideBranch tip) => if pb_height b + depth <=? tip then None else Some b
    | Some Unknown => if found_ts b + 86400 <=? now then None else Some b
    | None => Some b
    end.
Proof.
  intros HF Hb. pose proof (HF h b Hb) as Hh. cbn in Hh.
  unfold sweep. rewrite sweep_list_pending, Hb.
  assert (bool_decide (Exists (fun b => pb_hash b = h /\ decide_block probe depth now b <> None)
            (map_to_list (pending_blocks (blocks s))).*2)
          = match decide_block probe depth now b with Some _ => true | None => false end) as ->.
  { destruct (decide_block probe depth now b) eqn:Ed.
    - apply bool_decide_true, Exists_exists. exists b. split; [|by rewrite Ed].
      apply list_elem_of_fmap. exists (h, b). split; [done|]. by apply elem_of_map_to_list.
    - apply bool_decide_false. rewrite Exists_exists. intros (b' & Hin & Hh' & Hd).
      apply list_elem_of_fmap in Hin as ([k b''] & -> & Hin). apply elem_of_map_to_list in Hin.
      pose proof (HF _ _ Hin) as Hk. cbn in Hk, Hh', Hd. congruence. }
  unfold decide_block. rewrite Hh. destruct (probe h) as [[c t|t|]|]; cbn; try done.
  - by destruct (depth <=? c).
  - by destruct (pb_height b + depth <=? t).
  - unfold ABANDON_AFTER_SECS, sat_sub.
    destruct (Z.leb_spec (24 * 3600) (Z.max (now - found_ts b) 0)),
             (Z.leb_spec (found_ts b + 86400) now); done || lia.
Qed.

Definition demo_pool : PoolStats :=
  foldl block_step (stats_new true 0 0)
    [Reported Accepted 900000 "w" "addr" "aa" 100 100; Reported Accepted 900001 "w" "addr" "bb" 200 200].

Lemma sweep_settles_decided_blocks_witness :
  pending_blocks (blocks (sweep (fun h => Some (if bool_decide (h = "aa") then OnChain 6 900005
                                                else SideBranch 900003)) 6 300 demo_pool)) !! "aa"
  = None.
Proof.
  refine (eq_trans (sweep_settles_decided_blocks
           (fun h => Some (if bool_decide (h = "aa") then OnChain 6 900005 else SideBranch 900003))
           6 300 demo_pool "aa" (mkPendingBlock "aa" 900000 "w" "addr" 100 true) _ _) _).
  - apply (bool_decide_unpack _). vm_compute. exact I.
  - vm_compute. reflexivity.
  - vm_compute. reflexivity.
Defined.

End Confirm.
