(* ===== verification/Restart.v ===== *)
(** * Restart: what the pool reads back is what it was showing

    [PoolStats::open_recording] on the file a previous run left
    ([src/stats.rs]), and the theorem that an orderly restart keeps the current
    round: its counts, work, best shares, start and reject reasons. *)
From S2P Require Import Prelude Text F64 Json Errors Interfaces Rpc Hashrate Stats Store.
From S2P Require Import Security Accounting Frame.
Import Rpc Hashrate Stats Store Security Accounting Frame.

Module Restart.

(** [open_recording] on the file [d], once [open] has reconciled it. *)
Definition from_file `{Libm} (d : Db) (wall_now : Z) (instant_now : Instant) : PoolStats :=
  from_persisted (load d) wall_now instant_now.

Definition open_recording `{Libm} (prune : nat -> gmap string Z -> gmap string Z) (d : Db)
    (wall_now : Z) (instant_now : Instant) : PoolStats :=
  from_file (open_file prune d) wall_now instant_now.

(** ** What happens between two boots *)
Inductive BootOp : Type :=
| OAccepted (session worker : string) (credit hash_difficulty : Z) (tick : Instant) (now1 now2 : Z)
| ORejected (g : SessionGuard) (worker : string) (reason : RejectReason) (now : Z)
| OOutcome (outcome : BlockSubmitOutcome) (height : Z) (worker payout hash : string) (now1 now2 : Z)
| OResolved (block : PendingBlock) (resolution : BlockResolution) (now : Z)
| OOnline (worker : string) (vardiff now : Z)
| OOffline (worker : string)
| OTick (now : Instant)
| OCheckpoint (now : Z).

Section Boot.
Context `{Libm}.

Definition boot_step (s : PoolStats) (op : BootOp) : PoolStats :=
  match op with
  | OAccepted session w c h tick now1 now2 => record_accepted s session w c h tick now1 now2
  | ORejected g w r now => (record_rejected s g w r now).1.2
  | OOutcome o height w payout hash now1 now2 => record_block_outcome s o height w payout hash now1 now2
  | OResolved b r now => (record_block_resolution s b r now).2
  | OOnline w vd now => mark_worker_online s w vd now
  | OOffline w => mark_worker_offline s w
  | OTick now => tick_hashrates s now
  | OCheckpoint now => record_hashrate_snapshot s now
  end.

(** ** Views of the round *)

(** What the round figures are computed from. *)
Record View := mkView {
  v_round : RoundState;
  v_accepted : Z;
  v_rejected : Z;
  v_reasons : gmap string Z;
  v_best : Z;
  v_worker_best : gmap string Z
}.

Definition view (s : PoolStats) : View :=
  mkView (round s) (shares_accepted (counters s)) (shares_rejected (counters s))
    (reject_reasons (counters s)) (best_share_difficulty (counters s))
    (worker_best_shares (workers s)).

(** Writes that leave the round's tables and the writer's epoch alone. *)
Definition neutral (w : StoreWrite) : Prop :=
  match w with
  | Ledger _ _ | BlockFound _ | BlockResolved _ _ _ | BestHashrate _ | Flush => True
  | _ => False
  end.

(** A step that changes neither the view nor, once written, the round. *)
Definition quiet : PoolStats -> PoolStats -> Prop := framed view neutral.

(** *** The quiet operations *)
Lemma quiet_enroll s height hash w payout won now :
  quiet s (enroll_pending_block s height hash w payout won now).
Proof.
  unfold enroll_pending_block. destruct (_ !! hash); [apply framed_refl|].
  eapply framed_trans; [|by apply framed_enqueue]. by apply framed_frame.
Qed.

Lemma quiet_best_hashrate s x : quiet s (record_best_hashrate s x).
Proof.
  unfold record_best_hashrate. destruct (_ || _); [apply framed_refl|].
  destruct (_ <? _); [eapply framed_trans; [|by apply framed_enqueue]|]; by apply framed_frame.
Qed.

Lemma quiet_tick s now : quiet s (tick_hashrates s now).
Proof.
  unfold tick_hashrates. cbv zeta. eapply framed_trans; [|apply quiet_best_hashrate].
  by apply framed_frame.
Qed.

Lemma quiet_online s w vd now : quiet s (mark_worker_online s w vd now).
Proof. unfold mark_worker_online. destruct (_ !! w); by apply framed_frame. Qed.

(** ** The figures shown *)

Lemma merged_lookup base boot k :
  map_fold (fun k n m => bump m k n) base boot !! k
  = match boot !! k with Some n => Some (default 0 (base !! k) + n) | None => base !! k end.
Proof.
  revert k. apply (map_fold_weak_ind (fun r b => forall k, r !! k
    = match b !! k with Some n => Some (default 0 (base !! k) + n) | None => base !! k end)).
  - intros k. by rewrite lookup_empty.
  - intros i x m r Hi IH k. unfold bump. destruct (decide (k = i)) as [->|Hne].
    + rewrite !lookup_insert_eq, IH, Hi. done.
    + rewrite !lookup_insert_ne by done. apply IH.
Qed.

(** One reject reason, as a number. *)
Definition shown_reason (s : PoolStats) (k : string) : Z := default 0 (round_reject_reasons s !! k).

Definition reason_total (s : PoolStats) (k : string) : Z :=
  default 0 (round_reject_reasons_base (round s) !! k)
  + default 0 (reject_reasons (counters s) !! k).

Lemma merged_total s k : default 0 (merged_reasons s !! k) = reason_total s k.
Proof.
  unfold merged_reasons, reason_total. rewrite merged_lookup.
  destruct (reject_reasons _ !! k); cbn; [done | lia].
Qed.

Lemma shown_reason_eq s k :
  0 <= default 0 (round_offset_reject_reasons (round s) !! k) ->
  shown_reason s k
  = Z.max 0 (reason_total s k - default 0 (round_offset_reject_reasons (round s) !! k)).
Proof.
  unfold shown_reason, round_reject_reasons. rewrite map_lookup_imap, <- merged_total.
  set (o := default 0 (round_offset_reject_reasons (round s) !! k)). intros Ho.
  destruct (merged_reasons s !! k) as [n|]; cbn; fold o; unfold sat_sub, id; [|lia].
  destruct (Z.ltb_spec 0 (Z.max (n - o) 0)); cbn; unfold id; lia.
Qed.

Lemma shown_reason_pos s k n : round_reject_reasons s !! k = Some n -> 0 < n /\ n = shown_reason s k.
Proof.
  unfold shown_reason. intros E. rewrite E. split; [|done].
  unfold round_reject_reasons in E. rewrite map_lookup_imap in E.
  destruct (merged_reasons s !! k); cbn in E; [|done].
  destruct (Z.ltb_spec 0 (sat_sub z (default 0 (round_offset_reject_reasons (round s) !! k))));
    by simplify_eq.
Qed.

(** ** The pool and its file, in step *)

(** The round's tables and the epoch the writer last applied. *)
Record FileView := mkFileView {
  f_accepted : Z;
  f_rejected : Z;
  f_work : Z;
  f_since : Z;
  f_best : Z;
  f_reasons : gmap string Z;
  f_worker_best : gmap string Z;
  f_epoch : Z
}.

Definition fview (ds : Db * WriterState) : FileView :=
  let r := round_stats ds.1 in
  mkFileView (rr_accepted r) (rr_rejected r) (rr_work r) (rr_since_ts r) (rr_best_share r)
    (round_reasons ds.1) (round_worker_best ds.1) (writer_epoch ds.2).

Definition off_reason (v : View) (k : string) : Z :=
  default 0 (round_offset_reject_reasons (v_round v) !! k).
Definition tot_reason (v : View) (k : string) : Z :=
  default 0 (round_reject_reasons_base (v_round v) !! k) + default 0 (v_reasons v !! k).

(** The file never shows more than the pool does, and agrees on what is written
    through; [n] bounds the operations so far, [w] the work. *)
Section InStep.
Variable track : bool.

Record in_step (v : View) (f : FileView) (n w : Z) : Prop := {
  is_epoch : f_epoch f = round_epoch (v_round v) /\ 0 <= round_epoch (v_round v) <= n;
  is_since : f_since f = round_since_ts (v_round v) /\ round_since_ts (v_round v) <> 0;
  is_best : f_best f = v_best v;
  is_worker_best : track = true ->
    forall k, default 0 (f_worker_best f !! k) = default 0 (v_worker_best v !! k);
  is_accepted : 0 <= round_accepted_base (v_round v) /\ 0 <= v_accepted v
    /\ round_accepted_base (v_round v) + v_accepted v <= n
    /\ 0 <= round_offset_accepted (v_round v)
    /\ f_accepted f <= round_accepted_base (v_round v) + v_accepted v
                        - round_offset_accepted (v_round v)
    /\ 0 <= f_accepted f;
  is_rejected : 0 <= round_rejected_base (v_round v) /\ 0 <= v_rejected v
    /\ round_rejected_base (v_round v) + v_rejected v <= n
    /\ 0 <= round_offset_rejected (v_round v)
    /\ f_rejected f <= round_rejected_base (v_round v) + v_rejected v
                        - round_offset_rejected (v_round v)
    /\ 0 <= f_rejected f;
  is_work : 0 <= f_work f <= round_work (v_round v) /\ round_work (v_round v) <= w;
  is_reasons k m : f_reasons f !! k = Some m -> 0 < m <= tot_reason v k - off_reason v k;
  is_offsets k : 0 <= off_reason v k <= tot_reason v k
}.

Local Ltac step_arith :=
  unfold wrap64, sat_add64, sat_sub, u64_max in *; rewrite ?Z.mod_small by lia; lia.

Lemma in_step_weaken v f n w n' w' : in_step v f n w -> n <= n' -> w <= w' -> in_step v f n' w'.
Proof. intros [[] [] ? ? ? ? [] ? ?] Hn Hw. split; auto; lia. Qed.

(** *** The abstract steps *)
Definition set_work_best (v : View) (acc work best : Z) : View :=
  let r := v_round v in
  mkView (mkRound (round_accepted_base r) (round_rejected_base r) (round_offset_accepted r)
            (round_offset_rejected r) work (round_epoch r) (round_since_ts r)
            (round_reject_reasons_base r) (round_offset_reject_reasons r))
    acc (v_rejected v) (v_reasons v) best (v_worker_best v).

Definition set_f_best (f : FileView) (best : Z) (wb : gmap string Z) : FileView :=
  mkFileView (f_accepted f) (f_rejected f) (f_work f) (f_since f) best (f_reasons f) wb (f_epoch f).

Lemma set_f_best_id f : set_f_best f (f_best f) (f_worker_best f) = f.
Proof. by destruct f. Qed.

Lemma in_step_accept v f n w c h :
  in_step v f n w -> n < u64_max -> 0 <= c -> w + c <= u64_max ->
  in_step (set_work_best v (wrap64 (v_accepted v + 1)) (wrap64 (round_work (v_round v) + c))
             (Z.max (v_best v) h))
    (set_f_best f (Z.max (f_best f) h) (f_worker_best f)) (n + 1) (w + c).
Proof.
  intros [[] [] Hb ? (? & ? & ? & ? & ? & ?) ? [] ? ?] Hn Hc Hw. split; cbn; auto; step_arith.
Qed.

Lemma in_step_reject v f n w k :
  in_step v f n w -> n < u64_max ->
  in_step (mkView (v_round v) (v_accepted v) (wrap64 (v_rejected v + 1)) (bump (v_reasons v) k 1)
             (v_best v) (v_worker_best v)) f (n + 1) w.
Proof.
  intros [[] [] ? ? ? (? & ? & ? & ? & ? & ?) [] Hr Ho] Hn.
  assert (forall k', default 0 (v_reasons v !! k') <= default 0 (bump (v_reasons v) k 1 !! k')) as Hm.
  { intros k'. unfold bump. destruct (decide (k' = k)) as [->|].
    - rewrite lookup_insert_eq. cbn. lia.
    - by rewrite lookup_insert_ne. }
  split; cbn; auto; try step_arith.
  - intros k' m Hk. specialize (Hr k' m Hk). specialize (Hm k').
    unfold tot_reason, off_reason in *. cbn in *. lia.
  - intros k'. specialize (Ho k'). specialize (Hm k').
    unfold tot_reason, off_reason in *. cbn in *. lia.
Qed.

(** A worker's best share, in memory and on file. *)
Lemma in_step_worker v f n w k h :
  in_step v f n w ->
  let old := default 0 (v_worker_best v !! k) in
  in_step (mkView (v_round v) (v_accepted v) (v_rejected v) (v_reasons v) (v_best v)
             (<[k := Z.max old h]> (v_worker_best v)))
    (set_f_best f (f_best f)
       (if old <? h then raise_worker_best (f_worker_best f) k h else f_worker_best f)) n w.
Proof.
  intros [? ? ? Hw ? ? ? ? ?] old. split; cbn; auto. intros Htr k'. specialize (Hw Htr). unfold old.
  pose proof (Hw k) as Hk. destruct (decide (k' = k)) as [->|Hne].
  - rewrite lookup_insert_eq. cbn [default from_option].
    destruct (Z.ltb_spec (default 0 (v_worker_best v !! k)) h); [|by rewrite Z.max_l].
    rewrite Z.max_r by lia.
    unfold raise_worker_best. destruct (f_worker_best f !! k) as [o|] eqn:Eo.
    + change (o = default 0 (v_worker_best v !! k)) in Hk.
      rewrite (proj2 (Z.ltb_lt o h)) by lia. by rewrite lookup_insert_eq.
    + by rewrite lookup_insert_eq.
  - rewrite lookup_insert_ne by done. rewrite <- Hw. destruct (_ <? _); [|done].
    unfold raise_worker_best. repeat case_match; by rewrite ?lookup_insert_ne.
Qed.

Lemma in_step_reset v f n w merged now :
  in_step v f n w -> n < u64_max -> now <> 0 -> (forall k, default 0 (merged !! k) = tot_reason v k) ->
  let r := v_round v in
  let epoch := wrap64 (round_epoch r + 1) in
  in_step (mkView (mkRound (round_accepted_base r) (round_rejected_base r)
                     (sat_add64 (round_accepted_base r) (v_accepted v))
                     (sat_add64 (round_rejected_base r) (v_rejected v)) 0 epoch now
                     (round_reject_reasons_base r) merged)
             (v_accepted v) (v_rejected v) (v_reasons v) 0 ∅)
    (mkFileView 0 0 0 now 0 ∅ ∅ (Z.max (f_epoch f) epoch)) (n + 1) w.
Proof.
  intros [[] [] ? ? (? & ? & ? & ? & ? & ?) (? & ? & ? & ? & ? & ?) [] ? Ho] Hn Hnow Hm r epoch.
  unfold epoch, r. split; cbn; auto; try step_arith.
  - intros k m. by rewrite lookup_empty.
  - intros k. specialize (Ho k). unfold off_reason, tot_reason in *. cbn in *. rewrite Hm. lia.
Qed.

(** The file once the queue of [s] is written, over the file [ds0] of the boot. *)
Section Drain.
Variable prune : nat -> gmap string Z -> gmap string Z.
Variable ds0 : Db * WriterState.

Definition file (s : PoolStats) : Db * WriterState := drain prune ds0 (queue s).

Definition write_one (ds : Db * WriterState) (w : StoreWrite) : Db * WriterState :=
  default ds (apply_write prune ds.1 ds.2 w true).

Lemma file_enqueue s w : is_Some (store s) -> file (enqueue s w) = write_one (file s) w.
Proof. intros Hs. unfold file. by rewrite queue_enqueue, drain_app. Qed.

Lemma file_frame s s' : store s' = store s -> file s' = file s.
Proof. intros E. unfold file, queue. by rewrite E. Qed.

Lemma ledger_minute_round d minute es ids :
  let d' := (write_ledger_minute d minute es ids).1 in
  round_stats d' = round_stats d /\ round_reasons d' = round_reasons d
  /\ round_worker_best d' = round_worker_best d.
Proof. unfold write_ledger_minute. by destruct (foldl _ _ _) as [[rows fine] ids']. Qed.

Lemma neutral_fview ds w : neutral w -> fview (write_one ds w) = fview ds.
Proof.
  destruct ds as [d st]. unfold write_one. destruct w; try done; intros _; cbn [apply_write fst snd].
  - match goal with |- context [write_ledger_minute ?a ?b ?c ?e] =>
      pose proof (ledger_minute_round a b c e) as Hl end.
    destruct (write_ledger_minute _ _ _ _) as [d1 ids]. cbn in *.
    destruct Hl as (E1 & E2 & E3). unfold roll_up_ledger.
    destruct (bool_decide _); unfold fview; cbn; by rewrite E1, E2, E3.
  - destruct (_ !! _); done.
  - destruct (_ !! _) as [row|]; [|done]. destruct (bool_decide _); done.
Qed.

Lemma quiet_fview s s' : quiet s s' -> fview (file s') = fview (file s).
Proof.
  intros (_ & _ & ws & Hq & Hn). unfold file. rewrite Hq, drain_app.
  generalize (drain prune ds0 (queue s)). clear Hq. intros ds. revert ds.
  induction Hn as [|w ws Hw Hn IH]; intros ds; [done|]. cbn [drain foldl].
  etransitivity; [apply IH | by apply neutral_fview].
Qed.

(** The pool with a store, in step with its file. *)
Definition synced (s : PoolStats) (n w : Z) : Prop :=
  is_Some (store s) /\ in_step (view s) (fview (file s)) n w.

Lemma synced_quiet s s' n w : synced s n w -> quiet s s' -> synced s' n w.
Proof.
  intros [Hs I] Q. pose proof (quiet_fview s s' Q) as Ef. destruct Q as (Ev & Hst & _).
  split; [auto|]. by rewrite Ev, Ef.
Qed.

(** *** The loud operations *)
Lemma synced_share_accepted s n w c h :
  synced s n w -> n < u64_max -> 0 <= c -> w + c <= u64_max ->
  synced (share_accepted s c h) (n + 1) (w + c).
Proof.
  intros [Hs I] Hn Hc Hw. pose proof (is_best _ _ _ _ I) as Hb.
  pose proof (in_step_accept _ _ _ _ c h I Hn Hc Hw) as I'.
  unfold share_accepted. cbv zeta.
  destruct (Z.ltb_spec (best_share_difficulty (counters s)) h) as [Hlt|Hge].
  - split; [by apply store_enqueue|]. rewrite file_enqueue, (file_frame s) by done.
    enough (fview (write_one (file s) (BestShare h))
            = set_f_best (fview (file s)) (Z.max (f_best (fview (file s))) h)
                (f_worker_best (fview (file s)))) as -> by exact I'.
    unfold fview, set_f_best. cbn in *. f_equal.
    destruct (Z.ltb_spec (rr_best_share (round_stats (file s).1)) h); lia.
  - split; [done|]. rewrite (file_frame s) by done.
    assert (set_f_best (fview (file s)) (Z.max (f_best (fview (file s))) h)
              (f_worker_best (fview (file s))) = fview (file s)) as E
      by (rewrite Z.max_l by (rewrite Hb; exact Hge); apply set_f_best_id).
    rewrite E in I'. exact I'.
Qed.

Lemma synced_share_rejected s n w r :
  synced s n w -> n < u64_max -> synced (share_rejected s r) (n + 1) w.
Proof. intros [Hs I] Hn. split; [done|]. exact (in_step_reject _ _ _ _ r I Hn). Qed.

Lemma synced_worker_share s n w k h :
  synced s n w -> synced (worker_share_accepted s k h) n w.
Proof.
  intros [Hs I]. pose proof (in_step_worker _ _ _ _ k h I) as I'. cbv zeta in I'.
  unfold worker_share_accepted. cbv zeta.
  cbn [workers alter_state with_workers set_states worker_best_shares].
  change (v_worker_best (view s)) with (worker_best_shares (workers s)) in I'.
  destruct (default 0 (worker_best_shares (workers s) !! k) <? h).
  - split; [by apply store_enqueue|]. rewrite file_enqueue by done. exact I'.
  - split; [done|]. rewrite (file_frame s) by done. rewrite set_f_best_id in I'. exact I'.
Qed.

Lemma synced_block_found s n w now :
  synced s n w -> n < u64_max -> now <> 0 -> synced (block_found s now) (n + 1) w.
Proof.
  intros [Hs I] Hn Hnow.
  pose proof (in_step_reset _ _ _ _ (merged_reasons s) now I Hn Hnow (merged_total s)) as I'.
  unfold block_found, round_reset. cbv zeta.
  split; [by apply store_enqueue|]. rewrite file_enqueue by done. exact I'.
Qed.

(** A snapshot brings the file up to the figures shown. *)
Definition shown_file (s : PoolStats) (f : FileView) : FileView :=
  mkFileView (round_shares_accepted s) (round_shares_rejected s) (round_work (round s))
    (round_since_ts (round s)) (best_share_difficulty (counters s)) (round_reject_reasons s)
    (f_worker_best f) (round_epoch (round s)).

Lemma shown_counts s f n w :
  in_step (view s) f n w -> n <= u64_max ->
  round_shares_accepted s = round_accepted_base (round s) + shares_accepted (counters s)
                            - round_offset_accepted (round s)
  /\ round_shares_rejected s = round_rejected_base (round s) + shares_rejected (counters s)
                               - round_offset_rejected (round s).
Proof.
  intros [_ _ _ _ Ha Hr _ _ _] Hn. cbn in *.
  unfold round_shares_accepted, round_shares_rejected. step_arith.
Qed.

Lemma shown_reasons s f n w :
  in_step (view s) f n w ->
  union_with (fun a b => Some (Z.max a b)) (f_reasons f) (round_reject_reasons s)
  = round_reject_reasons s.
Proof.
  intros I. apply map_eq. intros k. rewrite lookup_union_with.
  set (o := default 0 (round_offset_reject_reasons (round s) !! k)).
  assert (forall m, f_reasons f !! k = Some m -> 0 < m <= reason_total s k - o) as Hr
    by exact (is_reasons _ _ _ _ I k).
  assert (0 <= o <= reason_total s k) as Ho by exact (is_offsets _ _ _ _ I k).
  assert (shown_reason s k = Z.max 0 (reason_total s k - o)) as Hs
    by (apply shown_reason_eq; apply Ho).
  destruct (f_reasons f !! k) as [m|]; [specialize (Hr m eq_refl)|].
  - destruct (round_reject_reasons s !! k) as [x|] eqn:E.
    + apply shown_reason_pos in E as [_ ->]. rewrite Hs. cbn. f_equal. lia.
    + unfold shown_reason in Hs. rewrite E in Hs. change (0 = Z.max 0 (reason_total s k - o)) in Hs. lia.
  - by destruct (round_reject_reasons s !! k).
Qed.

Lemma shown_file_view s s' f : view s' = view s -> shown_file s' f = shown_file s f.
Proof.
  unfold view. intros E. injection E as E1 E2 E3 E4 E5 E6.
  unfold shown_file, round_shares_accepted, round_shares_rejected, round_reject_reasons,
    merged_reasons. by rewrite E1, E2, E3, E4, E5.
Qed.

Lemma snapshot_fview s d st n w ts rates worker_rates share_rates hist :
  in_step (view s) (fview (d, st)) n w -> n <= u64_max ->
  fview (write_one (d, st) (Snapshot (mkSnapshotWrite hist ts rates worker_rates
    (round_shares_accepted s) (round_shares_rejected s) (round_reject_reasons s)
    (round_work (round s)) (round_epoch (round s)) share_rates)))
  = shown_file s (fview (d, st)).
Proof.
  intros I Hn. pose proof (shown_counts s _ _ _ I Hn) as [Ea Er].
  pose proof (shown_reasons s _ _ _ I) as Ers.
  destruct I as [[He _] [Hsi _] Hb _ Ha Hrj [Hw _] _ _]. cbn in He, Hsi, Hb, Ha, Hrj, Hw, Ers.
  unfold write_one. cbn [apply_write fst snd sw_round_epoch].
  rewrite He, Z.eqb_refl. unfold fview, shown_file. cbn. f_equal; auto; lia.
Qed.

Lemma checkpoint_file s n w now :
  synced s n w -> n <= u64_max ->
  fview (file (record_hashrate_snapshot s now)) = shown_file s (fview (file s))
  /\ view (record_hashrate_snapshot s now) = view s
  /\ is_Some (store (record_hashrate_snapshot s now)).
Proof.
  intros [Hs I] Hn. assert (quiet s (flush_ledger_at s now)) as Q by (by apply framed_flush_ledger).
  pose proof (quiet_fview _ _ Q) as Ef. destruct Q as (Ev & Hst & _). specialize (Hst Hs).
  unfold record_hashrate_snapshot. set (s1 := flush_ledger_at s now) in *.
  split; [|split; [exact Ev | by apply store_enqueue]].
  rewrite file_enqueue by done. rewrite <- Ev, <- Ef in I. rewrite <- Ef.
  rewrite <- (shown_file_view s s1 _ Ev). destruct (file s1) as [d st].
  exact (snapshot_fview s1 d st n w _ _ _ _ _ I Hn).
Qed.

Lemma synced_checkpoint s n w now :
  synced s n w -> n <= u64_max -> synced (record_hashrate_snapshot s now) n w.
Proof.
  intros Hy Hn. destruct (checkpoint_file s n w now Hy Hn) as (Ef & Ev & Hst).
  destruct Hy as [Hs I]. split; [done|]. rewrite Ev, Ef.
  pose proof (shown_counts s _ _ _ I Hn) as [Ea Er].
  destruct I as [[] [] ? ? Ha Hr [] Hrs Ho].
  split; cbn; auto; try lia; [cbn in *; lia.. |].
  intros k m Hk. destruct (shown_reason_pos s k m Hk) as [Hp Hm]. split; [done|].
  rewrite Hm. change (shown_reason s k <= reason_total s k
    - default 0 (round_offset_reject_reasons (round s) !! k)).
  specialize (Ho k). change (0 <= default 0 (round_offset_reject_reasons (round s) !! k)
    <= reason_total s k) in Ho.
  rewrite shown_reason_eq by lia. lia.
Qed.

(** *** Any operation *)
Definition op_ok (op : BootOp) : Prop :=
  match op with
  | OAccepted _ _ c _ _ _ _ => 0 <= c
  | OOutcome _ _ _ _ _ now _ => now <> 0
  | OResolved _ _ now => now <> 0
  | _ => True
  end.

Definition op_work (op : BootOp) : Z :=
  match op with OAccepted _ _ c _ _ _ _ => c | _ => 0 end.

Lemma synced_weaken s n w n' w' : synced s n w -> n <= n' -> w <= w' -> synced s n' w'.
Proof. intros [Hs I] Hn Hw. split; [done|]. by eapply in_step_weaken. Qed.

Lemma synced_resolve s n w b r now :
  synced s n w -> n < u64_max -> now <> 0 -> synced (resolve_block s b r now).2 (n + 1) w.
Proof.
  intros Hy Hn Hnow. unfold resolve_block.
  destruct (_ !! pb_hash b); [|cbn [snd]; eapply synced_weaken; [done | lia | lia]].
  cbv zeta. cbn [snd]. set (s1 := with_blocks s _).
  assert (synced s1 n w) as Hy1 by (eapply synced_quiet; [done | by apply framed_frame]).
  set (s2 := match won_at_submit b with true => _ | false => _ end).
  enough (synced s2 (n + 1) w) as Hy2 by (eapply synced_quiet; [done | by apply framed_enqueue]).
  assert (synced s1 (n + 1) w) as Hy1' by (eapply synced_weaken; [done | lia | lia]).
  unfold s2. destruct (won_at_submit b), r; try exact Hy1'.
  apply synced_block_found; [exact Hy1 | done..].
Qed.

Lemma synced_step s n w op :
  synced s n w -> op_ok op -> n < u64_max -> w + op_work op <= u64_max ->
  synced (boot_step s op) (n + 1) (w + op_work op).
Proof.
  intros Hy Hok Hn Hw.
  assert (forall s', quiet s s' -> synced s' (n + 1) (w + 0)) as Hquiet.
  { intros s' Q. eapply synced_weaken; [by eapply synced_quiet | lia | lia]. }
  destruct op as [| g wk rr now | o height wk payout hash now1 now2 | | | | |];
    cbn [boot_step op_ok op_work] in *.
  - unfold record_accepted. cbv zeta. eapply synced_quiet; [|by apply framed_record_ledger].
    eapply synced_quiet; [|by apply framed_frame].
    apply synced_worker_share, synced_share_accepted; [|done..].
    eapply synced_quiet; [done | by apply framed_frame].
  - rewrite Z.add_0_r. unfold record_rejected. cbv zeta.
    enough (synced (ledger_share_rejected (worker_share_rejected (share_rejected s
              (reason_label rr)) wk (reason_label rr)) wk now) (n + 1) w) as Hr
      by (destruct (counts_as_invalid rr); [by destruct (record_invalid _)|done]).
    eapply synced_quiet; [|by apply framed_record_ledger].
    eapply synced_quiet; [|by apply framed_frame]. by apply synced_share_rejected.
  - rewrite Z.add_0_r. unfold record_block_outcome. cbv zeta.
    eapply synced_quiet; [|apply quiet_enroll]. destruct (is_win o).
    + by apply synced_block_found.
    + rewrite <- (Z.add_0_r w). apply Hquiet. by apply framed_frame.
  - rewrite Z.add_0_r. by apply synced_resolve.
  - apply Hquiet, quiet_online.
  - apply Hquiet. by apply framed_frame.
  - apply Hquiet, quiet_tick.
  - eapply synced_weaken; [apply synced_checkpoint; [done | lia] | lia | lia].
Qed.

Lemma synced_run ops s n w :
  synced s n w -> Forall op_ok ops -> n + Z.of_nat (length ops) <= u64_max ->
  w + sum_Z (op_work <$> ops) <= u64_max ->
  synced (foldl boot_step s ops) (n + Z.of_nat (length ops)) (w + sum_Z (op_work <$> ops)).
Proof.
  revert s n w; induction ops as [|op ops IH]; intros s n w Hy Hok Hn Hw.
  - eapply synced_weaken; [done | cbn; lia | unfold sum_Z; cbn; lia].
  - apply Forall_cons in Hok as [Hop Hok]. cbn [length foldl] in *.
    assert (0 <= sum_Z (op_work <$> ops)) as Hs.
    { clear -Hok. induction Hok as [|op ops Ho _ IH]; [done|]. unfold sum_Z in *. cbn.
      destruct op; cbn in *; lia. }
    change (sum_Z (op_work <$> op :: ops)) with (op_work op + sum_Z (op_work <$> ops)) in *.
    replace (n + Z.of_nat (S (length ops))) with (n + 1 + Z.of_nat (length ops)) in * by lia.
    rewrite Z.add_assoc in *. apply IH; [|done|lia|lia]. apply synced_step; [done | done | lia | lia].
Qed.

(** After the shutdown writes the file shows what the pool shows. *)
Lemma shutdown_file s n w now :
  synced s n w -> n <= u64_max ->
  fview (file (shutdown_persist s now)) = shown_file s (fview (file s)).
Proof.
  intros Hy Hn. destruct (checkpoint_file s n w now Hy Hn) as (Ef & _ & _).
  rewrite <- Ef. apply quiet_fview. unfold shutdown_persist.
  apply framed_then; [by apply framed_flush_partial | done..].
Qed.
End Drain.

(** A file some run of the pool left: counts are not negative, a round has a
    start, and only reasons that occurred have a row. *)
Definition db_ok (d : Db) : Prop :=
  let r := round_stats d in
  0 <= rr_accepted r /\ 0 <= rr_rejected r /\ 0 <= rr_work r /\ rr_since_ts r <> 0
  /\ map_Forall (fun _ m => 0 < m) (round_reasons d).

Lemma synced_boot prune d wall inst :
  db_ok d ->
  synced prune (d, writer_new) (from_file d wall inst)
    (rr_accepted (round_stats d) + rr_rejected (round_stats d)) (rr_work (round_stats d)).
Proof.
  intros (Ha & Hr & Hw & Hs & Hm). unfold from_file, load.
  destruct (load_block_counts d) as [[found orphaned] inconclusive].
  split; [by eexists|]. apply Z.eqb_neq in Hs as Hs'.
  split; cbn; rewrite ?Hs'; try done; try lia.
  - intros k m Hk. specialize (Hm k m Hk). unfold tot_reason, off_reason. cbn in *.
    rewrite Hk, lookup_empty. cbn. lia.
  - intros k. unfold tot_reason, off_reason. cbn. rewrite !lookup_empty.
    destruct (round_reasons d !! k) as [m|] eqn:E; cbn; [specialize (Hm k m E); cbn in Hm|]; lia.
Qed.

Lemma booted_reasons s :
  reject_reasons (counters s) = ∅ -> round_offset_reject_reasons (round s) = ∅ ->
  map_Forall (fun _ m => 0 < m) (round_reject_reasons_base (round s)) ->
  round_reject_reasons s = round_reject_reasons_base (round s).
Proof.
  intros Ec Eo Hm. apply map_eq. intros k. unfold round_reject_reasons, merged_reasons.
  rewrite map_lookup_imap, Ec, map_fold_empty, Eo, lookup_empty.
  destruct (_ !! k) as [m|] eqn:E; cbn; [|done]. apply Hm in E.
  unfold sat_sub, id. rewrite (proj2 (Z.ltb_lt _ _)) by lia. f_equal. lia.
Qed.

(** What a booted pool shows is what the file says. *)
Lemma booted_shows d wall inst :
  db_ok d -> rr_accepted (round_stats d) + rr_rejected (round_stats d) <= u64_max ->
  let s := from_file d wall inst in
  let r := round_stats d in
  displayed s = mkFigures (rr_accepted r) (rr_rejected r) (rr_work r) (rr_best_share r)
  /\ round_since_ts (round s) = rr_since_ts r
  /\ round_reject_reasons s = round_reasons d
  /\ worker_best_shares (workers s) = round_worker_best d.
Proof.
  intros (Ha & Hr & Hw & Hs & Hm) Hn. unfold from_file, load. cbv zeta.
  destruct (load_block_counts d) as [[found orphaned] inconclusive].
  apply Z.eqb_neq in Hs.
  repeat split; [|cbn; by rewrite Hs | by rewrite booted_reasons].
  unfold displayed, round_shares_accepted, round_shares_rejected. cbn.
  f_equal; step_arith.
Qed.

(** Shutting down leaves a file that shows the round as the pool does. *)
Lemma shutdown_shows prune ds0 s n w now :
  synced prune ds0 s n w -> n <= u64_max ->
  let d := (drain prune ds0 (queue (shutdown_persist s now))).1 in
  let r := round_stats d in
  displayed s = mkFigures (rr_accepted r) (rr_rejected r) (rr_work r) (rr_best_share r)
  /\ round_since_ts (round s) = rr_since_ts r
  /\ round_reject_reasons s = round_reasons d
  /\ (track = true -> forall k, default 0 (worker_best_shares (workers s) !! k)
                               = default 0 (round_worker_best d !! k)).
Proof.
  intros Hy Hn d r. pose proof (shutdown_file prune ds0 s n w now Hy Hn) as E.
  destruct Hy as [_ I]. pose proof (is_worker_best _ _ _ _ I) as Hk.
  unfold file in E at 1. fold d in E. unfold fview at 1 in E. fold d r in E.
  unfold shown_file in E. injection E as E1 E2 E3 E4 E5 E6 E7 _.
  unfold displayed. rewrite E1, E2, E3, E4, E5, E6. do 3 (split; [done|]).
  intros Htr k. rewrite E7. by rewrite (Hk Htr).
Qed.

Lemma shutdown_db_ok prune ds0 s n w now :
  synced prune ds0 s n w -> n <= u64_max ->
  db_ok (drain prune ds0 (queue (shutdown_persist s now))).1
  /\ rr_accepted (round_stats (drain prune ds0 (queue (shutdown_persist s now))).1)
     + rr_rejected (round_stats (drain prune ds0 (queue (shutdown_persist s now))).1) <= 2 * n.
Proof.
  intros Hy Hn. destruct (shutdown_shows prune ds0 s n w now Hy Hn) as (Ed & Es & Er & _).
  revert Ed Es Er. set (d := (drain _ _ _).1). intros Ed Es Er.
  destruct Hy as [_ I]. destruct (shown_counts s _ _ _ I Hn) as [Ea Ej].
  destruct I as [_ [_ Hs] _ _ Ha Hj [Hw _] _ _]. cbn in Hs, Ha, Hj, Hw.
  unfold displayed in Ed. injection Ed as E1 E2 E3 _.
  split; [|lia]. split; [lia|]. split; [lia|]. split; [lia|]. split; [congruence|].
  rewrite <- Er. intros k m Hk. by apply shown_reason_pos in Hk as [].
Qed.
End InStep.
End Boot.

(** A pool in step with its file, shut down and booted again on it. *)
Section Again.
Context `{Libm}.
Variables (prune : nat -> gmap string Z -> gmap string Z) (fl : Db) (s : PoolStats) (n w now wall : Z)
  (inst : Instant).

Local Abbreviation left := (drain prune (fl, writer_new) (queue (shutdown_persist s now))).1.

Hypothesis recovered : recover_round left = left.

Lemma restart_figures :
  synced false prune (fl, writer_new) s n w -> n < 2 ^ 63 ->
  let s' := open_recording prune left wall inst in
  displayed s' = displayed s /\ round_since_ts (round s') = round_since_ts (round s)
  /\ round_reject_reasons s' = round_reject_reasons s.
Proof.
  intros Hy Hn s'.
  destruct (shutdown_shows _ _ _ _ _ _ now Hy) as (E1 & E2 & E3 & _); [unfold u64_max; lia|].
  destruct (shutdown_db_ok _ _ _ _ _ _ now Hy) as [Hd Hb]; [unfold u64_max; lia|].
  assert (db_ok (open_file prune left)) as Hd' by (unfold open_file; rewrite recovered; exact Hd).
  assert (round_stats (open_file prune left) = round_stats left) as Er by (unfold open_file; by rewrite recovered).
  assert (round_reasons (open_file prune left) = round_reasons left) as Ers by (unfold open_file; by rewrite recovered).
  destruct (booted_shows (open_file prune left) wall inst Hd') as (B1 & B2 & B3 & _);
    [rewrite Er; unfold u64_max; lia|].
  unfold s', open_recording. by rewrite B1, B2, B3, Er, Ers, E1, E2, E3.
Qed.

Lemma restart_worker_best :
  (forall keep m, (size m <= keep)%nat -> prune keep m = m) ->
  synced true prune (fl, writer_new) s n w -> n < 2 ^ 63 ->
  (size (round_worker_best left) <= MAX_WORKER_BEST_SHARES)%nat ->
  forall k, default 0 (worker_best_shares (workers (open_recording prune left wall inst)) !! k)
            = default 0 (worker_best_shares (workers s) !! k).
Proof.
  intros Hsmall Hy Hn Hsz k.
  destruct (shutdown_shows _ _ _ _ _ _ now Hy) as (_ & _ & _ & E4); [unfold u64_max; lia|].
  rewrite (E4 eq_refl). unfold open_recording, from_file, load, open_file. rewrite recovered.
  destruct (load_block_counts _) as [[found orphaned] inconclusive]. cbn. by rewrite Hsmall.
Qed.
End Again.

(** An orderly restart keeps the current round: after any operations of a
    run, the pool that boots on the file the shutdown wrote shows the same
    accepted and rejected counts, work, best share, round start and reject
    reasons, and (below the row cap of the table) the same best share of every
    worker. The writer has drained its queue without errors, the recovery of a
    lost reset finds nothing to do, and the totals fit the file's 63-bit
    columns. *)
Lemma round_survives_restart `{Libm} (prune : nat -> gmap string Z -> gmap string Z)
    (prune_small : forall keep m, (size m <= keep)%nat -> prune keep m = m)
    (d0 : Db) (wall wall' now : Z) (inst inst' : Instant) (ops : list BootOp) :
  let f0 := open_file prune d0 in
  let s := foldl boot_step (open_recording prune d0 wall inst) ops in
  let d := (drain prune (f0, writer_new) (queue (shutdown_persist s now))).1 in
  let s' := open_recording prune d wall' inst' in
  db_ok f0 -> Forall op_ok ops ->
  rr_accepted (round_stats f0) + rr_rejected (round_stats f0) + Z.of_nat (length ops) < 2 ^ 63 ->
  rr_work (round_stats f0) + sum_Z (op_work <$> ops) < 2 ^ 63 ->
  recover_round d = d -> (size (round_worker_best d) <= MAX_WORKER_BEST_SHARES)%nat ->
  displayed s' = displayed s
  /\ round_since_ts (round s') = round_since_ts (round s)
  /\ round_reject_reasons s' = round_reject_reasons s
  /\ forall k, default 0 (worker_best_shares (workers s') !! k)
              = default 0 (worker_best_shares (workers s) !! k).
Proof.
  intros fl s d s' Hd Hok Hn Hw Hrec Hsz.
  assert (forall track, synced track prune (fl, writer_new) s
    (rr_accepted (round_stats fl) + rr_rejected (round_stats fl) + Z.of_nat (length ops))
    (rr_work (round_stats fl) + sum_Z (op_work <$> ops))) as Hy.
  { intros track. apply synced_run; [exact (synced_boot track prune fl wall inst Hd) | done | unfold u64_max; lia..]. }
  destruct (restart_figures prune fl s _ _ now wall' inst' Hrec (Hy false)) as (E1 & E2 & E3); [lia|].
  do 3 (split; [done|]). by apply (restart_worker_best prune fl s _ _ now wall' inst' Hrec prune_small (Hy true)).
Qed.

(** A share and a reject, a block, and a share of the new round. *)
Definition demo_ops : list BootOp :=
  [OAccepted "s1" "addr.w" 64 90 0 110 110;
   ORejected (guard_new (mkSecurityConfig 10 100 600 50 4096 128 8) 0) "addr.w" Stale 111;
   OOutcome Accepted 900000 "addr.w" "addr" "aa" 120 120;
   OAccepted "s1" "addr.w" 32 77 0 130 130; OCheckpoint 140;
   ORejected (guard_new (mkSecurityConfig 10 100 600 50 4096 128 8) 0) "addr.w" Stale 150].

Lemma round_survives_restart_witness :
  let prune := fun _ m => m in
  let s := foldl (@boot_step toy_libm) (@open_recording toy_libm prune (db_new 100) 105 0) demo_ops in
  let d := (drain prune (open_file prune (db_new 100), writer_new) (queue (shutdown_persist s 160))).1 in
  let s' := @open_recording toy_libm prune d 200 0 in
  displayed s = mkFigures 1 1 32 77 /\ displayed s' = displayed s
  /\ round_since_ts (round s') = round_since_ts (round s)
  /\ round_reject_reasons s' = round_reject_reasons s
  /\ default 0 (worker_best_shares (workers s') !! "addr.w")
     = default 0 (worker_best_shares (workers s) !! "addr.w").
Proof.
  intros prune s d s'. split; [vm_compute; reflexivity|].
  destruct (@round_survives_restart toy_libm prune (fun _ _ _ => eq_refl) (db_new 100) 105 200 160
              0 0 demo_ops) as (E1 & E2 & E3 & E4).
  - split; [done|]. split; [done|]. split; [done|]. split; [done|]. apply map_Forall_empty.
  - unfold demo_ops. repeat apply Forall_cons_2; try apply Forall_nil; cbn; lia || done.
  - vm_compute. reflexivity.
  - vm_compute. reflexivity.
  - vm_compute. reflexivity.
  - apply Nat.leb_le. vm_compute. reflexivity.
  - split; [exact E1|]. split; [exact E2|]. split; [exact E3|]. exact (E4 "addr.w").
Defined.
End Restart.
