(* ===== verification/Metrics.v ===== *)
(** * Metrics: what the pool tells the metrics recorder
    ([src/metrics/mod.rs], [src/mining/accounting.rs], [src/mining/confirm.rs])

    The recorder belongs to a library: the model keeps the calls the pool makes on
    it, in order.  Each function of the module is the calls it makes; the accounting
    functions, the hashrate tick and the confirmation sweep are repeated with theirs.
    The dashboard's counts since boot agree with the exported counters. *)
From S2P Require Import Prelude Text F64 Json Errors Interfaces Rpc Hashrate Stats Store.
From S2P Require Import Security Accounting Confirm Restart.
Import Rpc Hashrate Stats Store Security Accounting Confirm Restart.

Module Metrics.

(** ** Calls *)
Definition Labels : Type := list (string * string).

(** A series is a name with its labels. *)
Inductive Call : Type :=
| CounterIncrement (name : string) (labels : Labels) (n : Z)
| GaugeSet (name : string) (labels : Labels) (x : f64)
| GaugeIncrement (name : string) (labels : Labels) (x : f64)
| GaugeDecrement (name : string) (labels : Labels) (x : f64)
| HistogramRecord (name : string) (labels : Labels) (x : f64).

(** What the calls add to the counters [name] whose labels satisfy [P]. *)
Definition added (name : string) (P : Labels -> bool) (c : Call) : Z :=
  match c with
  | CounterIncrement name' l n => if String.eqb name' name && P l then n else 0
  | _ => 0
  end.

Definition counted (name : string) (P : Labels -> bool) (log : list Call) : Z :=
  foldr (fun c t => added name P c + t) 0 log.

Definition total (name : string) (log : list Call) : Z := counted name (fun _ => true) log.
Definition has_label (key value : string) (l : Labels) : bool := 
  existsb (fun p => String.eqb p.1 key && String.eqb p.2 value) l.

(** ** The functions of the module *)
Definition worker_label (worker : string) : Labels := [("worker", worker)].
Definition increment (name : string) (l : Labels) : list Call := [CounterIncrement name l 1].

Definition miner_connected : list Call := [GaugeIncrement "pool_connected_miners" [] f1].
Definition miner_disconnected : list Call := [GaugeDecrement "pool_connected_miners" [] f1].

Definition share_accepted (difficulty : Z) (worker : string) : list Call :=
  increment "pool_shares_accepted_total" (worker_label worker)
  ++ [HistogramRecord "pool_share_difficulty" (worker_label worker) (f64_of_Z difficulty)].

Definition share_rejected (reason worker : string) : list Call :=
  increment "pool_shares_rejected_total" [("reason", reason); ("worker", worker)]
  ++ increment "pool_worker_shares_rejected_total" (worker_label worker).

Definition rate_limited (worker : string) : list Call :=
  increment "pool_rate_limited_messages_total" (worker_label worker).
Definition share_validation_time (duration_ms : f64) : list Call :=
  [HistogramRecord "pool_share_validation_duration_ms" [] duration_ms].
Definition connection_duration (worker : string) (duration_secs : f64) : list Call :=
  [HistogramRecord "pool_connection_duration_secs" (worker_label worker) duration_secs].
Definition miner_disconnect (reason worker : string) : list Call :=
  increment "pool_miner_disconnects_total" [("reason", reason); ("worker", worker)].

Definition block_submission_outcome (outcome : string) : list Call :=
  increment "pool_block_submissions_total" [("outcome", outcome)].
Definition block_submission_failure (reason : string) : list Call :=
  increment "pool_block_submissions_failed_total" [("reason", reason)].
Definition job_broadcast (miners_count : Z) : list Call :=
  GaugeSet "pool_job_broadcast_miners" [] (f64_of_Z miners_count)
  :: increment "pool_job_broadcasts_total" [].
Definition zmq_reconnect : list Call := increment "pool_zmq_reconnects_total" [].
Definition rpc_fallback_used : list Call := increment "pool_rpc_fallback_used_total" [].

Definition vardiff_retarget (worker : string) (old_diff new_diff : Z) : list Call :=
  [GaugeSet "pool_worker_difficulty" (worker_label worker) (f64_of_Z new_diff);
   HistogramRecord "pool_vardiff_change_ratio" [] (f64_of_Z new_diff / f64_of_Z old_diff)%f64].

Definition block_found : list Call := increment "pool_blocks_found_total" [].
Definition block_orphaned : list Call := increment "pool_blocks_orphaned_total" [].
Definition block_confirmation (result : string) : list Call :=
  increment "pool_block_confirmations_total" [("result", result)].
Definition update_blocks_pending_confirmation (pending : Z) : list Call :=
  [GaugeSet "pool_blocks_pending_confirmation" [] (f64_of_Z pending)].

Definition HASHRATE_WINDOW_LABELS : list string := ["1m"; "5m"; "10m"; "1h"; "3h"; "6h"; "24h"].

(** [windows.iter().zip(HASHRATE_WINDOW_LABELS)]: a gauge per window. *)
Definition set_windows (name : string) (l : Labels) (windows : list f64) : list Call :=
  zip_with (fun x window => GaugeSet name (l ++ [("window", window)]) x) windows HASHRATE_WINDOW_LABELS.
Definition update_pool_hashrate (windows : list f64) : list Call := set_windows "pool_hashrate_hps" [] windows.
Definition update_pool_share_rate (windows : list f64) : list Call :=
  set_windows "pool_shares_per_minute" [] windows.
Definition update_worker_hashrate (worker : string) (windows : list f64) : list Call :=
  set_windows "pool_worker_hashrate_hps" (worker_label worker) windows.

Definition update_job_height (height : Z) : list Call := [GaugeSet "pool_job_height" [] (f64_of_Z height)].
Definition update_template_last_refresh (unix_secs : Z) : list Call :=
  [GaugeSet "pool_template_last_refresh_timestamp_seconds" [] (f64_of_Z unix_secs)].
Definition tip_change_discovered_by_timer : list Call :=
  increment "pool_tip_changes_discovered_by_timer_total" [].
Definition update_unsupported_gbt_rules (count : Z) : list Call :=
  [GaugeSet "pool_unsupported_gbt_rules" [] (f64_of_Z count)].
Definition coinbase_value_mismatch : list Call := increment "pool_coinbase_value_mismatch_total" [].

(** ** Callers *)

(** The pool with what it has told the recorder so far. *)
Definition Metered : Type := PoolStats * list Call.

(** [record_block_resolution] tells the recorder only when it decided. *)
Definition resolution_metrics (won_at_submit : bool) (resolution : BlockResolution) : list Call :=
  block_confirmation (resolution_label resolution)
  ++ match won_at_submit, resolution with
     | true, Orphaned => block_orphaned
     | false, Confirmed => block_found
     | _, _ => []
     end.

Definition metered_resolution (x : Metered) (b : PendingBlock) (r : BlockResolution) (now : Z) : bool * Metered :=
  let '(decided, s1) := record_block_resolution x.1 b r now in
  (decided, (s1, x.2 ++ (if decided then resolution_metrics (won_at_submit b) r else []))).

(** The part of [tick_hashrates_at] that exports, on the pool after the tick:
    [by_worker] and [total] read the ticked sessions. *)
Definition tick_metrics (s : PoolStats) : list Call :=
  let by_worker := hashrates_by_worker s in
  flat_map (fun kv => update_worker_hashrate kv.1 kv.2) (map_to_list by_worker)
  ++ flat_map (fun w => if bool_decide (is_Some (by_worker !! w)) then []
                        else update_worker_hashrate w windows_zero)
       (map_to_list (worker_states (workers s))).*1
  ++ update_pool_hashrate (total_hashrate s)
  ++ update_pool_share_rate (Hashrate.rates (Stats.share_rate s)).

(** What the dashboard shows for the same meter. *)
Definition share_rate_windows (s : PoolStats) : list f64 := per_minute (Stats.share_rate s).

(** [sweep]: the gauge of the pending set, the settled blocks, the gauge again. *)
Definition metered_sweep_block (probe : string -> option BlockChainPosition) (depth now : Z)
    (x : Metered) (b : PendingBlock) : Metered :=
  match decide_block probe depth now b with
  | Some r => (metered_resolution x b r now).2
  | None => x
  end.

Definition pending_len (s : PoolStats) : Z := Z.of_nat (size (pending_blocks (blocks s))).

Definition metered_sweep (probe : string -> option BlockChainPosition) (depth now : Z) (x : Metered) : Metered :=
  let pending := (map_to_list (pending_blocks (blocks x.1))).*2 in
  let x0 := (x.1, x.2 ++ update_blocks_pending_confirmation (pending_len x.1)) in
  match pending with
  | [] => x0
  | _ => let x1 := foldl (metered_sweep_block probe depth now) x0 pending in
         (x1.1, x1.2 ++ update_blocks_pending_confirmation (pending_len x1.1))
  end.

Inductive MeterOp : Type :=
| MAccepted (session worker : string) (credit hash_difficulty : Z) (tick : Instant) (now1 now2 : Z)
| MRejected (g : SessionGuard) (worker : string) (reason : RejectReason) (now : Z)
| MRateLimited (worker : option string)
| MOutcome (outcome : BlockSubmitOutcome) (height : Z) (worker payout hash : string) (now1 now2 : Z)
| MSettled (hash : string) (resolution : BlockResolution) (now : Z)
| MOnline (worker : string) (vardiff now : Z)
| MOffline (worker : string)
| MTick (now : Instant)
| MCheckpoint (now : Z).

Section Metered.
Context `{Libm}.

(** The accounting call with what it tells the recorder; a resolution is given
    the block of the pending set, as [sweep] does. *)
Definition metered_step (x : Metered) (op : MeterOp) : Metered :=
  let '(s, log) := x in
  match op with
  | MAccepted session w c h tick now1 now2 =>
      (record_accepted s session w c h tick now1 now2, log ++ share_accepted c w)
  | MRejected g w reason now =>
      ((record_rejected s g w reason now).1.2, log ++ share_rejected (reason_label reason) w)
  | MRateLimited w => (record_rate_limited s, log ++ rate_limited (default "?" w))
  | MOutcome o height w payout hash now1 now2 =>
      (record_block_outcome s o height w payout hash now1 now2,
       log ++ block_submission_outcome (outcome_label o) ++ if is_win o then block_found else [])
  | MSettled hash resolution now =>
      match pending_blocks (blocks s) !! hash with
      | None => x
      | Some b => (metered_resolution x b resolution now).2
      end
  | MOnline w vd now => (mark_worker_online s w vd now, log)
  | MOffline w => (mark_worker_offline s w, log)
  | MTick now => let s1 := tick_hashrates s now in (s1, log ++ tick_metrics s1)
  | MCheckpoint now => (record_hashrate_snapshot s now, log)
  end.
End Metered.

(** ** What the dashboard counts *)
Record Tally := mkTally {
  ty_accepted : Z;
  ty_rejected : Z;
  ty_dropped : Z;
  ty_reasons : gmap string Z;
  ty_found : Z;
  ty_orphaned : Z;
  ty_pending : gmap string PendingBlock
}.

Definition tally (s : PoolStats) : Tally :=
  mkTally (shares_accepted (counters s)) (shares_rejected (counters s))
    (rate_limited_drops (counters s)) (reject_reasons (counters s)) (blocks_found (blocks s))
    (blocks_orphaned (blocks s)) (pending_blocks (blocks s)).

Definition won_pending (m : gmap string PendingBlock) : Z :=
  sum_map (fun _ b => if won_at_submit b then 1 else 0) m.

(** *** The sums of the log *)
Lemma counted_cons name P c log : counted name P (c :: log) = added name P c + counted name P log.
Proof. done. Qed.

Lemma counted_app name P l1 l2 : counted name P (l1 ++ l2) = counted name P l1 + counted name P l2.
Proof. induction l1 as [|c l1 IH]; [done|]. cbn [app]. rewrite !counted_cons. lia. Qed.

(** Calls that set gauges count nothing. *)
Lemma counted_gauges name P name' l windows : counted name P (set_windows name' l windows) = 0.
Proof.
  unfold set_windows. generalize HASHRATE_WINDOW_LABELS.
  induction windows as [|x w IH]; intros [|y ls]; [done..|].
  cbn [zip_with]. by rewrite counted_cons, IH.
Qed.

Lemma counted_flat_map {A} name P (f : A -> list Call) l :
  (forall a, counted name P (f a) = 0) -> counted name P (flat_map f l) = 0.
Proof. intros Hf. induction l as [|a l IH]; [done|]. cbn [flat_map]. by rewrite counted_app, Hf, IH. Qed.

Section Agreement.
Context `{Libm}.

Lemma counted_tick name P s : counted name P (tick_metrics s) = 0.
Proof.
  unfold tick_metrics, update_pool_hashrate, update_pool_share_rate, update_worker_hashrate.
  rewrite !counted_app, !counted_gauges, !counted_flat_map; [done| |].
  - intros w. case_bool_decide; [done | apply counted_gauges].
  - intros kv. apply counted_gauges.
Qed.

(** *** What each call does to the tally *)
Lemma tally_record_ledger s w a now : tally (record_ledger s w a now) = tally s.
Proof.
  unfold record_ledger. destruct (store s); [|done]. destruct (_ !! w); [|done].
  by destruct (roll_to _ _) as [[[m es]|] a1].
Qed.

Lemma tally_flush s now : tally (flush_ledger_at s now) = tally s.
Proof. unfold flush_ledger_at. destruct (store s); [|done]. by destruct (roll_to _ _) as [[[m es]|] a1]. Qed.

Lemma tally_tick s now : tally (tick_hashrates s now) = tally s.
Proof.
  unfold tick_hashrates, record_best_hashrate. cbv zeta.
  destruct (_ || _); [done|]. by destruct (_ <? _).
Qed.

Lemma tally_checkpoint s now : tally (record_hashrate_snapshot s now) = tally s.
Proof. unfold record_hashrate_snapshot. cbv zeta. exact (tally_flush s now). Qed.

Lemma tally_online s w vd now : tally (mark_worker_online s w vd now) = tally s.
Proof. unfold mark_worker_online. cbv zeta. by destruct (_ !! w). Qed.

Lemma tally_worker_accepted s w h : tally (worker_share_accepted s w h) = tally s.
Proof. unfold worker_share_accepted. cbv zeta. by destruct (_ <? _). Qed.

Lemma tally_accepted s sid w c h tick now1 now2 :
  tally (record_accepted s sid w c h tick now1 now2)
  = let f := tally s in
    mkTally (wrap64 (ty_accepted f + 1)) (ty_rejected f) (ty_dropped f) (ty_reasons f) (ty_found f)
      (ty_orphaned f) (ty_pending f).
Proof.
  unfold record_accepted, ledger_share_accepted. cbv zeta. rewrite tally_record_ledger.
  transitivity (tally (Stats.share_accepted (add_share_diff s sid w (f64_of_Z c) tick) c h)).
  - exact (tally_worker_accepted _ w h).
  - unfold Stats.share_accepted. cbv zeta. destruct (_ <? _); reflexivity.
Qed.

Lemma tally_rejected s g w r now :
  tally (record_rejected s g w r now).1.2
  = let f := tally s in
    mkTally (ty_accepted f) (wrap64 (ty_rejected f + 1)) (ty_dropped f)
      (bump (ty_reasons f) (reason_label r) 1) (ty_found f) (ty_orphaned f) (ty_pending f).
Proof.
  unfold record_rejected. cbv zeta.
  assert (forall s1, tally (ledger_share_rejected s1 w now) = tally s1) as E
    by (intros; apply tally_record_ledger).
  destruct (counts_as_invalid r); [destruct (record_invalid _)|]; cbn [fst snd]; by rewrite E.
Qed.

Lemma tally_outcome s o height w payout hash now1 now2 :
  tally (record_block_outcome s o height w payout hash now1 now2)
  = let f := tally s in
    mkTally (ty_accepted f) (ty_rejected f) (ty_dropped f) (ty_reasons f)
      (if is_win o then wrap64 (ty_found f + 1) else ty_found f) (ty_orphaned f)
      (match ty_pending f !! hash with
       | Some _ => ty_pending f
       | None => <[hash := mkPendingBlock hash height w payout now2 (is_win o)]> (ty_pending f)
       end).
Proof.
  unfold record_block_outcome, enroll_pending_block. cbn zeta.
  destruct (is_win o); cbn; by destruct (pending_blocks (blocks s) !! hash).
Qed.

(** The tally after a decided block, and what the recorder hears of it. *)
Lemma tally_settled s b r now :
  ty_pending (tally s) !! pb_hash b = Some b ->
  (record_block_resolution s b r now).1 = true
  /\ tally (record_block_resolution s b r now).2
     = let f := tally s in
       mkTally (ty_accepted f) (ty_rejected f) (ty_dropped f) (ty_reasons f)
         (match won_at_submit b, r with
          | true, Orphaned => sat_sub (ty_found f) 1
          | false, Confirmed => wrap64 (ty_found f + 1)
          | _, _ => ty_found f
          end)
         (match won_at_submit b, r with
          | true, Orphaned => wrap64 (ty_orphaned f + 1)
          | _, _ => ty_orphaned f
          end)
         (delete (pb_hash b) (ty_pending f)).
Proof.
  intros Hb. cbn in Hb. unfold record_block_resolution, resolve_block. rewrite Hb.
  destruct (won_at_submit b), r; done.
Qed.

(** *** The two reports agree *)

(** A count that follows its counter, below [n]. *)
Definition tracks (n shown counter : Z) : Prop := shown = counter /\ 0 <= counter <= n.

(** The pool and the log after at most [n] steps, from a pool that showed [found]
    blocks found and [orphaned] orphaned and had [pending] blocks to decide. *)
Record agrees (found orphaned pending n : Z) (f : Tally) (log : list Call) : Prop := {
  ag_accepted : tracks n (ty_accepted f) (total "pool_shares_accepted_total" log);
  ag_rejected : tracks n (ty_rejected f) (total "pool_shares_rejected_total" log);
  ag_worker_rejected :
    total "pool_worker_shares_rejected_total" log = total "pool_shares_rejected_total" log;
  ag_dropped : tracks n (ty_dropped f) (total "pool_rate_limited_messages_total" log);
  ag_reasons : forall k, default 0 (ty_reasons f !! k)
    = counted "pool_shares_rejected_total" (has_label "reason" k) log;
  ag_found : ty_found f
    = found + total "pool_blocks_found_total" log - total "pool_blocks_orphaned_total" log;
  ag_found_bound : won_pending (ty_pending f) <= ty_found f <= found + n;
  ag_orphaned : tracks (orphaned + n) (ty_orphaned f)
    (orphaned + total "pool_blocks_orphaned_total" log);
  ag_settled : total "pool_block_confirmations_total" log + Z.of_nat (size (ty_pending f))
    <= pending + total "pool_block_submissions_total" log;
  ag_keys : map_Forall (fun h b => pb_hash b = h) (ty_pending f)
}.

(** A step whose tally and calls are known, on the sums it moves. *)
Local Ltac add_up :=
  unfold total in *; rewrite ?counted_app;
  cbn [counted foldr added increment share_accepted share_rejected rate_limited app
       block_submission_outcome block_found block_orphaned block_confirmation
       String.eqb Ascii.eqb Bool.eqb andb has_label existsb fst snd orb
       ty_accepted ty_rejected ty_dropped ty_reasons ty_found ty_orphaned ty_pending].

Lemma won_pending_nonneg m : 0 <= won_pending m.
Proof. apply sum_map_bounds. intros k b. destruct (won_at_submit b); lia. Qed.

(** A step that leaves the tally alone and counts nothing. *)
Lemma agrees_frame F O P n f log calls :
  agrees F O P n f log -> (forall name Q, counted name Q calls = 0) ->
  agrees F O P (n + 1) f (log ++ calls).
Proof.
  intros [] Hc. split; unfold tracks, total in *; rewrite ?counted_app, ?Hc, ?Z.add_0_r; try (done || lia).
  intros k. by rewrite counted_app, Hc, Z.add_0_r.
Qed.

Lemma wrap64_exact z : 0 <= z <= u64_max -> wrap64 z = z.
Proof. intros Hz. apply Z.mod_small. unfold u64_max in Hz. lia. Qed.

Local Ltac agree :=
  split; unfold tracks in *; try done;
  try match goal with
      | Hr : context [has_label] |- context [has_label] => let q := fresh "q" in intros q; specialize (Hr q)
      end;
  add_up; try done; rewrite ?wrap64_exact by lia; try lia.

Lemma agrees_accepted F O P n f log c w :
  agrees F O P n f log -> n < u64_max ->
  agrees F O P (n + 1)
    (mkTally (wrap64 (ty_accepted f + 1)) (ty_rejected f) (ty_dropped f) (ty_reasons f) (ty_found f)
      (ty_orphaned f) (ty_pending f)) (log ++ share_accepted c w).
Proof. intros [] Hn. agree. Qed.

Lemma agrees_rejected F O P n f log k w :
  agrees F O P n f log -> n < u64_max ->
  agrees F O P (n + 1)
    (mkTally (ty_accepted f) (wrap64 (ty_rejected f + 1)) (ty_dropped f) (bump (ty_reasons f) k 1)
      (ty_found f) (ty_orphaned f) (ty_pending f)) (log ++ share_rejected k w).
Proof.
  intros [] Hn. agree. unfold bump. rewrite <- ag_reasons0. destruct (decide (k = q)) as [<-|Hk].
  - rewrite lookup_insert_eq, String.eqb_refl. cbn. lia.
  - rewrite lookup_insert_ne by done. apply String.eqb_neq in Hk. rewrite Hk. cbn. lia.
Qed.

Lemma agrees_rate_limited F O P n f log w :
  agrees F O P n f log -> n < u64_max ->
  agrees F O P (n + 1)
    (mkTally (ty_accepted f) (ty_rejected f) (wrap64 (ty_dropped f + 1)) (ty_reasons f) (ty_found f)
      (ty_orphaned f) (ty_pending f)) (log ++ rate_limited w).
Proof. intros [] Hn. agree. Qed.

(** A report counts a win and enrols a new hash. *)
Lemma agrees_outcome F O P n f log o b :
  agrees F O P n f log -> F + n < u64_max -> won_at_submit b = is_win o ->
  agrees F O P (n + 1)
    (mkTally (ty_accepted f) (ty_rejected f) (ty_dropped f) (ty_reasons f)
      (if is_win o then wrap64 (ty_found f + 1) else ty_found f) (ty_orphaned f)
      (match ty_pending f !! pb_hash b with
       | Some _ => ty_pending f
       | None => <[pb_hash b := b]> (ty_pending f)
       end))
    (log ++ block_submission_outcome (outcome_label o) ++ if is_win o then block_found else []).
Proof.
  intros [] Hn Hb. pose proof (won_pending_nonneg (ty_pending f)).
  assert (won_pending (match ty_pending f !! pb_hash b with
                       | Some _ => ty_pending f | None => <[pb_hash b := b]> (ty_pending f) end)
          <= won_pending (ty_pending f) + if is_win o then 1 else 0) as Hw.
  { destruct (_ !! _) eqn:E; [destruct (is_win o); lia|].
    unfold won_pending. rewrite sum_map_insert_fresh, Hb by done. destruct (is_win o); lia. }
  assert (Z.of_nat (size (match ty_pending f !! pb_hash b with
                          | Some _ => ty_pending f | None => <[pb_hash b := b]> (ty_pending f) end))
          <= Z.of_nat (size (ty_pending f)) + 1) as Hs.
  { destruct (_ !! _) eqn:E; [lia|]. rewrite map_size_insert_None by done. lia. }
  destruct (is_win o); agree.
  all: destruct (_ !! _); [done|]; by apply map_Forall_insert_2.
Qed.

(** A resolution settles the block it was given. *)
Lemma agrees_settled F O P n f log b r :
  agrees F O P n f log -> F + n < u64_max -> O + n < u64_max -> 0 <= F -> 0 <= O ->
  ty_pending f !! pb_hash b = Some b ->
  agrees F O P (n + 1)
    (mkTally (ty_accepted f) (ty_rejected f) (ty_dropped f) (ty_reasons f)
      (match won_at_submit b, r with
       | true, Orphaned => sat_sub (ty_found f) 1
       | false, Confirmed => wrap64 (ty_found f + 1)
       | _, _ => ty_found f
       end)
      (match won_at_submit b, r with
       | true, Orphaned => wrap64 (ty_orphaned f + 1)
       | _, _ => ty_orphaned f
       end)
      (delete (pb_hash b) (ty_pending f)))
    (log ++ resolution_metrics (won_at_submit b) r).
Proof.
  intros [] Hn Ho HF HO Hb. unfold resolution_metrics. pose proof (won_pending_nonneg (delete (pb_hash b) (ty_pending f))).
  assert (won_pending (ty_pending f)
          = (if won_at_submit b then 1 else 0) + won_pending (delete (pb_hash b) (ty_pending f))) as Hw
    by (unfold won_pending; by rewrite (sum_map_delete _ _ _ _ Hb)).
  assert (Z.of_nat (size (delete (pb_hash b) (ty_pending f))) = Z.of_nat (size (ty_pending f)) - 1) as Hs.
  { pose proof (map_size_delete_Some (pb_hash b) (ty_pending f) (mk_is_Some _ _ Hb)).
    assert (size (ty_pending f) <> 0%nat); [|lia].
    intros E. apply map_size_empty_inv in E. by rewrite E, lookup_empty in Hb. }
  destruct (won_at_submit b), r; agree.
  all: try by apply map_Forall_delete.
  all: unfold sat_sub; lia.
Qed.

(** Every step of the pool keeps the two reports together. *)
Lemma agrees_step F O P n x op :
  agrees F O P n (tally x.1) x.2 -> F + n < u64_max -> O + n < u64_max -> 0 <= F -> 0 <= O ->
  agrees F O P (n + 1) (tally (metered_step x op).1) (metered_step x op).2.
Proof.
  destruct x as [s log]. intros Ha Hn Ho HF HO. cbn [fst snd] in Ha.
  assert (forall calls, (forall name Q, counted name Q calls = 0) -> agrees F O P (n + 1) (tally s) (log ++ calls))
    as Hquiet by (intros; by apply agrees_frame).
  assert (agrees F O P (n + 1) (tally s) log) as Hsame
    by (rewrite <- (app_nil_r log); by apply Hquiet).
  destruct op as [sid w c h tick now1 now2|g w r now|w|o height w payout hash now1 now2|hash r now
                 |w vd now|w|now|now]; cbn [metered_step fst snd].
  - rewrite tally_accepted. apply agrees_accepted; [done | lia].
  - rewrite tally_rejected. apply agrees_rejected; [done | lia].
  - apply (agrees_rate_limited _ _ _ _ (tally s)); [done | lia].
  - rewrite tally_outcome.
    by apply (agrees_outcome _ _ _ _ _ _ o (mkPendingBlock hash height w payout now2 (is_win o))).
  - destruct (pending_blocks (blocks s) !! hash) as [b|] eqn:Hb; [|done].
    assert (pb_hash b = hash) as <- by exact (ag_keys _ _ _ _ _ _ Ha _ _ Hb).
    destruct (tally_settled s b r now Hb) as [E1 E2]. unfold metered_resolution. cbn [fst snd].
    destruct (record_block_resolution s b r now) as [decided s1]. cbn [fst snd] in E1, E2 |- *.
    rewrite E1, E2. by apply (agrees_settled _ _ _ _ (tally s)).
  - by rewrite tally_online.
  - done.
  - rewrite tally_tick. apply Hquiet. intros. apply counted_tick.
  - by rewrite tally_checkpoint.
Qed.

Lemma agrees_run F O P ops : forall n x,
  agrees F O P n (tally x.1) x.2 -> 0 <= F -> 0 <= O ->
  F + n + Z.of_nat (length ops) <= u64_max -> O + n + Z.of_nat (length ops) <= u64_max ->
  let y := foldl metered_step x ops in
  agrees F O P (n + Z.of_nat (length ops)) (tally y.1) y.2.
Proof.
  induction ops as [|op ops IH]; intros n x Ha HF HO Hn Ho; cbn [length foldl] in *.
  - by rewrite Z.add_0_r.
  - replace (n + Z.of_nat (S (length ops))) with (n + 1 + Z.of_nat (length ops)) by lia.
    apply IH; [apply agrees_step; [done | lia..] | done | done | lia | lia].
Qed.

(** The counts a pool boots with are those of the file's rows. *)
Lemma won_pending_found d : won_pending (load_pending_blocks d) <= count_rows is_found_row (found_blocks d).
Proof.
  unfold load_pending_blocks, won_pending, count_rows. generalize (found_blocks d) as m.
  induction m as [|h r m Hh IH] using map_ind; [done|].
  rewrite (sum_map_insert_fresh _ m h r Hh).
  destruct (decide (row_status r = BLOCK_STATUS_PENDING)) as [Hp|Hp].
  - rewrite map_filter_insert_True, fmap_insert by done.
    rewrite sum_map_insert_fresh by (rewrite lookup_fmap, fmap_None; apply map_lookup_filter_None; auto).
    destruct r as [b st ts]. cbn in Hp |- *. subst st.
    destruct (pending_row_flags b ts) as (E & _). cbn in E. rewrite E. lia.
  - rewrite map_filter_insert_not' by (done || congruence).
    destruct (is_found_row r); lia.
Qed.

Lemma agrees_boot d wall inst :
  map_Forall (fun h (r : BlockRow) => pb_hash (row_block r) = h) (found_blocks d) ->
  agrees (count_rows is_found_row (found_blocks d)) (count_rows is_orphaned_row (found_blocks d))
    (Z.of_nat (size (load_pending_blocks d))) 0 (tally (from_file d wall inst)) [].
Proof.
  intros Hk. pose proof (won_pending_found d).
  pose proof (count_rows_bounds is_orphaned_row (found_blocks d)).
  unfold from_file, load, load_block_counts. split; unfold tracks, total; cbn -[won_pending]; try (done || lia).
  intros h b (r & Hr & <- & _)%load_pending_Some. exact (Hk h r Hr).
Qed.

End Agreement.

(** *** What the metrics do not say *)

(** The confirmation sweep with its metrics settles what the sweep settles. *)
Lemma metered_sweep_pool probe depth now x :
  (metered_sweep probe depth now x).1 = sweep probe depth now x.1.
Proof.
  assert (forall l y, (foldl (metered_sweep_block probe depth now) y l).1
                      = foldl (sweep_block probe depth now) y.1 l) as E.
  { induction l as [|b l IH]; intros y; [done|]. cbn [foldl]. rewrite IH. f_equal.
    unfold metered_sweep_block, sweep_block, metered_resolution.
    destruct (decide_block _ _ _ b); [|done]. by destruct (record_block_resolution _ _ _ _). }
  unfold metered_sweep, sweep. cbv zeta. destruct (_.*2); [done|]. by rewrite E.
Qed.

(** The exported share rate is per second: each window of
    [pool_shares_per_minute] is a sixtieth of what the dashboard shows. *)
Lemma share_rate_exported_per_second s (i : nat) x window :
  Hashrate.rates (Stats.share_rate s) !! i = Some x -> HASHRATE_WINDOW_LABELS !! i = Some window ->
  GaugeSet "pool_shares_per_minute" [("window", window)] x ∈ tick_metrics s
  /\ share_rate_windows s !! i = Some (x * SECS_PER_MINUTE)%f64.
Proof.
  intros Hx Hw. split.
  - unfold tick_metrics. rewrite !elem_of_app. do 3 right.
    apply (list_elem_of_lookup_2 _ i). unfold update_pool_share_rate, set_windows.
    rewrite lookup_zip_with, Hx. cbn [mbind option_bind]. by rewrite Hw.
  - unfold share_rate_windows, per_minute, Hashrate.rates in *. by rewrite list_lookup_fmap, Hx.
Qed.

(** A block that lost its height race is pending, confirmed or abandoned
    without being a block found. *)
Lemma lost_block_breaks_the_identity `{Libm} (h : Z) (worker payout hash : string) (now1 now2 : Z) :
  let y := metered_step (stats_new true 0 0, []) (MOutcome Inconclusive h worker payout hash now1 now2) in
  total "pool_blocks_found_total" y.2 = 0 /\ total "pool_block_confirmations_total" y.2 = 0
  /\ pending_len y.1 = 1.
Proof.
  repeat split.
  pose proof (f_equal ty_pending (tally_outcome (stats_new true 0 0) Inconclusive h worker payout hash now1 now2)) as E.
  cbv zeta in E. cbn [ty_pending] in E.
  change (ty_pending (tally (stats_new true 0 0))) with (∅ : gmap string PendingBlock) in E.
  rewrite lookup_empty in E. unfold pending_len. change (pending_blocks (blocks ?s)) with (ty_pending (tally s)).
  cbn [metered_step fst]. rewrite E.
  rewrite map_size_insert_None by apply lookup_empty. by rewrite map_size_empty.
Qed.

(** ** Properties *)

(** C35. The Prometheus counters and the dashboard agree. From a pool booted on a
    database file, after any shares, rejects, limited messages, block reports,
    settled blocks, worker changes, ticks and checkpoints: the accepted and
    rejected shares and the limited messages shown since boot are the totals of
    their counters over all workers, each reject reason is the sum of its series,
    the per-worker reject counter has the same total, and the blocks found and
    orphaned are the file's counts corrected by [pool_blocks_found_total] and
    [pool_blocks_orphaned_total]. Every confirmation was of a reported block:
    those settled and those still pending are at most those read from the file and
    those reported since. *)
Theorem prometheus_matches_the_pool `{Libm} (d : Db) (wall : Z) (inst : Instant) (ops : list MeterOp) :
  let s0 := from_file d wall inst in
  let y := foldl metered_step (s0, []) ops in
  map_Forall (fun h (r : BlockRow) => pb_hash (row_block r) = h) (found_blocks d) ->
  Z.of_nat (size (found_blocks d)) + Z.of_nat (length ops) <= u64_max ->
  shares_accepted (counters y.1) = total "pool_shares_accepted_total" y.2
  /\ shares_rejected (counters y.1) = total "pool_shares_rejected_total" y.2
  /\ total "pool_worker_shares_rejected_total" y.2 = total "pool_shares_rejected_total" y.2
  /\ rate_limited_drops (counters y.1) = total "pool_rate_limited_messages_total" y.2
  /\ (forall k, default 0 (reject_reasons (counters y.1) !! k)
        = counted "pool_shares_rejected_total" (has_label "reason" k) y.2)
  /\ blocks_found (blocks y.1) = blocks_found (blocks s0)
       + total "pool_blocks_found_total" y.2 - total "pool_blocks_orphaned_total" y.2
  /\ blocks_orphaned (blocks y.1) = blocks_orphaned (blocks s0) + total "pool_blocks_orphaned_total" y.2
  /\ total "pool_block_confirmations_total" y.2 + pending_len y.1
      <= pending_len s0 + total "pool_block_submissions_total" y.2.
Proof.
  intros s0 y Hk Hn.
  pose proof (count_rows_bounds is_found_row (found_blocks d)).
  pose proof (count_rows_bounds is_orphaned_row (found_blocks d)).
  destruct (agrees_run _ _ _ ops 0 (s0, []) (agrees_boot d wall inst Hk)) as [[? _] [? _] ? [? _] ? ? _ [? _] ? _];
    [lia..|]. by repeat split.
Qed.

(** Three blocks: a win orphaned later, a lost race promoted later, and one still
    pending, with a share and two rejects. *)
Definition demo_metered : list MeterOp :=
  let g := guard_new (mkSecurityConfig 10 100 600 50 4096 128 8) 0 in
  [MAccepted "s1" "addr.w" 64 90 0 110 110; MRejected g "addr.w" Stale 111;
   MRejected g "addr.v" RDuplicate 112; MOutcome Accepted 900000 "addr.w" "addr" "aa" 120 120;
   MOutcome Inconclusive 900001 "addr.w" "addr" "bb" 121 121;
   MOutcome Duplicate 900002 "addr.v" "addr" "cc" 122 122;
   MSettled "aa" Orphaned 200; MSettled "bb" Confirmed 201; MRateLimited None].

Lemma prometheus_matches_the_pool_witness :
  let y := foldl (@metered_step toy_libm) (@from_file toy_libm (db_new 100) 105 0, []) demo_metered in
  blocks_found (blocks y.1) = 2
  /\ total "pool_blocks_found_total" y.2 = 3 /\ total "pool_blocks_orphaned_total" y.2 = 1
  /\ default 0 (reject_reasons (counters y.1) !! "stale")
     = counted "pool_shares_rejected_total" (has_label "reason" "stale") y.2.
Proof.
  pose proof (@prometheus_matches_the_pool toy_libm (db_new 100) 105 0 demo_metered) as T.
  destruct T as (_ & _ & _ & _ & Hr & _);
    [apply (bool_decide_unpack _); vm_compute; exact I | vm_compute; discriminate |].
  split; [vm_compute; reflexivity|]. split; [vm_compute; reflexivity|].
  split; [vm_compute; reflexivity|]. exact (Hr "stale").
Defined.

End Metrics.
