(* ===== verification/Crash.v ===== *)
(** * Crash: what a pool that was killed reads back ([src/stats.rs])

    The block records between the pool in memory ([Stats], [Accounting]), the queue
    to the writer thread ([StoreThread]) and the file ([Store], [Restart]), with no
    orderly end: the process may die between any two events of its threads.  An
    operation queues at most one write of the block table, and queues it last, so a
    file that holds any prefix of the queue holds the blocks as the pool showed them
    after one of its operations. *)
From S2P Require Import Prelude Text F64 Json Errors Interfaces Rpc Hashrate Stats Store.
From S2P Require Import Snapshot Security Accounting StoreThread Frame Restart Metrics.
Import Rpc Hashrate Stats Store Snapshot Security Accounting StoreThread Frame Restart Metrics.

Module Crash.

(** ** Writes and the block table *)
Definition is_block_write (w : StoreWrite) : bool :=
  match w with BlockFound _ | BlockResolved _ _ _ => true | _ => false end.

Definition off_blocks (w : StoreWrite) : Prop := is_block_write w = false.

(** [s'] has queued nothing about blocks, and shows the same ones. *)
Abbreviation off_queue := (grown off_blocks).
Abbreviation steady := (framed blocks off_blocks).

#[export] Hint Extern 1 (off_blocks _) => reflexivity : framed.

Lemma steady_share_accepted s c h : steady s (Stats.share_accepted s c h).
Proof. unfold Stats.share_accepted. cbv zeta. destruct (_ <? h); [apply framed_then|]; auto with framed. Qed.

Lemma steady_worker_accepted s w h : steady s (worker_share_accepted s w h).
Proof. unfold worker_share_accepted. cbv zeta. destruct (_ <? h); [apply framed_then|]; auto with framed. Qed.

Lemma steady_accepted s sid w c h tick now1 now2 : steady s (record_accepted s sid w c h tick now1 now2).
Proof.
  unfold record_accepted, ledger_share_accepted. cbv zeta.
  eapply framed_trans; [|by apply framed_record_ledger].
  eapply framed_trans; [|apply framed_frame; reflexivity].
  eapply framed_trans; [|apply steady_worker_accepted].
  eapply framed_trans; [|apply steady_share_accepted]. by apply framed_frame.
Qed.

Lemma steady_rejected s g w r now : steady s (record_rejected s g w r now).1.2.
Proof.
  unfold record_rejected, ledger_share_rejected. cbv zeta.
  set (s2 := worker_share_rejected _ _ _).
  assert (steady s (record_ledger s2 w (mkAmounts 0 0 1) now)) as Hs.
  { eapply framed_trans; [|by apply framed_record_ledger]. by apply framed_frame. }
  destruct (counts_as_invalid r); [|exact Hs]. by destruct (record_invalid _).
Qed.

Lemma steady_tick `{Libm} s now : steady s (tick_hashrates s now).
Proof.
  unfold tick_hashrates. cbv zeta. unfold record_best_hashrate.
  destruct (_ || _); [by apply framed_frame|].
  cbv zeta. destruct (_ <? _); [apply framed_then|]; auto with framed.
Qed.

Lemma steady_online s w vd now : steady s (mark_worker_online s w vd now).
Proof. unfold mark_worker_online. destruct (_ !! w); by apply framed_frame. Qed.

Lemma steady_checkpoint s now : steady s (record_hashrate_snapshot s now).
Proof. unfold record_hashrate_snapshot. cbv zeta. apply framed_then; [by apply framed_flush_ledger | done..]. Qed.

(** ** One operation *)
Definition init_writes (ws : list StoreWrite) : list StoreWrite := take (length ws - 1) ws.

(** What an operation queues: a write of the block table comes last, and a
    resolution is of a pending block. *)
Definition op_queues (s s' : PoolStats) : Prop :=
  exists ws, queue s' = queue s ++ ws /\ Forall off_blocks (init_writes ws)
    /\ forall h r t, BlockResolved h r t ∈ ws -> is_Some (pending_blocks (blocks s) !! h).

Lemma steady_queues s s' : steady s s' -> op_queues s s'.
Proof.
  intros (_ & _ & ws & Hq & Hw). exists ws. split; [done|]. split; [by apply Forall_take|].
  intros h r t Hin. rewrite Forall_forall in Hw. by apply Hw in Hin.
Qed.

Lemma init_snoc ws w : init_writes (ws ++ [w]) = ws.
Proof. unfold init_writes. rewrite length_app. cbn. by rewrite Nat.add_sub, take_app_length. Qed.

(** Writes off the table, then one more. *)
Lemma queues_last s s1 w :
  is_Some (store s) -> off_queue s s1 ->
  (forall h r t, w = BlockResolved h r t -> is_Some (pending_blocks (blocks s) !! h)) ->
  op_queues s (enqueue s1 w).
Proof.
  intros Hs (Hs1 & ws & Hq & Hw) Hr. exists (ws ++ [w]).
  rewrite queue_enqueue, Hq, app_assoc by auto. split; [done|]. rewrite init_snoc. split; [done|].
  intros h r t [Hin|Hin]%elem_of_app; [rewrite Forall_forall in Hw; by apply Hw in Hin|].
  apply list_elem_of_singleton in Hin. by eapply Hr.
Qed.

Lemma found_off_queue s now : off_queue s (Stats.block_found s now).
Proof.
  unfold Stats.block_found, round_reset. cbv zeta.
  match goal with |- grown _ _ (enqueue ?s1 ?w) => exact (grown_enqueue off_blocks s1 w eq_refl) end.
Qed.

Lemma outcome_queues s o height w payout hash now1 now2 :
  is_Some (store s) -> op_queues s (record_block_outcome s o height w payout hash now1 now2).
Proof.
  intros Hs. unfold record_block_outcome. cbv zeta. set (s1 := if is_win o then _ else _).
  assert (off_queue s s1) as Hq by (unfold s1; destruct (is_win o); [apply found_off_queue | by apply grown_frame]).
  unfold enroll_pending_block. destruct (_ !! hash).
  - destruct Hq as (Hs1 & ws & Hq & Hw). exists ws. split; [done|]. split; [by apply Forall_take|].
    intros h r t Hin. rewrite Forall_forall in Hw. by apply Hw in Hin.
  - apply queues_last; [done | exact Hq | done].
Qed.

Lemma settled_queues s b r now :
  is_Some (store s) -> op_queues s (record_block_resolution s b r now).2.
Proof.
  intros Hs. unfold record_block_resolution, resolve_block.
  destruct (pending_blocks (blocks s) !! pb_hash b) eqn:Eb; cbn [snd].
  - apply queues_last; [done | | by intros h r' t [= <- _ _]].
    destruct (won_at_submit b), r; try by apply grown_frame. exact (found_off_queue (with_blocks s _) now).
  - apply steady_queues, framed_refl.
Qed.

(** ** What a running pool does to its statistics *)
Inductive LifeOp : Type :=
| Metered_ (op : MeterOp)
| Retargeted (worker : string) (difficulty now : Z)
| Spoke (worker protocol : string)
| Connected
| Disconnected_
| Pruned (now : Z)
| ShutDown (now : Z).

Definition life_step `{Libm} (by_difficulty : gmap string Z -> list (string * Z)) (s : PoolStats) (op : LifeOp)
  : PoolStats :=
  match op with
  | Metered_ op => (metered_step (s, []) op).1
  | Retargeted w d now => update_worker_vardiff s w d now
  | Spoke w p => set_worker_protocol s w p
  | Connected => Stats.miner_connected s
  | Disconnected_ => Stats.miner_disconnected s
  | Pruned now => prune_idle_workers by_difficulty s now
  | ShutDown now => shutdown_persist s now
  end.

(** The hash an operation reports as a found block. *)
Definition reported (op : LifeOp) : list string :=
  match op with Metered_ (MOutcome _ _ _ _ hash _ _) => [hash] | _ => [] end.

(** ** The file *)
Section File.
Variable prune : nat -> gmap string Z -> gmap string Z.

Lemma apply_some d st w :
  match w with BlockResolved h _ _ => is_Some (found_blocks d !! h) | _ => True end ->
  is_Some (apply_write prune d st w true).
Proof.
  destruct w as [| | | | |hash| | | |]; cbn; intros Hw; try by eexists.
  all: lazymatch goal with
       | Hw : is_Some _ |- _ => destruct Hw as [row ->]; case_bool_decide
       | _ => case_match
       end; by eexists.
Qed.

Lemma off_keeps_table ds w : off_blocks w -> found_blocks (write_one prune ds w).1 = found_blocks ds.1.
Proof.
  destruct ds as [d st]. unfold write_one. destruct w; try done; intros _; cbn [apply_write fst snd].
  - cbn. unfold write_snapshot. by destruct (negb _).
  - unfold write_ledger_minute. destruct (foldl _ _ _) as [[rows fine] ids']. cbn.
    unfold roll_up_ledger. by destruct (bool_decide _).
Qed.

Lemma offs_keep_table ws : forall ds, Forall off_blocks ws -> found_blocks (drain prune ds ws).1 = found_blocks ds.1.
Proof.
  induction ws as [|w ws IH]; intros ds Hw; [done|]. inversion_clear Hw as [|? ? H1 H2].
  change (drain prune ds (w :: ws)) with (drain prune (write_one prune ds w) ws).
  by rewrite IH, off_keeps_table.
Qed.

Variable d0 : Db.
Abbreviation drained := (Accounting.drained prune d0).

Lemma steady_agree s s' hs : steady s s' -> agree s (drained s) hs -> agree s' (drained s') hs.
Proof.
  intros (Eb & Hs & ws & Hq & Hw) [A1 A2 A3 A4 A5 A6].
  assert (found_blocks (drained s') = found_blocks (drained s)) as Ef.
  { unfold Accounting.drained. rewrite Hq, drain_app. by apply offs_keep_table. }
  split; [auto|..]; unfold load_pending_blocks, load_block_counts; rewrite ?Eb, Ef; done.
Qed.

(** ** A run of operations *)
Section Run.
Context `{Libm}.
Variable by_difficulty : gmap string Z -> list (string * Z).

Abbreviation life_step := (Crash.life_step by_difficulty).

Lemma steady_life s op : match op with Metered_ _ => False | _ => True end -> steady s (life_step s op).
Proof.
  destruct op as [op|w d now|w p| | |now|now]; cbn [Crash.life_step]; intros Hop; [done|..].
  - unfold update_worker_vardiff. case_match; [by apply framed_frame | apply steady_online].
  - by apply framed_frame.
  - by apply framed_frame.
  - by apply framed_frame.
  - unfold prune_idle_workers. cbv zeta. case_match; [apply framed_then|]; auto with framed.
  - unfold shutdown_persist. apply framed_then; [|done..]. eapply framed_trans; [apply steady_checkpoint|].
    by apply framed_flush_partial.
Qed.

Lemma op_spec s op hs :
  agree s (drained s) hs -> Forall (fun h => h ∉ hs) (reported op) ->
  Z.of_nat (length hs) < u64_max ->
  op_queues s (life_step s op) /\ agree (life_step s op) (drained (life_step s op)) (reported op ++ hs).
Proof.
  intros A Hf Hl.
  assert (forall s', steady s s' -> op_queues s s' /\ agree s' (drained s') hs) as Hst
    by (intros s' Hs; split; [by apply steady_queues | by apply (steady_agree s)]).
  destruct op as [op| | | | | |]; try by apply Hst, steady_life.
  cbn [Crash.life_step].
  destruct op as [sid w c h tick now1 now2|g w r now|w|o height w payout hash now1 now2|hash r now
                 |w vd now|w|now|now]; cbn [metered_step fst reported app].
  - apply Hst, steady_accepted.
  - apply Hst, steady_rejected.
  - apply Hst. by apply framed_frame.
  - split; [apply outcome_queues, A|]. apply agree_report; [done | | done]. by inversion_clear Hf.
  - destruct (pending_blocks (blocks s) !! hash) as [b|] eqn:Eb; [|apply Hst, framed_refl].
    assert (pb_hash b = hash) as Hb.
    { pose proof Eb as Eb'. rewrite (agree_pending _ _ _ A) in Eb'.
      apply load_pending_Some in Eb' as (row & Hr & <- & _). exact (agree_hash _ _ _ A _ _ Hr). }
    unfold metered_resolution. cbn [fst snd].
    pose proof (settled_queues s b r now (agree_store _ _ _ A)) as Hq.
    assert (pending_blocks (blocks s) !! pb_hash b = Some b) as Hp by (by rewrite Hb).
    pose proof (agree_settle prune d0 s hs b r now A ltac:(lia) Hp) as Ha. cbv zeta in Ha.
    destruct (record_block_resolution s b r now) as [decided s1]. by split.
  - apply Hst, steady_online.
  - apply Hst. by apply framed_frame.
  - apply Hst, steady_tick.
  - apply Hst, steady_checkpoint.
Qed.

(** The queue applies to the file, whole. *)
Lemma applies_app ds q1 q2 : StoreThread.applies prune ds (q1 ++ q2)
  <-> StoreThread.applies prune ds q1 /\ StoreThread.applies prune (drain prune ds q1) q2.
Proof.
  revert ds; induction q1 as [|w q1 IH]; intros ds; [cbn; tauto|]. cbn [app StoreThread.applies].
  change (drain prune ds (w :: q1)) with (drain prune (write_one prune ds w) q1).
  split.
  - intros (ds' & Hw & [H1 H2]%IH). split; [by exists ds'|]. unfold write_one. by rewrite Hw.
  - intros [(ds' & Hw & H1) H2]. exists ds'. split; [done|]. apply IH. split; [done|].
    revert H2. unfold write_one. by rewrite Hw.
Qed.

Lemma applies_writes ws : forall ds,
  Forall off_blocks (init_writes ws) ->
  (forall h r t, BlockResolved h r t ∈ ws -> is_Some (found_blocks ds.1 !! h)) ->
  StoreThread.applies prune ds ws.
Proof.
  induction ws as [|w ws IH]; intros ds Hi Hr; [done|]. cbn [StoreThread.applies].
  destruct (apply_some ds.1 ds.2 w) as [ds' Hw].
  { destruct w; try done. eapply Hr. by left. }
  exists ds'. split; [done|]. destruct ws as [|w' ws]; [done|].
  assert (init_writes (w :: w' :: ws) = w :: init_writes (w' :: ws)) as Ei.
  { unfold init_writes. cbn. by rewrite Nat.sub_0_r. }
  rewrite Ei in Hi. inversion_clear Hi as [|? ? H1 H2]. apply IH; [done|].
  intros h r t Hin. pose proof (off_keeps_table ds w H1) as Ht. unfold write_one in Ht. rewrite Hw in Ht.
  change (found_blocks ds'.1 = found_blocks ds.1) in Ht. rewrite Ht. eapply Hr. by right.
Qed.

(** The pool after the first [k] operations. *)
Definition shown (x : PoolStats) (ops : list LifeOp) (k : nat) : PoolStats := foldl life_step x (take k ops).

(** The file a cut of the queue leaves has the table of a state the pool was in:
    the last one whose writes are all before the cut. *)
Definition cut_at (x : PoolStats) (ops : list LifeOp) (n k : nat) : Prop :=
  (k <= length ops)%nat
  /\ (length (queue (shown x ops k)) <= n)%nat
  /\ (k = length ops \/ (n < length (queue (shown x ops (S k))))%nat)
  /\ found_blocks (drain prune (d0, writer_new) (take n (queue (shown x ops (length ops))))).1
     = found_blocks (drained (shown x ops k))
  /\ exists hs, agree (shown x ops k) (drained (shown x ops k)) hs.

Lemma queue_grows x ops : forall hs,
  agree x (drained x) hs ->
  NoDup (rev (flat_map reported ops) ++ hs) -> Z.of_nat (length hs + length ops) <= u64_max ->
  StoreThread.applies prune (d0, writer_new) (queue x) ->
  (exists q, queue (foldl life_step x ops) = queue x ++ q)
  /\ StoreThread.applies prune (d0, writer_new) (queue (foldl life_step x ops))
  /\ forall n, (length (queue x) <= n)%nat -> exists k, cut_at x ops n k.
Proof.
  induction ops as [|op ops IH] in x |- *; intros hs A HN Hl Ha.
  - split; [exists []; by rewrite app_nil_r|]. split; [done|]. intros n Hn. exists 0%nat.
    unfold cut_at, shown. cbn [take length foldl]. split; [lia|]. split; [done|]. split; [by left|].
    rewrite take_ge by done. split; [done|]. by exists hs.
  - cbn [flat_map length] in HN, Hl. rewrite rev_app_distr, <- app_assoc in HN.
    assert (rev (reported op) = reported op) as Erev by (destruct op as [[]| | | | | |]; done). rewrite Erev in HN.
    apply NoDup_app in HN as HN'. destruct HN' as (_ & _ & HN').
    apply NoDup_app in HN' as (_ & Hf & _).
    destruct (op_spec x op hs A) as [(ws & Hq & Hi & Hr) A']; [by apply Forall_forall | lia|].
    set (y := life_step x op) in *.
    assert (StoreThread.applies prune (d0, writer_new) (queue y)) as Hay.
    { rewrite Hq. apply applies_app. split; [done|]. apply applies_writes; [done|].
      intros h r t Hin. specialize (Hr _ _ _ Hin). rewrite (agree_pending _ _ _ A) in Hr.
      destruct Hr as [b (row & Hrow & _)%load_pending_Some]. by exists row. }
    destruct (IH y (reported op ++ hs) A' HN) as ((q & Eq) & Hap & Hcut).
    { rewrite length_app. destruct op as [[]| | | | | |]; cbn; lia. }
    { exact Hay. }
    split; [exists (ws ++ q); by rewrite app_assoc, <- Hq|]. split; [exact Hap|]. intros n Hn.
    destruct (decide (length (queue y) <= n)%nat) as [Hy|Hy].
    + destruct (Hcut n Hy) as (k & Hk & H1 & H2 & H3 & H4). exists (S k).
      split; [cbn; lia|]. split; [exact H1|]. split; [destruct H2; [left; cbn; lia | by right]|]. by split.
    + exists 0%nat. unfold cut_at, shown. cbn [length take foldl]. rewrite take_0. cbn [foldl].
      split; [lia|]. split; [done|]. split; [right; fold y; lia|]. split; [|by exists hs].
      rewrite firstn_all. fold y. rewrite Eq, take_app_le by lia. rewrite Hq.
      rewrite Hq, length_app in Hy. rewrite take_app, (take_ge (queue x)) by done.
      rewrite drain_app. apply offs_keep_table.
      replace (take (n - length (queue x)) ws) with (take (n - length (queue x)) (init_writes ws)).
      * by apply Forall_take.
      * unfold init_writes. rewrite take_take. f_equal. lia.
Qed.
End Run.

(** ** The writer thread on a disk that accepts *)
Definition accepting (e : StoreEvent) : Prop :=
  match e with Wake k => d_write k = true /\ d_rollup k = true | Enqueue _ => True | Close => False end.

(** Until the process dies, the file is a prefix of what was sent: all but what
    the channel still holds. *)
Lemma file_is_prefix evs : forall s,
  Forall accepting evs -> sender s = true -> alive s = true -> backlog (thread s) = [] ->
  StoreThread.applies prune (db (thread s), wstate (thread s)) (chan s ++ all_sent prune s evs) ->
  let s' := store_run prune s evs in
  exists taken, chan s ++ all_sent prune s evs = taken ++ chan s'
    /\ (db (thread s'), wstate (thread s')) = drain prune (db (thread s), wstate (thread s)) taken.
Proof.
  induction evs as [|e evs IH]; intros s Hf Hs Hl Hb Ha.
  - exists []. cbn. by rewrite app_nil_r.
  - inversion_clear Hf as [|? ? He Hf']. cbn [all_sent] in *.
    change (store_run prune s (e :: evs)) with (store_run prune (store_step prune s e) evs).
    destruct e as [w| |k]; [|done|].
    + cbn [sent store_step] in *. unfold StoreThread.store_enqueue in *. rewrite Hs, Hl in *. cbn [andb] in *.
      destruct (IH (mkStore (chan s ++ [w]) true (thread s) true (acks s)) Hf' eq_refl eq_refl Hb) as (t & Et & Ed).
      { cbn [chan thread]. by rewrite <- app_assoc. }
      exists t. cbn [chan thread] in Et, Ed. by rewrite <- app_assoc in Et.
    + cbn [sent app store_step] in *. unfold loop_step, receive in *. rewrite Hl in *.
      destruct (chan s) as [|w rest] eqn:Ec.
      * rewrite Hs, Hb in *. destruct (IH s Hf' Hs Hl Hb) as (t & Et & Ed); [by rewrite Ec|].
        exists t. by rewrite Ec in Et.
      * cbn [app StoreThread.applies] in Ha. destruct Ha as ([d1 st1] & Hw & Ha). destruct He as [E1 E2].
        set (t1 := writer_turn prune (thread s) _) in *.
        assert (t1 = mkWriterThread d1 st1 []) as Et1.
        { unfold t1, writer_turn, handle_write, try_apply. rewrite Hb. cbn. rewrite E1, E2.
          cbn [fst snd] in Hw. by rewrite Hw. }
        match type of Ha with context [all_sent prune ?s1 evs] =>
          destruct (IH s1 Hf' Hs eq_refl) as (t & Et & Ed) end.
        { cbn [thread]. by rewrite Et1. }
        { cbn [chan thread]. rewrite Et1 in Ha |- *. exact Ha. }
        exists (w :: t). cbn [chan thread app] in Et, Ed |- *. rewrite Et. split; [done|].
        rewrite Ed, Et1. cbn [db wstate]. change (drain prune ?ds (w :: t)) with (drain prune (write_one prune ds w) t).
        unfold write_one. cbn [fst snd] in Hw |- *. by rewrite Hw.
Qed.
End File.

(** ** Properties *)
Lemma agree_boot `{Libm} d wall inst :
  map_Forall (fun h (r : BlockRow) => pb_hash (row_block r) = h) (found_blocks d) ->
  agree (from_file d wall inst) d (map_to_list (found_blocks d)).*1.
Proof.
  intros Hk. split; try done.
  - intros h [r Hr]. apply list_elem_of_fmap. exists (h, r). split; [done|]. by apply elem_of_map_to_list.
  - by rewrite length_fmap, length_map_to_list.
Qed.

(** C20. A pool that dies comes back with blocks it was showing. Over any
    operations on the statistics, and any interleaving of the sends of the pool with
    the turns of the writer thread on a disk that accepts, the process dies with no
    further turn. The next boot on the file shows the block counts and the pending
    blocks as they were after some operation [k] of the life that ended; and [k] is
    the last operation, or the next one had a write that was still in the channel:
    nothing the thread had taken is lost, and no operation is kept in part. Each
    block is reported once, and was not already in the file. *)
Theorem killed_pool_shows_a_past_state `{Libm} (prune : nat -> gmap string Z -> gmap string Z)
    (by_difficulty : gmap string Z -> list (string * Z)) (d : Db) (wall wall' : Z) (inst inst' : Instant)
    (ops : list LifeOp) (evs : list StoreEvent) :
  let x := from_file d wall inst in
  let shown := shown by_difficulty x ops in
  let t := store_run prune (store_open d) evs in
  map_Forall (fun h (r : BlockRow) => pb_hash (row_block r) = h) (found_blocks d) ->
  NoDup (flat_map reported ops) -> Forall (fun h => found_blocks d !! h = None) (flat_map reported ops) ->
  Z.of_nat (size (found_blocks d)) + Z.of_nat (length ops) <= u64_max ->
  Forall accepting evs ->
  all_sent prune (store_open d) evs = queue (shown (length ops)) ->
  exists k, (k <= length ops)%nat
    /\ blocks (open_recording prune (db (thread t)) wall' inst') = blocks (shown k)
    /\ (k = length ops
        \/ (length (queue (shown (length ops)))
            < length (queue (shown (S k))) + length (chan t))%nat).
Proof.
  intros x shown t Hk HN Hfresh Hl Hacc Hsent. subst shown. cbn beta in *. pose proof (agree_boot d wall inst Hk) as A.
  assert (queue x = []) as Hq0 by (unfold x, from_file, load; by destruct (load_block_counts d) as [[? ?] ?]).
  assert (Accounting.drained prune d x = d) as Hd0 by (unfold Accounting.drained; by rewrite Hq0).
  destruct (queue_grows prune d by_difficulty x ops (map_to_list (found_blocks d)).*1) as (_ & Hap & Hcut).
  - by rewrite Hd0.
  - apply NoDup_app. split; [by rewrite <- Permutation_rev|]. split; [|apply NoDup_fst_map_to_list].
    intros h Hin Hin'. rewrite <- Permutation_rev in Hin. rewrite Forall_forall in Hfresh.
    apply list_elem_of_fmap in Hin' as ([h' r] & -> & Hr). apply elem_of_map_to_list in Hr.
    specialize (Hfresh _ Hin). cbn in Hfresh. congruence.
  - rewrite length_fmap, length_map_to_list. lia.
  - by rewrite Hq0.
  - assert (shown by_difficulty x ops (length ops) = (foldl (life_step by_difficulty) x ops)) as El by (unfold shown; by rewrite firstn_all).
    rewrite <- El, <- Hsent in Hap.
    destruct (file_is_prefix prune evs (store_open d) Hacc eq_refl eq_refl eq_refl Hap) as (taken & Et & Ed).
    cbn [chan store_open app thread db wstate] in Et, Ed. fold t in Et, Ed. rewrite Hsent in Et.
    destruct (Hcut (length taken)) as (k & H1 & H2 & H3 & H4 & hs & Ak); [rewrite Hq0; cbn; lia|].
    rewrite Et, take_app_length, <- Ed in H4. cbn [fst] in H4.
    exists k. split; [done|]. split.
    + assert (found_blocks (open_file prune (db (thread t))) = found_blocks (db (thread t))) as Eo.
      { unfold open_file, recover_round. cbn. destruct (last_win _); [|done]. by destruct (_ <? _). }
      unfold open_recording, from_file, load, load_block_counts, load_pending_blocks. rewrite Eo, H4.
      cbn. pose proof (agree_counts _ _ _ Ak) as Hc. injection Hc as C1 C2 C3. rewrite C1, C2, C3.
      pose proof (agree_pending _ _ _ Ak) as Hp. unfold load_pending_blocks in Hp. rewrite <- Hp.
      by destruct (blocks (shown by_difficulty x ops k)).
    + destruct H3 as [H3|H3]; [by left|]. right. rewrite Et, length_app. lia.
Qed.

(** A block is found and orphaned; the process dies before the thread has taken
    the resolution. *)
Definition demo_life : list LifeOp :=
  [Metered_ (MOutcome Accepted 900000 "w" "addr" "aa" 100 101); Metered_ (MSettled "aa" Orphaned 300)].
Definition demo_killed : list StoreEvent :=
  [Enqueue (RoundReset 1 100); Enqueue (BlockFound (mkPendingBlock "aa" 900000 "w" "addr" 101 true));
   Wake demo_up; Wake demo_up; Enqueue (BlockResolved "aa" Orphaned 300)].
Definition demo_file : Db := db (thread (store_run (fun _ m => m) (store_open (db_new 0)) demo_killed)).

Lemma killed_pool_shows_a_past_state_witness :
  exists k, (k <= 2)%nat
    /\ blocks (@open_recording toy_libm (fun _ m => m) demo_file 400 0)
       = blocks (@shown toy_libm map_to_list (@from_file toy_libm (db_new 0) 0 0) demo_life k)
    /\ (k = 2%nat \/ (3 < length (queue (@shown toy_libm map_to_list
                            (@from_file toy_libm (db_new 0) 0 0) demo_life (S k))) + 1)%nat).
Proof.
  apply (@killed_pool_shows_a_past_state toy_libm (fun _ m => m) map_to_list (db_new 0) 0 400 0 0 demo_life
    demo_killed).
  - apply map_Forall_empty.
  - apply (bool_decide_unpack _). vm_compute. exact I.
  - apply Forall_singleton. vm_compute. reflexivity.
  - vm_compute. discriminate.
  - repeat constructor.
  - vm_compute. reflexivity.
Defined.

(** There the block is pending again, and counts as found. *)
Example killed_before_the_resolution :
  let b := blocks (@open_recording toy_libm (fun _ m => m) demo_file 400 0) in
  (blocks_found b, blocks_orphaned b, won_at_submit <$> pending_blocks b !! "aa"%string) = (1, 0, Some true).
Proof. vm_compute. reflexivity. Qed.
End Crash.
