(* ===== verification/WorkChart.v ===== *)
(** * WorkChart: what the work chart shows of a pool's life ([src/stats.rs])

    The share ledger end to end: the statistics calls that record a share in the
    open minute ([Stats], [Accounting]), the minutes handed to the writer thread
    ([Store]), its rollup of old minutes, and the query behind the chart
    ([History]).  Each share is one [Credited] record, of the minute it counts in:
    the minute of the clock, or the latest minute the ledger has reached when the
    clock stepped back. *)
From stdpp Require Import sorting.
From S2P Require Import Prelude Text F64 Json Errors Interfaces Rpc Hashrate Stats Store History.
From S2P Require Import Snapshot Security Accounting StoreThread Frame Restart Metrics Crash.
Import Rpc Hashrate Stats Store History Snapshot Security Accounting Frame Restart Metrics Crash.

Module WorkChart.

(** ** The shares of a life *)
Record Credited := mkCredited { cr_worker : string; cr_minute : Z; cr_amounts : LedgerPending }.

(** The ledger records a share of a worker the pool knows. *)
Definition known (s : PoolStats) (w : string) : bool :=
  bool_decide (is_Some (worker_states (workers s) !! w)).

(** The clock as the ledger reads it in an operation. *)
Definition reading (s : PoolStats) (op : LifeOp) : option Z :=
  match op with
  | Metered_ (MAccepted _ w _ _ _ _ now) | Metered_ (MRejected _ w _ now) =>
      if known s w then Some now else None
  | Metered_ (MCheckpoint now) | ShutDown now => Some now
  | _ => None
  end.

Definition latest_step (s : PoolStats) (latest : Z) (op : LifeOp) : Z :=
  match reading s op with Some now => Z.max latest (minute_of now) | None => latest end.

Definition credit_of (s : PoolStats) (minute : Z) (op : LifeOp) : list Credited :=
  match op with
  | Metered_ (MAccepted _ w c _ _ _ _) => if known s w then [mkCredited w minute (mkAmounts c 1 0)] else []
  | Metered_ (MRejected _ w _ _) => if known s w then [mkCredited w minute (mkAmounts 0 0 1)] else []
  | _ => []
  end.

Section Life.
Context `{Libm}.
Variable by_difficulty : gmap string Z -> list (string * Z).
Abbreviation life_step := (Crash.life_step by_difficulty).

(** The shares of a run, and the latest minute at its end. *)
Fixpoint credits (s : PoolStats) (latest : Z) (ops : list LifeOp) : list Credited :=
  match ops with
  | [] => []
  | op :: rest =>
      let latest' := latest_step s latest op in
      credit_of s latest' op ++ credits (life_step s op) latest' rest
  end.

Fixpoint latest_minute (s : PoolStats) (latest : Z) (ops : list LifeOp) : Z :=
  match ops with
  | [] => latest
  | op :: rest => latest_minute (life_step s op) (latest_step s latest op) rest
  end.
End Life.

(** The shares of a scope over [lo, hi), one column. *)
Definition credit_in (q : LedgerPending -> Z) (scope : LedgerScope) (lo hi : Z) (c : Credited) : Z :=
  if in_range scope lo hi (worker_key (cr_worker c), cr_minute c) then q (cr_amounts c) else 0.

Definition credited (q : LedgerPending -> Z) (scope : LedgerScope) (lo hi : Z) (cs : list Credited) : Z :=
  sum_Z (credit_in q scope lo hi <$> cs).

Definition credited_all (q : LedgerPending -> Z) (cs : list Credited) : Z :=
  sum_Z ((fun c => q (cr_amounts c)) <$> cs).

(** ** The writer's side *)
Definition is_ledger (w : StoreWrite) : bool := match w with Ledger _ _ => true | _ => false end.

(** What a queue of writes puts into the tables for a scope over [lo, hi). *)
Definition entry_in (q : LedgerPending -> Z) (scope : LedgerScope) (lo hi minute : Z) (e : LedgerEntry) : Z :=
  credit_in q scope lo hi (mkCredited (le_worker e) minute (le_amounts e)).

Definition write_in (q : LedgerPending -> Z) (scope : LedgerScope) (lo hi : Z) (w : StoreWrite) : Z :=
  match w with Ledger m es => sum_Z (entry_in q scope lo hi m <$> es) | _ => 0 end.

Definition written (q : LedgerPending -> Z) (scope : LedgerScope) (lo hi : Z) (ws : list StoreWrite) : Z :=
  sum_Z (write_in q scope lo hi <$> ws).

(** The worker rows a write asks for. *)
Definition write_keys (w : StoreWrite) : list WorkerKey :=
  match w with Ledger _ es => (fun e => worker_key (le_worker e)) <$> es | _ => [] end.

(** Whole hours. *)
Definition hourly (t : Z) : Prop := exists i, t = 3600 * i.

Lemma hour_of_le i ts : (3600 * i <=? hour_of ts) = (3600 * i <=? ts).
Proof.
  unfold hour_of. pose proof (Z.div_mod ts 3600 ltac:(lia)). pose proof (Z.mod_pos_bound ts 3600 ltac:(lia)).
  apply eq_true_iff_eq. rewrite !Z.leb_le. nia.
Qed.

Lemma hour_of_lt i ts : (hour_of ts <? 3600 * i) = (ts <? 3600 * i).
Proof. rewrite !Z.ltb_antisym. by rewrite hour_of_le. Qed.

Section Column.
Variable q : LedgerPending -> Z.
Hypothesis q_additive : additive q.

Definition range_row (scope : LedgerScope) (lo hi : Z) (k : WorkerKey * Z) (a : LedgerPending) : Z :=
  if in_range scope lo hi k then q a else 0.

Lemma range_row_additive scope lo hi k : additive (range_row scope lo hi k).
Proof. intros a b. unfold range_row. destruct (in_range _ _ _ _); [apply q_additive | lia]. Qed.

Lemma range_rollup scope lo hi d now :
  hourly lo -> hourly hi -> range_total q (roll_up_ledger d now) scope lo hi = range_total q d scope lo hi.
Proof.
  intros [i ->] [j ->]. apply (rollup_keeps_sum (range_row scope (3600 * i) (3600 * j))).
  - apply range_row_additive.
  - intros k a. unfold range_row, in_range. cbn [fst snd]. by rewrite hour_of_le, hour_of_lt.
Qed.

(** A cached row number is the number of the worker's row. *)
Definition ids_right (ids : gmap string WorkerKey) : Prop := map_Forall (fun w k => k = worker_key w) ids.

Lemma entry_written scope lo hi minute (rows allowed : gset WorkerKey) fine ids e :
  ids_right ids -> rows ⊆ allowed -> (size allowed <= MAX_LEDGER_WORKERS)%nat ->
  worker_key (le_worker e) ∈ allowed ->
  let '(rows', fine', ids') := write_entry minute (rows, fine, ids) e in
  ids_right ids' /\ rows' ⊆ allowed
  /\ sum_map (range_row scope lo hi) fine' = sum_map (range_row scope lo hi) fine + entry_in q scope lo hi minute e.
Proof.
  intros Hi Hr Hm He. unfold write_entry.
  assert (forall f, sum_map (range_row scope lo hi) (upsert_add f (worker_key (le_worker e), minute) (le_amounts e))
            = sum_map (range_row scope lo hi) f + entry_in q scope lo hi minute e) as Hsum
    by (intros f; by rewrite sum_upsert by apply range_row_additive).
  destruct (ids !! le_worker e) as [k|] eqn:E; [rewrite (Hi _ _ E); by split|].
  unfold resolve_worker_id. case_bool_decide as Hin.
  - split; [by apply map_Forall_insert_2 | by split].
  - assert (size rows < size allowed)%nat as Hlt by (apply subset_size; set_solver).
    destruct (Nat.leb_spec MAX_LEDGER_WORKERS (size rows)); [lia|].
    split; [by apply map_Forall_insert_2|]. split; [set_solver | apply Hsum].
Qed.

Lemma minute_written scope lo hi minute (allowed : gset WorkerKey) es : forall rows fine ids,
  ids_right ids -> rows ⊆ allowed -> (size allowed <= MAX_LEDGER_WORKERS)%nat ->
  Forall (fun e => worker_key (le_worker e) ∈ allowed) es ->
  let '(rows', fine', ids') := foldl (write_entry minute) (rows, fine, ids) es in
  ids_right ids' /\ rows' ⊆ allowed
  /\ sum_map (range_row scope lo hi) fine'
     = sum_map (range_row scope lo hi) fine + sum_Z (entry_in q scope lo hi minute <$> es).
Proof.
  induction es as [|e es IH]; intros rows fine ids Hi Hr Hm He.
  - cbn. rewrite Z.add_0_r. by split.
  - inversion_clear He as [|? ? He1 He2]. cbn [foldl].
    pose proof (entry_written scope lo hi minute rows allowed fine ids e Hi Hr Hm He1) as H1.
    destruct (write_entry _ _ _) as [[rows1 fine1] ids1]. destruct H1 as (Hi1 & Hr1 & Hs1).
    specialize (IH rows1 fine1 ids1 Hi1 Hr1 Hm He2). destruct (foldl _ _ _) as [[rows2 fine2] ids2].
    destruct IH as (? & ? & ->). split; [done|]. split; [done|]. rewrite Hs1. unfold sum_Z. cbn. lia.
Qed.

Variable prune : nat -> gmap string Z -> gmap string Z.

(** A drained queue adds to the tables what it carries, rollups included. *)
Lemma drain_range scope lo hi (allowed : gset WorkerKey) ws : forall d st,
  hourly lo -> hourly hi -> ids_right (worker_ids st) ->
  worker_rows d ⊆ allowed -> (size allowed <= MAX_LEDGER_WORKERS)%nat ->
  Forall (fun k => k ∈ allowed) (flat_map write_keys ws) ->
  range_total q (drain prune (d, st) ws).1 scope lo hi = range_total q d scope lo hi + written q scope lo hi ws.
Proof.
  induction ws as [|w ws IH]; intros d st Hlo Hhi Hi Hr Hm Hk; [cbn; lia|].
  cbn [flat_map] in Hk. apply Forall_app in Hk as [Hk Hks].
  change (drain prune (d, st) (w :: ws)) with (drain prune (default (d, st) (apply_write prune d st w true)) ws).
  change (written q scope lo hi (w :: ws)) with (write_in q scope lo hi w + written q scope lo hi ws).
  destruct (is_ledger w) eqn:El.
  - destruct w as [| | | |minute es| | | | |]; try done. cbn [apply_write write_in]. unfold write_ledger_minute.
    cbn [write_keys] in Hk. rewrite Forall_fmap in Hk.
    pose proof (minute_written scope lo hi minute allowed es (worker_rows d) (share_intervals d)
                  (worker_ids st) Hi Hr Hm Hk) as H1.
    destruct (foldl _ _ _) as [[rows fine] ids]. destruct H1 as (Hi' & Hr' & Hs). cbn [default from_option id].
    rewrite IH; [|done|done|done| |done|done].
    + rewrite range_rollup by done. unfold range_total. fold (range_row scope lo hi). cbn. lia.
    + unfold roll_up_ledger. by case_bool_decide.
  - assert (write_in q scope lo hi w = 0) as -> by (by destruct w).
    assert (forall d' st', default (d, st) (apply_write prune d st w true) = (d', st') ->
              worker_ids st' = worker_ids st /\ worker_rows d' = worker_rows d
              /\ share_intervals d' = share_intervals d
              /\ share_intervals_hourly d' = share_intervals_hourly d) as Hsame.
    { intros d' st'. destruct w; try done; cbn; unfold write_snapshot;
        repeat case_match; cbn; intros [= <- <-]; done. }
    destruct (default _ _) as [d' st']. destruct (Hsame _ _ eq_refl) as (E1 & E2 & E3 & E4).
    rewrite IH; [|done|done|by rewrite E1|by rewrite E2|done|done].
    unfold range_total. rewrite E3, E4. lia.
Qed.
End Column.

(** ** The pool's side *)
Definition ledger_writes (s : PoolStats) : list StoreWrite := List.filter is_ledger (queue s).

Definition off_ledger (w : StoreWrite) : Prop := is_ledger w = false.

(** [s'] has the open minute of [s], and has handed over no other. *)
Abbreviation unledgered := (framed ledger off_ledger).

#[export] Hint Extern 1 (off_ledger _) => reflexivity : framed.

Lemma ledger_writes_enqueue s w :
  is_Some (store s) -> ledger_writes (enqueue s w) = ledger_writes s ++ List.filter is_ledger [w].
Proof. intros Hs. unfold ledger_writes. by rewrite queue_enqueue, List.filter_app. Qed.

Lemma unledgered_writes s s' : unledgered s s' -> ledger_writes s' = ledger_writes s.
Proof.
  intros (_ & _ & ws & Hq & Hw). unfold ledger_writes. rewrite Hq, List.filter_app.
  replace (List.filter is_ledger ws) with (@nil StoreWrite); [by rewrite app_nil_r|].
  clear Hq. induction Hw as [|w ws Hw _ IH]; [done|]. unfold off_ledger in Hw. cbn. by rewrite Hw.
Qed.

Lemma unledgered_share s c h : unledgered s (Stats.share_accepted s c h).
Proof. unfold Stats.share_accepted. cbv zeta. destruct (_ <? h); auto with framed. Qed.

Lemma unledgered_worker s w h : unledgered s (worker_share_accepted s w h).
Proof. unfold worker_share_accepted. cbv zeta. destruct (_ <? h); auto with framed. Qed.

Lemma unledgered_reset s now : unledgered s (round_reset s now).
Proof. unfold round_reset. cbv zeta. auto with framed. Qed.

Lemma unledgered_found s now : unledgered s (Stats.block_found s now).
Proof. eapply framed_trans; [|apply unledgered_reset]. auto with framed. Qed.

Lemma unledgered_outcome s o height w payout hash now1 now2 :
  unledgered s (record_block_outcome s o height w payout hash now1 now2).
Proof.
  unfold record_block_outcome, enroll_pending_block. cbv zeta.
  set (s1 := if is_win o then _ else _).
  assert (unledgered s s1) as H1 by (unfold s1; destruct (is_win o); [apply unledgered_found | auto with framed]).
  case_match; [exact H1|]. apply framed_then; [|done..]. eapply framed_trans; [exact H1|]. auto with framed.
Qed.

Lemma unledgered_resolution s b r now : unledgered s (record_block_resolution s b r now).2.
Proof.
  unfold record_block_resolution, resolve_block. case_match; cbn [snd]; [|apply framed_refl].
  apply framed_then; [|done..]. destruct (won_at_submit b), r; try by apply framed_frame.
  eapply framed_trans; [|apply unledgered_found]. by apply framed_frame.
Qed.

Lemma unledgered_tick `{Libm} s now : unledgered s (tick_hashrates s now).
Proof.
  unfold tick_hashrates, record_best_hashrate. cbv zeta.
  destruct (_ || _); [auto with framed|]. destruct (_ <? _); auto with framed.
Qed.

Lemma unledgered_online s w vd now : unledgered s (mark_worker_online s w vd now).
Proof. unfold mark_worker_online. case_match; auto with framed. Qed.

(** The ledger comes last on both share paths, for a worker as known as before. *)
Lemma known_alter s w f : known (alter_state s w f) w = known s w.
Proof.
  unfold known, alter_state. cbn. rewrite lookup_alter_eq.
  apply bool_decide_ext. apply fmap_is_Some.
Qed.

Lemma accepted_path s sid w c h tick now1 now2 :
  exists s1, unledgered s s1 /\ known s1 w = known s w
    /\ record_accepted s sid w c h tick now1 now2 = record_ledger s1 w (mkAmounts c 1 0) now2.
Proof.
  unfold record_accepted, ledger_share_accepted. eexists. split; [|split; [|reflexivity]]; cbv zeta.
  - eapply framed_trans; [|apply framed_frame; reflexivity].
    eapply framed_trans; [|apply unledgered_worker].
    eapply framed_trans; [|apply unledgered_share]. auto with framed.
  - unfold mark_worker_submit. cbv zeta. rewrite known_alter.
    change (known (with_workers ?s1 _) w) with (known s1 w).
    set (s2 := Stats.share_accepted _ c h).
    assert (known s2 w = known s w) as <-
      by (unfold s2, Stats.share_accepted; cbv zeta; by destruct (_ <? h)).
    rewrite <- (known_alter s2 w) at 1. unfold worker_share_accepted. cbv zeta. by destruct (_ <? h).
Qed.

Lemma rejected_path s g w r now :
  exists s1, unledgered s s1 /\ known s1 w = known s w
    /\ (record_rejected s g w r now).1.2 = record_ledger s1 w (mkAmounts 0 0 1) now.
Proof.
  unfold record_rejected, ledger_share_rejected. eexists. split; [|split]; cycle 2; cbv zeta.
  - destruct (counts_as_invalid r); [destruct (record_invalid _)|]; reflexivity.
  - by apply framed_frame.
  - unfold worker_share_rejected. by rewrite known_alter.
Qed.

(** ** Where a credited share is *)

(** The closed minute as the write it becomes. *)
Definition closed_writes (c : option (Z * list LedgerEntry)) : list StoreWrite :=
  match c with Some (m, es) => [Ledger m es] | None => [] end.

Definition staged_keys (a : LedgerAccum) : list WorkerKey := (fun kv => worker_key kv.1) <$> map_to_list (staged a).

Definition credit_keys (cs : list Credited) : list WorkerKey := (fun c => worker_key (cr_worker c)) <$> cs.

(** The open minute of a scope over [lo, hi), one column. *)
Definition open_in (q : LedgerPending -> Z) (scope : LedgerScope) (lo hi : Z) (a : LedgerAccum) : Z :=
  sum_map (fun w v => credit_in q scope lo hi (mkCredited w (minute_ts a) v)) (staged a).

Lemma sum_Z_nonneg {A} (f : A -> Z) l : Forall (fun x => 0 <= f x) l -> 0 <= sum_Z (f <$> l).
Proof. induction 1 as [|x l Hx _ IH]; [done|]. unfold sum_Z in *. cbn. lia. Qed.

(** The open minute goes into the closed one or stays. *)
Definition handed (a : LedgerAccum) (c : option (Z * list LedgerEntry)) (a' : LedgerAccum) : Prop :=
  (forall q scope lo hi,
     written q scope lo hi (closed_writes c) + open_in q scope lo hi a' = open_in q scope lo hi a)
  /\ flat_map write_keys (closed_writes c) ++ staged_keys a' = staged_keys a
  /\ (staged a' = staged a \/ staged a' = ∅).

Lemma take_open_handed a c a' : take_open a = (c, a') -> handed a c a' /\ minute_ts a' = minute_ts a.
Proof.
  unfold take_open. case_bool_decide; intros [= <- <-]; (split; [|done]);
    [by split; [|split; [|left]] |]. split; [|split; [|by right]].
  - intros q scope lo hi. unfold written, sum_Z, open_in. cbn. rewrite sum_map_empty, sum_map_foldr, !Z.add_0_r.
    induction (map_to_list (staged a)) as [|[w v] l IH]; [done|]. cbn in *. by rewrite <- IH.
  - unfold staged_keys. cbn. rewrite map_to_list_empty, !app_nil_r. by rewrite <- list_fmap_compose.
Qed.

Lemma roll_to_handed a now c a' :
  roll_to a now = (c, a') -> handed a c a' /\ minute_ts a' = Z.max (minute_ts a) (minute_of now).
Proof.
  unfold roll_to. destruct (Z.eqb_spec (minute_of now) (minute_ts a));
    [intros [= <- <-]; split; [by split; [|split; [|left]] | lia]|].
  destruct (Z.ltb_spec (minute_of now) (minute_ts a));
    [intros [= <- <-]; split; [by split; [|split; [|left]] | lia]|].
  destruct (take_open a) as [c1 a1] eqn:E. intros [= <- <-]. cbn [minute_ts].
  destruct (take_open_handed a c1 a1 E) as [(H1 & H2 & H3) _]. split; [|lia].
  split; [|split; [exact H2 | exact H3]]. intros q scope lo hi. rewrite <- H1. f_equal.
  unfold open_in. cbn [staged minute_ts]. revert E. unfold take_open.
  case_bool_decide as Es; intros [= <- <-]; [by rewrite Es, !sum_map_empty | done].
Qed.

Lemma elem_staged_keys a k :
  k ∈ staged_keys a <-> exists w, is_Some (staged a !! w) /\ k = worker_key w.
Proof.
  unfold staged_keys. rewrite list_elem_of_fmap. split.
  - intros ([w v] & -> & Hv%elem_of_map_to_list). exists w. by split; [exists v|].
  - intros (w & [v Hv] & ->). exists (w, v). by rewrite elem_of_map_to_list.
Qed.

Lemma written_app q scope lo hi l1 l2 :
  written q scope lo hi (l1 ++ l2) = written q scope lo hi l1 + written q scope lo hi l2.
Proof. unfold written. by rewrite fmap_app, sum_Z_app. Qed.

Lemma credited_app q scope lo hi l1 l2 :
  credited q scope lo hi (l1 ++ l2) = credited q scope lo hi l1 + credited q scope lo hi l2.
Proof. unfold credited. by rewrite fmap_app, sum_Z_app. Qed.

Lemma credited_all_app q l1 l2 : credited_all q (l1 ++ l2) = credited_all q l1 + credited_all q l2.
Proof. unfold credited_all. by rewrite fmap_app, sum_Z_app. Qed.

Lemma credited_all_one q c : credited_all q [c] = q (cr_amounts c).
Proof. apply Z.add_0_r. Qed.

Lemma credited_all_nonneg q cs : Forall (fun c => 0 <= q (cr_amounts c)) cs -> 0 <= credited_all q cs.
Proof. apply sum_Z_nonneg. Qed.

Section Kept.
(** A column of the ledger. *)
Variable q : LedgerPending -> Z.
Hypothesis q_none : q no_amounts = 0.
Hypothesis q_add : forall a b, q a + q b <= u64_max -> q (add_amounts a b) = q a + q b.

(** Each credited share is in a write handed over or in the open minute, and
    nothing else is. *)
Record kept (s : PoolStats) (cs : list Credited) : Prop := {
  k_store : is_Some (store s);
  k_sum : forall scope lo hi,
    written q scope lo hi (ledger_writes s) + open_in q scope lo hi (ledger s) = credited q scope lo hi cs;
  k_bound : map_Forall (fun _ v => 0 <= q v <= credited_all q cs) (staged (ledger s));
  k_keys : Forall (fun k => k ∈ credit_keys cs)
             (flat_map write_keys (ledger_writes s) ++ staged_keys (ledger s))
}.

Lemma kept_unledgered s s' cs : kept s cs -> unledgered s s' -> kept s' cs.
Proof.
  intros [K1 K2 K3 K4] U. pose proof (unledgered_writes _ _ U) as W. destruct U as (E & Hs & _).
  split; rewrite ?E, ?W; auto.
Qed.

Lemma kept_handed s cs c a :
  kept s cs -> handed (ledger s) c a -> kept (persist_ledger_minute (with_ledger s a) c) cs.
Proof.
  intros [K1 K2 K3 K4] (H1 & H2 & H3).
  destruct (persist_frame (with_ledger s a) c) as (El & _ & Es).
  assert (ledger_writes (persist_ledger_minute (with_ledger s a) c) = ledger_writes s ++ closed_writes c) as Ew.
  { destruct c as [[m es]|]; cbn [persist_ledger_minute closed_writes]; [|by rewrite app_nil_r].
    by rewrite ledger_writes_enqueue. }
  split; rewrite ?El, ?Ew; cbn [ledger with_ledger].
  - by apply Es.
  - intros scope lo hi. rewrite written_app. rewrite <- K2, <- H1. lia.
  - destruct H3 as [->| ->]; [done | apply map_Forall_empty].
  - by rewrite flat_map_app, <- app_assoc, H2.
Qed.

Lemma kept_staged s cs w a :
  kept s cs -> 0 <= q a -> 0 <= credited_all q cs -> credited_all q cs + q a <= u64_max ->
  let l := ledger s in
  kept (with_ledger s (mkAccum (minute_ts l)
          (<[w := add_amounts (default no_amounts (staged l !! w)) a]> (staged l))))
    (cs ++ [mkCredited w (minute_ts l) a]).
Proof.
  intros [K1 K2 K3 K4] Ha Hc Hb l. set (old := default no_amounts (staged l !! w)).
  assert (0 <= q old <= credited_all q cs) as Hold.
  { unfold old. destruct (staged l !! w) eqn:E; [exact (K3 _ _ E) | cbn; lia]. }
  assert (q (add_amounts old a) = q old + q a) as Hadd by (apply q_add; lia).
  assert (credited_all q (cs ++ [mkCredited w (minute_ts l) a]) = credited_all q cs + q a) as Hall
    by (rewrite credited_all_app; unfold credited_all, sum_Z; cbn; lia).
  split.
  - exact K1.
  - intros scope lo hi. rewrite credited_app, <- K2. change (ledger_writes (with_ledger s _)) with (ledger_writes s).
    cbn [ledger with_ledger]. unfold open_in. cbn [staged minute_ts]. rewrite sum_map_insert.
    assert (from_option (fun v => credit_in q scope lo hi (mkCredited w (minute_ts l) v)) 0 (staged l !! w)
            = credit_in q scope lo hi (mkCredited w (minute_ts l) old)) as ->.
    { unfold old. destruct (staged l !! w); [done|]. unfold credit_in. cbn. rewrite q_none. by destruct (in_range _ _ _ _). }
    fold l. unfold credited, sum_Z, credit_in. cbn. rewrite Hadd. destruct (in_range _ _ _ _); lia.
  - rewrite Hall. cbn. apply map_Forall_insert_2; [rewrite Hadd; lia|].
    intros w' v Hv. specialize (K3 w' v Hv). cbn in K3. lia.
  - unfold credit_keys. rewrite fmap_app. change (ledger_writes (with_ledger s _)) with (ledger_writes s).
    rewrite Forall_app in K4 |- *. destruct K4 as [K4 K5]. split.
    + eapply Forall_impl; [exact K4|]. intros k Hk. apply elem_of_app. by left.
    + apply Forall_forall. intros k (w' & Hw' & ->)%elem_staged_keys. cbn in Hw'. apply elem_of_app.
      destruct (decide (w = w')) as [->|Hne]; [right; by apply list_elem_of_singleton|].
      rewrite lookup_insert_ne in Hw' by done. left. rewrite Forall_forall in K5. apply K5.
      apply elem_staged_keys. by exists w'.
Qed.

(** The three calls on the ledger. *)
Lemma kept_record s cs w a now :
  kept s cs -> 0 <= q a -> 0 <= credited_all q cs -> credited_all q cs + q a <= u64_max ->
  let s' := record_ledger s w a now in
  if known s w
  then minute_ts (ledger s') = Z.max (minute_ts (ledger s)) (minute_of now)
       /\ kept s' (cs ++ [mkCredited w (minute_ts (ledger s')) a])
  else s' = s.
Proof.
  intros K Ha Hc Hb s'. subst s'. unfold known, record_ledger. pose proof (k_store _ _ K) as [l Hl]. rewrite Hl.
  destruct (worker_states (workers s) !! w) as [st|] eqn:Ew; [|by rewrite bool_decide_false by (by intros [? ?])].
  rewrite bool_decide_true by done. destruct (roll_to (ledger s) now) as [c a1] eqn:Er.
  destruct (roll_to_handed _ _ _ _ Er) as [Hh Hm].
  pose proof (kept_handed s cs c a1 K Hh) as K1. set (s1 := persist_ledger_minute _ c) in K1.
  assert (ledger s1 = a1) as E1 by (unfold s1; by destruct c as [[? ?]|]).
  pose proof (kept_staged s1 cs w a K1 Ha Hc Hb) as K2. cbv zeta in K2. rewrite E1 in K2.
  match type of K2 with kept ?x _ => match goal with |- context [persist_ledger_minute ?y c] =>
    assert (persist_ledger_minute y c = x) as -> by (unfold s1; by destruct c as [[? ?]|]) end end.
  cbn [ledger with_ledger minute_ts]. by split.
Qed.

Lemma kept_flush s cs now :
  kept s cs ->
  minute_ts (ledger (flush_ledger_at s now)) = Z.max (minute_ts (ledger s)) (minute_of now)
  /\ kept (flush_ledger_at s now) cs.
Proof.
  intros K. unfold flush_ledger_at. pose proof (k_store _ _ K) as [l Hl]. rewrite Hl.
  destruct (roll_to (ledger s) now) as [c a1] eqn:Er. destruct (roll_to_handed _ _ _ _ Er) as [Hh Hm].
  split; [|by apply kept_handed]. by destruct (persist_frame (with_ledger s a1) c) as (-> & _ & _).
Qed.

Lemma kept_partial s cs :
  kept s cs ->
  minute_ts (ledger (flush_ledger_partial s)) = minute_ts (ledger s) /\ kept (flush_ledger_partial s) cs.
Proof.
  intros K. unfold flush_ledger_partial. pose proof (k_store _ _ K) as [l Hl]. rewrite Hl.
  destruct (take_open (ledger s)) as [c a1] eqn:Er. destruct (take_open_handed _ _ _ Er) as [Hh Hm].
  split; [|by apply kept_handed]. by destruct (persist_frame (with_ledger s a1) c) as (-> & _ & _).
Qed.

(** *** One operation and a run *)
Section Run.
Context `{Libm}.
Variable by_difficulty : gmap string Z -> list (string * Z).
Abbreviation life_step := (Crash.life_step by_difficulty).

(** A share recorded after calls that leave the ledger alone. *)
Lemma kept_share s s1 cs latest w a now :
  kept s cs -> minute_ts (ledger s) = latest -> unledgered s s1 -> known s1 w = known s w ->
  (known s w = true -> 0 <= q a /\ credited_all q cs + q a <= u64_max) -> 0 <= credited_all q cs ->
  let s' := record_ledger s1 w a now in
  let latest' := if known s w then Z.max latest (minute_of now) else latest in
  minute_ts (ledger s') = latest'
  /\ kept s' (cs ++ if known s w then [mkCredited w latest' a] else []).
Proof.
  intros K Hl Hq Hk Ha Hc. pose proof (kept_unledgered _ _ _ K Hq) as K1. destruct Hq as (E & _). cbv zeta.
  destruct (known s w) eqn:Ew.
  - destruct (Ha eq_refl) as [Ha1 Ha2]. pose proof (kept_record s1 cs w a now K1 Ha1 Hc Ha2) as Hr.
    rewrite Hk in Hr. destruct Hr as [Hm Hr]. rewrite <- Hl, <- E, <- Hm. by split.
  - assert (record_ledger s1 w a now = s1) as ->.
    { unfold record_ledger. destruct (store s1); [|done]. unfold known in Hk. apply bool_decide_eq_false in Hk.
      destruct (worker_states (workers s1) !! w); [|done]. destruct Hk. eauto. }
    rewrite E, app_nil_r. by split.
Qed.

Lemma kept_life s cs latest op :
  kept s cs -> minute_ts (ledger s) = latest ->
  Forall (fun c => 0 <= q (cr_amounts c)) (credit_of s (latest_step s latest op) op) ->
  0 <= credited_all q cs ->
  credited_all q cs + credited_all q (credit_of s (latest_step s latest op) op) <= u64_max ->
  let latest' := latest_step s latest op in
  minute_ts (ledger (life_step s op)) = latest' /\ kept (life_step s op) (cs ++ credit_of s latest' op).
Proof.
  intros K Hl Ha Hc Hb latest'.
  assert (forall s', unledgered s s' -> reading s op = None -> credit_of s latest' op = [] ->
            minute_ts (ledger s') = latest' /\ kept s' (cs ++ credit_of s latest' op)) as Hother.
  { intros s' Hq Hr ->. unfold latest', latest_step. rewrite Hr, app_nil_r. split; [|by apply (kept_unledgered s)].
    destruct Hq as (-> & _). done. }
  destruct op as [op|w d now|w p| | |now|now]; cbn [Crash.life_step].
  - destruct op as [sid w c h tick now1 now2|g w r now|w|o height w payout hash now1 now2|hash r now
                   |w vd now|w|now|now]; cbn [metered_step fst].
    + destruct (accepted_path s sid w c h tick now1 now2) as (s1 & Hq & Hk & ->).
      unfold latest', latest_step in *. cbn [reading credit_of] in *.
      pose proof (kept_share s s1 cs latest w (mkAmounts c 1 0) now2 K Hl Hq Hk) as Hs. cbv zeta in Hs.
      destruct (known s w); apply Hs; try done. intros _. inversion_clear Ha.
      rewrite credited_all_one in Hb. by split.
    + destruct (rejected_path s g w r now) as (s1 & Hq & Hk & ->).
      unfold latest', latest_step in *. cbn [reading credit_of] in *.
      pose proof (kept_share s s1 cs latest w (mkAmounts 0 0 1) now K Hl Hq Hk) as Hs. cbv zeta in Hs.
      destruct (known s w); apply Hs; try done. intros _. inversion_clear Ha.
      rewrite credited_all_one in Hb. by split.
    + apply Hother; [by apply framed_frame | done..].
    + apply Hother; [apply unledgered_outcome | done..].
    + apply Hother; [|done..]. destruct (pending_blocks (blocks s) !! hash) as [b|]; [|apply framed_refl].
      unfold metered_resolution. cbn [fst snd]. pose proof (unledgered_resolution s b r now) as Hq.
      by destruct (record_block_resolution s b r now).
    + apply Hother; [apply unledgered_online | done..].
    + apply Hother; [by apply framed_frame | done..].
    + apply Hother; [apply unledgered_tick | done..].
    + destruct (kept_flush s cs now K) as [Hm Kf]. cbn [credit_of]. rewrite app_nil_r.
      unfold record_hashrate_snapshot. cbv zeta. split; [cbn [ledger enqueue]; rewrite Hm; by subst|].
      eapply kept_unledgered; [exact Kf | by apply framed_enqueue].
  - apply Hother; [|done..]. unfold update_worker_vardiff. case_match; [by apply framed_frame | apply unledgered_online].
  - apply Hother; [by apply framed_frame | done..].
  - apply Hother; [by apply framed_frame | done..].
  - apply Hother; [by apply framed_frame | done..].
  - apply Hother; [|done..]. unfold prune_idle_workers. cbv zeta. case_match; auto with framed.
  - destruct (kept_flush s cs now K) as [Hm Kf]. cbn [credit_of]. rewrite app_nil_r.
    unfold shutdown_persist, record_hashrate_snapshot. cbv zeta.
    match goal with |- context [flush_ledger_partial ?x] => set (s2 := x) end.
    assert (unledgered (flush_ledger_at s now) s2) as Hq by (by apply framed_enqueue).
    destruct (kept_partial s2 cs (kept_unledgered _ _ _ Kf Hq)) as [Hm2 Kp].
    split; [cbn [ledger enqueue]; rewrite Hm2; unfold s2; cbn [ledger enqueue]; rewrite Hm; by subst|].
    eapply kept_unledgered; [exact Kp | by apply framed_enqueue].
Qed.

Lemma kept_run ops : forall s cs latest,
  kept s cs -> minute_ts (ledger s) = latest ->
  Forall (fun c => 0 <= q (cr_amounts c)) (credits by_difficulty s latest ops) ->
  0 <= credited_all q cs ->
  credited_all q cs + credited_all q (credits by_difficulty s latest ops) <= u64_max ->
  let s' := foldl life_step s ops in
  minute_ts (ledger s') = latest_minute by_difficulty s latest ops
  /\ kept s' (cs ++ credits by_difficulty s latest ops).
Proof.
  induction ops as [|op ops IH]; intros s cs latest K Hl Ha Hc Hb.
  - cbn. by rewrite app_nil_r.
  - cbn [credits latest_minute foldl] in *. cbv zeta in Ha, Hb. apply Forall_app in Ha as [Ha1 Ha2].
    rewrite credited_all_app in Hb.
    pose proof (credited_all_nonneg _ _ Ha1). pose proof (credited_all_nonneg _ _ Ha2).
    destruct (kept_life s cs latest op K Hl Ha1 Hc) as [Hm K1]; [lia|].
    rewrite app_assoc. apply IH; [exact K1 | exact Hm | exact Ha2 | ..]; rewrite credited_all_app; lia.
Qed.
End Run.
End Kept.

(** ** The chart *)
Lemma written_ledger q scope lo hi ws :
  written q scope lo hi (List.filter is_ledger ws) = written q scope lo hi ws
  /\ flat_map write_keys (List.filter is_ledger ws) = flat_map write_keys ws.
Proof.
  induction ws as [|w ws [IH1 IH2]]; [done|]. unfold written, sum_Z in *. cbn.
  destruct w; cbn; rewrite ?IH1, ?IH2; done.
Qed.

(** The open minute is not before the end of the range. *)
Lemma open_after q scope lo hi a : hi <= minute_ts a -> open_in q scope lo hi a = 0.
Proof.
  intros Hh. unfold open_in.
  rewrite (sum_map_ext _ (fun _ _ => 0)).
  - induction (staged a) as [|k v m Hk IH] using map_ind; [done|]. by rewrite sum_map_insert_fresh, IH.
  - intros w v. unfold credit_in, in_range. cbn [cr_worker cr_minute snd].
    destruct (Z.ltb_spec (minute_ts a) hi); [lia|]. by rewrite andb_false_r.
Qed.

Lemma range_total_row q d scope lo hi :
  range_total q d scope lo hi <> 0 ->
  exists key r, (share_intervals d !! key = Some r \/ share_intervals_hourly d !! key = Some r)
                /\ in_range scope lo hi key = true.
Proof.
  assert (forall m : gmap (WorkerKey * Z) LedgerPending,
            sum_map (fun k a => if in_range scope lo hi k then q a else 0) m <> 0 ->
            exists key r, m !! key = Some r /\ in_range scope lo hi key = true) as Hrow.
  { intros m. induction m as [|k v m Hk IH] using map_ind; [by rewrite sum_map_empty|].
    rewrite sum_map_insert_fresh by done. destruct (in_range scope lo hi k) eqn:E.
    - intros _. exists k, v. by rewrite lookup_insert_eq.
    - intros (key & r & Hr & Hin)%IH. exists key, r. rewrite lookup_insert_ne by congruence. done. }
  intros Hn. unfold range_total in Hn.
  match type of Hn with ?x + ?y <> 0 => destruct (decide (x = 0)) as [E|E] end.
  - rewrite E in Hn. destruct (Hrow (share_intervals_hourly d)) as (key & r & Hr & Hin); [done|].
    exists key, r. split; [by right | done].
  - destruct (Hrow _ E) as (key & r & Hr & Hin). exists key, r. split; [by left | done].
Qed.

(** A share is one accepted or one rejected. *)
Lemma credits_counted `{Libm} by_difficulty ops : forall s latest c,
  c ∈ credits by_difficulty s latest ops -> accepted (cr_amounts c) + rejected (cr_amounts c) = 1.
Proof.
  induction ops as [|op ops IH]; intros s latest c Hc; [by apply not_elem_of_nil in Hc|].
  cbn [credits] in Hc. apply elem_of_app in Hc as [Hc|Hc]; [|by eapply IH].
  destruct op as [[]| | | | | |]; cbn in Hc; try destruct (known _ _);
    try (by apply not_elem_of_nil in Hc); apply list_elem_of_singleton in Hc; by subst.
Qed.

Lemma credited_elem (q : LedgerPending -> Z) scope (lo hi : Z) cs c :
  Forall (fun c => 0 <= q (cr_amounts c)) cs -> c ∈ cs ->
  in_range scope lo hi (worker_key (cr_worker c), cr_minute c) = true ->
  0 <= credited q scope lo hi cs /\ q (cr_amounts c) <= credited q scope lo hi cs.
Proof.
  intros Hn Hc Hr. assert (Forall (fun c => 0 <= credit_in q scope lo hi c) cs) as Hn'.
  { eapply Forall_impl; [exact Hn|]. intros y Hy. cbn beta in Hy. clear Hr. unfold credit_in. destruct (in_range _ _ _ _); lia. }
  apply list_elem_of_split in Hc as (l1 & l2 & ->). apply Forall_app in Hn' as [H1 H2].
  apply Forall_cons in H2 as [H2 H3]. apply sum_Z_nonneg in H1, H3. rewrite !credited_app.
  change (credited q scope lo hi (c :: l2)) with (credit_in q scope lo hi c + credited q scope lo hi l2).
  unfold credit_in in H2 |- *. rewrite Hr in *. unfold credited in *. lia.
Qed.

(** All rows of both tables, one column. *)
Definition file_total (q : LedgerPending -> Z) (d : Db) : Z :=
  sum_map (fun _ => q) (share_intervals d) + sum_map (fun _ => q) (share_intervals_hourly d).

Definition columns : list (LedgerPending -> Z) := [work; accepted; rejected].

Lemma columns_lawful q : q ∈ columns ->
  additive q /\ q no_amounts = 0 /\ (forall a b, q a + q b <= u64_max -> q (add_amounts a b) = q a + q b)
  /\ (forall a, row_nonneg a -> 0 <= q a).
Proof.
  unfold columns. rewrite !elem_of_cons. intros [->|[->|[->|Hq]]]; [..|by apply not_elem_of_nil in Hq];
    (split; [done|]; split; [done|]; split; [intros a b Hab; cbn; unfold sat_add64; lia | by intros a (? & ? & ?)]).
Qed.

Section Chart.
Context `{Libm}.
Variable prune : nat -> gmap string Z -> gmap string Z.
Variable by_difficulty : gmap string Z -> list (string * Z).
Variables (d : Db) (wall : Z) (inst : Instant) (ops : list LifeOp).
Abbreviation x := (from_file d wall inst).
Abbreviation s := (foldl (life_step by_difficulty) x ops).
Abbreviation cs := (credits by_difficulty x (minute_of wall) ops).

Hypothesis d_nonneg : nonneg_rows d.
Hypothesis cs_nonneg : Forall (fun c => row_nonneg (cr_amounts c)) cs.
Hypothesis cs_rows : (size (worker_rows d ∪ list_to_set (credit_keys cs)) <= MAX_LEDGER_WORKERS)%nat.
Hypothesis cs_fit : Forall (fun q => file_total q d + credited_all q cs < 2 ^ 63) columns.

Lemma file_total_nonneg q : q ∈ columns -> 0 <= file_total q d.
Proof.
  intros (_ & _ & _ & Hq)%columns_lawful. destruct d_nonneg as [Hf Hh]. unfold file_total.
  assert (forall m : gmap (WorkerKey * Z) LedgerPending, map_Forall (fun _ a => row_nonneg a) m ->
            0 <= sum_map (fun _ => q) m) as Hs.
  { intros m. induction m as [|k v m Hk IH] using map_ind; [by rewrite sum_map_empty|].
    intros [Hv HF]%map_Forall_insert; [|done]. rewrite sum_map_insert_fresh by done.
    specialize (IH HF). specialize (Hq v Hv). lia. }
  pose proof (Hs _ Hf). pose proof (Hs _ Hh). lia.
Qed.

Lemma column_nonneg q : q ∈ columns -> Forall (fun c => 0 <= q (cr_amounts c)) cs.
Proof. intros (_ & _ & _ & Hq)%columns_lawful. eapply Forall_impl; [exact cs_nonneg|]. intros c. apply Hq. Qed.

Lemma from_file_kept q : q no_amounts = 0 -> kept q x [].
Proof.
  intros Hq. assert (store x = Some [] /\ ledger x = mkAccum (minute_of wall) ∅) as [Es El]
    by (unfold from_file, load; by destruct (load_block_counts d) as [[? ?] ?]).
  assert (ledger_writes x = []) as Ew by (unfold ledger_writes, queue; by rewrite Es).
  split; rewrite ?El, ?Ew; [by rewrite Es | done | apply map_Forall_empty|].
  cbn. unfold staged_keys. cbn. by rewrite map_to_list_empty.
Qed.

(** The tables after the drain, over whole hours that are closed. *)
Lemma drained_range q scope lo hi :
  q ∈ columns -> hourly lo -> hourly hi -> hi <= latest_minute by_difficulty x (minute_of wall) ops ->
  range_total q (drained prune d s) scope lo hi = range_total q d scope lo hi + credited q scope lo hi cs.
Proof.
  intros Hq Hlo Hhi Hm. destruct (columns_lawful q Hq) as (Q1 & Q2 & Q3 & _).
  pose proof (column_nonneg q Hq) as Hn. pose proof (file_total_nonneg q Hq).
  pose proof (proj1 (Forall_forall _ _) cs_fit q Hq) as Hfit. cbn beta in Hfit.
  destruct (kept_run q Q2 Q3 by_difficulty ops x [] (minute_of wall)) as [Em K];
    [by apply from_file_kept | | exact Hn | done | change (credited_all q []) with 0; unfold u64_max; lia|].
  { unfold from_file, load. by destruct (load_block_counts d) as [[? ?] ?]. }
  cbn [app] in K. unfold drained.
  rewrite (drain_range q Q1 prune scope lo hi (worker_rows d ∪ list_to_set (credit_keys cs))); try done.
  - f_equal. rewrite <- (proj1 (written_ledger q scope lo hi _)). rewrite <- (k_sum _ _ _ K).
    rewrite open_after; [unfold ledger_writes; lia | by rewrite Em].
  - set_solver.
  - rewrite <- (proj2 (written_ledger q scope lo hi _)). pose proof (k_keys _ _ _ K) as Hk.
    apply Forall_app in Hk as [Hk _]. eapply Forall_impl; [exact Hk|]. intros k Hin.
    apply elem_of_union_r. by apply elem_of_list_to_set.
Qed.

Lemma grid_hourly k t : grid (3600 * k) t = t -> hourly t /\ hourly (t + 3600 * k).
Proof.
  unfold grid. intros Ht. assert (t = 3600 * (t / (3600 * k) * k)) as E by (rewrite <- Ht at 1; ring).
  split; [by exists (t / (3600 * k) * k)|]. exists (t / (3600 * k) * k + k). rewrite E at 1. ring.
Qed.

(** A whole hour that is over by now is closed in the ledger. *)
Lemma over_is_closed hi now : hourly hi -> hi <= now -> hi <= minute_of now.
Proof.
  intros [i ->] Hn. unfold minute_of, LEDGER_INTERVAL_SECS.
  pose proof (Z.div_mod now 60 ltac:(lia)). pose proof (Z.mod_pos_bound now 60 ltac:(lia)). lia.
Qed.

Lemma charted_point since k now scope p :
  0 < k -> minute_of now <= latest_minute by_difficulty x (minute_of wall) ops ->
  p ∈ get_work_history (drained prune d s) since (3600 * k) now scope ->
  let held q := range_total q d scope (wp_ts p) (wp_ts p + 3600 * k)
                + credited q scope (wp_ts p) (wp_ts p + 3600 * k) cs in
  wp_work p = held work /\ wp_accepted p = held accepted /\ wp_rejected p = held rejected.
Proof.
  intros Hk Hm Hp held. destruct (point_exact _ _ _ _ _ _ Hk Hp) as (_ & Hg & _ & Hn & -> & -> & ->).
  destruct (grid_hourly k _ Hg) as [Hlo Hhi]. pose proof (over_is_closed _ _ Hhi Hn).
  assert (forall q, q ∈ columns ->
            Z.max (range_total q (drained prune d s) scope (wp_ts p) (wp_ts p + 3600 * k)) 0 = held q) as Hq.
  { intros q Hq. rewrite drained_range by (done || lia). subst held. cbn beta. apply Z.max_l.
    apply Z.add_nonneg_nonneg.
    - apply range_total_nonneg; [done|]. by apply (columns_lawful q).
    - apply sum_Z_nonneg. eapply Forall_impl; [exact (column_nonneg q Hq)|].
      intros c Hc. unfold credit_in. by destruct (in_range _ _ _ _). }
  split; [|split]; apply Hq; unfold columns; set_solver.
Qed.

Lemma share_is_charted since k now scope c :
  0 < k -> minute_of now <= latest_minute by_difficulty x (minute_of wall) ops ->
  c ∈ cs -> in_scope scope (worker_key (cr_worker c)) = true ->
  grid (3600 * k) since <= cr_minute c -> grid (3600 * k) (cr_minute c) + 3600 * k <= now ->
  exists p, p ∈ get_work_history (drained prune d s) since (3600 * k) now scope
            /\ wp_ts p = grid (3600 * k) (cr_minute c).
Proof.
  intros Hk Hm Hc Hsc Hs Hn. set (B := grid (3600 * k) (cr_minute c)) in *.
  assert (0 < 3600 * k) as Hb by lia.
  assert (grid (3600 * k) B = B) as HB by (by apply grid_idem).
  pose proof (grid_bounds (3600 * k) (cr_minute c) Hb) as Hbounds. fold B in Hbounds.
  destruct (grid_hourly k B HB) as [Hlo Hhi]. pose proof (over_is_closed _ _ Hhi Hn).
  assert (in_range scope B (B + 3600 * k) (worker_key (cr_worker c), cr_minute c) = true) as Hr.
  { unfold in_range. cbn [fst snd]. rewrite Hsc. cbn [andb]. apply andb_true_iff. rewrite Z.leb_le, Z.ltb_lt. lia. }
  assert (exists q, q ∈ columns /\ 1 <= q (cr_amounts c)) as (q & Hq & Hq1).
  { pose proof (credits_counted by_difficulty ops x (minute_of wall) c Hc).
    pose proof (column_nonneg accepted ltac:(unfold columns; set_solver)) as Ha. rewrite Forall_forall in Ha.
    specialize (Ha c Hc). cbn beta in Ha.
    destruct (decide (1 <= accepted (cr_amounts c))); [exists accepted | exists rejected];
      (split; [unfold columns; set_solver | lia]). }
  destruct (credited_elem q scope B (B + 3600 * k) cs c (column_nonneg q Hq) Hc Hr) as [_ Hle].
  assert (0 <= range_total q d scope B (B + 3600 * k))
    by (apply range_total_nonneg; [done|]; by apply (columns_lawful q)).
  destruct (range_total_row q (drained prune d s) scope B (B + 3600 * k)) as (key & r & Hrow & Hin).
  { rewrite drained_range by (done || lia). lia. }
  unfold in_range in Hin. apply andb_true_iff in Hin as [Hin Hhi']. apply andb_true_iff in Hin as [Hsc' Hlo'].
  apply Z.leb_le in Hlo'. apply Z.ltb_lt in Hhi'.
  assert (grid (3600 * k) key.2 = B) as Ekey by (apply grid_unique; [done | done | lia]).
  rewrite <- Ekey. apply (row_has_point _ _ _ _ _ _ r); [done | done | done | | by rewrite Ekey].
  assert (grid (3600 * k) since <= B); [|lia].
  unfold B. rewrite <- (grid_idem (3600 * k) since) by done. by apply grid_mono.
Qed.
End Chart.

(** ** Properties *)

(** C18. The work chart shows the work of the miners, all of it and once. Whatever
    happens to the statistics over a run that starts on a stats file (shares of any
    workers, found blocks, checkpoints, prunes, shutdown flushes, a clock that steps
    back), once the writer thread has applied what the pool queued, rollups of old
    minutes included, a chart over whole hours for the pool, one address or one
    worker shows in each bucket exactly the work, the accepted and the rejected
    shares that the file held and that the run recorded in it, each share in the
    minute of the ledger it was recorded in; and no recorded share in range, whose
    bucket is over, is missing from the chart. The ledger has read the clock in the
    minute of the query (it does at every checkpoint), the worker rows stay below
    their cap and the totals fit SQLite's integers. *)
Theorem chart_shows_recorded_work `{Libm} (prune : nat -> gmap string Z -> gmap string Z)
    (by_difficulty : gmap string Z -> list (string * Z)) (d : Db) (wall : Z) (inst : Instant)
    (ops : list LifeOp) (since k now : Z) (scope : LedgerScope) :
  let x := from_file d wall inst in
  let s := foldl (life_step by_difficulty) x ops in
  let cs := credits by_difficulty x (minute_of wall) ops in
  let b := 3600 * k in
  let points := get_work_history (drained prune d s) since b now scope in
  nonneg_rows d -> Forall (fun c => row_nonneg (cr_amounts c)) cs ->
  (size (worker_rows d ∪ list_to_set (credit_keys cs)) <= MAX_LEDGER_WORKERS)%nat ->
  Forall (fun q => file_total q d + credited_all q cs < 2 ^ 63) columns ->
  0 < k -> minute_of now <= latest_minute by_difficulty x (minute_of wall) ops ->
  (forall p, p ∈ points ->
     let held q := range_total q d scope (wp_ts p) (wp_ts p + b) + credited q scope (wp_ts p) (wp_ts p + b) cs in
     wp_work p = held work /\ wp_accepted p = held accepted /\ wp_rejected p = held rejected)
  /\ StronglySorted Z.lt (wp_ts <$> points)
  /\ (forall c, c ∈ cs -> in_scope scope (worker_key (cr_worker c)) = true ->
        grid b since <= cr_minute c -> grid b (cr_minute c) + b <= now ->
        exists p, p ∈ points /\ wp_ts p = grid b (cr_minute c)).
Proof.
  intros x s cs b points Hd Hn Hr Hf Hk Hm. split; [|split].
  - intros p Hp. by apply (charted_point prune by_difficulty d wall inst ops Hd Hn Hr Hf since k now).
  - apply history_sorted.
  - intros c. exact (share_is_charted prune by_difficulty d wall inst ops Hd Hn Hr Hf since k now scope c Hk Hm).
Qed.

(** Two workers mine over a file with rows of one of them; the clock steps back,
    the pool checkpoints in the next hours, and the file's old minutes roll up. *)
Definition demo_shift : list LifeOp :=
  [Metered_ (MOnline "a.x" 1 7200); Metered_ (MOnline "c" 1 7200);
   Metered_ (MAccepted "s1" "a.x" 500 700 0 7270 7270); Metered_ (MAccepted "s2" "c" 30 40 0 7345 7345);
   Metered_ (MRejected (guard_new (mkSecurityConfig 10 100 600 50 4096 128 8) 0) "a.x" Stale 7250);
   Metered_ (MAccepted "s3" "ghost" 9 9 0 7346 7346);
   Metered_ (MCheckpoint 10801); Metered_ (MAccepted "s1" "a.x" 25 26 0 10900 10900); ShutDown 14405].

Example demo_shift_credits :
  @credits toy_libm map_to_list (@from_file toy_libm demo_ledger 7200 0) (minute_of 7200) demo_shift
  = [mkCredited "a.x" 7260 (mkAmounts 500 1 0); mkCredited "c" 7320 (mkAmounts 30 1 0);
     mkCredited "a.x" 7320 (mkAmounts 0 0 1); mkCredited "a.x" 10860 (mkAmounts 25 1 0)].
Proof. vm_compute. reflexivity. Qed.

Lemma chart_shows_recorded_work_witness :
  Forall (fun p => wp_work p = range_total work demo_ledger (SUser "a") (wp_ts p) (wp_ts p + 3600)
                     + credited work (SUser "a") (wp_ts p) (wp_ts p + 3600)
                         (@credits toy_libm map_to_list (@from_file toy_libm demo_ledger 7200 0) 7200 demo_shift))
    (get_work_history (drained (fun _ m => m) demo_ledger
       (foldl (@life_step toy_libm map_to_list) (@from_file toy_libm demo_ledger 7200 0) demo_shift))
       0 3600 14410 (SUser "a")).
Proof.
  apply Forall_forall. intros p Hp.
  apply (@chart_shows_recorded_work toy_libm (fun _ m => m) map_to_list demo_ledger 7200 0 demo_shift 0 1 14410
           (SUser "a")); [apply demo_ledger_nonneg | ..| exact Hp].
  - rewrite demo_shift_credits. repeat constructor; discriminate.
  - apply Nat.leb_le. vm_compute. reflexivity.
  - repeat constructor; vm_compute; reflexivity.
  - reflexivity.
  - vm_compute. discriminate.
Defined.

(** The share of the worker nobody knows is nowhere; the rejected one of the
    stepped-back clock is in the latest minute. *)
Example demo_shift_chart :
  get_work_history (drained (fun _ m => m) demo_ledger
    (foldl (@life_step toy_libm map_to_list) (@from_file toy_libm demo_ledger 7200 0) demo_shift))
    0 3600 14410 SPool
  = [mkPoint 3600 40 4 0 3600; mkPoint 7200 630 4 2 3600; mkPoint 10800 32 2 0 3600].
Proof. vm_compute. reflexivity. Qed.
End WorkChart.
