(* ===== verification/Identity.v ===== *)
(** * Identity: miner identities ([src/mining/identity.rs])

    [MinerIdentity::parse]: the text rules, the split at the first dot, the
    payout address checked for the node's network, and the canonical name all
    statistics are keyed on. *)
From S2P Require Import Prelude Text F64 Json Errors Interfaces Security.
Import Security.

Module Identity.

Record PayoutDescriptor := mkPayout { address : string; script_pubkey : bytes }.

Record MinerIdentity := mkIdentity {
  full_name : string;
  canonical_name : string;
  payout : PayoutDescriptor;
  worker_label : option string
}.

Definition invalid_identity (detail : string) : PoolError := InvalidParams "miner identity" detail.

Definition network_name (n : Network) : string :=
  match n with
  | Bitcoin => "mainnet" | Testnet => "testnet" | Testnet4 => "testnet4"
  | Signet => "signet" | Regtest => "regtest"
  end.

Definition validate_identity_text (raw : string) (max_len : Z) : result PoolError unit :=
  map_err (fun e => match e with
                    | InvalidParams _ detail => invalid_identity detail
                    | other => other
                    end) (validate_worker_name raw max_len).

Definition split_identity (raw : string) : result PoolError (string * option string) :=
  match split_once c_dot raw with
  | Some (_, EmptyString) => Err (invalid_identity "worker label after '.' must not be empty")
  | Some (a, label) => Ok (a, Some label)
  | None => Ok (raw, None)
  end.

Definition canonical_of (a : string) (label : option string) : string :=
  match label with
  | Some l => a +:+ String c_dot l
  | None => a
  end.

Definition parse `{AddressCodec} (raw : string) (network : Network) (max_len : Z)
  : result PoolError MinerIdentity :=
  _ ← validate_identity_text raw max_len;
  '(a, label) ← split_identity raw;
  if bool_decide (a = EmptyString) then Err (invalid_identity "payout address must not be empty")
  else
    parsed ← ok_or (invalid_identity "payout address is not a valid Bitcoin address")
               (address_parse a);
    checked ← ok_or (invalid_identity
                ("payout address is not valid for " +:+ network_name network))
                (require_network parsed network);
    let text := address_to_string checked in
    Ok (mkIdentity raw (canonical_of text label) (mkPayout text (address_script checked)) label).

(** ** Lemmas *)
Lemma split_once_app c a b : split_once c a = None -> split_once c (a +:+ String c b) = Some (a, b).
Proof.
  induction a as [|d a IH]; intros H.
  - change (EmptyString +:+ String c b) with (String c b). simpl. by rewrite bool_decide_true.
  - change (String d a +:+ String c b) with (String d (a +:+ String c b)).
    simpl in *. case_bool_decide; [done|].
    destruct (split_once c a) as [[? ?]|] eqn:E; [done|]. by rewrite IH.
Qed.

Lemma ok_or_Ok {E A} (e : E) (o : option A) a : ok_or e o = Ok a -> o = Some a.
Proof. destruct o; simpl; congruence. Qed.

Lemma validate_identity_text_Ok raw n :
  validate_identity_text raw n = Ok tt <-> validate_worker_name raw n = Ok tt.
Proof. unfold validate_identity_text. destruct (validate_worker_name raw n) as [[]|[]]; simpl; split; done. Qed.

(** What a successful parse establishes. *)
Lemma parse_Ok `{AddressCodec} raw network n id :
  parse raw network n = Ok id ->
  exists a u c,
    validate_worker_name raw n = Ok tt
    /\ split_identity raw = Ok (a, worker_label id)
    /\ address_parse a = Some u /\ require_network u network = Some c
    /\ id = mkIdentity raw (canonical_of (address_to_string c) (worker_label id))
              (mkPayout (address_to_string c) (address_script c)) (worker_label id).
Proof.
  unfold parse. intros Hp. bind_inv Hp. destruct x.
  match goal with Hv : validate_identity_text _ _ = _ |- _ => apply validate_identity_text_Ok in Hv end.
  bind_inv Hp. destruct x as [a label].
  case_bool_decide; [done|]. do 2 bind_inv Hp. simplify_eq/=.
  repeat match goal with Ho : ok_or _ _ = Ok _ |- _ => apply ok_or_Ok in Ho end.
  eauto 10.
Qed.

Lemma split_identity_canonical `{AddressCodec} raw a c label :
  split_identity raw = Ok (a, label) ->
  split_identity (canonical_of (address_to_string c) label) = Ok (address_to_string c, label).
Proof.
  unfold split_identity. intros Hs.
  assert (label <> Some EmptyString) as Hne by (repeat case_match; by simplify_eq).
  destruct label as [l|]; simpl.
  - rewrite split_once_app by apply address_no_dot. destruct l; [done|done].
  - by rewrite address_no_dot.
Qed.

(** One canonical name, one wallet: the address text and the script. *)
Lemma canonical_determines_payout `{AddressCodec} raw raw' network n n' i i' :
  parse raw network n = Ok i -> parse raw' network n' = Ok i' ->
  canonical_name i = canonical_name i' -> payout i = payout i'.
Proof.
  intros Hp Hp' Hn.
  destruct (parse_Ok _ _ _ _ Hp) as (a & u & c & _ & Hs & _ & Hr & Hi).
  destruct (parse_Ok _ _ _ _ Hp') as (a' & u' & c' & _ & Hs' & _ & Hr' & Hi').
  rewrite Hi, Hi' in Hn |- *. cbn [canonical_name payout] in *.
  pose proof (split_identity_canonical _ _ c _ Hs) as E.
  pose proof (split_identity_canonical _ _ c' _ Hs') as E'.
  rewrite <- Hn, E in E'. injection E' as Et _.
  destruct (address_roundtrip _ _ _ Hr) as (v & Hv & Hc).
  destruct (address_roundtrip _ _ _ Hr') as (v' & Hv' & Hc').
  rewrite <- Et, Hv in Hv'. injection Hv' as <-. by rewrite Hc in Hc'; injection Hc' as <-.
Qed.

(** ** Properties *)

(** The canonical name is a fixed point: when an identity parses and its
    canonical name obeys the name rules, re-parsing the canonical name yields
    the same canonical name, payout address and script, and worker label, so
    re-authorising under it never creates a second identity. *)
Lemma canonical_name_stable `{AddressCodec} (raw : string) (network : Network) (n : Z)
    (id : MinerIdentity) :
  parse raw network n = Ok id ->
  validate_worker_name (canonical_name id) n = Ok tt ->
  exists id', parse (canonical_name id) network n = Ok id'
    /\ canonical_name id' = canonical_name id /\ payout id' = payout id
    /\ worker_label id' = worker_label id /\ full_name id' = canonical_name id.
Proof.
  intros Hp Hv.
  destruct (parse_Ok _ _ _ _ Hp) as (a & u & c & _ & Hs & Ha & Hr & Hid).
  destruct (address_roundtrip u network c Hr) as (u' & Hu' & Hr').
  rewrite Hid in Hv |- *; cbn [canonical_name payout worker_label] in *.
  unfold parse. rewrite (proj2 (validate_identity_text_Ok _ _) Hv). simpl.
  rewrite (split_identity_canonical raw a c _ Hs). simpl.
  rewrite bool_decide_false by apply address_nonempty.
  rewrite Hu'. simpl. rewrite Hr'. simpl. eauto 10.
Qed.

(** A codec with one known address, spelt in either case, for evaluation. *)
Definition demo_codec : AddressCodec.
Proof.
  refine {|
    unchecked_address := unit;
    checked_address := unit;
    address_parse := fun s => if eq_ignore_ascii_case s "bcrt1qdemo" then Some tt else None;
    require_network := fun _ n => match n with Regtest => Some tt | _ => None end;
    address_to_string := fun _ => "bcrt1qdemo";
    address_script := fun _ => [x00; x14]
  |}.
  - intros [] n [] Hn. exists tt. by split.
  - intros []. reflexivity.
  - intros []. done.
Defined.

Lemma canonical_name_stable_witness :
  exists id, @parse demo_codec "BCRT1QDEMO.rig" Regtest 128 = Ok id /\
  exists id', @parse demo_codec (canonical_name id) Regtest 128 = Ok id'
    /\ canonical_name id' = canonical_name id /\ payout id' = payout id
    /\ worker_label id' = worker_label id /\ full_name id' = canonical_name id.
Proof.
  eexists. split; [vm_compute; reflexivity|].
  apply (@canonical_name_stable demo_codec "BCRT1QDEMO.rig" Regtest 128); vm_compute; reflexivity.
Defined.

End Identity.
