(* ===== verification/Template.v ===== *)
(** * Template: from [getblocktemplate] to a Stratum job ([src/bitcoin/template.rs])

    Job identifiers, the consensus tripwires, the coinbase (BIP34 height, tag,
    extranonce region, witness commitment), the merkle branch, and the two job
    builders [build_job_template] and [build_job_for_payout].  SHA-256, the hex
    codec and transaction serialisation are the interfaces of [Interfaces]. *)
From S2P Require Import Prelude Text F64 Json Errors Interfaces Target Rpc Security Identity.
Import Target Identity.

Module Template.

(** ** Job identifiers *)

(** [job_epoch]: the low 32 bits of the unix-millisecond clock, in the high
    half of the identifier. *)
Definition job_epoch (millis : Z) : Z := Z.shiftl (Z.land millis 0xFFFFFFFF) 32.

(** [next_job_id]: returns the text and the incremented [JOB_COUNTER]. *)
Definition next_job_id (epoch counter : Z) : string * Z :=
  let seq := Z.land counter 0xFFFFFFFF in
  (hex_fixed 16 (Z.lor epoch seq), wrap64 (counter + 1)).

(** ** Data *)
Record JobTemplate := mkJobTemplate {
  t_prev_hash : string;
  t_merkle_branch : list string;
  t_merkle_branch_raw : list bytes;
  t_version : Z;
  t_bits : string;
  t_cur_time : Z;
  t_height : Z;
  t_network_target : bytes;
  t_transactions : list bytes;
  t_coinbase_value : Z;
  t_witness_commitment : option bytes
}.

Record StratumJob := mkStratumJob {
  job_id : string;
  j_prev_hash : string;
  coinbase1 : bytes;
  coinbase2 : bytes;
  merkle_branch : list string;
  merkle_branch_raw : list bytes;
  j_version : Z;
  j_bits : string;
  j_cur_time : Z;
  j_height : Z;
  network_target : bytes;
  coinbase_template : bytes;
  extranonce_offset : nat;
  extranonce1_len : nat;
  extranonce2_len : nat;
  j_transactions : list bytes;
  payout_address : string;
  has_witness_commitment : bool
}.

(** ** Rules and tripwires *)
Definition VERSION_ROLLING_MASK : Z := 0x1FFFE000.
Definition SUPPORTED_GBT_RULES : list string := ["csv"; "segwit"; "taproot"].

Definition unsupported_gbt_rules (gbt : Rpc.GbtResult) : list string :=
  let unsupported :=
    filter (fun name => existsb (fun known => eq_ignore_ascii_case known name)
                          SUPPORTED_GBT_RULES = false)
      (omap (strip_prefix1 c_bang) (Rpc.rules gbt)) in
  let rollable_required := Z.land (Rpc.vbrequired gbt) VERSION_ROLLING_MASK in
  if rollable_required =? 0 then unsupported
  else unsupported ++ ["vbrequired:0x" +:+ hex_fixed 8 rollable_required].

Definition announces_segwit (rules : list string) : bool :=
  existsb (fun rule => eq_ignore_ascii_case (default rule (strip_prefix1 c_bang rule)) "segwit") rules.

Definition MAX_BLOCK_WEIGHT : Z := 4000000.
Definition COINBASE_WEIGHT_RESERVE : Z := 4000.
Definition BLOCK_OVERHEAD_WEIGHT : Z := (80 + 3) * 4.

(** [iter().sum::<u64>()], wrapping as a release build does. *)
Definition sum_u64 (l : list Z) : Z := fold_left (fun acc x => wrap64 (acc + x)) l 0.

Definition check_block_weight (gbt : Rpc.GbtResult) : result PoolError unit :=
  let tx_weight := sum_u64 (Rpc.weight <$> Rpc.transactions gbt) in
  let total := wrap64 (BLOCK_OVERHEAD_WEIGHT + tx_weight + COINBASE_WEIGHT_RESERVE) in
  if MAX_BLOCK_WEIGHT <? total
  then Err (Other "template transactions are over the consensus weight limit")
  else Ok tt.

(** [check_coinbase_value] only reports: [false] is the logged mismatch. *)
Definition check_coinbase_value (gbt : Rpc.GbtResult) : bool :=
  let fees := sum_u64 (Rpc.fee <$> Rpc.transactions gbt) in
  sat_add64 (block_subsidy (Rpc.height gbt)) fees =? Rpc.coinbase_value gbt.

(** ** Merkle branch *)
Section Hashing.
Context `{Sha256}.

Definition double_sha256 (d : bytes) : bytes := sha256 (sha256 d).

(** One row of the pairing loop over [level.chunks(2)]; an unknown child
    makes an unknown parent. *)
Fixpoint next_level (level : list (option bytes)) : list (option bytes) :=
  match level with
  | a :: b :: rest =>
      match a, b with
      | Some l, Some r => Some (double_sha256 (l ++ r))
      | _, _ => None
      end :: next_level rest
  | _ => []
  end.

(** Push a copy of the last entry when the level has an odd length. *)
Definition pad_level {A} (level : list A) : list A :=
  if Nat.even (length level) then level
  else match last level with Some x => level ++ [x] | None => level end.

(** [while level.len() > 1]; the fuel is the initial length, see
    [climb_branch]. *)
Fixpoint branch_loop (fuel path_index : nat) (level : list (option bytes)) (branch : list bytes)
  : list bytes :=
  match fuel with
  | O => branch
  | S f =>
      if (1 <? length level)%nat then
        let level1 := pad_level level in
        let sibling_index :=
          if Nat.even path_index then (path_index + 1)%nat else (path_index - 1)%nat in
        let branch1 := match level1 !! sibling_index with
                       | Some (Some sibling) => branch ++ [sibling]
                       | _ => branch
                       end in
        branch_loop f (path_index / 2) (next_level level1) branch1
      else branch
  end.

Definition compute_merkle_branch_raw (txids : list bytes) : list bytes :=
  match txids with
  | [] => []
  | _ => let level := None :: (Some <$> txids) in
         branch_loop (length level) 0 level []
  end.

(** [StratumJob::merkle_root]. *)
Definition merkle_root (branch : list bytes) (coinbase : bytes) : bytes :=
  fold_left (fun hash b => double_sha256 (hash ++ b)) branch (double_sha256 coinbase).
End Hashing.

(** ** Coinbase *)
Definition MIN_COINBASE_SCRIPT_SIG : Z := 2.
Definition MAX_COINBASE_SCRIPT_SIG : Z := 100.

Definition check_coinbase_script_sig_len (len : Z) : result PoolError unit :=
  if (MIN_COINBASE_SCRIPT_SIG <=? len) && (len <=? MAX_COINBASE_SCRIPT_SIG) then Ok tt
  else Err (Other "coinbase scriptSig length is outside the consensus bounds").

(** [while n > 0 { bytes.push((n & 0xff) as u8); n >>= 8 }]; eight rounds
    exhaust a [u64]. *)
Fixpoint height_bytes (fuel : nat) (n : Z) : bytes :=
  match fuel with
  | O => []
  | S f => if 0 <? n then byte_of (Z.land n 0xff) :: height_bytes f (Z.shiftr n 8) else []
  end.

Definition encode_bip34_height (height : Z) : bytes :=
  if height =? 0 then [x00]
  else if height <=? 16 then [byte_of (0x50 + height)]
  else
    let bs := height_bytes 8 height in
    let bs' := match last bs with
               | Some b => if Z.land (byte_val b) 0x80 =? 0 then bs else bs ++ [x00]
               | None => bs
               end in
    byte_of (Z.of_nat (length bs')) :: bs'.

(** [haystack.windows(needle.len()).position(|w| w == needle)]. *)
Fixpoint find_bytes_from (pos : nat) (haystack needle : bytes) : option nat :=
  if (length haystack <? length needle)%nat then None
  else if bool_decide (take (length needle) haystack = needle) then Some pos
  else match haystack with
       | [] => None
       | _ :: h => find_bytes_from (S pos) h needle
       end.
Definition find_bytes (haystack needle : bytes) : option nat := find_bytes_from 0 haystack needle.

Definition null_outpoint : OutPoint := mkOutPoint (repeat x00 32) 0xFFFFFFFF.

(** The transaction [build_coinbase] assembles around a scriptSig. *)
Definition coinbase_tx (script_sig : bytes) (reward : Z) (reward_script : bytes)
    (witness_commitment : option bytes) : Transaction :=
  mkTx 1 0
    [mkTxIn null_outpoint script_sig 0xFFFFFFFF []]
    (mkTxOut reward reward_script ::
     match witness_commitment with Some w => [mkTxOut 0 w] | None => [] end).

Definition SCRIPT_SIG_OFFSET : nat := 4 + 1 + 36 + 1.

Definition build_coinbase `{TxCodec} (height reward : Z) (reward_script tag : bytes)
    (en1_len en2_len : nat) (witness_commitment : option bytes) : result PoolError (bytes * nat) :=
  let height_script := encode_bip34_height height in
  let en_total := (en1_len + en2_len)%nat in
  if bool_decide (en_total = 0%nat)
  then Err (Other "Total extranonce width must be at least one byte")
  else
    let script_sig_len := (length height_script + length tag + en_total)%nat in
    _ ← check_coinbase_script_sig_len (Z.of_nat script_sig_len);
    let script_sig_content := height_script ++ tag ++ repeat x00 en_total in
    let serialized :=
      tx_serialize (coinbase_tx script_sig_content reward reward_script witness_commitment) in
    if bool_decide (find_bytes serialized script_sig_content = Some SCRIPT_SIG_OFFSET) then
      let offset := (SCRIPT_SIG_OFFSET + length height_script + length tag)%nat in
      let coinbase_weight := Z.of_nat (length serialized) * 4 + 36 in
      if COINBASE_WEIGHT_RESERVE <? coinbase_weight
      then Err (Other "coinbase weighs more than the block template reserved for it")
      else Ok (serialized, offset)
    else Err (Other "coinbase scriptSig is not at the expected offset").

(** [cb[off..off + new.len()].copy_from_slice(new)], for a range inside [cb]
    (Rust panics outside it; [job_region_in_range] shows built jobs stay in). *)
Definition write_at (off : nat) (new cb : bytes) : bytes :=
  take off cb ++ new ++ drop (off + length new) cb.

(** [StratumJob::assemble_coinbase_into]: the contents left in [cb]. *)
Definition assemble_coinbase (job : StratumJob) (extranonce1 extranonce2 : bytes) : bytes :=
  let cb := coinbase_template job in
  let off := extranonce_offset job in
  let total := (extranonce1_len job + extranonce2_len job)%nat in
  let p := length extranonce1 in
  if bool_decide (p + length extranonce2 = total)%nat
  then write_at (off + p) extranonce2 (write_at off extranonce1 cb)
  else cb.

(** ** Job builders *)
Definition stratum_prev_hash `{HexCodec} (core_hex : string) : result PoolError string :=
  b ← ok_or (Other "Invalid prev_hash hex") (hex_decode core_hex);
  if bool_decide (length b = 32%nat)
  then Ok (hex_encode (swap_each_word (reverse b)))
  else Err (Other "prev_hash must be 32 bytes").

Definition decode_txid `{HexCodec} (tx : Rpc.GbtTransaction) : result PoolError bytes :=
  b ← ok_or (Other ("template txid " +:+ Rpc.txid tx)) (hex_decode_to_slice 32 (Rpc.txid tx));
  Ok (reverse b).

Definition build_job_template `{Sha256} `{HexCodec} (gbt : Rpc.GbtResult)
  : result PoolError JobTemplate :=
  tx_txids ← collect_results decode_txid (Rpc.transactions gbt);
  let branch := compute_merkle_branch_raw tx_txids in
  commitment ← match Rpc.default_witness_commitment gbt with
               | None => Ok None
               | Some s => b ← ok_or (Other "witness commitment hex") (hex_decode s); Ok (Some b)
               end;
  if announces_segwit (Rpc.rules gbt) && bool_decide (commitment = None)
  then Err (Other "template announces the segwit rule but carries no default_witness_commitment")
  else
    _ ← check_block_weight gbt;
    prev ← stratum_prev_hash (Rpc.prev_hash gbt);
    target ← ok_or (Other "Invalid bits") (bits_to_target (Rpc.bits gbt));
    Ok (mkJobTemplate prev (hex_encode <$> branch) branch (Rpc.version gbt) (Rpc.bits gbt)
          (Rpc.cur_time gbt) (Rpc.height gbt) target (Rpc.data <$> Rpc.transactions gbt)
          (Rpc.coinbase_value gbt) commitment).

(** [build_job_for_payout]; the job identifier comes from [next_job_id]. *)
Definition build_job_for_payout `{TxCodec} (id : string) (t : JobTemplate)
    (payout : PayoutDescriptor) (coinbase_tag : bytes) (en1_len en2_len : nat)
  : result PoolError StratumJob :=
  '(coinbase_bytes, offset) ←
     build_coinbase (t_height t) (t_coinbase_value t) (script_pubkey payout) coinbase_tag
       en1_len en2_len (t_witness_commitment t);
  let en_total := (en1_len + en2_len)%nat in
  Ok (mkStratumJob id (t_prev_hash t)
        (take offset coinbase_bytes) (drop (offset + en_total) coinbase_bytes)
        (t_merkle_branch t) (t_merkle_branch_raw t) (t_version t) (t_bits t) (t_cur_time t)
        (t_height t) (t_network_target t) coinbase_bytes offset en1_len en2_len
        (t_transactions t) (address payout) (bool_decide (is_Some (t_witness_commitment t)))).

(** ** The merkle branch against the block's merkle root *)
Section Merkle.
Context `{Sha256}.

(** Reference: the root of a block's transaction hashes, row by row, a last
    hash without a partner being paired with itself. *)
Fixpoint merkle_row (l : list bytes) : list bytes :=
  match l with
  | a :: b :: rest => double_sha256 (a ++ b) :: merkle_row rest
  | [a] => [double_sha256 (a ++ a)]
  | [] => []
  end.

Fixpoint merkle_rows (fuel : nat) (leaves : list bytes) : bytes :=
  match fuel with
  | O => []
  | S f => match leaves with
           | [root] => root
           | _ => merkle_rows f (merkle_row leaves)
           end
  end.

Definition block_merkle_root (leaves : list bytes) : bytes := merkle_rows (length leaves) leaves.

Definition climb (h : bytes) (branch : list bytes) : bytes :=
  fold_left (fun hash b => double_sha256 (hash ++ b)) branch h.

Lemma branch_loop_acc f p level acc :
  branch_loop f p level acc = acc ++ branch_loop f p level [].
Proof.
  revert p level acc; induction f as [|f IH]; intros p level acc; cbn [branch_loop].
  - by rewrite app_nil_r.
  - case_match; [|by rewrite app_nil_r].
    destruct (pad_level level !! _) as [[s|]|]; [|apply IH..].
    rewrite (IH _ _ (acc ++ [s])), (IH _ _ ([] ++ [s])). by rewrite <- !app_assoc.
Qed.

(** The row of a padded level, as the code pairs it. *)
Fixpoint pair_row (l : list bytes) : list bytes :=
  match l with
  | a :: b :: rest => double_sha256 (a ++ b) :: pair_row rest
  | _ => []
  end.

Lemma pad_level_cons2 {A} (a b : A) l : pad_level (a :: b :: l) = a :: b :: pad_level l.
Proof.
  unfold pad_level. cbn [length Nat.even]. case_match; [done|].
  destruct l as [|c l]; [done|]. rewrite !last_cons_cons.
  destruct (last (c :: l)) eqn:E; [done|]. by apply last_None in E.
Qed.

Lemma pair_row_padded l : pair_row (pad_level l) = merkle_row l.
Proof.
  induction l as [l IH] using (induction_ltof1 _ length). unfold ltof in IH.
  destruct l as [|a [|b l]]; [done..|]. rewrite pad_level_cons2. cbn [pair_row merkle_row].
  f_equal. apply IH. cbn [length]. lia.
Qed.

Lemma length_pair_row l : (length (pair_row l) <= length l)%nat.
Proof.
  induction l as [l IH] using (induction_ltof1 _ length). unfold ltof in IH.
  destruct l as [|a [|b l]]; cbn [pair_row length]; [lia..|].
  specialize (IH l ltac:(cbn [length]; lia)). lia.
Qed.

Lemma next_level_known l : next_level (Some <$> l) = Some <$> pair_row l.
Proof.
  induction l as [l IH] using (induction_ltof1 _ length). unfold ltof in IH.
  destruct l as [|a [|b l]]; [done..|]. cbn. f_equal. apply IH. cbn [length]. lia.
Qed.

(** Padding a row that starts with the coinbase slot pads its tail. *)
Definition pad_tail (rest : list bytes) : list bytes :=
  if Nat.even (S (length rest)) then rest
  else match last rest with Some x => rest ++ [x] | None => rest end.

Lemma pad_level_tail {A} (g : bytes -> A) (h : A) rest :
  rest <> [] -> pad_level (h :: (g <$> rest)) = h :: (g <$> pad_tail rest).
Proof.
  intros Hne. unfold pad_level, pad_tail. cbn [length]. rewrite length_fmap.
  case_match; [done|]. rewrite last_cons, fmap_last.
  destruct (last rest) as [x|] eqn:El; simpl.
  - by rewrite fmap_app.
  - by apply last_None in El.
Qed.

(** A padded tail has a first element, and pairing the rest shrinks it. *)
Lemma pad_tail_shape rest :
  rest <> [] -> exists s rest', pad_tail rest = s :: rest'
    /\ (length (pair_row rest') < length rest)%nat.
Proof.
  intros Hne. unfold pad_tail. destruct rest as [|s rest]; [done|].
  case_match.
  - exists s, rest. split; [done|]. pose proof (length_pair_row rest). cbn [length]. lia.
  - destruct (last (s :: rest)) as [x|] eqn:El; [|by apply last_None in El].
    exists s, (rest ++ [x]). split; [done|].
    destruct rest as [|b rest]; [cbn in *; simplify_eq/=; lia|].
    cbn [app pair_row]. cbn [length].
    assert (forall l : list bytes, (length (pair_row (l ++ [x])) <= length l)%nat) as Hl.
    { clear. intros l. induction l as [l IH] using (induction_ltof1 _ length). unfold ltof in IH.
      destruct l as [|a [|c l]]; cbn [app pair_row length]; [lia..|].
      specialize (IH l ltac:(cbn [length]; lia)). lia. }
    destruct rest as [|c rest]; cbn [app pair_row length]; [lia|].
    specialize (Hl rest). lia.
Qed.

Lemma climb_branch f1 f2 rest h :
  (length rest < f1)%nat -> (length rest < f2)%nat ->
  climb h (branch_loop f1 0 (None :: (Some <$> rest)) []) = merkle_rows f2 (h :: rest).
Proof.
  revert f2 rest h; induction f1 as [|f1 IH]; intros f2 rest h H1 H2; [lia|].
  destruct f2 as [|f2]; [lia|].
  destruct rest as [|r rest]; [done|].
  assert (r :: rest <> []) as Hne by done.
  revert H1 H2 Hne. generalize (r :: rest); clear r rest; intros rest H1 H2 Hne.
  cbn [branch_loop length]. rewrite length_fmap.
  rewrite (proj2 (Nat.ltb_lt _ _)) by (destruct rest; [done | cbn [length]; lia]).
  destruct (pad_tail_shape rest Hne) as (s & rest' & Hp & Hlt).
  rewrite pad_level_tail, Hp by done. cbn.
  rewrite next_level_known, branch_loop_acc. cbn.
  transitivity (merkle_rows f2 (pair_row (pad_level (h :: rest)))).
  - replace (pad_level (h :: rest)) with (h :: s :: rest').
    + cbn [pair_row]. apply IH; lia.
    + pose proof (pad_level_tail id h rest Hne) as E.
      rewrite !list_fmap_id, Hp in E. done.
  - rewrite pair_row_padded. by destruct rest.
Qed.
End Merkle.

(** ** BIP34 heights *)
Lemma height_bytes_spec f n :
  0 < n < 256 ^ Z.of_nat f ->
  le_val (height_bytes f n) = n
  /\ (exists init b, height_bytes f n = init ++ [b] /\ byte_val b <> 0)
  /\ forall k, n < 256 ^ Z.of_nat k -> (length (height_bytes f n) <= k)%nat.
Proof.
  revert n; induction f as [|f IH]; intros n Hn; [simpl in Hn; lia|].
  rewrite Nat2Z.inj_succ, Z.pow_succ_r in Hn by lia.
  cbn [height_bytes]. rewrite (proj2 (Z.ltb_lt _ _)) by lia.
  change 0xff with (Z.ones 8). rewrite Z.land_ones, Z.shiftr_div_pow2 by lia.
  change (2 ^ 8) with 256.
  pose proof (Z.div_mod n 256 ltac:(lia)) as Hdm.
  pose proof (Z.mod_pos_bound n 256 ltac:(lia)) as Hm.
  cbn [le_val]. rewrite byte_val_of, Z.mod_mod by lia.
  destruct (Z.eq_dec (n / 256) 0) as [Ez|Ez].
  - rewrite Ez in *. replace (height_bytes f 0) with (@nil byte) by (by destruct f).
    split; [simpl; lia|]. split.
    + exists [], (byte_of (n mod 256)). split; [done|]. rewrite byte_val_of, Z.mod_mod; lia.
    + intros [|k] Hk; [simpl in Hk; lia | cbn [length]; lia].
  - assert (0 < n / 256 < 256 ^ Z.of_nat f) as Hr.
    { split; [pose proof (Z.div_pos n 256); lia | apply Z.div_lt_upper_bound; lia]. }
    destruct (IH _ Hr) as (Hv & (init & b & Hi & Hb) & Hl). split; [lia|]. split.
    + rewrite Hi. by exists (byte_of (n mod 256) :: init), b.
    + intros [|k] Hk; [simpl in Hk; lia|]. cbn [length].
      rewrite Nat2Z.inj_succ, Z.pow_succ_r in Hk by lia.
      apply le_n_S, Hl, Z.div_lt_upper_bound; lia.
Qed.

(** The shape of the three encodings. *)
Variant height_push (h : Z) : bytes -> Prop :=
| push_op0 : h = 0 -> height_push h [x00]
| push_small : 1 <= h <= 16 -> height_push h [byte_of (0x50 + h)]
| push_data (bs init : bytes) (top : byte) :
    17 <= h -> bs = init ++ [top] -> le_val bs = h -> byte_val top < 0x80 ->
    (byte_val top = 0 -> exists init' b, init = init' ++ [b] /\ 0x80 <= byte_val b) ->
    (1 <= length bs <= 9)%nat -> (h < 2 ^ 31 -> (length bs <= 4)%nat) ->
    height_push h (byte_of (Z.of_nat (length bs)) :: bs).

Lemma high_bit_test b : (Z.land (byte_val b) 0x80 =? 0) = (byte_val b <? 0x80).
Proof. destruct b; reflexivity. Qed.

Lemma encode_bip34_height_push h : is_u64 h -> height_push h (encode_bip34_height h).
Proof.
  intros [H0 Hmax]. unfold encode_bip34_height, u64_max in *.
  destruct (Z.eqb_spec h 0) as [->|]; [by constructor|].
  destruct (Z.leb_spec h 16); [constructor; lia|].
  destruct (height_bytes_spec 8 h) as (Hv & (init & b & Hi & Hb) & Hl); [simpl; lia|].
  set (hb := height_bytes 8 h) in *. clearbody hb.
  pose proof (Hl 8%nat ltac:(simpl; lia)) as Hl8.
  assert (1 <= length hb)%nat as Hl1 by (rewrite Hi, length_app; cbn [length]; lia).
  assert (last hb = Some b) as -> by (rewrite Hi; apply last_snoc). rewrite high_bit_test.
  destruct (Z.ltb_spec (byte_val b) 0x80) as [Hlt|Hge].
  - eapply (push_data h hb init b); try done; [lia | lia |].
    intros Hh. apply Hl. simpl. lia.
  - eapply (push_data h (hb ++ [x00]) hb x00); try done.
    + lia.
    + rewrite le_val_app. cbn. lia.
    + rewrite Hi. eauto.
    + rewrite length_app. cbn [length]. lia.
    + intros Hh. rewrite length_app. cbn [length].
      pose proof (Hl 4%nat ltac:(simpl; lia)) as Hl4.
      destruct (decide (length hb = 4)%nat) as [E4|]; [exfalso|lia].
      rewrite Hi, length_app in E4. cbn [length] in E4.
      rewrite Hi, le_val_app in Hv. replace (length init) with 3%nat in Hv by lia.
      pose proof (le_val_bounds init). cbn in Hv. lia.
Qed.

Lemma length_height_push h bs :
  height_push h bs -> (1 <= length bs <= 10)%nat /\ (h < 2 ^ 31 -> (length bs <= 5)%nat).
Proof.
  destruct 1 as [| |bs init top ? ? ? ? ? ? Hs]; cbn [length]; [lia..|].
  split; [lia|]. intros Hh. specialize (Hs Hh). lia.
Qed.

(** ** Coinbase layout *)
Definition coinbase_head (script_sig_len : Z) : bytes :=
  to_le_bytes 4 1 ++ [x01] ++ (repeat x00 32 ++ to_le_bytes 4 0xFFFFFFFF)
  ++ [byte_of script_sig_len].

Definition coinbase_tail (reward : Z) (reward_script : bytes) (wc : option bytes) : bytes :=
  let outs := mkTxOut reward reward_script ::
              match wc with Some w => [mkTxOut 0 w] | None => [] end in
  to_le_bytes 4 0xFFFFFFFF ++ compact_size (Z.of_nat (length outs))
  ++ concat (txout_layout <$> outs) ++ to_le_bytes 4 0.

Lemma length_coinbase_head n : length (coinbase_head n) = SCRIPT_SIG_OFFSET.
Proof. reflexivity. Qed.

Lemma coinbase_layout ss reward script wc :
  (length ss <= 100)%nat ->
  legacy_layout (coinbase_tx ss reward script wc)
  = coinbase_head (Z.of_nat (length ss)) ++ ss ++ coinbase_tail reward script wc.
Proof.
  intros Hs. unfold legacy_layout, coinbase_tx, coinbase_head, coinbase_tail.
  cbn [tx_version tx_input tx_output tx_lock_time]. cbn [fmap list_fmap concat].
  unfold txin_layout at 1. cbn [previous_output op_txid op_vout script_sig sequence].
  unfold var_bytes at 1. unfold compact_size at 2.
  rewrite (proj2 (Z.ltb_lt _ _)) by lia.
  cbn [to_le_bytes]. rewrite app_nil_r, <- !app_assoc. reflexivity.
Qed.

Lemma coinbase_tx_witness_free ss reward script wc :
  witness_free (coinbase_tx ss reward script wc).
Proof. by repeat constructor. Qed.

Lemma serialize_coinbase `{TxCodec} ss reward script wc :
  (length ss <= 100)%nat ->
  tx_serialize (coinbase_tx ss reward script wc)
  = coinbase_head (Z.of_nat (length ss)) ++ ss ++ coinbase_tail reward script wc.
Proof.
  intros Hs. rewrite tx_serialize_legacy; [|done | apply coinbase_tx_witness_free].
  by apply coinbase_layout.
Qed.

(** Everything a successful [build_coinbase] establishes. *)
Lemma build_coinbase_Ok `{TxCodec} height reward script tag n1 n2 wc ser off :
  build_coinbase height reward script tag n1 n2 wc = Ok (ser, off) ->
  let hs := encode_bip34_height height in
  let len := (length hs + length tag + (n1 + n2))%nat in
  (0 < n1 + n2)%nat /\ (2 <= len <= 100)%nat
  /\ off = (SCRIPT_SIG_OFFSET + length hs + length tag)%nat
  /\ ser = coinbase_head (Z.of_nat len) ++ (hs ++ tag ++ repeat x00 (n1 + n2))
           ++ coinbase_tail reward script wc
  /\ Z.of_nat (length ser) * 4 + 36 <= COINBASE_WEIGHT_RESERVE.
Proof.
  unfold build_coinbase. intros Hb. case_bool_decide as Hn; [done|].
  bind_inv Hb. unfold check_coinbase_script_sig_len in *.
  destruct (_ && _) eqn:El in *; [|done]. zbool.
  unfold MIN_COINBASE_SCRIPT_SIG, MAX_COINBASE_SCRIPT_SIG in *.
  case_bool_decide; [|done].
  match type of Hb with (if ?c then _ else _) = _ => destruct c eqn:Ew; [done|] end.
  zbool. simplify_eq. split; [lia|]. split; [lia|]. split; [done|]. split; [|done].
  rewrite serialize_coinbase; rewrite !length_app, repeat_length; [|lia].
  do 3 f_equal. lia.
Qed.

(** ** The extranonce region of a built job *)
Lemma write_at_mid pre mid post new off :
  off = length pre -> length mid = length new ->
  write_at off new (pre ++ mid ++ post) = pre ++ new ++ post.
Proof.
  intros -> Hl. unfold write_at. rewrite take_app_length. do 2 f_equal.
  rewrite app_assoc, drop_app_length' by (rewrite length_app; lia). done.
Qed.

(** Bytes before and after the extranonce in the serialised coinbase. *)
Definition coinbase_prefix (t : JobTemplate) (tag : bytes) (en_total : nat) : bytes :=
  let hs := encode_bip34_height (t_height t) in
  coinbase_head (Z.of_nat (length hs + length tag + en_total)) ++ hs ++ tag.
Definition coinbase_suffix (t : JobTemplate) (payout : PayoutDescriptor) : bytes :=
  coinbase_tail (t_coinbase_value t) (script_pubkey payout) (t_witness_commitment t).

(** The extranonce region of a built job is in range and zeroed, and
    [coinbase1] / [coinbase2] are exactly what surrounds it. *)
Lemma job_region_in_range `{TxCodec} id t payout tag n1 n2 job :
  build_job_for_payout id t payout tag n1 n2 = Ok job ->
  coinbase_template job = coinbase1 job ++ repeat x00 (n1 + n2) ++ coinbase2 job
  /\ extranonce_offset job = length (coinbase1 job)
  /\ extranonce1_len job = n1 /\ extranonce2_len job = n2
  /\ coinbase1 job = coinbase_prefix t tag (n1 + n2)
  /\ coinbase2 job = coinbase_suffix t payout
  /\ (length (encode_bip34_height (t_height t)) + length tag + (n1 + n2) <= 100)%nat.
Proof.
  unfold build_job_for_payout. intros Hj. bind_inv Hj.
  destruct x as [ser off]. injection Hj as <-. cbn [coinbase_template coinbase1 coinbase2
    extranonce_offset extranonce1_len extranonce2_len].
  match goal with Hb : build_coinbase _ _ _ _ _ _ _ = _ |- _ =>
    apply build_coinbase_Ok in Hb as (_ & Hlen & -> & Hser & _) end.
  set (pre := coinbase_prefix t tag (n1 + n2)).
  assert (ser = pre ++ repeat x00 (n1 + n2) ++ coinbase_suffix t payout) as Es
    by (rewrite Hser; unfold pre, coinbase_prefix; by rewrite <- !app_assoc).
  assert (SCRIPT_SIG_OFFSET + length (encode_bip34_height (t_height t)) + length tag
          = length pre)%nat as Eo
    by (unfold pre, coinbase_prefix; rewrite !length_app, length_coinbase_head; lia).
  rewrite !Eo, Es, take_app_length.
  rewrite (app_assoc pre), drop_app_length' by (rewrite length_app, repeat_length; lia).
  rewrite <- app_assoc. repeat split; try done. lia.
Qed.

Lemma assemble_exact `{TxCodec} id t payout tag n1 n2 job en1 en2 :
  build_job_for_payout id t payout tag n1 n2 = Ok job ->
  (length en1 + length en2 = n1 + n2)%nat ->
  assemble_coinbase job en1 en2 = coinbase1 job ++ en1 ++ en2 ++ coinbase2 job.
Proof.
  intros Hj Hl. destruct (job_region_in_range _ _ _ _ _ _ _ Hj) as (Ht & Ho & H1 & H2 & _).
  unfold assemble_coinbase. rewrite bool_decide_true by (rewrite H1, H2; lia).
  rewrite Ho, Ht, <- Hl, repeat_app, <- app_assoc.
  rewrite write_at_mid by (by rewrite ?repeat_length).
  rewrite (app_assoc _ en1), write_at_mid by (rewrite ?length_app, ?repeat_length; lia).
  by rewrite <- app_assoc.
Qed.

Lemma assemble_wrong_width `{TxCodec} id t payout tag n1 n2 job en1 en2 :
  build_job_for_payout id t payout tag n1 n2 = Ok job ->
  (length en1 + length en2 <> n1 + n2)%nat ->
  assemble_coinbase job en1 en2 = coinbase1 job ++ repeat x00 (n1 + n2) ++ coinbase2 job.
Proof.
  intros Hj Hl. destruct (job_region_in_range _ _ _ _ _ _ _ Hj) as (Ht & _ & H1 & H2 & _).
  unfold assemble_coinbase. by rewrite bool_decide_false by (rewrite H1, H2; lia).
Qed.

(** ** The offset check of [build_coinbase] never fires *)
Lemma find_bytes_from_app pos pre rest needle :
  take (length needle) rest = needle ->
  (forall k, (k < length pre)%nat ->
     take (length needle) (drop k (pre ++ rest)) <> needle) ->
  find_bytes_from pos (pre ++ rest) needle = Some (pos + length pre)%nat.
Proof.
  intros Hr. revert pos; induction pre as [|b pre IH]; intros pos Hk.
  - rewrite Nat.add_0_r. cbn [app].
    destruct rest as [|r rest]; cbn [find_bytes_from].
    + rewrite take_nil in Hr. subst. reflexivity.
    + rewrite (bool_decide_true _ Hr).
      destruct (Nat.ltb_spec (length (r :: rest)) (length needle)) as [Hlt|]; [|done].
      rewrite <- Hr, length_take in Hlt. lia.
  - cbn [app find_bytes_from].
    destruct (Nat.ltb_spec (length (b :: pre ++ rest)) (length needle)) as [Hlt|].
    + exfalso. cbn [length] in Hlt. rewrite length_app in Hlt.
      assert (length needle <= length rest)%nat by (rewrite <- Hr at 1; rewrite length_take; lia). lia.
    + rewrite bool_decide_false by (apply (Hk 0%nat); cbn [length]; lia).
      rewrite IH; [cbn [length]; f_equal; lia|].
      intros k Hlt. apply (Hk (S k)). cbn [length]. lia.
Qed.

Lemma window_lookup (hay needle : bytes) k i :
  take (length needle) (drop k hay) = needle -> (i < length needle)%nat ->
  hay !! (k + i)%nat = needle !! i.
Proof.
  intros Hw Hi. rewrite <- Hw at 1. rewrite lookup_take_lt by done. by rewrite lookup_drop.
Qed.

(** Bytes of the 42-byte head, by position. *)
Lemma head_byte L k b :
  (k < 42)%nat -> coinbase_head L !! k = Some b ->
  (b = x01 /\ (k = 0 \/ k = 4)%nat /\ coinbase_head L !! S k = Some x00)
  \/ b = x00 \/ b = xff \/ (k = 41%nat /\ b = byte_of L).
Proof.
  intros Hk. do 42 (destruct k as [|k]; [cbn; intros [= <-]; tauto|]). lia.
Qed.

(** A window over the script length byte can only match a constant needle. *)
Lemma shifted_match_constant (head needle tail : bytes) b :
  length head = 42%nat -> head !! 41%nat = Some b ->
  take (length needle) (drop 41 (head ++ needle ++ tail)) = needle ->
  forall i, (i < length needle)%nat -> needle !! i = Some b.
Proof.
  intros Hl Hb Hw i. induction i as [|i IH]; intros Hi.
  - rewrite <- (window_lookup _ _ _ _ Hw Hi). rewrite lookup_app_l by lia. done.
  - rewrite <- (window_lookup _ _ _ _ Hw Hi), lookup_app_r by lia.
    replace (41 + S i - length head)%nat with i by lia.
    rewrite lookup_app_l by lia. apply IH. lia.
Qed.

(** First byte of a height push above zero: an opcode or a length, never 0 or
    255; when it is 1, the single data byte that follows is at least 17. *)
Lemma height_push_first h hs b :
  height_push h hs -> 1 <= h -> hs !! 0%nat = Some b ->
  1 <= byte_val b <= 96
  /\ (byte_val b = 1 -> exists c, hs = [b; c] /\ 17 <= byte_val c).
Proof.
  intros Hp H1. destruct Hp as [|Hh|bs init top Hh Hbs Hv Hlt Hz Hlb _]; [lia| |];
    simpl; intros [= <-]; rewrite byte_val_of, Z.mod_small by lia.
  - split; [lia|]. lia.
  - split; [lia|]. intros E. destruct bs as [|c [|? ?]]; cbn [length] in E; try lia.
    exists c. split; [done|]. simpl in Hv. lia.
Qed.

Lemma no_early_match h tag n tail k :
  is_u64 h -> 1 <= h -> (1 <= n)%nat -> (k < 42)%nat ->
  let hs := encode_bip34_height h in
  let needle := hs ++ tag ++ repeat x00 n in
  (length hs + length tag + n <= 100)%nat ->
  take (length needle)
    (drop k (coinbase_head (Z.of_nat (length hs + length tag + n)) ++ needle ++ tail)) <> needle.
Proof.
  intros Hu H1 Hn Hk hs needle HL Hw.
  set (L := (length hs + length tag + n)%nat) in *.
  assert (length needle = L) as Hlen
    by (unfold needle; rewrite !length_app, repeat_length; unfold L; lia).
  pose proof (encode_bip34_height_push h Hu) as Hp. fold hs in Hp.
  assert (1 <= length hs)%nat as Hhs by (apply length_height_push in Hp; lia).
  destruct (coinbase_head (Z.of_nat L) !! k) as [b|] eqn:Eb;
    [|apply lookup_ge_None in Eb; rewrite length_coinbase_head in Eb; unfold SCRIPT_SIG_OFFSET in Eb; lia].
  assert (hs !! 0%nat = Some b) as Hb0.
  { transitivity (needle !! 0%nat); [symmetry; apply lookup_app_l; lia|].
    rewrite <- (window_lookup _ _ _ 0%nat Hw ltac:(rewrite Hlen; unfold L; lia)), Nat.add_0_r.
    by rewrite lookup_app_l by (rewrite length_coinbase_head; unfold SCRIPT_SIG_OFFSET; lia). }
  destruct (height_push_first h hs b Hp H1 Hb0) as [Hrange Hone].
  destruct (head_byte _ _ _ Hk Eb) as [(-> & Hk4 & Hnext)|[->|[->|[-> ->]]]].
  - destruct (Hone eq_refl) as (c & Hs & Hc17).
    assert (needle !! 1%nat = Some c) as Hc by (unfold needle; by rewrite Hs).
    rewrite <- (window_lookup _ _ _ _ Hw) in Hc by (rewrite Hlen; unfold L; rewrite Hs; cbn [length]; lia).
    rewrite lookup_app_l in Hc by (rewrite length_coinbase_head; unfold SCRIPT_SIG_OFFSET; lia).
    rewrite Nat.add_1_r, Hnext in Hc. injection Hc as <-. change (byte_val x00) with 0 in Hc17. lia.
  - change (byte_val x00) with 0 in Hrange. lia.
  - change (byte_val xff) with 255 in Hrange. lia.
  - pose proof (shifted_match_constant _ needle tail _ (length_coinbase_head _) Eb Hw (L - 1)%nat
                  ltac:(lia)) as Hlast.
    assert (needle !! (L - 1)%nat = Some x00) as Hz.
    { unfold needle. rewrite app_assoc, lookup_app_r by (rewrite length_app; unfold L; lia).
      apply lookup_repeat. rewrite length_app. unfold L. lia. }
    rewrite Hz in Hlast. injection Hlast as Hlast. apply (f_equal byte_val) in Hlast.
    rewrite byte_val_of in Hlast. change (byte_val x00) with 0 in Hlast.
    rewrite Z.mod_small in Hlast by lia. lia.
Qed.

Lemma length_compact_size_small n : 0 <= n < 0xfd -> length (compact_size n) = 1%nat.
Proof. intros Hn. unfold compact_size. rewrite (proj2 (Z.ltb_lt _ _)) by lia. done. Qed.

Lemma length_txout_layout v sc :
  (length sc <= 200)%nat -> length (txout_layout (mkTxOut v sc)) = (9 + length sc)%nat.
Proof.
  intros Hs. unfold txout_layout, var_bytes. cbn [txout_value txout_script].
  rewrite !length_app, length_to_le_bytes, length_compact_size_small by lia. lia.
Qed.

Lemma length_coinbase_tail reward script wc :
  (length script <= 200)%nat -> (forall w, wc = Some w -> (length w <= 200)%nat) ->
  (length (coinbase_tail reward script wc) <= 427)%nat.
Proof.
  intros Hs Hw. unfold coinbase_tail. cbv zeta.
  rewrite !length_app, !length_to_le_bytes.
  destruct wc as [w|]; cbn [fmap list_fmap concat length].
  - specialize (Hw w eq_refl).
    rewrite !length_app, !length_txout_layout, length_compact_size_small by lia. cbn [length]. lia.
  - rewrite !length_app, length_txout_layout, length_compact_size_small by lia. cbn [length]. lia.
Qed.

(** Within the consensus length bounds, and for scripts of ordinary size, the
    coinbase of any height above zero builds. *)
Lemma build_coinbase_succeeds `{TxCodec} h reward script tag n1 n2 wc :
  is_u64 h -> 1 <= h -> (1 <= n1 + n2)%nat ->
  (2 <= length (encode_bip34_height h) + length tag + (n1 + n2) <= 100)%nat ->
  (length script <= 200)%nat -> (forall w, wc = Some w -> (length w <= 200)%nat) ->
  exists ser off, build_coinbase h reward script tag n1 n2 wc = Ok (ser, off).
Proof.
  intros Hu H1 Hn HL Hs Hw. unfold build_coinbase.
  rewrite bool_decide_false by lia.
  unfold check_coinbase_script_sig_len, MIN_COINBASE_SCRIPT_SIG, MAX_COINBASE_SCRIPT_SIG.
  rewrite (proj2 (Z.leb_le _ _)), (proj2 (Z.leb_le _ _)) by lia. simpl.
  set (needle := encode_bip34_height h ++ tag ++ repeat x00 (n1 + n2)).
  assert (length needle = (length (encode_bip34_height h) + length tag + (n1 + n2))%nat) as Hlen
    by (unfold needle; rewrite !length_app, repeat_length; lia).
  rewrite serialize_coinbase by lia.
  rewrite bool_decide_true.
  - rewrite (proj2 (Z.ltb_ge _ _)); [eauto|].
    rewrite !length_app, length_coinbase_head.
    pose proof (length_coinbase_tail reward script wc Hs Hw).
    unfold COINBASE_WEIGHT_RESERVE, SCRIPT_SIG_OFFSET. lia.
  - unfold find_bytes. rewrite find_bytes_from_app; [done | by rewrite take_app_length |].
    intros k Hk. rewrite Hlen at 2. by apply no_early_match; [| | | | lia].
Qed.

Lemma merkle_root_of_branch `{Sha256} txids coinbase :
  merkle_root (compute_merkle_branch_raw txids) coinbase
  = block_merkle_root (double_sha256 coinbase :: txids).
Proof.
  unfold merkle_root, compute_merkle_branch_raw, block_merkle_root.
  destruct txids as [|t txids]; [done|].
  rewrite <- (climb_branch (length (None :: (Some <$> t :: txids)))); [done | |].
  - cbn [length]. rewrite length_fmap. cbn [length]. lia.
  - cbn [length]. lia.
Qed.

Lemma assemble_serialized `{TxCodec} (id : string) (t : JobTemplate)
    (payout : PayoutDescriptor) (tag : bytes) (n1 n2 : nat) (job : StratumJob) (en1 en2 : bytes) :
  build_job_for_payout id t payout tag n1 n2 = Ok job ->
  (length en1 + length en2 = n1 + n2)%nat ->
  assemble_coinbase job en1 en2 = coinbase1 job ++ en1 ++ en2 ++ coinbase2 job
  /\ assemble_coinbase job en1 en2
     = tx_serialize (coinbase_tx (encode_bip34_height (t_height t) ++ tag ++ en1 ++ en2)
                       (t_coinbase_value t) (script_pubkey payout) (t_witness_commitment t)).
Proof.
  intros Hj Hl. pose proof (assemble_exact _ _ _ _ _ _ _ _ _ Hj Hl) as E.
  split; [done|]. rewrite E.
  destruct (job_region_in_range _ _ _ _ _ _ _ Hj) as (_ & _ & _ & _ & -> & -> & HL).
  rewrite serialize_coinbase by (rewrite !length_app; lia).
  unfold coinbase_prefix, coinbase_suffix. rewrite !length_app, <- !app_assoc.
  do 2 f_equal; lia.
Qed.

(** ** Properties *)

(** C6. The Stratum merkle branch is right: climbing it from the hash of any
    coinbase gives the merkle root of the whole block, coinbase first, for any
    list of transaction hashes (including odd rows, whose last hash is
    duplicated) and any hash function. *)
Theorem merkle_branch_reaches_block_root `{Sha256} (txids : list bytes) (coinbase : bytes) :
  merkle_root (compute_merkle_branch_raw txids) coinbase
  = block_merkle_root (double_sha256 coinbase :: txids).
Proof. apply merkle_root_of_branch. Qed.

(** C13. What the miner hashes is what the pool validates, and it pays the
    miner: for a job built for [payout] and an extranonce of the reserved
    width, the coinbase the pool splices is [coinbase1 ++ en1 ++ en2 ++
    coinbase2], and those bytes are the serialisation of the transaction whose
    scriptSig is height, tag and extranonce and whose first output pays the
    whole template value to [payout]'s script. *)
Theorem assembled_coinbase_pays_payout `{TxCodec} (id : string) (t : JobTemplate)
    (payout : PayoutDescriptor) (tag : bytes) (n1 n2 : nat) (job : StratumJob) (en1 en2 : bytes) :
  build_job_for_payout id t payout tag n1 n2 = Ok job ->
  (length en1 + length en2 = n1 + n2)%nat ->
  assemble_coinbase job en1 en2 = coinbase1 job ++ en1 ++ en2 ++ coinbase2 job
  /\ assemble_coinbase job en1 en2
     = tx_serialize (coinbase_tx (encode_bip34_height (t_height t) ++ tag ++ en1 ++ en2)
                       (t_coinbase_value t) (script_pubkey payout) (t_witness_commitment t)).
Proof. apply assemble_serialized. Qed.

Definition demo_template : JobTemplate :=
  mkJobTemplate "" [] [] 0x20000000 "1d00ffff" 1700000000 900000 DIFF1_TARGET [[x01; x02]]
    312500000 None.
Definition demo_payout : PayoutDescriptor := mkPayout "addr" [x51].
Definition demo_job : StratumJob :=
  match @build_job_for_payout legacy_codec "1" demo_template demo_payout
          (string_bytes "/btcpool/") 4 4 with
  | Ok job => job
  | Err _ => mkStratumJob "" "" [] [] [] [] 0 "" 0 0 [] [] 0 0 0 [] "" false
  end.

Lemma assembled_coinbase_pays_payout_witness :
  assemble_coinbase demo_job [x01; x02; x03; x04] [x05; x06; x07; x08]
    = coinbase1 demo_job ++ [x01; x02; x03; x04] ++ [x05; x06; x07; x08] ++ coinbase2 demo_job
  /\ assemble_coinbase demo_job [x01; x02; x03; x04] [x05; x06; x07; x08]
     = @tx_serialize legacy_codec
         (coinbase_tx (encode_bip34_height 900000 ++ string_bytes "/btcpool/"
                         ++ [x01; x02; x03; x04] ++ [x05; x06; x07; x08]) 312500000 [x51] None).
Proof.
  apply (@assembled_coinbase_pays_payout legacy_codec "1" demo_template demo_payout
           (string_bytes "/btcpool/") 4 4 demo_job); [vm_compute; reflexivity | reflexivity].
Defined.

(** C14. BIP34 heights are encoded as Bitcoin Core's [CScript() << nHeight]:
    [OP_0] at 0, [OP_1]..[OP_16] up to 16, and above that a length byte and a
    minimal little-endian push whose top byte has a clear sign bit and is zero
    only where the next byte needs it; heights below 2^31 take at most 5
    bytes. *)
Theorem bip34_height_encoding (h : Z) :
  is_u64 h ->
  height_push h (encode_bip34_height h)
  /\ (h < 2 ^ 31 -> (length (encode_bip34_height h) <= 5)%nat).
Proof.
  intros Hu. pose proof (encode_bip34_height_push h Hu) as Hp.
  split; [done|]. by apply length_height_push.
Qed.

Lemma bip34_height_encoding_witness :
  height_push 900000 (encode_bip34_height 900000)
  /\ (900000 < 2 ^ 31 -> (length (encode_bip34_height 900000) <= 5)%nat).
Proof. apply (bip34_height_encoding 900000). unfold is_u64, u64_max. lia. Defined.

(** The rule gate reports nothing exactly when every [!]-prefixed rule
    names a supported one (in any ASCII case) and no required version bit lies
    inside the BIP320 rolling mask. *)
Lemma gbt_rules_gate (gbt : Rpc.GbtResult) :
  unsupported_gbt_rules gbt = [] <->
  (forall rule name, rule ∈ Rpc.rules gbt -> strip_prefix1 c_bang rule = Some name ->
     exists known, known ∈ SUPPORTED_GBT_RULES /\ eq_ignore_ascii_case known name = true)
  /\ Z.land (Rpc.vbrequired gbt) VERSION_ROLLING_MASK = 0.
Proof.
  unfold unsupported_gbt_rules.
  set (names := omap (strip_prefix1 c_bang) (Rpc.rules gbt)).
  assert (filter (fun name => existsb (fun known => eq_ignore_ascii_case known name)
                                SUPPORTED_GBT_RULES = false) names = [] <->
          forall rule name, rule ∈ Rpc.rules gbt -> strip_prefix1 c_bang rule = Some name ->
     exists known, known ∈ SUPPORTED_GBT_RULES /\ eq_ignore_ascii_case known name = true) as Hf.
  { split.
    - intros Hnil rule name Hr Hn.
      destruct (existsb (fun known => eq_ignore_ascii_case known name) SUPPORTED_GBT_RULES) eqn:E.
      + apply existsb_exists in E as (known & Hin & He). exists known.
        split; [by apply list_elem_of_In | done].
      + exfalso. eapply (filter_nil_not_elem_of _ names name Hnil E).
        apply list_elem_of_omap. eauto.
    - intros Hall. destruct (filter _ names) as [|name l] eqn:E; [done|]. exfalso.
      assert (name ∈ name :: l) as Hin by left. rewrite <- E in Hin.
      apply list_elem_of_filter in Hin as [Hx Hin].
      apply list_elem_of_omap in Hin as (rule & Hr & Hn).
      destruct (Hall rule name Hr Hn) as (known & Hk & He).
      apply list_elem_of_In in Hk.
      assert (existsb (fun k => eq_ignore_ascii_case k name) SUPPORTED_GBT_RULES = true)
        by (apply existsb_exists; eauto). congruence. }
  rewrite <- Hf. destruct (Z.eqb_spec (Z.land (Rpc.vbrequired gbt) VERSION_ROLLING_MASK) 0).
  - tauto.
  - split; [|tauto]. intros Hc. by apply app_eq_nil in Hc as [_ ?].
Qed.

End Template.
