(* ===== verification/Config.v ===== *)
(** * Config: boot-time validation ([src/config.rs])

    The configuration record, section by section, and the checks of
    [Config::validate], in order.  A [usize] is a [nat] whose sums are those of a
    release build, modulo 2^64 ([usize_add]).  How the record is read from a file
    and from the environment is in [ConfigLoad]. *)
From S2P Require Import Prelude Text F64 Json Errors Interfaces Target Rpc Hashrate Vardiff.
From S2P Require Import Security Identity Template.
Import Vardiff Security Template.

Module Config.

Record PoolConfig := mkPoolConfig {
  listen_addr : string;
  coinbase_tag : string;
  initial_difficulty : Z;
  extranonce1_size : nat;
  extranonce2_size : nat;
  max_connections : Z;
  idle_timeout_secs : Z;
  found_block_dir : string;
  confirmation_depth : Z;
  network : option string;
  strict_gbt_rules : bool
}.

Record Sv2Config := mkSv2Config {
  sv2_enabled : bool;
  persist_authority_key : bool;
  authority_key_file : string;
  cert_validity_secs : Z
}.

Record RpcConfig := mkRpcConfig {
  url : string;
  cookie_path : option string;
  user : option string;
  password : option string;
  timeout_secs : Z
}.

Record ZmqConfig := mkZmqConfig {
  hashblock_endpoint : string;
  poll_fallback : bool;
  poll_interval_ms : Z
}.

Record MetricsConfig := mkMetricsConfig {
  prometheus_addr : string;
  stats_db_path : option string
}.

Record LoggingConfig := mkLoggingConfig {
  level : string;
  json : bool;
  log_dir : option string
}.

Record Config := mkConfig {
  pool : PoolConfig;
  bitcoin_rpc : RpcConfig;
  zmq : ZmqConfig;
  vardiff : VardiffConfig;
  security : SecurityConfig;
  metrics : MetricsConfig;
  logging : LoggingConfig;
  sv2 : Sv2Config
}.

(** [1 length byte + up to 4 bytes of height]. *)
Definition WIDEST_HEIGHT_PUSH : nat := 5.

Definition bail {A} (b : bool) (msg : string) (k : result string A) : result string A :=
  if b then Err msg else k.

(** [usize] addition in a release build. *)
Definition usize_add (a : Z) (b : nat) : Z := wrap64 (a + Z.of_nat b).

(** [script_sig_len]: summed from the left. *)
Definition script_sig_len (p : PoolConfig) : Z :=
  usize_add (usize_add (usize_add (Z.of_nat WIDEST_HEIGHT_PUSH) (String.length (coinbase_tag p)))
               (extranonce1_size p)) (extranonce2_size p).

Definition validate (c : Config) : result string unit :=
  let p := pool c in
  let v := vardiff c in
  bail (bool_decide (stats_db_path (metrics c) = Some EmptyString)) "[metrics] stats_db_path is empty" (
  bail (usize_add (Z.of_nat (extranonce1_size p)) (extranonce2_size p) =? 0)
    "[pool] extranonce1_size + extranonce2_size must be >= 1" (
  _ ← map_err (fun _ => "shorten [pool] coinbase_tag or the extranonce sizes")
        (check_coinbase_script_sig_len (script_sig_len p));
  bail (negb ((1 <=? confirmation_depth p) && (confirmation_depth p <=? 100)))
    "[pool] confirmation_depth must be between 1 and 100" (
  bail (target_share_time_secs v =? 0) "[vardiff] target_share_time_secs must be >= 1" (
  bail (min_difficulty v =? 0) "[vardiff] min_difficulty must be >= 1" (
  bail (max_difficulty v <? min_difficulty v) "[vardiff] min_difficulty must not exceed max_difficulty" (
  bail (negb (is_finite (max_retarget_factor v)) || (max_retarget_factor v <=? f1)%f64)
    "[vardiff] max_retarget_factor must be > 1.0" (
  bail (negb (is_finite (deadzone_low v)) || (deadzone_low v <=? f0)%f64
        || (f1 <=? deadzone_low v)%f64) "[vardiff] deadzone_low must be between 0.0 and 1.0" (
  bail (negb (is_finite (deadzone_high v)) || (deadzone_high v <=? f1)%f64)
    "[vardiff] deadzone_high must be > 1.0" (
  bail (sv2_enabled (sv2 c) && persist_authority_key (sv2 c) && is_blank (authority_key_file (sv2 c)))
    "[sv2] authority_key_file must not be empty while persist_authority_key = true"
    (Ok tt)))))))))).

Lemma bail_Ok {A} b msg (k : result string A) a : bail b msg k = Ok a -> b = false /\ k = Ok a.
Proof. unfold bail. by destruct b. Qed.

(** What an accepted configuration guarantees to the rest of the pool. *)
Record validated (c : Config) : Prop := {
  v_extranonce : (1 <= extranonce1_size (pool c) + extranonce2_size (pool c))%nat;
  v_script_sig : script_sig_len (pool c) <= 100;
  v_depth : 1 <= confirmation_depth (pool c) <= 100;
  v_target : target_share_time_secs (vardiff c) <> 0;
  v_min : min_difficulty (vardiff c) <> 0;
  v_order : min_difficulty (vardiff c) <= max_difficulty (vardiff c);
  v_factor : is_finite (max_retarget_factor (vardiff c)) = true
             /\ (max_retarget_factor (vardiff c) <=? f1)%f64 = false
}.

Lemma config_validate_Ok c : validate c = Ok tt -> validated c.
Proof.
  unfold validate. intros H.
  apply bail_Ok in H as [_ H]. apply bail_Ok in H as [Hen H]. bind_inv H.
  destruct (check_coinbase_script_sig_len _) as [[]|] eqn:Ec; [|done].
  unfold check_coinbase_script_sig_len in Ec. destruct (_ && _) eqn:Er in Ec; [|done].
  do 6 (apply bail_Ok in H as [? H]). zbool.
  unfold MIN_COINBASE_SCRIPT_SIG, MAX_COINBASE_SCRIPT_SIG in *.
  split; try lia; try done. unfold usize_add in Hen.
  destruct (Nat.eq_dec (extranonce1_size (pool c) + extranonce2_size (pool c))%nat 0%nat) as [E|]; [|lia].
  exfalso. apply Hen. apply Nat.eq_add_0 in E as [-> ->]. done.
Qed.

(** The bytes a coinbase scriptSig needs at worst, as many as they are. *)
Definition script_sig_needs (p : PoolConfig) : Z :=
  Z.of_nat (WIDEST_HEIGHT_PUSH + String.length (coinbase_tag p) + extranonce1_size p + extranonce2_size p).

Lemma script_sig_len_wraps p : script_sig_len p = wrap64 (script_sig_needs p).
Proof.
  unfold script_sig_len, usize_add, wrap64, script_sig_needs, WIDEST_HEIGHT_PUSH.
  rewrite Zplus_mod_idemp_l, <- Z.add_assoc, Zplus_mod_idemp_l. f_equal. lia.
Qed.

Lemma length_string_bytes s : length (string_bytes s) = String.length s.
Proof. induction s; cbn; congruence. Qed.

(** ** Properties *)

(** C38. A configuration that passes validation can always build work, when the
    scriptSig it asks for is counted without wrapping: if the widest height push,
    the tag and the two extranonces come to less than 2^64 bytes, then for any
    height from 1 to 2^31 - 1, any payout script and witness commitment of at
    most 200 bytes, and any transaction codec, [build_job_for_payout] succeeds with
    the configured sizes, so no found block can be lost to an over-long coinbase.
    The sums of [validate] are those of a release build; sizes that wrap them
    around pass and leave no coinbase to build: [wrapped_sizes_pass]. *)
Theorem validated_config_builds_work `{TxCodec} (c : Config) (id : string) (t : JobTemplate)
    (payout : Identity.PayoutDescriptor) :
  validate c = Ok tt -> script_sig_needs (pool c) < 2 ^ 64 -> 1 <= t_height t < 2 ^ 31 ->
  (length (Identity.script_pubkey payout) <= 200)%nat ->
  (forall w, t_witness_commitment t = Some w -> (length w <= 200)%nat) ->
  is_ok (build_job_for_payout id t payout (string_bytes (coinbase_tag (pool c)))
           (extranonce1_size (pool c)) (extranonce2_size (pool c))) = true.
Proof.
  intros Hv Hfit Hh Hs Hw. apply config_validate_Ok in Hv as [Hen Hss _ _ _ _ _].
  rewrite script_sig_len_wraps in Hss. unfold wrap64 in Hss.
  rewrite Z.mod_small in Hss by (split; [apply Zle_0_nat | done]).
  unfold script_sig_needs, WIDEST_HEIGHT_PUSH in Hss.
  assert (is_u64 (t_height t)) as Hu by (unfold is_u64, u64_max; lia).
  destruct (length_height_push _ _ (encode_bip34_height_push _ Hu)) as [Hl1 Hl2].
  specialize (Hl2 ltac:(lia)).
  edestruct (build_coinbase_succeeds (t_height t) (t_coinbase_value t) (Identity.script_pubkey payout)
    (string_bytes (coinbase_tag (pool c))) (extranonce1_size (pool c)) (extranonce2_size (pool c))
    (t_witness_commitment t)) as (ser & off & E); [done | lia | done | | done | done |].
  - rewrite length_string_bytes. lia.
  - unfold build_job_for_payout. by rewrite E.
Qed.

(** The widest extranonces a configuration file can name, under a tag of nine
    bytes: the sums of [validate] come to 2^64 - 2 and to 12, it accepts them, and
    no job at all can be built. *)
Definition wrapping_pool : PoolConfig :=
  mkPoolConfig "127.0.0.1:3333" "/btcpool/" 1000 (Z.to_nat (2 ^ 63 - 1)) (Z.to_nat (2 ^ 63 - 1))
    16 300 "found-blocks" 6 None true.

Definition demo_config : Config :=
  mkConfig
    (mkPoolConfig "127.0.0.1:3333" "/btcpool/" 1000 4 4 16 300 "found-blocks" 6 None true)
    (mkRpcConfig "http://127.0.0.1:8332" None None None 10)
    (mkZmqConfig "tcp://127.0.0.1:28332" true 1000)
    (mkVardiffConfig 10 90 1 1000000 (f64_of_Z 4) (f64_lit 667 1000) (f64_lit 3 2))
    (mkSecurityConfig 10 50 600 100 16384 128 8)
    (mkMetricsConfig "127.0.0.1:9090" None)
    (mkLoggingConfig "info" false None)
    (mkSv2Config false false "" 31536000).

Definition wrapping_config : Config :=
  mkConfig wrapping_pool (bitcoin_rpc demo_config) (zmq demo_config) (vardiff demo_config)
    (security demo_config) (metrics demo_config) (logging demo_config) (sv2 demo_config).

Lemma wrapped_sizes_pass `{TxCodec} (id : string) (t : JobTemplate) (payout : Identity.PayoutDescriptor) :
  validate wrapping_config = Ok tt
  /\ is_ok (build_job_for_payout id t payout (string_bytes (coinbase_tag wrapping_pool))
              (extranonce1_size wrapping_pool) (extranonce2_size wrapping_pool)) = false.
Proof.
  assert (Z.of_nat (extranonce1_size wrapping_pool) = 2 ^ 63 - 1) as E1 by (apply Z2Nat.id; lia).
  assert (Z.of_nat (extranonce2_size wrapping_pool) = 2 ^ 63 - 1) as E2 by (apply Z2Nat.id; lia).
  split.
  - unfold validate. cbn [wrapping_config pool metrics vardiff sv2]. unfold script_sig_len, usize_add.
    rewrite E1, E2. cbn [wrapping_pool confirmation_depth coinbase_tag].
    vm_compute. reflexivity.
  - unfold build_job_for_payout, build_coinbase. cbv zeta.
    set (n1 := extranonce1_size wrapping_pool) in *. set (n2 := extranonce2_size wrapping_pool) in *.
    clearbody n1 n2. destruct (bool_decide ((n1 + n2)%nat = 0%nat)); [done|]. unfold check_coinbase_script_sig_len at 1.
    unfold MIN_COINBASE_SCRIPT_SIG, MAX_COINBASE_SCRIPT_SIG.
    rewrite (proj2 (Z.leb_gt (Z.of_nat _) 100)) by lia. by rewrite andb_false_r.
Qed.

Lemma validated_config_builds_work_witness :
  is_ok (@build_job_for_payout legacy_codec "1" demo_template demo_payout (string_bytes "/btcpool/") 4 4)
  = true.
Proof.
  apply (@validated_config_builds_work legacy_codec demo_config "1" demo_template demo_payout).
  - vm_compute. reflexivity.
  - vm_compute. reflexivity.
  - cbn. lia.
  - cbn. lia.
  - intros w Hw. discriminate.
Defined.

End Config.
