(* ===== verification/ConfigLoad.v ===== *)
(** * ConfigLoad: from the file and the environment to a [Config] ([src/config.rs])

    [load] after the TOML text is parsed: the overrides from environment
    variables, the typed reading of every section with its defaults and its
    refusal of unknown keys, and [Config::validate]; the RPC credentials and the
    resolved paths.  The text of the file is read by the [toml] crate, so the
    model starts from its [Value]: a root table of sections whose values are
    scalars, or something no setting accepts ([VOther]). *)
From S2P Require Import Prelude Text F64 Host Errors Vardiff Security Config.
Import Host Vardiff Security Config.

Module ConfigLoad.

(** ** TOML values *)
Inductive Value : Type :=
| VString (s : string)
| VInteger (z : Z)
| VFloat (f : f64)
| VBoolean (b : bool)
| VOther.

Abbreviation Tbl := (gmap string Value).

Inductive Entry : Type := Table (t : Tbl) | NotTable.

Abbreviation Root := (gmap string Entry).

(** ** Environment overrides *)
Definition ENV_PREFIX : string := "BTCPOOL_".

Definition CONFIG_SECTIONS : list string :=
  ["pool"; "bitcoin_rpc"; "zmq"; "vardiff"; "security"; "metrics"; "logging"; "sv2"].

Definition c_quote : Ascii.ascii := Ascii.ascii_of_nat 34.

Definition infer_toml_scalar (raw : string) : Value :=
  match r ← strip_prefix1 c_quote raw; strip_suffix1 c_quote r with
  | Some quoted => VString quoted
  | None =>
      if bool_decide (raw = "true"%string) || bool_decide (raw = "false"%string)
      then VBoolean (bool_decide (raw = "true"%string))
      else match parse_i64 raw with
           | Some i => VInteger i
           | None => match parse_f64 raw with Some f => VFloat f | None => VString raw end
           end
  end.

(** The value an override leaves where the file has [old]. *)
Definition retype (old : option Value) (raw : string) : option Value :=
  match old with
  | Some (VInteger _) => VInteger <$> parse_i64 raw
  | Some (VFloat _) => VFloat <$> parse_f64 raw
  | Some (VBoolean _) => VBoolean <$> parse_bool raw
  | Some (VString _) => Some (VString raw)
  | Some VOther => None
  | None => Some (infer_toml_scalar raw)
  end.

(** What a variable name stands for: [Ok None] is not an override. *)
Definition override_target (name : string) : result string (option (string * string)) :=
  match strip_prefix ENV_PREFIX name with
  | None => Ok None
  | Some rest =>
      match split_once_str "__" rest with
      | None => Err "expected BTCPOOL_<SECTION>__<KEY>"
      | Some (section, key) =>
          let section := to_ascii_lowercase section in
          let key := to_ascii_lowercase key in
          if bool_decide (section = ""%string) || bool_decide (key = ""%string)
          then Err "empty section or key"
          else if negb (bool_decide (section ∈ CONFIG_SECTIONS)) then Err "not a config section"
          else Ok (Some (section, key))
      end
  end%string.

Definition override_step (root : Root) (var : string * string) : result string Root :=
  t ← override_target var.1;
  match t with
  | None => Ok root
  | Some (section, key) =>
      match root !! section with
      | Some NotTable => Err "section is not a table"%string
      | e =>
          let table := match e with Some (Table t) => t | _ => ∅ end in
          parsed ← ok_or "value does not parse as the type in the file"%string
                     (retype (table !! key) var.2);
          Ok (<[section := Table (<[key := parsed]> table)]> root)
      end
  end.

Fixpoint apply_env_overrides (root : Root) (vars : list (string * string)) : result string Root :=
  match vars with
  | [] => Ok root
  | var :: vars' => root' ← override_step root var; apply_env_overrides root' vars'
  end.

(** ** Reading the sections *)
Definition de_string (v : Value) : option string :=
  match v with VString s => Some s | _ => None end.
Definition de_bool (v : Value) : option bool :=
  match v with VBoolean b => Some b | _ => None end.
Definition de_uint (max : Z) (v : Value) : option Z :=
  match v with VInteger z => if (0 <=? z) && (z <=? max) then Some z else None | _ => None end.
Definition de_u64 : Value -> option Z := de_uint u64_max.
Definition de_u32 : Value -> option Z := de_uint u32_max.
Definition de_usize (v : Value) : option nat := Z.to_nat <$> de_u64 v.
Definition de_f64 (v : Value) : option f64 :=
  match v with VFloat f => Some f | VInteger z => Some (f64_of_Z z) | _ => None end.

Section Fields.
Context {A : Type} (de : Value -> option A).

(** A field with no default, with one, and of type [Option]. *)
Definition req (t : Tbl) (k : string) : option A := v ← t !! k; de v.
Definition dflt (d : A) (t : Tbl) (k : string) : option A :=
  match t !! k with Some v => de v | None => Some d end.
Definition opt (t : Tbl) (k : string) : option (option A) :=
  match t !! k with Some v => Some <$> de v | None => Some None end.
End Fields.

(** [deny_unknown_fields]. *)
Definition known {V} (ks : list string) (t : gmap string V) : option unit :=
  if forallb (fun k => bool_decide (k ∈ ks)) (map_to_list t).*1 then Some tt else None.

Definition default_found_block_dir : string := "found-blocks".
Definition default_confirmation_depth : Z := 6.
Definition default_strict_gbt_rules : bool := true.
Definition default_persist_authority_key : bool := true.
Definition default_authority_key_file : string := "sv2-authority.key".
Definition default_cert_validity_secs : Z := 365 * 24 * 60 * 60.
Definition default_deadzone_low : f64 := f64_lit 667 1000.
Definition default_deadzone_high : f64 := f64_lit 3 2.
Definition default_max_worker_name_len : Z := 128.
Definition default_max_authorizations_per_session : Z := 8.

Definition de_pool (t : Tbl) : option PoolConfig :=
  _ ← known ["listen_addr"; "coinbase_tag"; "initial_difficulty"; "extranonce1_size";
             "extranonce2_size"; "max_connections"; "idle_timeout_secs"; "found_block_dir";
             "confirmation_depth"; "network"; "strict_gbt_rules"] t;
  a ← req de_string t "listen_addr"; tag ← req de_string t "coinbase_tag";
  d ← req de_u64 t "initial_difficulty"; e1 ← req de_usize t "extranonce1_size";
  e2 ← req de_usize t "extranonce2_size"; m ← req de_u64 t "max_connections";
  i ← req de_u64 t "idle_timeout_secs";
  f ← dflt de_string default_found_block_dir t "found_block_dir";
  c ← dflt de_u32 default_confirmation_depth t "confirmation_depth";
  n ← opt de_string t "network";
  s ← dflt de_bool default_strict_gbt_rules t "strict_gbt_rules";
  Some (mkPoolConfig a tag d e1 e2 m i f c n s).

Definition de_sv2 (t : Tbl) : option Sv2Config :=
  _ ← known ["enabled"; "persist_authority_key"; "authority_key_file"; "cert_validity_secs"] t;
  e ← req de_bool t "enabled";
  p ← dflt de_bool default_persist_authority_key t "persist_authority_key";
  f ← dflt de_string default_authority_key_file t "authority_key_file";
  c ← dflt de_u32 default_cert_validity_secs t "cert_validity_secs";
  Some (mkSv2Config e p f c).

(** [Sv2Config::default]. *)
Definition sv2_default : Sv2Config :=
  mkSv2Config true default_persist_authority_key default_authority_key_file
    default_cert_validity_secs.

Definition de_rpc (t : Tbl) : option RpcConfig :=
  _ ← known ["url"; "cookie_path"; "user"; "password"; "timeout_secs"] t;
  u ← req de_string t "url"; c ← opt de_string t "cookie_path"; n ← opt de_string t "user";
  p ← opt de_string t "password"; s ← req de_u64 t "timeout_secs";
  Some (mkRpcConfig u c n p s).

Definition de_zmq (t : Tbl) : option ZmqConfig :=
  _ ← known ["hashblock_endpoint"; "poll_fallback"; "poll_interval_ms"] t;
  h ← req de_string t "hashblock_endpoint"; f ← req de_bool t "poll_fallback";
  i ← req de_u64 t "poll_interval_ms"; Some (mkZmqConfig h f i).

Definition de_vardiff (t : Tbl) : option VardiffConfig :=
  _ ← known ["target_share_time_secs"; "retarget_interval_secs"; "min_difficulty";
             "max_difficulty"; "max_retarget_factor"; "deadzone_low"; "deadzone_high"] t;
  s ← req de_u64 t "target_share_time_secs"; r ← req de_u64 t "retarget_interval_secs";
  lo ← req de_u64 t "min_difficulty"; hi ← req de_u64 t "max_difficulty";
  f ← req de_f64 t "max_retarget_factor";
  dl ← dflt de_f64 default_deadzone_low t "deadzone_low";
  dh ← dflt de_f64 default_deadzone_high t "deadzone_high";
  Some (mkVardiffConfig s r lo hi f dl dh).

Definition de_security (t : Tbl) : option SecurityConfig :=
  _ ← known ["max_connections_per_ip"; "max_shares_per_sec"; "ban_duration_secs";
             "max_invalid_shares"; "max_message_bytes"; "max_worker_name_len";
             "max_authorizations_per_session"] t;
  c ← req de_u32 t "max_connections_per_ip"; r ← req de_u32 t "max_shares_per_sec";
  b ← req de_u64 t "ban_duration_secs"; i ← req de_u32 t "max_invalid_shares";
  m ← req de_u64 t "max_message_bytes";
  n ← dflt de_u64 default_max_worker_name_len t "max_worker_name_len";
  a ← dflt de_u32 default_max_authorizations_per_session t "max_authorizations_per_session";
  Some (mkSecurityConfig c r b i m n a).

Definition de_metrics (t : Tbl) : option MetricsConfig :=
  _ ← known ["prometheus_addr"; "stats_db_path"] t;
  p ← req de_string t "prometheus_addr"; d ← opt de_string t "stats_db_path";
  Some (mkMetricsConfig p d).

Definition de_logging (t : Tbl) : option LoggingConfig :=
  _ ← known ["level"; "json"; "log_dir"] t;
  l ← req de_string t "level"; j ← req de_bool t "json"; d ← opt de_string t "log_dir";
  Some (mkLoggingConfig l j d).

Definition section (root : Root) (name : string) : option Tbl :=
  match root !! name with Some (Table t) => Some t | _ => None end.

(** [value.try_into::<Config>()]. *)
Definition de_config (root : Root) : option Config :=
  _ ← known CONFIG_SECTIONS root;
  p ← section root "pool" ≫= de_pool; r ← section root "bitcoin_rpc" ≫= de_rpc;
  z ← section root "zmq" ≫= de_zmq; v ← section root "vardiff" ≫= de_vardiff;
  s ← section root "security" ≫= de_security; m ← section root "metrics" ≫= de_metrics;
  l ← section root "logging" ≫= de_logging;
  w ← (if bool_decide (root !! "sv2"%string = None) then Some sv2_default
       else section root "sv2" ≫= de_sv2);
  Some (mkConfig p r z v s m l w).

(** [load], from the parsed file. *)
Definition load (file : Root) (vars : list (string * string)) : result string Config :=
  root ← apply_env_overrides file vars;
  c ← ok_or "Interpreting config"%string (de_config root);
  _ ← validate c;
  Ok c.

(** ** Paths and credentials *)
Definition expand_tilde (home : option string) (path : string) : string :=
  match strip_prefix "~/" path, home with
  | Some rest, Some h => path_join h rest
  | _, _ => path
  end.

Definition c_colon : Ascii.ascii := Ascii.ascii_of_nat 58.

Definition read_cookie (fs : Fs) (fault : bool) (home : option string) (c : RpcConfig)
  : option (string * string) :=
  match read_to_string fs (expand_tilde home (default "~/.bitcoin/.cookie"%string (cookie_path c)))
          fault with
  | Ok contents => split_once c_colon (trim contents)
  | Err _ => None
  end.

(** [Auth::UserPass], or no credentials. *)
Definition rpc_auth (fs : Fs) (fault : bool) (home : option string) (c : RpcConfig)
  : result string (string * string) :=
  match read_cookie fs fault home c with
  | Some up => Ok up
  | None =>
      match user c, password c with
      | Some u, Some p => Ok (u, p)
      | _, _ => Err "No RPC credentials available"%string
      end
  end.

Definition log_dir_path (home : option string) (c : LoggingConfig) : option string :=
  match trim <$> log_dir c with
  | Some dir => if bool_decide (dir = ""%string) then None else Some (expand_tilde home dir)
  | None => None
  end.

(** ** What the overrides do *)
Definition value_at (root : Root) (s k : string) : option Value := t ← section root s; t !! k.

(** The texts of the variables that name [s.k], in order. *)
Definition naming (s k : string) (vars : list (string * string)) : list string :=
  omap (fun v => match override_target v.1 with
                 | Ok (Some t) => if bool_decide (t = (s, k)) then Some v.2 else None
                 | _ => None
                 end) vars.

Definition retype_all (v : option Value) (raws : list string) : option Value :=
  fold_left retype raws v.

Definition same_type (v w : Value) : bool :=
  match v, w with
  | VString _, VString _ | VInteger _, VInteger _ | VFloat _, VFloat _
  | VBoolean _, VBoolean _ | VOther, VOther => true
  | _, _ => false
  end.

Lemma override_step_value root var root' s k :
  override_step root var = Ok root' ->
  value_at root' s k = retype_all (value_at root s k) (naming s k [var])
  /\ (forall v, value_at root s k = Some v -> is_Some (value_at root' s k)).
Proof.
  unfold override_step, naming, value_at, section. cbn [omap list_omap]. intros H. bind_inv H.
  rename x into t. destruct (override_target var.1) as [o|] eqn:Et; [|done]. simplify_eq.
  destruct t as [[sec key]|]; [|simplify_eq; cbn; eauto].
  destruct (root !! sec) as [[tbl|]|] eqn:Es; [|done|]; bind_inv H;
    destruct (retype _ _) as [parsed|] eqn:Ep in H0; simplify_eq/=;
    (destruct (decide (sec = s)) as [<-|Hs];
     [| rewrite lookup_insert_ne by done; rewrite bool_decide_eq_false_2 by congruence; cbn; by eauto]);
    rewrite lookup_insert_eq; cbn; rewrite ?Es; cbn;
    (destruct (decide (key = k)) as [<-|Hk];
     [ rewrite bool_decide_eq_true_2, lookup_insert_eq by done; cbn; by eauto
     | rewrite lookup_insert_ne, bool_decide_eq_false_2 by congruence; cbn; by eauto ]).
Qed.

Lemma naming_cons s k var vars : naming s k (var :: vars) = naming s k [var] ++ naming s k vars.
Proof. unfold naming. cbn [omap list_omap]. by case_match. Qed.

Lemma same_type_trans u v w : same_type u v = true -> same_type v w = true -> same_type u w = true.
Proof. by destruct u, v, w. Qed.

Lemma retype_same_type v raw w : retype (Some v) raw = Some w -> same_type v w = true.
Proof.
  destruct v; cbn; intros H; simplify_eq; try done;
    match type of H with (_ <$> ?o) = _ => by destruct o; simplify_eq/= end.
Qed.

Lemma override_step_type root var root' s k v :
  override_step root var = Ok root' -> value_at root s k = Some v ->
  exists w, value_at root' s k = Some w /\ same_type v w = true.
Proof.
  intros H Hv. destruct (override_step_value _ _ _ s k H) as [Hval Hsome].
  destruct (Hsome v Hv) as [w Hw]. exists w. split; [done|]. rewrite Hw, Hv in Hval.
  assert (naming s k [var] = [] \/ exists r, naming s k [var] = [r]) as [E|[r E]].
  { unfold naming. cbn [omap list_omap]. case_match; [right|left]; eauto. }
  - rewrite E in Hval. cbn in Hval. simplify_eq. by destruct v.
  - rewrite E in Hval. cbn in Hval. symmetry in Hval. by apply retype_same_type in Hval.
Qed.

(** ** Properties *)

(** C30. Overrides from the environment change exactly what they name, in the type
    the file gave it: when [apply_env_overrides] succeeds, the value of every
    [section.key] is the file's value taken through the variables that name that
    key, in order, and through nothing else; and every value the file has is
    still there with the same TOML type, so an override cannot turn a number
    into a string (or drop a key) behind the file's back. *)
Theorem overrides_keep_types (file root : Root) (vars : list (string * string)) :
  apply_env_overrides file vars = Ok root ->
  forall s k,
  value_at root s k = retype_all (value_at file s k) (naming s k vars)
  /\ (forall v, value_at file s k = Some v ->
      exists w, value_at root s k = Some w /\ same_type v w = true).
Proof.
  revert file; induction vars as [|var vars IH]; intros file H s k; cbn in H.
  - simplify_eq. split; [done|]. intros v Hv. exists v. split; [done | by destruct v].
  - bind_inv H. rename x into mid, H0 into Hstep. destruct (IH mid H s k) as [Hval Htype]. split.
    + rewrite Hval, naming_cons. unfold retype_all at 2. rewrite fold_left_app.
      by rewrite (proj1 (override_step_value _ _ _ s k Hstep)).
    + intros v Hv. destruct (override_step_type _ _ _ s k v Hstep Hv) as (u & Hu & Ht).
      destruct (Htype u Hu) as (w & Hw & Ht'). eauto using same_type_trans.
Qed.

(** The file of the example configuration, and a deployment's variables. *)
Definition demo_file : Root :=
  list_to_map
    [("pool", Table (list_to_map
        [("listen_addr", VString "127.0.0.1:3333"); ("coinbase_tag", VString "/btcpool-rs/");
         ("initial_difficulty", VInteger 2048); ("extranonce1_size", VInteger 4);
         ("extranonce2_size", VInteger 4); ("max_connections", VInteger 16);
         ("idle_timeout_secs", VInteger 300)]));
     ("bitcoin_rpc", Table (list_to_map
        [("url", VString "http://127.0.0.1:8332"); ("timeout_secs", VInteger 10)]));
     ("zmq", Table (list_to_map
        [("hashblock_endpoint", VString "tcp://127.0.0.1:28332"); ("poll_fallback", VBoolean true);
         ("poll_interval_ms", VInteger 1000)]));
     ("vardiff", Table (list_to_map
        [("target_share_time_secs", VInteger 3); ("retarget_interval_secs", VInteger 100);
         ("min_difficulty", VInteger 256); ("max_difficulty", VInteger 4000000);
         ("max_retarget_factor", VFloat (f64_of_Z 10))]));
     ("security", Table (list_to_map
        [("max_connections_per_ip", VInteger 5); ("max_shares_per_sec", VInteger 500);
         ("ban_duration_secs", VInteger 600); ("max_invalid_shares", VInteger 5);
         ("max_message_bytes", VInteger 4096)]));
     ("metrics", Table (list_to_map [("prometheus_addr", VString "127.0.0.1:9090")]));
     ("logging", Table (list_to_map [("level", VString "info"); ("json", VBoolean false)]))]%string.

Definition demo_vars : list (string * string) :=
  [("HOME", "/root"); ("BTCPOOL_POOL__MAX_CONNECTIONS", "64");
   ("BTCPOOL_BITCOIN_RPC__PASSWORD", String c_quote ("12345" +:+ String c_quote EmptyString)); ("BTCPOOL_VARDIFF__MAX_RETARGET_FACTOR", "4");
   ("BTCPOOL_SV2__ENABLED", "false")]%string.

Definition demo_root : Root := match apply_env_overrides demo_file demo_vars with Ok r => r | Err _ => ∅ end.

Lemma demo_root_ok : apply_env_overrides demo_file demo_vars = Ok demo_root.
Proof.
  assert (is_ok (apply_env_overrides demo_file demo_vars) = true) as H by (vm_compute; reflexivity).
  unfold demo_root. by destruct (apply_env_overrides demo_file demo_vars).
Qed.

Lemma overrides_keep_types_witness :
  value_at demo_root "pool" "max_connections" = Some (VInteger 64)
  /\ (exists w, value_at demo_root "vardiff" "max_retarget_factor" = Some w
               /\ same_type (VFloat (f64_of_Z 10)) w = true).
Proof.
  split.
  - rewrite (proj1 (overrides_keep_types demo_file demo_root demo_vars demo_root_ok _ _)). vm_compute. reflexivity.
  - apply (proj2 (overrides_keep_types demo_file demo_root demo_vars demo_root_ok _ _)). vm_compute. reflexivity.
Defined.

(** The whole path on the example: the deployment's values reach the record. *)
Example load_demo :
  match load demo_file demo_vars with
  | Ok c => (max_connections (pool c), password (bitcoin_rpc c), sv2_enabled (sv2 c),
             max_retarget_factor (vardiff c), confirmation_depth (pool c))
            = (64, Some "12345", false, f64_of_Z 4, 6)
  | Err _ => False
  end%string.
Proof. vm_compute. reflexivity. Qed.

(** A misspelt section, a misspelt key and a number that does not fit are refused. *)
Example load_refusals :
  (is_ok (load demo_file [("BTCPOOL_POL__X", "1")]), is_ok (load demo_file [("BTCPOOL_POOL__X", "1")]),
   is_ok (load demo_file [("BTCPOOL_POOL__MAX_CONNECTIONS", "-1")]),
   is_ok (load demo_file [("BTCPOOL_POOL__MAX_CONNECTIONS", "many")]), is_ok (load demo_file []))%string
  = (false, false, false, false, true).
Proof. vm_compute. reflexivity. Qed.

End ConfigLoad.
