(* ===== verification/Jobs.v ===== *)
(** * Jobs: the per-session job history ([src/mining/jobs.rs])

    A bounded FIFO of the exact payout-specific jobs issued to one session;
    a clean job retires all earlier ones. *)
From S2P Require Import Prelude Text F64 Json Errors Interfaces Target Rpc Security Identity.
From S2P Require Import Template.
Import Target Template.

Module Jobs.

Definition JOB_HISTORY_DEPTH : nat := 16.

Record JobEntry := mkJobEntry {
  job : StratumJob;
  created_at : Instant;
  superseded_by_clean : bool;
  difficulty : Z
}.

(** [IssuedJobs.entries], oldest first. *)
Abbreviation IssuedJobs := (list JobEntry).

Definition issued_new : IssuedJobs := [].

Definition supersede (e : JobEntry) : JobEntry :=
  mkJobEntry (job e) (created_at e) true (difficulty e).

Definition issue (entries : IssuedJobs) (j : StratumJob) (clean : bool) (diff : Z) (now : Instant)
  : IssuedJobs :=
  let marked := if clean then supersede <$> entries else entries in
  let trimmed := if (JOB_HISTORY_DEPTH <=? length marked)%nat then tail marked else marked in
  trimmed ++ [mkJobEntry j now false diff].

Definition find_job (entries : IssuedJobs) (id : string) : option JobEntry :=
  list_find (fun e => job_id (job e) = id) entries ≫= fun p => Some p.2.

Definition issued_clear (entries : IssuedJobs) : IssuedJobs := [].

(** ** Lemmas *)
Definition entry_id (e : JobEntry) : string := job_id (job e).

Lemma length_issue entries j clean d now :
  (length entries <= JOB_HISTORY_DEPTH)%nat ->
  (length (issue entries j clean d now) <= JOB_HISTORY_DEPTH)%nat.
Proof.
  intros Hl. unfold issue. rewrite length_app. cbn [length].
  set (m := if clean then supersede <$> entries else entries).
  assert (length m = length entries) as Hm by (unfold m; destruct clean; by rewrite ?length_fmap).
  destruct (Nat.leb_spec JOB_HISTORY_DEPTH (length m)); unfold JOB_HISTORY_DEPTH in *.
  - destruct m as [|e m']; cbn [tail length] in *; lia.
  - lia.
Qed.

Lemma find_job_Some entries id e :
  find_job entries id = Some e -> e ∈ entries /\ entry_id e = id.
Proof.
  unfold find_job. destruct (list_find _ _) as [[i x]|] eqn:E; simpl; [|done].
  intros [= <-]. apply list_find_Some in E as (Hl & Hid & _).
  split; [by eapply list_elem_of_lookup_2 | done].
Qed.

Lemma find_job_None entries id :
  find_job entries id = None <-> Forall (fun e => entry_id e <> id) entries.
Proof.
  unfold find_job. destruct (list_find _ _) as [[i x]|] eqn:E; simpl.
  - split; [done|]. intros HF. apply list_find_Some in E as (Hl & Hid & _).
    rewrite Forall_forall in HF. by destruct (HF x); [eapply list_elem_of_lookup_2|].
  - split; [|done]. intros _. by apply list_find_None in E.
Qed.

(** ** The log of a session

    What the history must be, said without the deque: every issue of the
    session, in order, each retired when a later one was clean, and only the
    last [JOB_HISTORY_DEPTH] of them kept. *)
Record IssueEvent := mkIssueEvent {
  ev_job : StratumJob;
  ev_clean : bool;
  ev_difficulty : Z;
  ev_now : Instant
}.

Definition issue_event (entries : IssuedJobs) (e : IssueEvent) : IssuedJobs :=
  issue entries (ev_job e) (ev_clean e) (ev_difficulty e) (ev_now e).

Fixpoint log_entries (evs : list IssueEvent) : list JobEntry :=
  match evs with
  | [] => []
  | e :: evs' =>
      mkJobEntry (ev_job e) (ev_now e) (existsb ev_clean evs') (ev_difficulty e)
        :: log_entries evs'
  end.

Lemma length_log_entries evs : length (log_entries evs) = length evs.
Proof. induction evs; simpl; congruence. Qed.

Lemma log_entries_snoc evs e :
  log_entries (evs ++ [e])
  = (if ev_clean e then supersede <$> log_entries evs else log_entries evs)
      ++ [mkJobEntry (ev_job e) (ev_now e) false (ev_difficulty e)].
Proof.
  induction evs as [|x evs IH]; simpl; [by destruct (ev_clean e)|].
  rewrite IH, existsb_app. cbn [existsb]. rewrite orb_false_r.
  destruct (ev_clean e); simpl; [by rewrite orb_true_r | by rewrite orb_false_r].
Qed.

Lemma log_entries_lookup evs i e :
  evs !! i = Some e ->
  log_entries evs !! i
  = Some (mkJobEntry (ev_job e) (ev_now e) (existsb ev_clean (drop (S i) evs)) (ev_difficulty e)).
Proof.
  revert i; induction evs as [|x evs IH]; intros [|i] H; simplify_eq/=; [by rewrite drop_0|].
  by rewrite (IH i).
Qed.

Lemma log_entries_ids evs : entry_id <$> log_entries evs = (fun e => job_id (ev_job e)) <$> evs.
Proof. induction evs; simpl; [done | by f_equal]. Qed.

(** Among distinct identifiers, the lookup finds the entry that is there. *)
Lemma find_job_NoDup entries e :
  NoDup (entry_id <$> entries) -> e ∈ entries -> find_job entries (entry_id e) = Some e.
Proof.
  intros HN He. destruct (find_job entries (entry_id e)) as [e'|] eqn:E.
  - apply find_job_Some in E as [He' Hid]. f_equal.
    apply list_elem_of_lookup in He as [i Hi], He' as [j Hj].
    assert (i = j) as ->; [|congruence].
    eapply (NoDup_lookup _ i j (entry_id e)); [done| |];
      rewrite list_lookup_fmap; [by rewrite Hi | by rewrite Hj; simpl; rewrite Hid].
  - apply find_job_None in E. rewrite Forall_forall in E. by destruct (E e He).
Qed.

Lemma tail_drop {A} (l : list A) : tail l = drop 1 l.
Proof. destruct l; [done | by rewrite skipn_cons, drop_0]. Qed.

Lemma issue_event_log evs e :
  issue_event (drop (length evs - JOB_HISTORY_DEPTH) (log_entries evs)) e
  = drop (S (length evs) - JOB_HISTORY_DEPTH) (log_entries (evs ++ [e])).
Proof.
  unfold issue_event, issue. rewrite log_entries_snoc.
  set (m := if ev_clean e then supersede <$> log_entries evs else log_entries evs).
  set (k := (length evs - JOB_HISTORY_DEPTH)%nat).
  assert (length m = length evs) as Hm
    by (unfold m; destruct (ev_clean e); by rewrite ?length_fmap, length_log_entries).
  assert ((if ev_clean e then supersede <$> drop k (log_entries evs) else drop k (log_entries evs))
          = drop k m) as -> by (unfold m; destruct (ev_clean e); by rewrite ?fmap_drop).
  rewrite drop_app_le by (unfold JOB_HISTORY_DEPTH in *; lia). f_equal.
  rewrite length_drop, Hm.
  destruct (Nat.leb_spec JOB_HISTORY_DEPTH (length evs - k)).
  - rewrite tail_drop, drop_drop. f_equal. unfold k, JOB_HISTORY_DEPTH in *. lia.
  - f_equal. unfold k, JOB_HISTORY_DEPTH in *. lia.
Qed.

Lemma issue_run_log evs :
  foldl issue_event issued_new evs = drop (length evs - JOB_HISTORY_DEPTH) (log_entries evs).
Proof.
  induction evs as [|e evs IH] using rev_ind; [done|].
  rewrite foldl_snoc, IH, issue_event_log, length_app. f_equal. cbn [length]. lia.
Qed.

(** ** Properties *)

(** C15. The bounded queue of issued jobs implements the session's log: after
    any sequence of issues it holds exactly the last 16 of them, in order, each
    with the difficulty and time it was issued at, and marked superseded
    exactly when some later issue was a clean one. *)
Theorem issued_history_refines_log (evs : list IssueEvent) :
  foldl issue_event issued_new evs = drop (length evs - JOB_HISTORY_DEPTH) (log_entries evs)
  /\ (length (foldl issue_event issued_new evs) <= JOB_HISTORY_DEPTH)%nat.
Proof.
  rewrite issue_run_log. split; [done|].
  rewrite length_drop, length_log_entries. unfold JOB_HISTORY_DEPTH. lia.
Qed.

(** With distinct job identifiers, the [i]-th job issued is found by its
    identifier exactly while fewer than 16 jobs followed it; the entry found
    carries the difficulty in force when the job was issued (not the current
    one), and is stale exactly when a clean job followed it. *)
Lemma issued_job_lookup (evs : list IssueEvent) (i : nat) (e : IssueEvent) :
  NoDup ((fun e => job_id (ev_job e)) <$> evs) ->
  evs !! i = Some e ->
  find_job (foldl issue_event issued_new evs) (job_id (ev_job e))
  = if (length evs <=? i + JOB_HISTORY_DEPTH)%nat
    then Some (mkJobEntry (ev_job e) (ev_now e) (existsb ev_clean (drop (S i) evs))
                 (ev_difficulty e))
    else None.
Proof.
  intros HN Hi. rewrite issue_run_log. rewrite <- log_entries_ids in HN.
  pose proof (log_entries_lookup _ _ _ Hi) as Hl.
  set (k := (length evs - JOB_HISTORY_DEPTH)%nat).
  set (x := mkJobEntry _ _ _ _) in Hl |- *. change (job_id (ev_job e)) with (entry_id x).
  pose proof (take_drop k (log_entries evs)) as Htd.
  destruct (Nat.leb_spec (length evs) (i + JOB_HISTORY_DEPTH)).
  - apply find_job_NoDup.
    + rewrite <- Htd, fmap_app in HN. by apply NoDup_app in HN as (_ & _ & ?).
    + apply list_elem_of_lookup. exists (i - k)%nat. rewrite lookup_drop.
      replace (k + (i - k))%nat with i; [done|]. unfold k, JOB_HISTORY_DEPTH in *. lia.
  - apply find_job_None, Forall_forall. intros y Hy Hid.
    rewrite <- Htd, fmap_app in HN. apply NoDup_app in HN as (_ & Hd & _).
    apply (Hd (entry_id x)).
    + apply list_elem_of_fmap. exists x. split; [done|]. apply list_elem_of_lookup. exists i.
      rewrite lookup_take_lt; [done|]. unfold k, JOB_HISTORY_DEPTH in *. lia.
    + apply list_elem_of_fmap. by exists y.
Qed.

Definition demo_event (clean : bool) (d now : Z) (id : string) : IssueEvent :=
  mkIssueEvent (mkStratumJob id "" [] [] [] [] 0x20000000 "1d00ffff" 0 1 DIFF1_TARGET [] 0 0 0 []
                  "" false) clean d now.
Definition demo_events : list IssueEvent :=
  [demo_event true 1000 1 "a"; demo_event false 2000 2 "b"; demo_event true 4000 3 "c"].

Lemma issued_job_lookup_witness :
  find_job (foldl issue_event issued_new demo_events) "b"
  = Some (mkJobEntry (ev_job (demo_event false 2000 2 "b")) 2 true 2000).
Proof.
  apply (issued_job_lookup demo_events 1 (demo_event false 2000 2 "b")).
  - apply (bool_decide_unpack _). vm_compute. exact I.
  - reflexivity.
Defined.

End Jobs.
