(* ===== verification/Validator.v ===== *)
(** * Validator: share and block validation ([src/mining/validator.rs])

    The duplicate-share set, BIP320 version rolling, the 80-byte header, block
    serialisation and [validate_share_no_dedup].  The thread-local coinbase
    scratch buffer is the value of [assemble_coinbase]; the wall clock is an
    argument. *)
From S2P Require Import Prelude Text F64 Json Errors Interfaces Target Rpc Security Identity.
From S2P Require Import Template Jobs.
Import Target Identity Template Jobs.

Module Validator.

(** ** ntime bounds *)
Definition MAX_NTIME_DRIFT_SECS : Z := 7200.

(** [now_unix_secs]: [None] is a clock before the epoch. *)
Definition now_unix_secs (since_epoch : option Z) : Z :=
  match since_epoch with
  | Some secs => Z.min secs u32_max
  | None => u32_max
  end.

Definition ntime_ceiling (cur_time now : Z) : Z :=
  Z.min (sat_add32 cur_time MAX_NTIME_DRIFT_SECS) (sat_add32 now MAX_NTIME_DRIFT_SECS).

(** ** Duplicate shares *)
Record ShareKey := mkShareKey {
  k_job_id : string;
  k_extranonce2 : bytes;
  k_ntime : Z;
  k_nonce : Z;
  k_version_bits : Z
}.

#[export] Instance ShareKey_eq_dec : EqDecision ShareKey.
Proof. solve_decision. Defined.

#[export] Instance byte_countable : Countable byte.
Proof.
  refine (inj_countable' Byte.to_N (fun n => default x00 (Byte.of_N n)) _).
  intros b. by rewrite Byte.of_to_N.
Defined.

#[export] Instance ShareKey_countable : Countable ShareKey.
Proof.
  refine (inj_countable'
    (fun k => (k_job_id k, k_extranonce2 k, (k_ntime k, k_nonce k, k_version_bits k)))
    (fun '(a, b, (c, d, e)) => mkShareKey a b c d e) _).
  by intros [].
Defined.

Record ShareSet := mkShareSet {
  seen : gset ShareKey;
  order : list ShareKey;
  max_size : nat
}.

Definition share_set_new : ShareSet := mkShareSet ∅ [] 4096.

Definition contains (s : ShareSet) (k : ShareKey) : bool := bool_decide (k ∈ seen s).

Definition insert_key (s : ShareSet) (k : ShareKey) : ShareSet :=
  if contains s k then s
  else
    let s1 :=
      if (max_size s <=? size (seen s))%nat then
        match order s with
        | oldest :: rest => mkShareSet (seen s ∖ {[oldest]}) rest (max_size s)
        | [] => s
        end
      else s in
    mkShareSet ({[k]} ∪ seen s1) (order s1 ++ [k]) (max_size s1).

Definition share_set_clear (s : ShareSet) : ShareSet := mkShareSet ∅ [] (max_size s).

(** ** Parameters and results *)
Record ShareParams := mkShareParams {
  p_job_id : string;
  p_extranonce2 : bytes;
  p_ntime : Z;
  p_nonce : Z;
  p_version_bits : option Z;
  p_version_rolling_mask : option Z
}.

Inductive ShareResult : Type :=
| Valid (assigned_difficulty hash_difficulty : Z) (hash : bytes)
| Block (hash_difficulty : Z) (block_hex : string) (hash : bytes).

(** ** Helpers *)
Definition resolve_version (base_version : Z) (rolling_bits negotiated_mask : option Z)
  : result PoolError Z :=
  let mask := default VERSION_ROLLING_MASK negotiated_mask in
  match rolling_bits with
  | Some bits =>
      if Z.land bits (not32 mask) =? 0
      then Ok (Z.lor (Z.land base_version (not32 mask)) (Z.land bits mask))
      else Err (InvalidParams "mining.submit"
                  ("version bits outside negotiated mask: bits=" +:+ hex_fixed 8 bits
                   +:+ " mask=" +:+ hex_fixed 8 mask))
  | None => Ok base_version
  end.

Definition build_header `{HexCodec} (version : Z) (stratum_prev_hash : string)
    (merkle_root : bytes) (ntime : Z) (bits_hex : string) (nonce : Z) : result PoolError bytes :=
  prev ← ok_or InvalidHeader (hex_decode_to_slice 32 stratum_prev_hash);
  bits ← ok_or InvalidHeader (u32_from_hex bits_hex);
  Ok (to_le_bytes 4 version ++ swap_each_word prev ++ merkle_root ++ to_le_bytes 4 ntime
      ++ to_le_bytes 4 bits ++ to_le_bytes 4 nonce).

Definition encode_varint (n : Z) : bytes :=
  if n <? 0xfd then [byte_of n]
  else if n <=? 0xffff then xfd :: to_le_bytes 2 (n mod 2 ^ 16)
  else if n <=? 0xffffffff then xfe :: to_le_bytes 4 (n mod 2 ^ 32)
  else xff :: to_le_bytes 8 n.

Definition set_first_witness (tx : Transaction) (w : list bytes) : option Transaction :=
  match tx_input tx with
  | i :: ins =>
      Some (mkTx (tx_version tx) (tx_lock_time tx)
              (mkTxIn (previous_output i) (script_sig i) (sequence i) w :: ins) (tx_output tx))
  | [] => None
  end.

(** The coinbase re-serialised with 32 zero bytes as its input's witness. *)
Definition coinbase_with_witness_reserved_value `{TxCodec} (coinbase : bytes) : option bytes :=
  tx ← tx_deserialize coinbase;
  tx' ← set_first_witness tx [repeat x00 32];
  Some (tx_serialize tx').

Definition assemble_block `{TxCodec} (header coinbase : bytes) (transactions : list bytes)
    (has_commitment : bool) : bytes :=
  let cb := if has_commitment
            then default coinbase (coinbase_with_witness_reserved_value coinbase)
            else coinbase in
  header ++ encode_varint (1 + Z.of_nat (length transactions)) ++ cb ++ concat transactions.

Definition assemble_block_hex `{HexCodec} `{TxCodec} (header coinbase : bytes)
    (transactions : list bytes) (has_commitment : bool) : string :=
  hex_encode (assemble_block header coinbase transactions has_commitment).

Definition block_hash_display `{HexCodec} (hash : bytes) : string := hex_encode (reverse hash).

(** ** The validation function *)
Section Validate.
Context `{Sha256} `{HexCodec} `{TxCodec}.

Definition validate_share_no_dedup (params : ShareParams) (j : StratumJob) (entry : JobEntry)
    (extranonce1 : bytes) (session_difficulty : Z) (clock : option Z)
  : result PoolError ShareResult :=
  if superseded_by_clean entry then Err (StaleJob (p_job_id params))
  else
    let ceiling := ntime_ceiling (j_cur_time j) (now_unix_secs clock) in
    if (p_ntime params <? j_cur_time j) || (ceiling <? p_ntime params)
    then Err (InvalidParams "mining.submit"
                ("ntime out of range: submitted=" +:+ pretty (p_ntime params)
                 +:+ " template_curtime=" +:+ pretty (j_cur_time j)
                 +:+ " ceiling=" +:+ pretty ceiling))
    else
      let coinbase := assemble_coinbase j extranonce1 (p_extranonce2 params) in
      let root := merkle_root (merkle_branch_raw j) coinbase in
      version ← resolve_version (j_version j) (p_version_bits params)
                  (p_version_rolling_mask params);
      header ← build_header version (j_prev_hash j) root (p_ntime params) (j_bits j)
                 (p_nonce params);
      let hash := double_sha256 header in
      if meets_target hash (difficulty_to_target session_difficulty) then
        let hash_difficulty := hash_to_difficulty hash in
        if meets_target hash (network_target j) then
          Ok (Block hash_difficulty
                (assemble_block_hex header coinbase (j_transactions j) (has_witness_commitment j))
                hash)
        else Ok (Valid session_difficulty hash_difficulty hash)
      else Err LowDifficulty.
End Validate.

(** ** The duplicate set as a bounded queue *)
Record share_set_wf (s : ShareSet) : Prop := {
  wf_seen : seen s = list_to_set (order s);
  wf_nodup : NoDup (order s);
  wf_size : (length (order s) <= max_size s)%nat;
  wf_pos : (0 < max_size s)%nat
}.

Lemma share_set_new_wf : share_set_wf share_set_new.
Proof. split; [done | constructor | simpl; lia | simpl; lia]. Qed.

Lemma share_set_clear_wf s : share_set_wf s -> share_set_wf (share_set_clear s).
Proof. intros [_ _ _ H]. split; [done | constructor | simpl; lia | done]. Qed.

Lemma contains_order s k : share_set_wf s -> contains s k = bool_decide (k ∈ order s).
Proof.
  intros [Hs _ _ _]. unfold contains. apply bool_decide_ext.
  rewrite Hs. by rewrite elem_of_list_to_set.
Qed.

(** One insertion, seen as a queue operation. *)
Definition queue_insert (max : nat) (q : list ShareKey) (k : ShareKey) : list ShareKey :=
  if bool_decide (k ∈ q) then q
  else (if (max <=? length q)%nat then tail q else q) ++ [k].

Lemma insert_key_queue s k :
  share_set_wf s ->
  share_set_wf (insert_key s k)
  /\ order (insert_key s k) = queue_insert (max_size s) (order s) k
  /\ max_size (insert_key s k) = max_size s.
Proof.
  intros W. unfold insert_key, queue_insert. rewrite contains_order by done.
  case_bool_decide as Hk; [done|]. destruct W as [Hs HN Hl Hp].
  assert (size (seen s) = length (order s)) as Hsz
    by (rewrite Hs; by apply size_list_to_set).
  rewrite Hsz. destruct (Nat.leb_spec (max_size s) (length (order s))) as [Hf|Hf].
  - destruct (order s) as [|o q] eqn:Eo; [simpl in *; lia|].
    cbn [tail order max_size seen]. apply NoDup_cons in HN as [Ho HN]. apply not_elem_of_cons in Hk as [_ Hk].
    split; [|done]. split; cbn [seen order max_size].
    + rewrite Hs. set_solver.
    + apply NoDup_app. split; [done|]. split; [intros y Hy ->%list_elem_of_singleton; done | apply NoDup_singleton].
    + rewrite length_app. simpl in *. lia.
    + done.
  - split; [|done]. split; cbn [seen order max_size].
    + rewrite Hs. set_solver.
    + apply NoDup_app. split; [done|]. split; [intros y Hy ->%list_elem_of_singleton; done | apply NoDup_singleton].
    + rewrite length_app. simpl. lia.
    + done.
Qed.

(** A key at distance [i] from the front is only pushed out by more than
    [i] insertions beyond the free slots. *)
Lemma queue_insert_lookup max q x k i :
  (length q <= max)%nat -> q !! i = Some k -> (1 <= i + (max - length q))%nat ->
  exists i', queue_insert max q x !! i' = Some k
    /\ (length (queue_insert max q x) <= max)%nat
    /\ (i + (max - length q) - 1 <= i' + (max - length (queue_insert max q x)))%nat.
Proof.
  intros Hl Hi Hm. unfold queue_insert. case_bool_decide; [exists i; repeat split; [done..|lia]|].
  destruct (Nat.leb_spec max (length q)) as [Hf|Hf].
  - destruct q as [|o q]; [done|]. destruct i as [|i]; [simpl in *; lia|].
    exists i. simpl in *. rewrite length_app. simpl.
    rewrite lookup_app_l by (by eapply lookup_lt_Some). repeat split; [done | lia | lia].
  - exists i. rewrite length_app. simpl.
    rewrite lookup_app_l by (by eapply lookup_lt_Some). repeat split; [done | lia | lia].
Qed.

Lemma insert_run_remembers s ks k i :
  share_set_wf s -> order s !! i = Some k ->
  (length ks <= i + (max_size s - length (order s)))%nat ->
  contains (foldl insert_key s ks) k = true.
Proof.
  revert s i; induction ks as [|x ks IH]; intros s i W Hi Hl; simpl.
  - rewrite contains_order by done. apply bool_decide_true. by eapply list_elem_of_lookup_2.
  - destruct (insert_key_queue s x W) as (W' & Ho & Hm). simpl in Hl.
    destruct (queue_insert_lookup (max_size s) (order s) x k i) as (i' & Hi' & Hb & Hd);
      [apply W | done | lia |].
    eapply (IH _ i'); [done | by rewrite Ho | rewrite Ho, Hm; lia].
Qed.

Lemma insert_run_wf s ks : share_set_wf s -> share_set_wf (foldl insert_key s ks).
Proof.
  revert s; induction ks as [|k ks IH]; intros s W; [done|]. apply IH.
  by apply insert_key_queue.
Qed.

(** A share that was new when recorded survives fewer than [max_size] more. *)
Lemma insert_run_keeps s k ks :
  share_set_wf s -> contains s k = false -> (length ks < max_size s)%nat ->
  contains (foldl insert_key (insert_key s k) ks) k = true.
Proof.
  intros W Hk Hl. destruct (insert_key_queue s k W) as (W' & Ho & Hm).
  rewrite contains_order in Hk by done. unfold queue_insert in Ho. rewrite Hk in Ho.
  set (q := if (max_size s <=? length (order s))%nat then tail (order s) else order s) in Ho.
  eapply (insert_run_remembers _ _ _ (length q)); [done | |].
  - rewrite Ho. by apply list_lookup_middle.
  - rewrite Hm, Ho, length_app. simpl.
    pose proof (wf_size _ W'). rewrite Ho, Hm, length_app in *. simpl in *. lia.
Qed.

(** Recording one share never makes another one known. *)
Lemma insert_key_other s k k' :
  share_set_wf s -> k' <> k -> contains s k' = false -> contains (insert_key s k) k' = false.
Proof.
  intros W Hne Hc. destruct (insert_key_queue s k W) as (W' & Ho & _).
  rewrite contains_order in * by done. rewrite Ho. apply bool_decide_eq_false in Hc.
  apply bool_decide_eq_false. unfold queue_insert. case_bool_decide; [done|].
  destruct (_ <=? _)%nat; [|set_solver]. intros [Hin|Hin%list_elem_of_singleton]%elem_of_app; [|done].
  apply Hc. destruct (order s); [done|]. by right.
Qed.

(** ** Version rolling *)
(** The bits a mask refuses, as a test. *)
Lemma outside_mask_zero bits mask :
  is_u32 bits ->
  Z.land bits (not32 mask) = 0
  <-> forall i, 0 <= i < 32 -> Z.testbit bits i = true -> Z.testbit mask i = true.
Proof.
  intros Hb. split.
  - intros H i Hi Ht. apply (f_equal (fun z => Z.testbit z i)) in H.
    rewrite Z.land_spec, testbit_not32, Ht, Z.bits_0 in H by lia.
    by destruct (Z.testbit mask i).
  - intros H. apply Z.bits_inj'. intros i Hi. rewrite Z.land_spec, Z.bits_0.
    destruct (Z_lt_ge_dec i 32).
    + rewrite testbit_not32 by lia.
      destruct (Z.testbit bits i) eqn:E; [|done]. by rewrite (H i) by (done || lia).
    + by rewrite testbit_u32_high by (done || lia).
Qed.

(** ** The header *)
Lemma length_double_sha256 `{Sha256} m : length (double_sha256 m) = 32%nat.
Proof. apply sha256_length. Qed.

Lemma length_merkle_root `{Sha256} branch cb : length (merkle_root branch cb) = 32%nat.
Proof.
  unfold merkle_root. destruct branch as [|b branch] using rev_ind; [apply length_double_sha256|].
  rewrite fold_left_app. apply length_double_sha256.
Qed.

(** The header of the Bitcoin protocol: six little-endian fields, both hashes
    in internal byte order. *)
Definition header_layout (version : Z) (prev_internal root : bytes) (ntime bits nonce : Z) : bytes :=
  to_le_bytes 4 version ++ prev_internal ++ root ++ to_le_bytes 4 ntime
    ++ to_le_bytes 4 bits ++ to_le_bytes 4 nonce.

Lemma length_header_layout version prev root ntime bits nonce :
  length prev = 32%nat -> length root = 32%nat ->
  length (header_layout version prev root ntime bits nonce) = 80%nat.
Proof.
  intros Hp Hr. unfold header_layout. rewrite !length_app, !length_to_le_bytes. lia.
Qed.

(** [build_header] undoes [stratum_prev_hash]: the header carries the display
    hash reversed, which is the node's internal order. *)
Lemma build_header_stratum `{HexCodec} display s version root ntime bits_hex nonce header :
  stratum_prev_hash display = Ok s ->
  build_header version s root ntime bits_hex nonce = Ok header ->
  exists prev bits,
    hex_decode display = Some prev /\ length prev = 32%nat /\ u32_from_hex bits_hex = Some bits
    /\ header = header_layout version (reverse prev) root ntime bits nonce.
Proof.
  unfold stratum_prev_hash, build_header. intros Hs Hh.
  destruct (hex_decode display) as [b|] eqn:Eb; simpl in Hs; [|done].
  case_bool_decide as Hl; [|done]. injection Hs as <-.
  rewrite hex_slice_encode in Hh by (by rewrite length_swap_each_word, length_reverse).
  simpl in Hh. destruct (u32_from_hex bits_hex) as [bits|]; simpl in Hh; [|done].
  injection Hh as <-. exists b, bits. repeat split; try done.
  rewrite (swap_each_word_involutive _ 8) by (by rewrite length_reverse). done.
Qed.

Lemma length_build_header `{HexCodec} version s root ntime bits_hex nonce header :
  build_header version s root ntime bits_hex nonce = Ok header ->
  length root = 32%nat -> length header = 80%nat.
Proof.
  unfold build_header. intros Hh Hr. destruct (hex_decode_to_slice 32 s) as [p|] eqn:E; simpl in Hh; [|done].
  apply hex_slice_Some in E as [_ Hp].
  destruct (u32_from_hex bits_hex); simpl in Hh; [|done]. injection Hh as <-.
  apply length_header_layout; [by rewrite length_swap_each_word | done].
Qed.

(** What the job builders copy from the template and from the node's answer. *)
Lemma build_job_for_payout_fields `{TxCodec} id t payout tag n1 n2 j :
  build_job_for_payout id t payout tag n1 n2 = Ok j ->
  j_prev_hash j = t_prev_hash t /\ merkle_branch_raw j = t_merkle_branch_raw t
  /\ j_bits j = t_bits t /\ network_target j = t_network_target t
  /\ j_transactions j = t_transactions t
  /\ has_witness_commitment j = bool_decide (is_Some (t_witness_commitment t))
  /\ j_version j = t_version t.
Proof.
  unfold build_job_for_payout. intros Hj. bind_inv Hj. destruct x. by injection Hj as <-.
Qed.

(** The job carries the template's work. *)
Definition same_template (j : StratumJob) (t : JobTemplate) : Prop :=
  j_prev_hash j = t_prev_hash t /\ merkle_branch_raw j = t_merkle_branch_raw t
  /\ merkle_branch j = t_merkle_branch t /\ j_version j = t_version t /\ j_bits j = t_bits t
  /\ j_cur_time j = t_cur_time t /\ j_height j = t_height t /\ network_target j = t_network_target t
  /\ j_transactions j = t_transactions t.

Lemma job_of_template `{TxCodec} id t payout tag n1 n2 j :
  build_job_for_payout id t payout tag n1 n2 = Ok j ->
  job_id j = id /\ payout_address j = address payout /\ same_template j t.
Proof.
  unfold build_job_for_payout. intros Hj. bind_inv Hj. destruct x. by injection Hj as <-.
Qed.

Lemma build_job_template_fields `{Sha256} `{HexCodec} gbt t :
  build_job_template gbt = Ok t ->
  exists txids bits,
    collect_results decode_txid (Rpc.transactions gbt) = Ok txids
    /\ t_merkle_branch_raw t = compute_merkle_branch_raw txids
    /\ stratum_prev_hash (Rpc.prev_hash gbt) = Ok (t_prev_hash t)
    /\ t_bits t = Rpc.bits gbt /\ u32_from_hex (Rpc.bits gbt) = Some bits
    /\ compact_to_target bits = Some (t_network_target t)
    /\ t_transactions t = Rpc.data <$> Rpc.transactions gbt
    /\ t_height t = Rpc.height gbt /\ t_coinbase_value t = Rpc.coinbase_value gbt
    /\ t_witness_commitment t = Rpc.default_witness_commitment gbt ≫= hex_decode
    /\ t_version t = Rpc.version gbt.
Proof.
  unfold build_job_template. intros Ht. bind_inv Ht. bind_inv Ht.
  assert (x0 = Rpc.default_witness_commitment gbt ≫= hex_decode) as Hwc.
  { destruct (Rpc.default_witness_commitment gbt) as [w|]; simplify_eq/=; [|done].
    by destruct (hex_decode w); simplify_eq/=. }
  destruct (announces_segwit _ && _); [done|]. bind_inv Ht. bind_inv Ht. bind_inv Ht.
  destruct (bits_to_target _) as [tgt|] eqn:Eb; simplify_eq/=.
  unfold bits_to_target in Eb. destruct (u32_from_hex _) as [b|] eqn:Eu; simplify_eq/=.
  exists x, b. repeat split; done.
Qed.

(** ** Transaction counts *)

(** The node's reader of a CompactSize, which refuses an encoding longer than
    needed. *)
Definition decode_varint (l : bytes) : option (Z * bytes) :=
  let wide (n : nat) (least : Z) (r : bytes) :=
    if (length r <? n)%nat then None
    else let v := le_val (take n r) in
         if v <? least then None else Some (v, drop n r) in
  match l with
  | [] => None
  | b :: r =>
      if byte_val b <? 0xfd then Some (byte_val b, r)
      else if byte_val b =? 0xfd then wide 2%nat 0xfd r
      else if byte_val b =? 0xfe then wide 4%nat 0x10000 r
      else wide 8%nat 0x100000000 r
  end.

Lemma decode_wide n v rest :
  0 <= v < 256 ^ Z.of_nat n ->
  (length (to_le_bytes n v ++ rest) <? n)%nat = false
  /\ le_val (take n (to_le_bytes n v ++ rest)) = v
  /\ drop n (to_le_bytes n v ++ rest) = rest.
Proof.
  intros Hv. rewrite length_app, length_to_le_bytes.
  rewrite take_app_length', drop_app_length' by (by rewrite length_to_le_bytes).
  rewrite le_val_to_le_bytes, Z.mod_small by lia.
  split; [apply Nat.ltb_ge; lia | done].
Qed.

(** The encoder writes the CompactSize of the protocol. *)
Lemma encode_varint_compact n : 0 <= n -> encode_varint n = compact_size n.
Proof.
  intros Hn. unfold encode_varint, compact_size.
  destruct (Z.ltb_spec n 0xfd); [done|].
  destruct (Z.leb_spec n 0xffff); [by rewrite Z.mod_small by lia|].
  destruct (Z.leb_spec n 0xffffffff); [by rewrite Z.mod_small by lia | done].
Qed.

(** ** Accepted shares *)
Definition result_hash (r : ShareResult) : bytes :=
  match r with Valid _ _ h => h | Block _ _ h => h end.
Definition result_difficulty (r : ShareResult) : Z :=
  match r with Valid _ d _ => d | Block d _ _ => d end.
Definition is_block (r : ShareResult) : bool :=
  match r with Valid _ _ _ => false | Block _ _ _ => true end.

Section Accept.
Context `{Sha256} `{HexCodec} `{TxCodec}.

(** The header a submission stands for: the job's fields with the miner's
    extranonce, time, nonce and rolled version bits. *)
Definition share_header (params : ShareParams) (j : StratumJob) (extranonce1 : bytes)
  : result PoolError bytes :=
  version ← resolve_version (j_version j) (p_version_bits params) (p_version_rolling_mask params);
  build_header version (j_prev_hash j)
    (merkle_root (merkle_branch_raw j) (assemble_coinbase j extranonce1 (p_extranonce2 params)))
    (p_ntime params) (j_bits j) (p_nonce params).

Definition ntime_ok (params : ShareParams) (j : StratumJob) (clock : option Z) : Prop :=
  j_cur_time j <= p_ntime params <= ntime_ceiling (j_cur_time j) (now_unix_secs clock).

Lemma validate_Ok params j entry en1 d clock r :
  validate_share_no_dedup params j entry en1 d clock = Ok r <->
  superseded_by_clean entry = false /\ ntime_ok params j clock
  /\ exists header, share_header params j en1 = Ok header
      /\ meets_target (double_sha256 header) (difficulty_to_target d) = true
      /\ r = (let hash := double_sha256 header in
              if meets_target hash (network_target j)
              then Block (hash_to_difficulty hash)
                     (assemble_block_hex header (assemble_coinbase j en1 (p_extranonce2 params))
                        (j_transactions j) (has_witness_commitment j)) hash
              else Valid d (hash_to_difficulty hash) hash).
Proof.
  unfold validate_share_no_dedup, ntime_ok, share_header.
  destruct (superseded_by_clean entry); [by split; [|intros (? & _)]|].
  set (ceil := ntime_ceiling _ _).
  destruct ((p_ntime params <? j_cur_time j) || (ceil <? p_ntime params)) eqn:Et.
  { split; [done|]. intros (_ & Hn & _). apply orb_true_iff in Et as [Et|Et]; zbool; lia. }
  zbool. destruct (resolve_version _ _ _) as [v|]; simpl; [|by split; [|intros (_ & _ & ? & ? & _)]].
  destruct (build_header _ _ _ _ _ _) as [h|]; simpl; [|by split; [|intros (_ & _ & ? & ? & _)]].
  destruct (meets_target _ (difficulty_to_target d)) eqn:Em.
  - split.
    + intros HR. repeat split; try lia. exists h. repeat split; try done.
      destruct (meets_target _ (network_target j)); congruence.
    + intros (_ & _ & h' & [= <-] & _ & ->). by destruct (meets_target _ (network_target j)).
  - split; [done|]. intros (_ & _ & h' & [= <-] & Hm & _). congruence.
Qed.

Lemma length_share_header params j en1 header :
  share_header params j en1 = Ok header -> length header = 80%nat.
Proof.
  unfold share_header. intros Hs. bind_inv Hs.
  eapply length_build_header; [done|]. apply length_merkle_root.
Qed.
End Accept.

(** ** Properties *)

(** C2. A submission is accepted exactly when it is timely work on a live job:
    the job is not superseded, the time is between the template's and the
    ceiling, the header can be built with the version bits inside the mask, and
    the header's hash times the share difficulty stays within the difficulty-1
    target.  The result then reports that 80-byte header's hash, a difficulty
    at least the assigned one, and a block exactly when the hash does not
    exceed the network target. *)
Theorem share_accepted_iff_work `{Sha256} `{HexCodec} `{TxCodec} (params : ShareParams)
    (j : StratumJob) (entry : JobEntry) (en1 : bytes) (d : Z) (clock : option Z) (r : ShareResult) :
  1 <= d <= u64_max -> length (network_target j) = 32%nat ->
  (is_ok (validate_share_no_dedup params j entry en1 d clock) = true
   <-> superseded_by_clean entry = false /\ ntime_ok params j clock
       /\ exists header, share_header params j en1 = Ok header
           /\ le_val (double_sha256 header) * d <= DIFF1)
  /\ (validate_share_no_dedup params j entry en1 d clock = Ok r ->
      exists header, share_header params j en1 = Ok header /\ length header = 80%nat
        /\ result_hash r = double_sha256 header
        /\ d <= result_difficulty r
        /\ is_block r = (le_val (result_hash r) <=? be_val (network_target j))).
Proof.
  intros Hd Hn.
  assert (forall h, meets_target (double_sha256 h) (difficulty_to_target d) = true
                    <-> le_val (double_sha256 h) * d <= DIFF1) as Hmt.
  { intros h. rewrite meets_difficulty_iff by (lia || apply length_double_sha256).
    by rewrite Z.max_r by lia. }
  split.
  - split.
    + destruct (validate_share_no_dedup _ _ _ _ _ _) as [r'|] eqn:E; [|done]. intros _.
      apply validate_Ok in E as (? & ? & h & Hh & Hm & _). apply Hmt in Hm. eauto 6.
    + intros (Hs & Ht & h & Hh & Hw). apply Hmt in Hw.
      erewrite (proj2 (validate_Ok params j entry en1 d clock _)); [reflexivity|]. eauto 8.
  - intros E. apply validate_Ok in E as (_ & _ & h & Hh & Hm & ->). exists h.
    pose proof (meets_target_val (double_sha256 h) (network_target j)) as Hv.
    rewrite length_double_sha256, Hn in Hv. specialize (Hv eq_refl).
    pose proof (meets_target_reads_difficulty _ _ Hd (length_double_sha256 h) Hm).
    split; [done|]. split; [by eapply length_share_header|].
    cbv zeta. by destruct (meets_target _ (network_target j)); cbn; rewrite <- Hv.
Qed.

(** A digest that is all zeros meets every target; it stands for lucky work in
    the evaluations below. *)
Definition zero_sha256 : Sha256 :=
  {| sha256 := fun _ => repeat x00 32; sha256_length := fun _ => eq_refl |}.
Definition demo_prev : string := hex_text (to_be_bytes 32 0x00000000000000000001a2b3c4d5e6f7).
Definition demo_gbt : Rpc.GbtResult :=
  Rpc.mkGbtResult 0x20000000 demo_prev "1d00ffff" 1700000000 900000 312500000
    [Rpc.mkGbtTransaction [x01; x02] (hex_text (repeat x11 32)) "" 400 8] None None
    ["csv"; "taproot"] 0.
Definition demo_built_template : JobTemplate :=
  match @build_job_template zero_sha256 hex_codec demo_gbt with
  | Ok t => t
  | Err _ => demo_template
  end.
Definition demo_built_job : StratumJob :=
  match @build_job_for_payout legacy_codec "1" demo_built_template demo_payout
          (string_bytes "/btcpool/") 4 4 with
  | Ok job => job
  | Err _ => demo_job
  end.
Definition demo_entry : JobEntry := mkJobEntry demo_built_job 0 false 1000.
Definition demo_params : ShareParams :=
  mkShareParams "1" [x05; x06; x07; x08] 1700000100 7 (Some 0x2000) None.
Definition demo_en1 : bytes := [x01; x02; x03; x04].
Definition demo_result : ShareResult :=
  match @validate_share_no_dedup zero_sha256 hex_codec legacy_codec demo_params demo_built_job
          demo_entry demo_en1 1000 (Some 1700000050) with
  | Ok r => r
  | Err _ => Valid 0 0 []
  end.

Lemma share_accepted_iff_work_witness :
  is_ok (@validate_share_no_dedup zero_sha256 hex_codec legacy_codec demo_params demo_built_job
           demo_entry demo_en1 1000 (Some 1700000050)) = true
  /\ (superseded_by_clean demo_entry = false
      /\ ntime_ok demo_params demo_built_job (Some 1700000050)
      /\ exists header, @share_header zero_sha256 hex_codec demo_params demo_built_job demo_en1
                        = Ok header /\ le_val (@double_sha256 zero_sha256 header) * 1000 <= DIFF1)
  /\ is_block demo_result = true.
Proof.
  destruct (@share_accepted_iff_work zero_sha256 hex_codec legacy_codec demo_params demo_built_job
              demo_entry demo_en1 1000 (Some 1700000050) demo_result) as [Hiff Hres];
    [unfold u64_max; lia | vm_compute; reflexivity |].
  split; [vm_compute; reflexivity|]. split.
  - apply Hiff. vm_compute. reflexivity.
  - destruct Hres as (h & _ & _ & _ & _ & ->); vm_compute; reflexivity.
Defined.

(** C1. End to end, from the node's template to the block sent back: for a job
    built from [gbt] for [payout], a submission with the right extranonce width
    that is judged a block yields hexadecimal text that decodes to a header, the
    CompactSize of the transaction count, the coinbase (re-serialised with the
    witness reserved value when the template commits to witnesses) and the
    template's transactions, where the header names the template's previous block and the merkle root of exactly
    the coinbase and the template's transactions, the coinbase pays the template
    value to the payout script, and the header's hash meets the target the
    template's [bits] encode. *)
Theorem found_block_is_well_formed `{Sha256} `{HexCodec} `{TxCodec} (gbt : Rpc.GbtResult)
    (t : JobTemplate) (id : string) (payout : PayoutDescriptor) (tag : bytes) (n1 n2 : nat)
    (j : StratumJob) (params : ShareParams) (entry : JobEntry) (en1 : bytes) (d : Z)
    (clock : option Z) (hd : Z) (hex : string) (hash : bytes) :
  build_job_template gbt = Ok t -> build_job_for_payout id t payout tag n1 n2 = Ok j ->
  length en1 = n1 -> length (p_extranonce2 params) = n2 ->
  validate_share_no_dedup params j entry en1 d clock = Ok (Block hd hex hash) ->
  let wc := Rpc.default_witness_commitment gbt ≫= hex_decode in
  let coinbase := coinbase_tx (encode_bip34_height (Rpc.height gbt) ++ tag ++ en1
                                 ++ p_extranonce2 params)
                    (Rpc.coinbase_value gbt) (script_pubkey payout) wc in
  exists version prev txids bits target,
    resolve_version (Rpc.version gbt) (p_version_bits params) (p_version_rolling_mask params)
      = Ok version
    /\ hex_decode (Rpc.prev_hash gbt) = Some prev
    /\ collect_results decode_txid (Rpc.transactions gbt) = Ok txids
    /\ u32_from_hex (Rpc.bits gbt) = Some bits /\ compact_to_target bits = Some target
    /\ let header := header_layout version (reverse prev)
                       (block_merkle_root (double_sha256 (tx_serialize coinbase) :: txids))
                       (p_ntime params) bits (p_nonce params) in
       hash = double_sha256 header
       /\ meets_target hash target = true
       /\ hex_decode hex
          = Some (header ++ compact_size (1 + Z.of_nat (length (Rpc.transactions gbt)))
                    ++ match wc with
                       | Some _ => default (tx_serialize coinbase)
                                     (coinbase_with_witness_reserved_value (tx_serialize coinbase))
                       | None => tx_serialize coinbase
                       end
                    ++ concat (Rpc.data <$> Rpc.transactions gbt)).
Proof.
  intros Ht Hj Hl1 Hl2 Hv.
  destruct (assemble_serialized id t payout tag n1 n2 j en1 (p_extranonce2 params) Hj) as [_ Ecb];
    [lia|].
  destruct (build_job_for_payout_fields _ _ _ _ _ _ _ Hj)
    as (Eprev & Ebr & Ebits & Etgt & Etx & Ewc & Evs).
  destruct (build_job_template_fields _ _ Ht) as (txids & bits & Htx & Hbr & Hpv & Hb & Hbits
    & Htgt & Hdata & Hhg & Hval & Hwc & Hvs).
  apply validate_Ok in Hv as (_ & _ & header & Hh & _ & Hr). unfold share_header in Hh. bind_inv Hh.
  rewrite Eprev in Hh. destruct (build_header_stratum _ _ _ _ _ _ _ _ Hpv Hh)
    as (prev & bits' & Hprev & _ & Hbits' & ->).
  rewrite Ebits, Hb, Hbits in Hbits'. injection Hbits' as <-.
  rewrite Ebr, Hbr, merkle_root_of_branch, Ecb in Hr. cbv zeta in Hr.
  destruct (meets_target _ (network_target j)) eqn:Em in Hr; [|done]. injection Hr as -> -> ->.
  rewrite Etgt in Em. rewrite Evs, Hvs in *. rewrite Hhg, Hval, Hwc in *.
  exists x, prev, txids, bits, (t_network_target t). repeat split; try done.
  unfold assemble_block_hex, assemble_block.
  rewrite hex_decode_encode, Etx, Hdata, Ewc, length_fmap, encode_varint_compact by lia.
  by destruct (_ ≫= hex_decode).
Qed.

Definition demo_block_hex : string :=
  match demo_result with Block _ hex _ => hex | Valid _ _ _ => "" end.

Lemma found_block_is_well_formed_witness : is_Some (@hex_decode hex_codec demo_block_hex).
Proof.
  edestruct (@found_block_is_well_formed zero_sha256 hex_codec legacy_codec demo_gbt
    demo_built_template "1" demo_payout (string_bytes "/btcpool/") 4 4 demo_built_job demo_params
    demo_entry demo_en1 1000 (Some 1700000050) (result_difficulty demo_result) demo_block_hex
    (result_hash demo_result)) as (v & prev & txids & bits & tgt & _ & _ & _ & _ & _ & _ & _ & Hx);
    [vm_compute; reflexivity.. | eauto].
Defined.

(** BIP320 version rolling, on 32-bit words: bits outside the negotiated
    mask are refused, and otherwise the header version takes the miner's bits
    under the mask and keeps the template's everywhere else. *)
Lemma version_rolling_respects_mask (base bits mask : Z) :
  is_u32 base -> is_u32 bits -> is_u32 mask ->
  match resolve_version base (Some bits) (Some mask) with
  | Ok v =>
      is_u32 v
      /\ (forall i, 0 <= i < 32 ->
            Z.testbit v i = if Z.testbit mask i then Z.testbit bits i else Z.testbit base i)
      /\ (forall i, 0 <= i < 32 -> Z.testbit bits i = true -> Z.testbit mask i = true)
  | Err _ =>
      ~ (forall i, 0 <= i < 32 -> Z.testbit bits i = true -> Z.testbit mask i = true)
  end.
Proof.
  intros Hb Hbits Hm. cbn [resolve_version default from_option].
  pose proof (outside_mask_zero bits mask Hbits) as Ho. unfold resolve_version. cbn.
  destruct (Z.eqb_spec (Z.land bits (not32 mask)) 0) as [E|E].
  - split; [auto with pool_db|]. split; [|by apply Ho]. intros i Hi.
    rewrite Z.lor_spec, !Z.land_spec, testbit_not32 by lia.
    by destruct (Z.testbit mask i), (Z.testbit base i), (Z.testbit bits i).
  - by rewrite <- Ho.
Qed.

Lemma version_rolling_respects_mask_witness :
  Z.testbit 0x20002000 13
  = if Z.testbit 0x1FFFE000 13 then Z.testbit 0x2000 13 else Z.testbit 0x20000000 13.
Proof.
  apply (version_rolling_respects_mask 0x20000000 0x2000 0x1FFFE000);
    unfold is_u32, u32_max; lia.
Defined.

(** The transaction count of a serialised block reads back: the node's
    CompactSize reader recovers any 64-bit count from [encode_varint] and
    leaves the bytes that follow, so the encoding is also minimal. *)
Lemma varint_roundtrip (n : Z) (rest : bytes) :
  0 <= n <= u64_max -> decode_varint (encode_varint n ++ rest) = Some (n, rest).
Proof.
  intros Hn. unfold encode_varint, u64_max in *.
  destruct (Z.ltb_spec n 0xfd).
  - cbn [app decode_varint]. rewrite byte_val_of, Z.mod_small by lia.
    by destruct (Z.ltb_spec n 0xfd); [|lia].
  - destruct (Z.leb_spec n 0xffff); [|destruct (Z.leb_spec n 0xffffffff)];
      rewrite ?Z.mod_small by lia; cbn [app].
    + destruct (decode_wide 2 n rest ltac:(lia)) as (E1 & E2 & E3).
      unfold decode_varint. cbn -[Nat.ltb take drop le_val to_le_bytes].
      rewrite E1, E2, E3. by destruct (Z.ltb_spec n 253); [lia|].
    + destruct (decode_wide 4 n rest ltac:(lia)) as (E1 & E2 & E3).
      unfold decode_varint. cbn -[Nat.ltb take drop le_val to_le_bytes].
      rewrite E1, E2, E3. by destruct (Z.ltb_spec n 65536); [lia|].
    + destruct (decode_wide 8 n rest ltac:(lia)) as (E1 & E2 & E3).
      unfold decode_varint. cbn -[Nat.ltb take drop le_val to_le_bytes].
      rewrite E1, E2, E3. by destruct (Z.ltb_spec n 4294967296); [lia|].
Qed.

Lemma varint_roundtrip_witness : decode_varint (encode_varint 70000 ++ [x01]) = Some (70000, [x01]).
Proof. apply (varint_roundtrip 70000 [x01]). unfold u64_max. lia. Defined.

(** The duplicate set never forgets early and never grows past its cap:
    from any well-formed set, a share that was new when recorded is still
    recognised as a duplicate after fewer than [max_size] further recordings of
    any shares, and the set stays well formed (its index and its queue agree,
    without duplicates and within the cap). *)
Lemma duplicate_share_remembered (s : ShareSet) (k : ShareKey) (ks : list ShareKey) :
  share_set_wf s -> contains s k = false -> (length ks < max_size s)%nat ->
  contains (foldl insert_key (insert_key s k) ks) k = true
  /\ share_set_wf (foldl insert_key (insert_key s k) ks).
Proof.
  intros W Hk Hl. split; [by apply insert_run_keeps|].
  apply insert_run_wf. by apply insert_key_queue.
Qed.

Lemma duplicate_share_remembered_witness :
  contains (foldl insert_key (insert_key share_set_new (mkShareKey "1" [x01] 1 2 0))
              [mkShareKey "1" [x02] 1 2 0; mkShareKey "1" [x01] 1 2 0]) (mkShareKey "1" [x01] 1 2 0)
  = true.
Proof.
  apply (duplicate_share_remembered share_set_new (mkShareKey "1" [x01] 1 2 0)
           [mkShareKey "1" [x02] 1 2 0; mkShareKey "1" [x01] 1 2 0]).
  - apply share_set_new_wf.
  - reflexivity.
  - apply Nat.ltb_lt. reflexivity.
Defined.

End Validator.
