(* ===== verification/Engine.v ===== *)
(** * Engine: the template engine ([src/mining/engine.rs])

    [TemplateEngine::refresh] with the rules gate, the refresh loop's control
    flow, freshness, and the submission of a found block with its retries.  The
    node's answers and the clock are arguments; the broadcast channel is the
    list of messages sent so far.  The archive of a found block is in [NodeClient],
    the metrics calls in [Metrics]; log lines are left out. *)
From S2P Require Import Prelude Text F64 Json Errors Interfaces Target Rpc Hashrate Stats Store.
From S2P Require Import Security Accounting Identity Template Jobs.
Import Target Rpc Template Jobs.

Module Engine.

Definition TEMPLATE_STALE_AFTER : Z := 180 * NANOS.

Record JobBroadcast := mkBroadcast { b_template : JobTemplate; b_clean : bool }.

(** The chart figures published on a refresh. *)
Record ChainFigures := mkFigures {
  current_height : Z;
  current_coinbase_value : Z;
  current_tx_count : Z;
  network_difficulty : f64
}.

Record TemplateEngine := mkEngine {
  strict : bool;
  current_template : option JobTemplate;
  broadcasts : list JobBroadcast;
  figures : ChainFigures;
  engine_started : Instant;
  last_refresh_offset_secs : Z;
  has_refreshed : bool;
  last_refresh_unix_secs : Z;
  unsupported_rules : list string
}.

Definition engine_new (strict : bool) (now : Instant) : TemplateEngine :=
  mkEngine strict None [] (mkFigures 0 0 0 f0) now 0 false 0 [].

(** ** Small decisions *)
Definition should_force_clean (previous : option string) (new_prev_hash : string) : bool :=
  bool_decide (previous <> Some new_prev_hash).

Definition is_fresh (refreshed : bool) (age : Z) : bool := refreshed && (age <? TEMPLATE_STALE_AFTER).

Definition template_age_from (started : Instant) (offset_secs : Z) (now : Instant) : Z :=
  sat_sub (as_secs (duration_since now started)) offset_secs * NANOS.

Definition template_age (e : TemplateEngine) (now : Instant) : Z :=
  template_age_from (engine_started e) (last_refresh_offset_secs e) now.

Definition is_template_fresh (e : TemplateEngine) (now : Instant) : bool :=
  is_fresh (has_refreshed e) (template_age e now).

Definition is_permanent_reject (e : PoolError) : bool :=
  match e with SubmitBlockRejected _ => true | _ => false end.

Definition is_blocked_on_rules (e : TemplateEngine) : bool :=
  strict e && bool_decide (unsupported_rules e <> []).

(** ** The network difficulty of compact [bits] *)
Definition bits_to_difficulty `{Libm} (bits_hex : string) : option f64 :=
  bits ← u32_from_hex bits_hex;
  let exponent := Z.land (Z.shiftr bits 24) 0xff in
  let mantissa := Z.land bits 0x007fffff in
  if mantissa =? 0 then None
  else
    let exponent_factor := (f64_of_Z 232 - f64_of_Z 8 * f64_of_Z exponent)%f64 in
    Some (f64_of_Z 0xffff / f64_of_Z mantissa * fpowf (f64_of_Z 2) exponent_factor)%f64.

(** ** Refresh *)

(** [check_template_rules]: may the caller go on, and the engine after. *)
Definition check_template_rules (e : TemplateEngine) (gbt : GbtResult) : bool * TemplateEngine :=
  let unsupported := unsupported_gbt_rules gbt in
  let e1 := mkEngine (strict e) (current_template e) (broadcasts e) (figures e) (engine_started e)
              (last_refresh_offset_secs e) (has_refreshed e) (last_refresh_unix_secs e) unsupported in
  if bool_decide (unsupported = []) then (true, e1)
  else if negb (strict e) then (true, e1)
  else (false, mkEngine (strict e) None (broadcasts e) (figures e) (engine_started e)
                 (last_refresh_offset_secs e) (has_refreshed e) (last_refresh_unix_secs e) unsupported).

Section Refresh.
Context `{Sha256} `{HexCodec} `{Libm}.

(** The [Ok(template)] arm. *)
Definition install_template (e : TemplateEngine) (t : JobTemplate) (now : Instant) (unix : Z)
  : TemplateEngine :=
  let clean := should_force_clean (t_prev_hash <$> current_template e) (t_prev_hash t) in
  let nd := default (network_difficulty (figures e)) (bits_to_difficulty (t_bits t)) in
  mkEngine (strict e) (Some t) (broadcasts e ++ [mkBroadcast t clean])
    (mkFigures (t_height t) (t_coinbase_value t) (Z.of_nat (length (t_transactions t))) nd)
    (engine_started e) (as_secs (duration_since now (engine_started e))) true unix
    (unsupported_rules e).

(** [refresh]; its [clean_jobs] argument only feeds a metric. *)
Definition refresh (e : TemplateEngine) (answer : result PoolError GbtResult) (now : Instant)
    (unix : Z) : TemplateEngine :=
  match answer with
  | Err _ => e
  | Ok gbt =>
      let '(go, e1) := check_template_rules e gbt in
      if go then
        match build_job_template gbt with
        | Ok t => install_template e1 t now unix
        | Err _ => e1
        end
      else e1
  end.

(** ** The loop *)
Inductive LoopEvent : Type :=
| BlockSignal (answer : result PoolError GbtResult) (now : Instant) (unix : Z)
| SignalClosed
| NtimeTick (answer : result PoolError GbtResult) (now : Instant) (unix : Z).

(** The new-block branch is polled only while the channel is alive. *)
Definition loop_step (st : bool * TemplateEngine) (ev : LoopEvent) : bool * TemplateEngine :=
  let '(alive, e) := st in
  match ev with
  | BlockSignal a now unix => if alive then (alive, refresh e a now unix) else st
  | SignalClosed => if alive then (false, e) else st
  | NtimeTick a now unix => (alive, refresh e a now unix)
  end.

(** [run]: the startup refresh, then the loop. *)
Definition engine_run (e : TemplateEngine) (first : result PoolError GbtResult) (now : Instant)
    (unix : Z) (evs : list LoopEvent) : TemplateEngine :=
  (foldl loop_step (true, refresh e first now unix) evs).2.
End Refresh.

(** ** Submitting a found block *)
Definition SUBMIT_INLINE_ATTEMPTS : nat := 3.
Definition SUBMIT_RETRY_INTERVAL : Z := 10 * NANOS.
Definition SUBMIT_RETRY_DEADLINE : Z := 2 * 60 * 60 * NANOS.

(** What [submit_found_block] is given. *)
Record FoundBlock := mkFoundBlock {
  fb_height : Z;
  fb_hash : string;
  fb_hex : string;
  fb_worker : string;
  fb_payout : string
}.

Section Submit.
(** The node's answer to the [k]-th [submitblock], from 1. *)
Variable node : nat -> result PoolError BlockSubmitOutcome.

(** The in-line attempts; the flag is whether the background task is
    spawned. *)
Fixpoint inline_attempts (left attempt : nat) (last_err : option PoolError)
  : result PoolError BlockSubmitOutcome * bool :=
  match left with
  | O => (Err (default (Other "submitblock never attempted") last_err), true)
  | S l =>
      match node attempt with
      | Ok o => (Ok o, false)
      | Err e => if is_permanent_reject e then (Err e, false)
                 else inline_attempts l (S attempt) (Some e)
      end
  end.

Definition submit_found_block : result PoolError BlockSubmitOutcome * bool :=
  inline_attempts SUBMIT_INLINE_ATTEMPTS 1 None.

(** The clock at the loop test reached after [k] attempts. *)
Variable clock : nat -> Instant.

(** The background loop: what it hands to the bookkeeping, [None] when the
    fuel runs out (see [resubmit_terminates]). *)
Fixpoint resubmit (fuel attempt : nat) (deadline : Instant) : option (option BlockSubmitOutcome) :=
  match fuel with
  | O => None
  | S f =>
      if clock attempt <? deadline then
        match node (S attempt) with
        | Ok o => Some (Some o)
        | Err e => if is_permanent_reject e then Some None else resubmit f (S attempt) deadline
        end
      else Some None
  end.

Definition RESUBMIT_FUEL : nat := 721.

(** The outcomes that reach [record_block_outcome]: the caller records an
    in-line answer, the background task its own. *)
Definition recorded_outcomes (spawned_at : Instant) : list BlockSubmitOutcome :=
  match submit_found_block with
  | (Ok o, _) => [o]
  | (Err _, true) =>
      match resubmit RESUBMIT_FUEL SUBMIT_INLINE_ATTEMPTS (spawned_at + SUBMIT_RETRY_DEADLINE) with
      | Some (Some o) => [o]
      | _ => []
      end
  | (Err _, false) => []
  end.

Definition transient (k : nat) : Prop :=
  exists e, node k = Err e /\ is_permanent_reject e = false.

Lemma inline_spec left k le :
  match inline_attempts left k le with
  | (Ok o, _) => exists j, (k <= j < k + left)%nat /\ node j = Ok o
                           /\ (forall i, (k <= i < j)%nat -> transient i)
  | (Err e, false) => exists j, (k <= j < k + left)%nat /\ node j = Err e
                           /\ is_permanent_reject e = true
                           /\ (forall i, (k <= i < j)%nat -> transient i)
  | (Err _, true) => forall i, (k <= i < k + left)%nat -> transient i
  end.
Proof.
  revert k le; induction left as [|l IH]; intros k le; cbn [inline_attempts]; [intros i Hi; lia|].
  destruct (node k) as [o|e] eqn:Ek.
  - exists k. split; [lia|]. split; [done|]. intros i Hi. lia.
  - destruct (is_permanent_reject e) eqn:Ep.
    + exists k. split; [lia|]. repeat split; try done. intros i Hi. lia.
    + assert (transient k) as Ht by (by exists e).
      specialize (IH (S k) (Some e)).
      destruct (inline_attempts l (S k) (Some e)) as [[o|e'] [|]].
      1,2: destruct IH as (j & Hj & Hn & Hi); exists j; split; [lia|]; split; [done|];
           intros i Hik; destruct (decide (i = k)) as [->|]; [done | apply Hi; lia].
      * intros i Hi. destruct (decide (i = k)) as [->|]; [done | apply IH; lia].
      * destruct IH as (j & Hj & Hn & Hp & Hi). exists j. split; [lia|]. repeat split; try done.
        intros i Hik. destruct (decide (i = k)) as [->|]; [done | apply Hi; lia].
Qed.

(** The first conclusive answer is unique. *)
Lemma first_answer_unique j1 j2 o1 r2 :
  (1 <= j1)%nat -> (1 <= j2)%nat -> node j1 = Ok o1 -> node j2 = r2 ->
  (forall e, r2 = Err e -> is_permanent_reject e = true) ->
  (forall i, (1 <= i < j1)%nat -> transient i) -> (forall i, (1 <= i < j2)%nat -> transient i) ->
  r2 = Ok o1.
Proof.
  intros H1 H2 E1 E2 Hp T1 T2. destruct (Nat.lt_trichotomy j1 j2) as [Hlt|[->|Hlt]].
  - destruct (T2 j1 ltac:(lia)) as (e & He & _). congruence.
  - congruence.
  - destruct (T1 j2 ltac:(lia)) as (e & He & Hf). specialize (Hp e ltac:(congruence)). congruence.
Qed.

(** The loop answers within its fuel when every round sleeps the interval. *)
Lemma resubmit_terminates fuel attempt deadline :
  (forall k, clock k + SUBMIT_RETRY_INTERVAL <= clock (S k)) ->
  deadline <= clock attempt + Z.of_nat fuel * SUBMIT_RETRY_INTERVAL ->
  is_Some (resubmit (S fuel) attempt deadline).
Proof.
  intros Hc. revert attempt; induction fuel as [|f IH]; intros attempt Hd; cbn [resubmit].
  - destruct (Z.ltb_spec (clock attempt) deadline); [lia | eauto].
  - destruct (clock attempt <? deadline); [|eauto].
    destruct (node (S attempt)) as [o|e]; [eauto|]. destruct (is_permanent_reject e); [eauto|].
    apply IH. specialize (Hc attempt). lia.
Qed.

Lemma resubmit_Ok fuel attempt deadline o :
  resubmit fuel attempt deadline = Some (Some o) ->
  exists j, (attempt < j)%nat /\ node j = Ok o /\ clock (j - 1) < deadline
            /\ (forall i, (attempt < i < j)%nat -> transient i).
Proof.
  revert attempt; induction fuel as [|f IH]; intros attempt Hr; [done|]. cbn [resubmit] in Hr.
  destruct (Z.ltb_spec (clock attempt) deadline) as [Hlt|]; [|done].
  destruct (node (S attempt)) as [o'|e] eqn:En.
  - injection Hr as ->. exists (S attempt). rewrite Nat.sub_1_r. cbn [Nat.pred].
    split; [lia|]. repeat split; try done. intros i Hi. lia.
  - destruct (is_permanent_reject e) eqn:Ep; [done|].
    destruct (IH _ Hr) as (j & Hj & Hn & Hcl & Ht). exists j. split; [lia|]. repeat split; try done.
    intros i Hi. destruct (decide (i = S attempt)) as [->|]; [by exists e | apply Ht; lia].
Qed.

Lemma resubmit_complete fuel attempt deadline j o :
  (forall k, clock k <= clock (S k)) -> is_Some (resubmit fuel attempt deadline) ->
  (attempt < j)%nat -> node j = Ok o -> clock (j - 1) < deadline ->
  (forall i, (attempt < i < j)%nat -> transient i) ->
  resubmit fuel attempt deadline = Some (Some o).
Proof.
  intros Hc. revert attempt; induction fuel as [|f IH]; intros attempt [r Hr] Hj Hn Hd Ht; [done|].
  cbn [resubmit] in *.
  assert (forall m n, clock m <= clock (m + n)) as Hmono.
  { intros m n. induction n as [|n IHn]; [by rewrite Nat.add_0_r|].
    rewrite Nat.add_succ_r. specialize (Hc (m + n)%nat). lia. }
  specialize (Hmono attempt (j - 1 - attempt)%nat).
  replace (attempt + (j - 1 - attempt))%nat with (j - 1)%nat in Hmono by lia.
  destruct (Z.ltb_spec (clock attempt) deadline); [|lia].
  destruct (decide (j = S attempt)) as [->|Hne]; [by rewrite Hn|].
  destruct (Ht (S attempt) ltac:(lia)) as (e & He & Hp). rewrite He, Hp in *.
  apply IH; [by exists r | lia | done | done | intros i Hi; apply Ht; lia].
Qed.
(** The background task ends. *)
Lemma resubmit_ends (spawned_at : Instant) :
  (forall k, clock k + SUBMIT_RETRY_INTERVAL <= clock (S k)) -> spawned_at <= clock 3%nat ->
  is_Some (resubmit RESUBMIT_FUEL 3 (spawned_at + SUBMIT_RETRY_DEADLINE)).
Proof.
  intros Hc Hs. apply (resubmit_terminates 720); [done|].
  unfold SUBMIT_RETRY_DEADLINE, SUBMIT_RETRY_INTERVAL, NANOS in *. lia.
Qed.

(** The first conclusive answer, when it is an outcome, is recorded. *)
Lemma recorded_first_answer (spawned_at : Instant) j o :
  (forall k, clock k + SUBMIT_RETRY_INTERVAL <= clock (S k)) -> spawned_at <= clock 3%nat ->
  (1 <= j)%nat -> node j = Ok o -> (forall i, (1 <= i < j)%nat -> transient i) ->
  ((j <= 3)%nat \/ clock (j - 1)%nat < spawned_at + SUBMIT_RETRY_DEADLINE) ->
  o ∈ recorded_outcomes spawned_at.
Proof.
  intros Hc Hs Hj Hn Ht Hd. unfold recorded_outcomes, submit_found_block.
  pose proof (inline_spec SUBMIT_INLINE_ATTEMPTS 1 None) as Hi.
  destruct (inline_attempts SUBMIT_INLINE_ATTEMPTS 1 None) as [[o'|e] [|]].
  1,2: destruct Hi as (j' & Hj' & Hn' & Ht'); apply list_elem_of_singleton;
       assert (Ok o' = Ok (E := PoolError) o) as E; [|by injection E];
       apply (first_answer_unique j j'); try done; lia.
  - destruct (decide (j <= 3)%nat) as [|Hlt].
    + destruct (Hi j) as (e' & He' & _); [unfold SUBMIT_INLINE_ATTEMPTS; lia | congruence].
    + destruct Hd as [|Hd]; [lia|]. unfold SUBMIT_INLINE_ATTEMPTS.
      rewrite (resubmit_complete _ 3 _ j o); [by apply list_elem_of_singleton | | | lia | done | done |].
      * intros k. specialize (Hc k). unfold SUBMIT_RETRY_INTERVAL, NANOS in Hc. lia.
      * by apply resubmit_ends.
      * intros i Hik. apply Ht. lia.
  - destruct Hi as (j' & Hj' & Hn' & Hp & Ht'). exfalso.
    assert (Err e = Ok o) as ?; [|done].
    apply (first_answer_unique j j'); try done; [lia|]. by intros ? [= <-].
Qed.
End Submit.

(** ** Tips and clean jobs *)
Definition tip_of (b : JobBroadcast) : string := t_prev_hash (b_template b).

(** Along the broadcasts, only a clean one changes the tip. *)
Fixpoint tip_chain (prev : option string) (bs : list JobBroadcast) : Prop :=
  match bs with
  | [] => True
  | b :: bs' => (b_clean b = false -> prev = Some (tip_of b)) /\ tip_chain (Some (tip_of b)) bs'
  end.

Lemma tip_chain_snoc prev bs b :
  tip_chain prev (bs ++ [b]) <->
  tip_chain prev bs
  /\ (b_clean b = false ->
      match last bs with Some l => Some (tip_of l) | None => prev end = Some (tip_of b)).
Proof.
  revert prev; induction bs as [|x bs IH]; intros prev; cbn [app tip_chain].
  - cbn. tauto.
  - rewrite IH. destruct bs as [|y bs]; [cbn; tauto|].
    rewrite last_cons_cons. destruct (last (y :: bs)) eqn:E; [tauto|].
    apply last_None in E. done.
Qed.

Record engine_inv (e : TemplateEngine) : Prop := {
  ei_chain : tip_chain None (broadcasts e);
  ei_current : forall t, current_template e = Some t ->
                 exists b, last (broadcasts e) = Some b /\ b_template b = t
}.

Section Invariant.
Context `{Sha256} `{HexCodec} `{Libm}.

Lemma install_inv e t now unix : engine_inv e -> engine_inv (install_template e t now unix).
Proof.
  intros [Hc Hl]. split; cbn.
  - apply tip_chain_snoc. split; [done|]. cbn. unfold should_force_clean.
    intros Hcl. apply bool_decide_eq_false, dec_stable in Hcl.
    destruct (current_template e) as [t0|]; [|done]. cbn in Hcl.
    destruct (Hl t0 eq_refl) as (b & -> & Hb). rewrite <- Hb in Hcl. done.
  - intros t' [= <-]. eexists. by rewrite last_snoc.
Qed.

Lemma rules_inv e gbt : engine_inv e -> engine_inv (check_template_rules e gbt).2.
Proof.
  intros [Hc Hl]. unfold check_template_rules. case_bool_decide; [done|].
  destruct (strict e); done.
Qed.

Lemma refresh_inv e a now unix : engine_inv e -> engine_inv (refresh e a now unix).
Proof.
  intros He. unfold refresh. destruct a as [gbt|]; [|done].
  pose proof (rules_inv e gbt He) as H'. destruct (check_template_rules e gbt) as [[] e1]; [|done].
  destruct (build_job_template gbt); [by apply install_inv | done].
Qed.

Lemma loop_inv evs st : engine_inv st.2 -> engine_inv (foldl loop_step st evs).2.
Proof.
  revert st; induction evs as [|ev evs IH]; intros [alive e] He; [done|]. apply IH.
  destruct ev; cbn; destruct alive; cbn; auto using refresh_inv.
Qed.
End Invariant.

(** A tip that no later broadcast has replaced is the last one. *)
Lemma tip_unchanged bs prev i b :
  tip_chain prev bs -> bs !! i = Some b -> existsb b_clean (drop (S i) bs) = false ->
  exists l, last bs = Some l /\ tip_of l = tip_of b.
Proof.
  revert prev i; induction bs as [|x bs IH]; intros prev i Hc Hi Hn; [done|].
  destruct Hc as [Hx Hc].
  destruct i as [|i]; cbn in Hi.
  - injection Hi as ->. rewrite skipn_cons, drop_0 in Hn.
    clear IH Hx. revert b Hc; induction bs as [|y bs IH]; intros b Hc; [by exists b|].
    cbn in Hn. apply orb_false_iff in Hn as [Hy Hn]. destruct Hc as [Hcy Hc].
    destruct (IH Hn y Hc) as (l & Hl & Ht). exists l. split; [by rewrite last_cons_cons|].
    specialize (Hcy Hy). congruence.
  - rewrite skipn_cons in Hn. destruct (IH _ i Hc Hi Hn) as (l & Hl & Ht).
    exists l. split; [|done]. destruct bs; [done|]. by rewrite last_cons_cons.
Qed.

(** ** Properties *)

(** C8. No miner works on a stale tip unawares: whatever the node answers and
    in whatever order block signals, ticks and a closed signal channel arrive,
    a session that issues a job for every broadcast, clean when the broadcast
    is, only ever holds live (not superseded) jobs that build on the previous
    block of the latest broadcast; and every other job it still holds is marked
    stale. *)
Theorem live_jobs_build_on_latest_tip `{Sha256} `{HexCodec} `{Libm} (strict : bool)
    (t0 : Instant) (first : result PoolError GbtResult) (now : Instant) (unix : Z)
    (evs : list LoopEvent) (issues : list IssueEvent) (entry : JobEntry) :
  let e := engine_run (engine_new strict t0) first now unix evs in
  Forall2 (fun b i => j_prev_hash (ev_job i) = tip_of b /\ ev_clean i = b_clean b)
    (broadcasts e) issues ->
  entry ∈ foldl issue_event issued_new issues -> superseded_by_clean entry = false ->
  exists b, last (broadcasts e) = Some b /\ j_prev_hash (job entry) = tip_of b.
Proof.
  intros e HF Hin Hlive.
  assert (engine_inv e) as [Hc _].
  { unfold e, engine_run. apply loop_inv. cbn. apply refresh_inv. by split. }
  rewrite issue_run_log in Hin. apply list_elem_of_lookup in Hin as [k Hi].
  rewrite lookup_drop in Hi. set (i := (_ + k)%nat) in Hi.
  assert (is_Some (issues !! i)) as [iv Hiv].
  { apply lookup_lt_is_Some. rewrite <- length_log_entries. by eapply lookup_lt_Some. }
  rewrite (log_entries_lookup _ _ _ Hiv) in Hi. injection Hi as <-. cbn in *.
  destruct (Forall2_lookup_r _ _ _ _ _ HF Hiv) as (b & Hb & Hp & _).
  destruct (tip_unchanged _ _ i b Hc Hb) as (l & Hl & Ht); [|exists l; split; congruence].
  rewrite <- Hlive. apply (Forall2_drop _ _ _ (S i)) in HF.
  clear -HF. induction HF as [|x y xs ys [_ Hxy] _ IH]; [done|]. cbn. by rewrite Hxy, IH.
Qed.

(** A node that always answers with the same template. *)
Definition demo_gbt : GbtResult :=
  mkGbtResult 0x20000000 (hex_text (repeat x01 32)) "1d00ffff" 1700000000 900000 312500000 []
    None None ["csv"] 0.
Definition demo_engine : TemplateEngine :=
  @engine_run toy_sha256 hex_codec toy_libm (engine_new true 0) (Ok demo_gbt) 0 0
    [NtimeTick (Ok demo_gbt) (30 * NANOS) 30; SignalClosed].

Definition demo_issue (clean : bool) : IssueEvent :=
  mkIssueEvent (mkStratumJob "1" (hex_text (repeat x01 32)) [] [] [] [] 0 "" 0 1 [] [] 0 0 0 [] "" false)
    clean 1 0.

Lemma live_jobs_build_on_latest_tip_witness :
  exists b, last (broadcasts demo_engine) = Some b
            /\ j_prev_hash (ev_job (demo_issue false)) = tip_of b.
Proof.
  apply (@live_jobs_build_on_latest_tip toy_sha256 hex_codec toy_libm true 0 (Ok demo_gbt) 0 0
    [NtimeTick (Ok demo_gbt) (30 * NANOS) 30; SignalClosed] [demo_issue true; demo_issue false]
    (mkJobEntry (ev_job (demo_issue false)) 0 false 1)).
  - vm_compute. repeat constructor.
  - right. left.
  - reflexivity.
Defined.

(** The health verdict is the age of the last good template: after a
    refresh that installed a template at [now], the engine reports fresh at a
    later [at] exactly when fewer than 180 whole seconds of its clock separate
    the two, and a refresh the node or the template builder failed changes
    neither the template nor the verdict. *)
Lemma health_tracks_last_good_refresh `{Sha256} `{HexCodec} `{Libm} (e : TemplateEngine)
    (gbt : GbtResult) (t : JobTemplate) (now at_ : Instant) (unix : Z) (err : PoolError) :
  unsupported_gbt_rules gbt = [] -> build_job_template gbt = Ok t ->
  engine_started e <= now <= at_ ->
  let e' := refresh e (Ok gbt) now unix in
  is_template_fresh e' at_
    = ((at_ - engine_started e) / NANOS - (now - engine_started e) / NANOS <? 180)
  /\ is_template_fresh (refresh e' (Err err) at_ unix) at_ = is_template_fresh e' at_
  /\ current_template (refresh e' (Err err) at_ unix) = Some t.
Proof.
  intros Hr Ht Hn. cbn [refresh]. unfold check_template_rules. rewrite Hr, Ht.
  rewrite bool_decide_true by done. split; [|done].
  unfold is_template_fresh, is_fresh, template_age, template_age_from, install_template.
  cbn [has_refreshed engine_started last_refresh_offset_secs andb].
  unfold TEMPLATE_STALE_AFTER, duration_since, as_secs, sat_sub.
  rewrite (Z.max_r 0 (at_ - engine_started e)), (Z.max_r 0 (now - engine_started e)) by lia.
  assert ((now - engine_started e) / NANOS <= (at_ - engine_started e) / NANOS)
    by (apply Z.div_le_mono; unfold NANOS; lia).
  rewrite Z.max_l by lia. unfold NANOS in *.
  destruct (Z.ltb_spec (((at_ - engine_started e) / 1000000000
                         - (now - engine_started e) / 1000000000) * 1000000000) (180 * 1000000000)),
           (Z.ltb_spec ((at_ - engine_started e) / 1000000000
                         - (now - engine_started e) / 1000000000) 180); lia || done.
Qed.

Lemma health_tracks_last_good_refresh_witness :
  @is_template_fresh (@refresh toy_sha256 hex_codec toy_libm (engine_new true 0) (Ok demo_gbt)
                        (5 * NANOS) 0) (184 * NANOS) = true.
Proof.
  refine (eq_trans (proj1 (@health_tracks_last_good_refresh toy_sha256 hex_codec toy_libm
    (engine_new true 0) demo_gbt
    match @build_job_template toy_sha256 hex_codec demo_gbt with Ok t => t | Err _ => demo_template end
    (5 * NANOS) (184 * NANOS) 0 LowDifficulty _ _ _)) _).
  - vm_compute. reflexivity.
  - vm_compute. reflexivity.
  - cbn. unfold NANOS. lia.
  - vm_compute. reflexivity.
Defined.

(** C31. A found block is pursued and recorded exactly once: with a background
    clock that advances at least ten seconds per round, an outcome reaches the
    bookkeeping if and only if it is the node's first conclusive answer (every
    earlier attempt failed transiently, none was rejected) and it came in the
    three in-line attempts or in a background attempt begun within two hours;
    never more than one outcome is recorded, and the background task ends. *)
Theorem found_block_recorded_once (node : nat -> result PoolError BlockSubmitOutcome)
    (clock : nat -> Instant) (spawned_at : Instant) :
  (forall k, clock k + SUBMIT_RETRY_INTERVAL <= clock (S k)) -> spawned_at <= clock 3%nat ->
  (length (recorded_outcomes node clock spawned_at) <= 1)%nat
  /\ is_Some (resubmit node clock RESUBMIT_FUEL 3 (spawned_at + SUBMIT_RETRY_DEADLINE))
  /\ forall o, o ∈ recorded_outcomes node clock spawned_at <->
       exists j, (1 <= j)%nat /\ node j = Ok o /\ (forall i, (1 <= i < j)%nat -> transient node i)
                 /\ ((j <= 3)%nat \/ clock (j - 1)%nat < spawned_at + SUBMIT_RETRY_DEADLINE).
Proof.
  intros Hc Hs. pose proof (resubmit_ends node clock spawned_at Hc Hs) as Hterm.
  split; [|split; [done|]].
  - unfold recorded_outcomes. destruct (submit_found_block node) as [[o|e] [|]]; [cbn [length]; lia..| |cbn [length]; lia].
    destruct Hterm as [[o|] Hr]; unfold SUBMIT_INLINE_ATTEMPTS; rewrite Hr; cbn [length]; lia.
  - intros o. split; [|intros (j & Hj & Hn & Ht & Hd); by apply (recorded_first_answer _ _ _ j)].
    unfold recorded_outcomes, submit_found_block.
    pose proof (inline_spec node SUBMIT_INLINE_ATTEMPTS 1 None) as Hi.
    destruct (inline_attempts node SUBMIT_INLINE_ATTEMPTS 1 None) as [[o'|e] [|]].
    1,2: destruct Hi as (j & Hj & Hn & Ht); intros ->%list_elem_of_singleton;
         exists j; unfold SUBMIT_INLINE_ATTEMPTS in Hj; repeat split; try done; lia.
    + destruct Hterm as [r Hr]. unfold SUBMIT_INLINE_ATTEMPTS in *. rewrite Hr.
      destruct r as [o'|]; [|by intros ?%not_elem_of_nil]. intros ->%list_elem_of_singleton.
      destruct (resubmit_Ok _ _ _ _ _ _ Hr) as (j & Hj & Hn & Hcl & Ht). exists j.
      split; [lia|]. split; [done|]. split; [|by right].
      intros i Hik. destruct (decide (i <= 3)%nat); [apply Hi; lia | apply Ht; lia].
    + by intros ?%not_elem_of_nil.
Qed.

Definition demo_node (k : nat) : result PoolError BlockSubmitOutcome :=
  if (k <? 5)%nat then Err (Io "down") else Ok Duplicate.

Lemma found_block_recorded_once_witness :
  Duplicate ∈ recorded_outcomes demo_node (fun k => Z.of_nat k * 10 * NANOS) 0.
Proof.
  apply (found_block_recorded_once demo_node (fun k => Z.of_nat k * 10 * NANOS) 0).
  - unfold SUBMIT_RETRY_INTERVAL, NANOS. lia.
  - unfold NANOS. lia.
  - exists 5%nat. split; [lia|]. split; [reflexivity|]. split.
    + intros i Hi. exists (Io "down"). split; [|reflexivity]. unfold demo_node.
      by rewrite (proj2 (Nat.ltb_lt i 5)) by lia.
    + right. unfold SUBMIT_RETRY_DEADLINE, NANOS. lia.
Defined.

End Engine.
