(* ===== verification/Sv1.v ===== *)
(** * Sv1: the Stratum V1 messages ([src/protocol/sv1.rs])

    Typed requests parsed from [serde_json] values, and the response builders,
    whose messages are values here (turning a value into a line of text, and a
    line into the [StratumRequest] envelope, is the library's). *)
From S2P Require Import Prelude Text F64 Json Errors Interfaces.

Module Sv1.

(** ** Requests *)
Record StratumRequest := mkRequest { req_id : Value; req_method : string; req_params : Value }.

Record SubscribeParams := mkSubscribe { user_agent : option string; sub_session_id : option string }.
Record AuthorizeParams := mkAuthorize { auth_worker : string; password : option string }.
Record SubmitParams := mkSubmit {
  sub_worker : string;
  sub_job_id : string;
  sub_extranonce2 : bytes;
  sub_ntime : Z;
  sub_nonce : Z;
  sub_version_bits : option Z
}.
Record ConfigureParams := mkConfigure {
  version_rolling : bool;
  cfg_mask : option Z;
  min_bit_count : option Z;
  minimum_difficulty : option Z;
  subscribe_extranonce : bool
}.

Inductive ClientMessage : Type :=
| Subscribe (p : SubscribeParams)
| Authorize (p : AuthorizeParams)
| Submit (p : SubmitParams)
| Configure (p : ConfigureParams)
| SuggestDifficulty (difficulty : Z)
| ExtranonceSubscribe
| UnknownMethod_ (m : string).

(** ** Parsing *)
Definition str_at (arr : list Value) (idx : nat) (method field : string) : result PoolError string :=
  ok_or (InvalidParams method ("missing or non-string field `" +:+ field +:+ "` at index "
                               +:+ pretty idx)) (x ← arr !! idx; as_str x).

Definition parse_subscribe (params : Value) : SubscribeParams :=
  let at_ i := (a ← as_array params; v ← a !! i; as_str v) in
  mkSubscribe (at_ 0%nat) (at_ 1%nat).

Definition parse_authorize (params : Value) : result PoolError AuthorizeParams :=
  arr ← ok_or (InvalidParams "mining.authorize" "params must be an array") (as_array params);
  worker ← ok_or (InvalidParams "mining.authorize" "missing worker name") (x ← arr !! 0%nat; as_str x);
  Ok (mkAuthorize worker (x ← arr !! 1%nat; as_str x)).

Definition bad_submit (detail : string) : PoolError := InvalidParams "mining.submit" detail.

Definition parse_submit `{HexCodec} (params : Value) : result PoolError SubmitParams :=
  arr ← ok_or (bad_submit "params must be an array") (as_array params);
  worker ← str_at arr 0 "mining.submit" "worker";
  job_id ← str_at arr 1 "mining.submit" "job_id";
  en2_hex ← str_at arr 2 "mining.submit" "extranonce2";
  ntime_hex ← str_at arr 3 "mining.submit" "ntime";
  nonce_hex ← str_at arr 4 "mining.submit" "nonce";
  en2 ← ok_or (bad_submit "extranonce2 is not valid hex") (hex_decode en2_hex);
  ntime ← ok_or (bad_submit "ntime is not valid hex u32") (u32_from_hex ntime_hex);
  nonce ← ok_or (bad_submit "nonce is not valid hex u32") (u32_from_hex nonce_hex);
  Ok (mkSubmit worker job_id en2 ntime nonce (v ← arr !! 5%nat; s ← as_str v; u32_from_hex s)).

(** One extension of the [mining.configure] list. *)
Definition configure_ext (ext_params : list (string * Value)) (r : ConfigureParams) (ext : Value)
  : ConfigureParams :=
  match as_str ext with
  | Some s =>
      if bool_decide (s = "version-rolling") then
        let mask := match (v ← map_get "version-rolling.mask" ext_params; as_str v) with
                    | Some m => u32_from_hex m
                    | None => cfg_mask r
                    end in
        let bits := match (v ← map_get "version-rolling.min-bit-count" ext_params; as_u64 v) with
                    | Some n => Some (wrap32 n)
                    | None => min_bit_count r
                    end in
        mkConfigure true mask bits (minimum_difficulty r) (subscribe_extranonce r)
      else if bool_decide (s = "minimum-difficulty") then
        mkConfigure (version_rolling r) (cfg_mask r) (min_bit_count r)
          (v ← map_get "minimum-difficulty.value" ext_params; as_u64 v) (subscribe_extranonce r)
      else if bool_decide (s = "subscribe-extranonce") then
        mkConfigure (version_rolling r) (cfg_mask r) (min_bit_count r) (minimum_difficulty r) true
      else r
  | None => r
  end.

Definition parse_configure (params : Value) : ConfigureParams :=
  let arr := as_array params in
  let extensions := default [] (a ← arr; v ← a !! 0%nat; as_array v) in
  let ext_params := default [] (a ← arr; v ← a !! 1%nat; as_object v) in
  foldl (configure_ext ext_params) (mkConfigure false None None None false) extensions.

Definition parse_suggest_difficulty (params : Value) : result PoolError Z :=
  let v := match (a ← as_array params; a !! 0%nat) with Some x => x | None => params end in
  d ← ok_or (InvalidParams "mining.suggest_difficulty" "expected a numeric difficulty") (as_f64 v);
  if negb (is_finite d) || (d <? f1)%f64
  then Err (InvalidParams "mining.suggest_difficulty" "difficulty must be a finite number >= 1")
  else Ok (f64_to_u64 d).

Definition from_request `{HexCodec} (req : StratumRequest) : result PoolError ClientMessage :=
  let m := req_method req in
  let p := req_params req in
  if bool_decide (m = "mining.subscribe") then Ok (Subscribe (parse_subscribe p))
  else if bool_decide (m = "mining.authorize") then a ← parse_authorize p; Ok (Authorize a)
  else if bool_decide (m = "mining.submit") then s ← parse_submit p; Ok (Submit s)
  else if bool_decide (m = "mining.configure") then Ok (Configure (parse_configure p))
  else if bool_decide (m = "mining.suggest_difficulty")
       then d ← parse_suggest_difficulty p; Ok (SuggestDifficulty d)
  else if bool_decide (m = "mining.extranonce.subscribe") then Ok ExtranonceSubscribe
  else Ok (UnknownMethod_ m).

(** ** Responses *)
Definition resp_ok (id res : Value) : Value :=
  VObject [("id", id); ("result", res); ("error", VNull)].
Definition resp_err (id error : Value) : Value :=
  VObject [("id", id); ("result", VNull); ("error", error)].

Definition resp_subscribe (id : Value) (session_id extranonce1_hex : string) (extranonce2_size : Z)
  : Value :=
  resp_ok id (VArray [
    VArray [VArray [VString "mining.set_difficulty"; VString session_id];
            VArray [VString "mining.notify"; VString session_id]];
    VString extranonce1_hex; VU64 extranonce2_size]).

Definition resp_configure (id : Value) (rolling : bool) (mask : Z) (min_difficulty : option Z)
    (subscribe_en : bool) : Value :=
  resp_ok id (VObject (
    (if rolling then [("version-rolling", VBool true);
                      ("version-rolling.mask", VString (hex_fixed 8 mask))] else [])
    ++ match min_difficulty with
       | Some md => [("minimum-difficulty", VBool true); ("minimum-difficulty.value", VU64 md)]
       | None => []
       end
    ++ (if subscribe_en then [("subscribe-extranonce", VBool true)] else []))).

Definition resp_extranonce_subscribe (id : Value) : Value := resp_ok id (VBool true).

Definition notification (method : string) (params : list Value) : Value :=
  VObject [("id", VNull); ("method", VString method); ("params", VArray params)].

Definition msg_set_difficulty (difficulty : Z) : Value :=
  notification "mining.set_difficulty" [VU64 difficulty].

Definition msg_notify (job_id prev_hash coinbase1 coinbase2 : string) (merkle_branch : list string)
    (version : Z) (bits : string) (ntime : Z) (clean : bool) : Value :=
  notification "mining.notify"
    [VString job_id; VString prev_hash; VString coinbase1; VString coinbase2;
     VArray (VString <$> merkle_branch); VString (hex_fixed 8 version); VString bits;
     VString (hex_fixed 8 ntime); VBool clean].

Definition msg_set_extranonce (extranonce1_hex : string) (extranonce2_size : Z) : Value :=
  notification "mining.set_extranonce" [VString extranonce1_hex; VU64 extranonce2_size].

End Sv1.
