(* ===== verification/Session.v ===== *)
(** * Session: one Stratum V1 connection ([src/network/session.rs])

    The session state in the groups of the source's [Session] struct, the
    bounded line reader, every handler, the job broadcast arm and the retarget.
    Handlers take and return the session and the shared statistics; the readings
    of the clocks, the next job identifier, the engine's current template, the
    answer of [submit_found_block] as a function of the block it is given, and
    whether the blocking validation task joins are the fields of [Env].  The
    reader of the JSON request envelope is a parameter. *)
From Stdlib Require Import Btauto.
From S2P Require Import Prelude Text F64 Json Errors Interfaces Target Rpc Hashrate Credit.
From S2P Require Import Vardiff Stats Store Security Accounting Identity Template Jobs.
From S2P Require Import Validator Engine Sv1.
Import Target Rpc Credit Vardiff Stats Security Accounting Identity Template Jobs Validator Sv1.

Module Session.

(** ** Reading a line

    The reader is the list of chunks [fill_buf] will return; the end of the
    list is end of file. *)
Definition LF : byte := x0a.
Definition CR : byte := x0d.

Fixpoint position_lf (l : bytes) : option nat :=
  match l with
  | [] => None
  | b :: l' => if bool_decide (b = LF) then Some 0%nat else S <$> position_lf l'
  end.

Definition strip_cr (l : bytes) : bytes :=
  match last l with Some b => if bool_decide (b = CR) then removelast l else l | None => l end.

(** [consume]: an exhausted chunk is gone. *)
Definition push_chunk (c : bytes) (cs : list bytes) : list bytes :=
  match c with [] => cs | _ => c :: cs end.

(** The loop; [Err] is the [InvalidData] of an oversize line. *)
Fixpoint read_loop (max : nat) (buf : bytes) (chunks : list bytes)
  : result unit (option bytes * list bytes) :=
  match chunks with
  | [] => Ok (match buf with [] => None | _ => Some buf end, [])
  | c :: cs =>
      match position_lf c with
      | Some pos =>
          let line := strip_cr (buf ++ take pos c) in
          if (max <? length line)%nat then Err tt
          else Ok (Some line, push_chunk (drop (S pos) c) cs)
      | None =>
          let buf' := buf ++ c in
          if (max <? length buf')%nat then Err tt else read_loop max buf' cs
      end
  end.

Definition read_line_bounded (max : nat) (chunks : list bytes) := read_loop max [] chunks.

(** ** State *)
Record Ident := mkIdent {
  worker : option string;
  identity : option MinerIdentity;
  ua : option string;
  session_id : string
}.

Record Proto := mkProto {
  subscribed : bool;
  authorized : bool;
  version_rolling_enabled : bool;
  version_rolling_mask : Z;
  version_rolling_min_bit_count : option Z
}.

Record Session := mkSession {
  ident : Ident;
  proto : Proto;
  extranonce1 : bytes;
  extranonce2_size : nat;
  current_template : option JobTemplate;
  issued_jobs : IssuedJobs;
  coinbase_tag : string;
  network : Network;
  difficulty : Z;
  vardiff : Vardiff;
  vardiff_cfg : VardiffConfig;
  credit_state : ShareCredit;
  share_set : ShareSet;
  guard : SessionGuard;
  n_accepted : Z;
  n_rejected : Z
}.

Record Env := mkEnv {
  rate_now1 : Instant;
  rate_now2 : Instant;
  now : Instant;
  tick_now : Instant;
  wall1 : Z;
  wall2 : Z;
  wall3 : Z;
  wall4 : Z;
  unix_clock : option Z;
  fresh_job_id : string;
  engine_template : option JobTemplate;
  submit_answer : Engine.FoundBlock -> result PoolError BlockSubmitOutcome;
  validation_joins : bool
}.

Inductive HandleResult : Type :=
| Messages (msgs : list Value)
| Disconnect (reason : string)
| Panicked.

(** What one iteration of [run] may receive, and how it ends; the flag of
    [Ended] is a ban of the peer's address. *)
Inductive Event : Type :=
| Inbound (line : string)
| TooLong
| NotUtf8
| TimedOut
| EndOfInput
| NewJob (b : Engine.JobBroadcast)
| Lagged.

Abbreviation Step := (HandleResult * Session * PoolStats)%type.

Inductive Outcome : Type :=
| Running (sent : list Value) (s : Session) (st : PoolStats)
| Ended (ban : bool) (s : Session) (st : PoolStats)
| Crashed (s : Session) (st : PoolStats).

Definition stats_worker (s : Session) : option string := canonical_name <$> identity (ident s).

(** Field updates. *)
Definition set_ident (s : Session) (i : Ident) : Session :=
  mkSession i (proto s) (extranonce1 s) (extranonce2_size s) (current_template s) (issued_jobs s)
    (coinbase_tag s) (network s) (difficulty s) (vardiff s) (vardiff_cfg s) (credit_state s)
    (share_set s) (guard s) (n_accepted s) (n_rejected s).
Definition set_proto (s : Session) (p : Proto) : Session :=
  mkSession (ident s) p (extranonce1 s) (extranonce2_size s) (current_template s) (issued_jobs s)
    (coinbase_tag s) (network s) (difficulty s) (vardiff s) (vardiff_cfg s) (credit_state s)
    (share_set s) (guard s) (n_accepted s) (n_rejected s).
Definition set_work (s : Session) (t : option JobTemplate) (j : IssuedJobs) : Session :=
  mkSession (ident s) (proto s) (extranonce1 s) (extranonce2_size s) t j
    (coinbase_tag s) (network s) (difficulty s) (vardiff s) (vardiff_cfg s) (credit_state s)
    (share_set s) (guard s) (n_accepted s) (n_rejected s).
Definition set_diff (s : Session) (d : Z) (v : Vardiff) (c : ShareCredit) : Session :=
  mkSession (ident s) (proto s) (extranonce1 s) (extranonce2_size s) (current_template s)
    (issued_jobs s) (coinbase_tag s) (network s) d v (vardiff_cfg s) c
    (share_set s) (guard s) (n_accepted s) (n_rejected s).
Definition set_shares (s : Session) (k : ShareSet) : Session :=
  mkSession (ident s) (proto s) (extranonce1 s) (extranonce2_size s) (current_template s)
    (issued_jobs s) (coinbase_tag s) (network s) (difficulty s) (vardiff s) (vardiff_cfg s)
    (credit_state s) k (guard s) (n_accepted s) (n_rejected s).
Definition set_guard (s : Session) (g : SessionGuard) (acc rej : Z) : Session :=
  mkSession (ident s) (proto s) (extranonce1 s) (extranonce2_size s) (current_template s)
    (issued_jobs s) (coinbase_tag s) (network s) (difficulty s) (vardiff s) (vardiff_cfg s)
    (credit_state s) (share_set s) g acc rej.

Definition session_new (pool_tag : string) (initial_difficulty : Z) (en1 : bytes) (en2_size : nat)
    (net : Network) (vcfg : VardiffConfig) (sec : SecurityConfig) (sid : string) (t : Instant)
  : Session :=
  mkSession (mkIdent None None None sid)
    (mkProto false false false VERSION_ROLLING_MASK None)
    en1 en2_size None issued_new pool_tag net initial_difficulty
    (vardiff_new vcfg initial_difficulty t) vcfg (credit_new (min_difficulty vcfg) t)
    share_set_new (guard_new sec t) 0 0.

(** ** Extranonce1: a counter in the low bytes *)
Definition generate_extranonce1 (counter : Z) (size : nat) : bytes :=
  let c := to_be_bytes 8 counter in
  if (size <=? 8)%nat then drop (8 - size) c else repeat x00 (size - 8) ++ c.

(** ** Bookkeeping *)
Definition reject_share (s : Session) (st : PoolStats) (reason : RejectReason) (env : Env)
  : bool * Session * PoolStats :=
  let '(over, st1, g) := record_rejected st (guard s) (default "?" (stats_worker s)) reason (wall1 env) in
  (over, set_guard s g (n_accepted s) (n_rejected s + 1), st1).

Section Handlers.
Context `{Sha256} `{HexCodec} `{TxCodec} `{AddressCodec} `{Libm}.

Definition accept_share (s : Session) (st : PoolStats) (w : string) (hash_difficulty job_difficulty : Z)
    (env : Env) : Session * PoolStats :=
  let '(worth, c) := Credit.credit (credit_state s) (difficulty s) job_difficulty hash_difficulty (now env) in
  let v := record_share (vardiff s) worth (now env) in
  let s1 := set_diff (set_guard s (guard s) (n_accepted s + 1) (n_rejected s)) (difficulty s) v c in
  (s1, record_accepted st (session_id (ident s)) w worth hash_difficulty (tick_now env)
         (wall1 env) (wall2 env)).

Definition materialize_job (s : Session) (id : string) (t : JobTemplate) : result PoolError StratumJob :=
  i ← ok_or NotAuthorized (identity (ident s));
  build_job_for_payout id t (payout i) (string_bytes (coinbase_tag s)) (length (extranonce1 s))
    (extranonce2_size s).

Definition build_notify (j : StratumJob) (clean : bool) : Value :=
  msg_notify (job_id j) (j_prev_hash j) (hex_encode (coinbase1 j)) (hex_encode (coinbase2 j))
    (merkle_branch j) (j_version j) (j_bits j) (j_cur_time j) clean.

(** ** Handlers *)
Definition handle_configure (s : Session) (st : PoolStats) (req : StratumRequest)
    (p : ConfigureParams) : Step :=
  let s1 :=
    if version_rolling p then
      let mask := version_rolling_mask (proto s) in
      let negotiated := match cfg_mask p with Some m => Z.land m mask | None => mask end in
      let min_bits_ok := match min_bit_count p with
                         | Some n => n <=? count_ones32 negotiated
                         | None => true
                         end in
      set_proto s (mkProto (subscribed (proto s)) (authorized (proto s))
                     (min_bits_ok && negb (negotiated =? 0)) negotiated (min_bit_count p))
    else s in
  (Messages [resp_configure (req_id req) (version_rolling_enabled (proto s1))
               (version_rolling_mask (proto s1)) (Some (difficulty s1)) (subscribe_extranonce p)],
   s1, st).

Definition handle_suggest_difficulty (s : Session) (st : PoolStats) (req : StratumRequest)
    (d : Z) (env : Env) : Step :=
  match suggest (vardiff s) d (now env) with
  | None => (Panicked, s, st)
  | Some (applied, v) =>
      let s1 := set_diff s applied v (credit_state s) in
      (Messages (resp_ok (req_id req) (VBool true)
                   :: if subscribed (proto s) then [msg_set_difficulty applied] else []),
       s1, st)
  end.

Definition handle_subscribe (s : Session) (st : PoolStats) (req : StratumRequest)
    (p : SubscribeParams) : Step :=
  let pr := proto s in
  let s1 := set_proto s (mkProto true (authorized pr) (version_rolling_enabled pr)
                           (version_rolling_mask pr) (version_rolling_min_bit_count pr)) in
  let s2 := set_ident s1 (mkIdent (worker (ident s)) (identity (ident s)) (user_agent p)
                            (session_id (ident s))) in
  (Messages [resp_subscribe (req_id req) (session_id (ident s)) (hex_encode (extranonce1 s))
               (Z.of_nat (extranonce2_size s))], s2, st).

(** The bookkeeping for an identity that is new to the session: [None] when
    the authorization budget is spent. *)
Definition switch_identity (s : Session) (st : PoolStats) (i : MinerIdentity) (env : Env)
  : option (Session * PoolStats) * SessionGuard :=
  let '(allowed, g) := record_new_authorization (guard s) in
  if allowed then
    let s1 := set_guard s g (n_accepted s) (n_rejected s) in
    let st1 := match identity (ident s) with
               | Some prev => mark_worker_offline st (canonical_name prev)
               | None => st
               end in
    let s2 := set_ident s1 (mkIdent None None (ua (ident s)) (session_id (ident s))) in
    let s3 := set_shares (set_work s2 (current_template s2) (issued_clear (issued_jobs s2)))
                (share_set_clear (share_set s2)) in
    let st2 := mark_worker_online st1 (canonical_name i) (difficulty s) (wall1 env) in
    (Some (s3, set_worker_protocol st2 (canonical_name i) "sv1"), g)
  else (None, g).

Definition handle_authorize (s : Session) (st : PoolStats) (req : StratumRequest)
    (p : AuthorizeParams) (env : Env) : Step :=
  if negb (subscribed (proto s)) then
    (Messages [resp_err (req_id req) (to_stratum_error NotSubscribed)], s, st)
  else
    match check_worker_name (guard s) (auth_worker p) with
    | Err e => (Messages [resp_err (req_id req) (to_stratum_error e)], s, st)
    | Ok _ =>
        match parse (auth_worker p) (network s) (max_worker_name_len (guard s)) with
        | Err _ => (Messages [resp_ok (req_id req) (VBool false)], s, st)
        | Ok i =>
            let switched :=
              if bool_decide (stats_worker s = Some (canonical_name i)) then (Some (s, st), guard s)
              else switch_identity s st i env in
            match switched with
            | (None, g) =>
                (Disconnect "too many worker identities",
                 set_guard s g (n_accepted s) (n_rejected s), st)
            | (Some (s1, st1), _) =>
                let pr := proto s1 in
                let s2 := set_ident (set_proto s1 (mkProto (subscribed pr) true
                                       (version_rolling_enabled pr) (version_rolling_mask pr)
                                       (version_rolling_min_bit_count pr)))
                            (mkIdent (Some (auth_worker p)) (Some i) (ua (ident s1))
                               (session_id (ident s1))) in
                let hello := [resp_ok (req_id req) (VBool true); msg_set_difficulty (difficulty s2)] in
                let t := match current_template s2 with
                         | Some t => Some t
                         | None => engine_template env
                         end in
                match t with
                | None => (Messages hello, s2, st1)
                | Some t =>
                    match materialize_job s2 (fresh_job_id env) t with
                    | Err _ => (Disconnect "internal payout job error", s2, st1)
                    | Ok j =>
                        let s3 := set_work s2 (Some t)
                                    (issue (issued_jobs s2) j true (difficulty s2) (now env)) in
                        (Messages (hello ++ [build_notify j true]), s3, st1)
                    end
                end
            end
        end
    end.

(** The share as the validator sees it, and as the dedup set records it. *)
Definition share_params_of (s : Session) (p : SubmitParams) : ShareParams :=
  let rolling := version_rolling_enabled (proto s) in
  mkShareParams (sub_job_id p) (sub_extranonce2 p) (sub_ntime p) (sub_nonce p)
    (if rolling then sub_version_bits p else None)
    (if rolling then Some (version_rolling_mask (proto s)) else None).

Definition share_key_of (p : SubmitParams) : ShareKey :=
  mkShareKey (sub_job_id p) (sub_extranonce2 p) (sub_ntime p) (sub_nonce p)
    (default 0 (sub_version_bits p)).

(** [reject_share], then a disconnect or the error response. *)
Definition reject_with (s : Session) (st : PoolStats) (req : StratumRequest) (reason : RejectReason)
    (e : PoolError) (env : Env) : Step :=
  let '(over, s1, st1) := reject_share s st reason env in
  if over then (Disconnect "too many invalid shares", s1, st1)
  else (Messages [resp_err (req_id req) (to_stratum_error e)], s1, st1).

Definition handle_submit (s : Session) (st : PoolStats) (req : StratumRequest) (p : SubmitParams)
    (env : Env) : Step :=
  if negb (authorized (proto s)) || bool_decide (worker (ident s) <> Some (sub_worker p)) then
    let '(_, s1, st1) := reject_share s st Unauthorized env in
    (Messages [resp_err (req_id req) (to_stratum_error NotAuthorized)], s1, st1)
  else
    let w := default (sub_worker p) (stats_worker s) in
    match find_job (issued_jobs s) (sub_job_id p) with
    | None => reject_with s st req JobNotFound (StaleJob (sub_job_id p)) env
    | Some entry =>
        let key := share_key_of p in
        if contains (share_set s) key then reject_with s st req RDuplicate DuplicateShare env
        else if negb (validation_joins env) then (Disconnect "internal error", s, st)
        else
          let v := validate_share_no_dedup (share_params_of s p) (job entry) entry (extranonce1 s)
                     (min_difficulty (vardiff_cfg s)) (unix_clock env) in
          let s1 := if is_ok v then set_shares s (insert_key (share_set s) key) else s in
          match v with
          | Ok (Valid _ hd _) =>
              let '(s2, st2) := accept_share s1 st w hd (Jobs.difficulty entry) env in
              (Messages [resp_ok (req_id req) (VBool true)], s2, st2)
          | Ok (Block hd hex hash) =>
              let submit_result := submit_answer env (Engine.mkFoundBlock (j_height (job entry))
                                     (block_hash_display hash) hex w (payout_address (job entry))) in
              let '(s2, st2) := accept_share s1 st w hd (Jobs.difficulty entry) env in
              let st3 := match submit_result with
                         | Ok outcome =>
                             record_block_outcome st2 outcome (j_height (job entry)) w
                               (payout_address (job entry)) (block_hash_display hash)
                               (wall3 env) (wall4 env)
                         | Err _ => st2
                         end in
              (Messages [resp_ok (req_id req) (VBool true)], s2, st3)
          | Err e => reject_with s1 st req (from_error e) e env
          end
    end.

(** ** Dispatch *)
Definition dispatch (s : Session) (st : PoolStats) (req : StratumRequest) (env : Env) : Step :=
  match from_request req with
  | Err e => (Messages [resp_err (req_id req) (to_stratum_error e)], s, st)
  | Ok (Configure p) => handle_configure s st req p
  | Ok (Subscribe p) => handle_subscribe s st req p
  | Ok (Authorize p) => handle_authorize s st req p env
  | Ok (Submit p) => handle_submit s st req p env
  | Ok (SuggestDifficulty d) => handle_suggest_difficulty s st req d env
  | Ok ExtranonceSubscribe => (Messages [resp_extranonce_subscribe (req_id req)], s, st)
  | Ok (UnknownMethod_ m) =>
      (Messages [resp_err (req_id req) (to_stratum_error (UnknownMethod m))], s, st)
  end.

(** [serde_json::from_str] at the derived reader of [StratumRequest]. *)
Variable parse_request : string -> option StratumRequest.

(** The flag asks the caller to ban the peer's address. *)
Definition handle_line (s : Session) (st : PoolStats) (line : string) (env : Env) : Step * bool :=
  let '(ok, r) := try_consume (Security.share_rate (guard s)) (rate_now1 env) (rate_now2 env) in
  let s1 := set_guard s (guard_set_rate (guard s) r) (n_accepted s) (n_rejected s) in
  if negb ok then ((Disconnect "rate limited", s1, record_rate_limited st), true)
  else if is_blank line then ((Messages [], s1, st), false)
  else
    match parse_request line with
    | None => ((Disconnect "parse error", s1, st), false)
    | Some req => (dispatch s1 st req env, false)
    end.

(** ** The broadcast arm of [run] *)
Definition on_broadcast (s : Session) (st : PoolStats) (b : Engine.JobBroadcast) (env : Env) : Step :=
  let t := Engine.b_template b in
  let clean := Engine.b_clean b in
  let s1 := if clean then set_shares s (share_set_clear (share_set s)) else s in
  if subscribed (proto s1) && authorized (proto s1) then
    match materialize_job s1 (fresh_job_id env) t with
    | Err _ => (Disconnect "job build failed", s1, st)
    | Ok j =>
        let s2 := set_work s1 (Some t) (issue (issued_jobs s1) j clean (difficulty s1) (now env)) in
        (Messages [msg_set_difficulty (difficulty s1); build_notify j clean], s2, st)
    end
  else (Messages [], set_work s1 (Some t) (issued_jobs s1), st).

(** ** Retarget *)
Definition network_difficulty (s : Session) : option Z :=
  t ← current_template s;
  d ← Engine.bits_to_difficulty (t_bits t);
  if is_finite d && (f1 <=? d)%f64 then Some (f64_to_u64 d) else None.

Definition apply_retarget (s : Session) (st : PoolStats) (env : Env) : Step :=
  match check_retarget (vardiff s) (now env) (network_difficulty s) with
  | None => (Panicked, s, st)
  | Some (None, v) => (Messages [], set_diff s (difficulty s) v (credit_state s), st)
  | Some (Some d, v) =>
      let s1 := set_diff s d v (credit_state s) in
      let st1 := match stats_worker s with
                 | Some w => update_worker_vardiff st w d (wall1 env)
                 | None => st
                 end in
      (Messages [msg_set_difficulty d], s1, st1)
  end.

(** ** The loop of [run]

    One iteration of the [select!], on what it received.  A failed write ends
    the session in the state reached, so it needs no case of its own. *)
Definition close (s : Session) (st : PoolStats) : PoolStats :=
  let st1 := miner_disconnected st in
  match stats_worker s with Some w => mark_worker_offline st1 w | None => st1 end.

Definition after_handler (step : Step) (ban : bool) (env : Env) : Outcome :=
  match step with
  | (Messages sent, s, st) =>
      match apply_retarget s st env with
      | (Messages more, s', st') => Running (sent ++ more) s' st'
      | (_, s', st') => Crashed s' st'
      end
  | (Disconnect _, s, st) => Ended ban s (close s st)
  | (Panicked, s, st) => Crashed s st
  end.

Definition run_step (s : Session) (st : PoolStats) (e : Event) (env env' : Env) : Outcome :=
  match e with
  | Inbound line => let '(step, ban) := handle_line s st line env in after_handler step ban env'
  | TooLong => Ended true s (close s st)
  | NotUtf8 | TimedOut | EndOfInput => Ended false s (close s st)
  | NewJob b => after_handler (on_broadcast s st b env) false env'
  | Lagged => after_handler (Messages [], s, st) false env'
  end.

(** The session once [run] has cached the engine's template. *)
Definition session_start (s : Session) (t : option JobTemplate) : Session :=
  match t with Some _ => set_work s t (issued_jobs s) | None => s end.

(** The sessions a connection can be in, whatever the peer sends, the engine
    broadcasts and other sessions do to the shared statistics. *)
Inductive reachable (s0 : Session) : Session -> Prop :=
| reach_start t : reachable s0 (session_start s0 t)
| reach_step s st e env env' sent s' st' :
    reachable s0 s -> run_step s st e env env' = Running sent s' st' -> reachable s0 s'.
End Handlers.

(** ** Reading lines from any chunking *)
Lemma position_lf_Some c pos :
  position_lf c = Some pos ->
  (LF ∉ take pos c) /\ c = take pos c ++ LF :: drop (S pos) c.
Proof.
  revert pos; induction c as [|b c IH]; intros pos Hp; cbn [position_lf] in Hp; [done|].
  case_bool_decide; [simplify_eq; split; [set_solver | done]|].
  destruct (position_lf c) as [q|]; [|done]. cbn in Hp. injection Hp as <-.
  destruct (IH q eq_refl) as [Hn Hc]. cbn [take drop]. split; [set_solver|].
  cbn [app]. by f_equal.
Qed.

Lemma position_lf_None c : position_lf c = None -> LF ∉ c.
Proof.
  induction c as [|b c IH]; cbn [position_lf]; [set_solver|].
  case_bool_decide; [done|]. destruct (position_lf c); [done|]. intros _. set_solver.
Qed.

(** A prefix without a newline lies within the first line. *)
Lemma prefix_before_lf (p q line rest : bytes) :
  LF ∉ p -> p ++ q = line ++ LF :: rest ->
  exists line', line = p ++ line' /\ q = line' ++ LF :: rest.
Proof.
  revert line; induction p as [|b p IH]; intros line Hp E; [by exists line|].
  apply not_elem_of_cons in Hp as [Hb Hp].
  destruct line as [|b' line]; cbn [app] in E; simplify_eq.
  destruct (IH _ Hp ltac:(eassumption)) as (line' & -> & ->). by exists line'.
Qed.

Lemma length_strip_cr l : (length (strip_cr l) <= length l)%nat.
Proof.
  unfold strip_cr. destruct (last l); [|done]. case_bool_decide; [|done].
  rewrite removelast_firstn_len, length_take. lia.
Qed.

Lemma concat_push_chunk c cs : concat (push_chunk c cs) = c ++ concat cs.
Proof. by destruct c. Qed.

Lemma read_loop_line max buf chunks line rest :
  LF ∉ buf -> LF ∉ line -> Forall (fun c => c <> []) chunks ->
  buf ++ concat chunks = line ++ LF :: rest ->
  ((length line <= max)%nat ->
     exists left, read_loop max buf chunks = Ok (Some (strip_cr line), left) /\ concat left = rest)
  /\ ((max < length (strip_cr line))%nat -> read_loop max buf chunks = Err tt).
Proof.
  revert buf; induction chunks as [|c cs IH]; intros buf Hb Hl HF E.
  { rewrite app_nil_r in E. exfalso. apply Hb. rewrite E. set_solver. }
  apply Forall_cons in HF as [Hc HF]. cbn [read_loop]. cbn [concat] in E.
  destruct (position_lf c) as [pos|] eqn:Ep.
  - apply position_lf_Some in Ep as [Hn Ec].
    assert (buf ++ take pos c = line /\ drop (S pos) c ++ concat cs = rest) as [El Er].
    { rewrite Ec in E. rewrite <- app_assoc, app_assoc in E. cbn [app] in E.
      assert (LF ∉ buf ++ take pos c) as Hbc by set_solver.
      destruct (prefix_before_lf _ _ _ _ Hbc E) as ([|x l] & -> & E').
      - rewrite app_nil_r. cbn in E'. by simplify_eq.
      - exfalso. cbn in E'. injection E' as <- _. set_solver. }
    rewrite El. split.
    + intros Hmax. pose proof (length_strip_cr line).
      destruct (Nat.ltb_spec max (length (strip_cr line))); [lia|].
      eexists. split; [done|]. by rewrite concat_push_chunk.
    + intros Hmax. by destruct (Nat.ltb_spec max (length (strip_cr line))); [|lia].
  - apply position_lf_None in Ep. rewrite app_assoc in E.
    assert (LF ∉ buf ++ c) as Hbc by set_solver.
    destruct (prefix_before_lf _ _ _ _ Hbc E) as (line' & El & _).
    destruct (IH (buf ++ c) Hbc Hl HF E) as [I1 I2].
    split; intros Hmax; destruct (Nat.ltb_spec max (length (buf ++ c))) as [Hlt|]; auto.
    exfalso. rewrite El, length_app in Hmax. lia.
Qed.

Lemma read_loop_bounded max buf chunks l left :
  (length buf <= max)%nat -> read_loop max buf chunks = Ok (Some l, left) -> (length l <= max)%nat.
Proof.
  revert buf; induction chunks as [|c cs IH]; intros buf Hb; cbn [read_loop].
  - destruct buf; intros E; simplify_eq; lia.
  - destruct (position_lf c).
    + destruct (Nat.ltb_spec max (length (strip_cr (buf ++ take n c)))); [done|].
      intros E; simplify_eq. lia.
    + destruct (Nat.ltb_spec max (length (buf ++ c))); [done|]. by apply IH.
Qed.

(** ** The session invariant *)
Section Invariant.
Context `{Sha256} `{HexCodec} `{TxCodec} `{AddressCodec} `{Libm}.

(** Which template is handed out under which job identifier. *)
Definition Offer : Type := string -> JobTemplate -> Prop.
Definition any_offer : Offer := fun _ _ => True.

(** [job] was built, from a template on offer under its identifier, to pay [i]
    with the session's extranonce widths. *)
Definition pays (G : Offer) (s : Session) (i : MinerIdentity) (e : JobEntry) : Prop :=
  exists id t, G id t /\ build_job_for_payout id t (payout i) (string_bytes (coinbase_tag s))
                           (length (extranonce1 s)) (extranonce2_size s) = Ok (job e).

Record session_inv (G : Offer) (s : Session) : Prop := {
  inv_mask : Z.land (version_rolling_mask (proto s)) VERSION_ROLLING_MASK
             = version_rolling_mask (proto s);
  inv_rolling : version_rolling_enabled (proto s) = true ->
                version_rolling_mask (proto s) <> 0;
  inv_authorized : authorized (proto s) = true ->
                   subscribed (proto s) = true /\ is_Some (worker (ident s))
                   /\ is_Some (identity (ident s));
  inv_parsed i : identity (ident s) = Some i -> exists raw n, parse raw (network s) n = Ok i;
  inv_jobs : issued_jobs s = []
             \/ exists i, identity (ident s) = Some i /\ Forall (pays G s i) (issued_jobs s);
  inv_history : (length (issued_jobs s) <= JOB_HISTORY_DEPTH)%nat;
  inv_shares : share_set_wf (share_set s)
}.

(** What the invariant depends on. *)
Definition same_core (s s' : Session) : Prop :=
  ident s' = ident s /\ proto s' = proto s /\ extranonce1 s' = extranonce1 s
  /\ extranonce2_size s' = extranonce2_size s /\ issued_jobs s' = issued_jobs s
  /\ coinbase_tag s' = coinbase_tag s /\ network s' = network s.

Lemma pays_mono (G G' : Offer) s i e : (forall id t, G id t -> G' id t) -> pays G s i e -> pays G' s i e.
Proof. intros HG (id & t & Hg & Hb). exists id, t. auto. Qed.

Lemma session_inv_mono (G G' : Offer) s : (forall id t, G id t -> G' id t) -> session_inv G s -> session_inv G' s.
Proof.
  intros HG [? ? ? ? Hj ? ?]. split; try done. destruct Hj as [Hj|(i & Hi & HF)]; [by left|]. right. exists i.
  split; [done|]. eapply Forall_impl; [exact HF|]. intros e. by apply pays_mono.
Qed.

(** A fixed offer for the lemmas on single handlers. *)
Section Offered.
Variable G : Offer.

Lemma session_inv_core s s' :
  session_inv G s -> same_core s s' -> share_set_wf (share_set s') -> session_inv G s'.
Proof.
  intros [] (Ei & Ep & E1 & E2 & Ej & Et & En) Hw.
  split; rewrite ?Ei, ?Ep, ?Ej, ?En; try done.
  unfold pays in *. by rewrite E1, E2, Et.
Qed.

Lemma session_new_inv tag d en1 n2 net vcfg sec sid t :
  session_inv G (session_new tag d en1 n2 net vcfg sec sid t).
Proof. split; cbn; try done; [by left | unfold JOB_HISTORY_DEPTH; lia | apply share_set_new_wf]. Qed.

(** *** Handlers that leave the core alone *)
Lemma same_core_refl s : same_core s s.
Proof. by repeat split. Qed.

Lemma same_core_trans s s' s'' : same_core s s' -> same_core s' s'' -> same_core s s''.
Proof. unfold same_core. intuition congruence. Qed.

Lemma reject_share_core s st r env :
  let '(_, s', _) := reject_share s st r env in
  same_core s s' /\ share_set s' = share_set s /\ n_accepted s' = n_accepted s.
Proof. unfold reject_share. by destruct (record_rejected _ _ _ _ _) as [[??] ?]. Qed.

Lemma reject_with_core s st req r e env :
  let '(_, s', _) := reject_with s st req r e env in
  same_core s s' /\ share_set s' = share_set s /\ n_accepted s' = n_accepted s.
Proof.
  unfold reject_with. pose proof (reject_share_core s st r env) as Hc.
  destruct (reject_share s st r env) as [[over ?] ?]. by destruct over.
Qed.

Lemma accept_share_core s st w hd jd env :
  let '(s', _) := accept_share s st w hd jd env in
  same_core s s' /\ share_set s' = share_set s /\ n_accepted s' = n_accepted s + 1.
Proof. unfold accept_share. by destruct (Credit.credit _ _ _ _ _). Qed.

(** A submission records at most its own key, and only when it is valid. *)
Lemma handle_submit_core s st req p env :
  let '(_, s', _) := handle_submit s st req p env in
  same_core s s'
  /\ (share_set s' = share_set s \/ share_set s' = insert_key (share_set s) (share_key_of p)).
Proof.
  unfold handle_submit.
  destruct (negb _ || _).
  { pose proof (reject_share_core s st Unauthorized env) as Hc.
    destruct (reject_share _ _ _ _) as [[? ?] ?]. intuition. }
  destruct (find_job _ _) as [entry|].
  2: { pose proof (reject_with_core s st req JobNotFound (StaleJob (sub_job_id p)) env) as Hc.
       destruct (reject_with _ _ _ _ _ _) as [[? ?] ?]. intuition. }
  destruct (contains _ _).
  { pose proof (reject_with_core s st req RDuplicate DuplicateShare env) as Hc.
    destruct (reject_with _ _ _ _ _ _) as [[? ?] ?]. intuition. }
  destruct (negb (validation_joins env)); [split; [apply same_core_refl | by left]|].
  set (v := validate_share_no_dedup _ _ _ _ _ _).
  destruct v as [[? hd ?|hd ? ?]|e]; cbn [is_ok].
  - pose proof (accept_share_core (set_shares s (insert_key (share_set s) (share_key_of p))) st
      (default (sub_worker p) (stats_worker s)) hd (Jobs.difficulty entry) env) as Hc.
    destruct (accept_share _ _ _ _ _ _). intuition.
  - pose proof (accept_share_core (set_shares s (insert_key (share_set s) (share_key_of p))) st
      (default (sub_worker p) (stats_worker s)) hd (Jobs.difficulty entry) env) as Hc.
    destruct (accept_share _ _ _ _ _ _). intuition.
  - pose proof (reject_with_core s st req (from_error e) e env) as Hc.
    destruct (reject_with _ _ _ _ _ _) as [[? ?] ?]. intuition.
Qed.

Lemma apply_retarget_core s st env :
  let '(_, s', _) := apply_retarget s st env in
  same_core s s' /\ share_set s' = share_set s.
Proof. unfold apply_retarget. by destruct (check_retarget _ _ _) as [[[?|] ?]|]. Qed.

Lemma handle_suggest_core s st req d env :
  let '(_, s', _) := handle_suggest_difficulty s st req d env in
  same_core s s' /\ share_set s' = share_set s.
Proof. unfold handle_suggest_difficulty. by destruct (suggest _ _ _) as [[? ?]|]. Qed.

(** *** Handlers that change the protocol state or the work *)
Lemma handle_configure_inv s st req p :
  session_inv G s -> let '(_, s', _) := handle_configure s st req p in session_inv G s'.
Proof.
  intros I. unfold handle_configure. destruct (version_rolling p); [|done].
  destruct I as [Hm Hr Ha Hp Hj Hh Hs].
  split; cbn [proto set_proto version_rolling_mask version_rolling_enabled authorized subscribed
              ident network issued_jobs share_set]; try done.
  - destruct (cfg_mask p); [|done]. by rewrite <- Z.land_assoc, Hm.
  - intros E. apply andb_true_iff in E as [_ E]. by zbool.
Qed.

Lemma handle_subscribe_inv s st req p :
  session_inv G s -> let '(_, s', _) := handle_subscribe s st req p in session_inv G s'.
Proof. intros []. split; cbn; try done. naive_solver. Qed.

Lemma issue_jobs_Forall (P : JobEntry -> Prop) entries j clean d t :
  (forall e e', job e = job e' -> P e -> P e') ->
  Forall P entries -> P (mkJobEntry j t false d) -> Forall P (issue entries j clean d t).
Proof.
  intros HP HF Hj. unfold issue. apply Forall_app. split; [|by apply Forall_singleton].
  assert (Forall P (if clean then supersede <$> entries else entries)) as HF'.
  { destruct clean; [|done]. apply Forall_fmap. eapply Forall_impl; [exact HF|].
    intros e He. by apply (HP e). }
  destruct (_ <=? _)%nat; [|done]. by destruct HF'.
Qed.

Lemma pays_job s i e e' : job e = job e' -> pays G s i e -> pays G s i e'.
Proof. unfold pays. by intros ->. Qed.

(** Issuing a job built for the session's identity. *)
Lemma issue_inv s i id t j clean tm topt :
  session_inv G s -> identity (ident s) = Some i -> G id t -> materialize_job s id t = Ok j ->
  session_inv G (set_work s topt (issue (issued_jobs s) j clean (difficulty s) tm)).
Proof.
  intros I Hi Hg Hj. unfold materialize_job in Hj. rewrite Hi in Hj. cbn in Hj.
  destruct I as [? ? ? ? Hjobs Hh ?]. split; cbn [proto ident network issued_jobs share_set set_work]; try done.
  - right. exists i. split; [done|]. apply issue_jobs_Forall.
    + intros e e'. apply pays_job.
    + destruct Hjobs as [->|(i' & Hi' & HF)]; [done|]. rewrite Hi in Hi'. by injection Hi' as <-.
    + by exists id, t.
  - by apply length_issue.
Qed.

(** The session after [i] has been accepted as its identity, before any job
    is built for it. *)
Definition authorize_as (s : Session) (raw : string) (i : MinerIdentity) : Session :=
  let pr := proto s in
  set_ident (set_proto s (mkProto (subscribed pr) true (version_rolling_enabled pr)
                            (version_rolling_mask pr) (version_rolling_min_bit_count pr)))
    (mkIdent (Some raw) (Some i) (ua (ident s)) (session_id (ident s))).

Lemma authorize_same_inv s raw n i :
  session_inv G s -> subscribed (proto s) = true -> parse raw (network s) n = Ok i ->
  stats_worker s = Some (canonical_name i) -> session_inv G (authorize_as s raw i).
Proof.
  intros [? ? ? Hpar Hj ? ?] Hsub Hp Hc. split; cbn; try done.
  - intros i' [= <-]. eauto.
  - destruct Hj as [Hj|(i0 & Hi0 & HF)]; [by left|]. right. exists i. split; [done|].
    unfold stats_worker in Hc. rewrite Hi0 in Hc. injection Hc as Hc.
    destruct (Hpar _ Hi0) as (raw0 & n0 & Hp0).
    pose proof (canonical_determines_payout _ _ _ _ _ _ _ Hp0 Hp Hc) as Epay.
    eapply Forall_impl; [exact HF|]. unfold pays. intros e. by rewrite Epay.
Qed.

Lemma authorize_switch_inv s st raw n i env s' st' g :
  session_inv G s -> subscribed (proto s) = true -> parse raw (network s) n = Ok i ->
  switch_identity s st i env = (Some (s', st'), g) -> session_inv G (authorize_as s' raw i).
Proof.
  intros I Hsub Hp. unfold switch_identity.
  destruct (record_new_authorization _) as [[|] ?]; [|done]. intros [= <- <- <-].
  destruct I. split; cbn; try done.
  - intros i' [= <-]. eauto.
  - by left.
  - lia.
  - by apply share_set_clear_wf.
Qed.

(** The template an authorization builds its job from. *)
Definition authorize_template (s : Session) (env : Env) : option JobTemplate :=
  match current_template s with Some t => Some t | None => engine_template env end.

Definition offers (s : Session) (env : Env) : Prop :=
  forall t, authorize_template s env = Some t -> G (fresh_job_id env) t.

Lemma handle_authorize_inv s st req p env :
  session_inv G s -> offers s env ->
  let '(r, s', _) := handle_authorize s st req p env in
  match r with Messages _ => session_inv G s' | _ => True end.
Proof.
  intros I Ho. unfold handle_authorize.
  destruct (subscribed (proto s)) eqn:Hsub; [|done]. cbn [negb].
  destruct (check_worker_name _ _); [|done].
  destruct (parse _ _ _) as [i|] eqn:Hp; [|done].
  set (sw := if bool_decide _ then _ else _).
  assert (forall s1 st1 g, sw = (Some (s1, st1), g) ->
            session_inv G (authorize_as s1 (auth_worker p) i) /\ current_template s1 = current_template s) as Hsw.
  { intros s1 st1 g E. split; [revert E; unfold sw; case_bool_decide|].
    - intros [= <- <- <-]. by eapply authorize_same_inv.
    - by apply (authorize_switch_inv _ _ _ (max_worker_name_len (guard s))).
    - revert E. unfold sw, switch_identity. case_bool_decide; [by intros [= <- _ _]|].
      destruct (record_new_authorization _) as [[|] ?]; [|done]. by intros [= <- _ _]. }
  destruct sw as [[[s1 st1]|] g]; [|done].
  specialize (Hsw s1 st1 g eq_refl). unfold authorize_as in Hsw. destruct Hsw as [Hsw Ec]. cbv zeta.
  set (s2 := set_ident _ _) in *. set (tpl := match current_template s2 with Some _ => _ | None => _ end).
  assert (tpl = authorize_template s env) as Et
    by (unfold tpl, authorize_template; change (current_template s2) with (current_template s1); by rewrite Ec).
  destruct tpl as [t|]; [|done].
  destruct (materialize_job s2 _ t) eqn:Ej; [|done]. eapply issue_inv; [done | done | by apply Ho | done].
Qed.

Lemma on_broadcast_inv s st b env :
  session_inv G s -> G (fresh_job_id env) (Engine.b_template b) ->
  let '(r, s', _) := on_broadcast s st b env in
  match r with Messages _ => session_inv G s' | _ => True end.
Proof.
  intros I Hg. unfold on_broadcast.
  set (s1 := if Engine.b_clean b then _ else s).
  assert (session_inv G s1) as I1.
  { unfold s1. destruct (Engine.b_clean b); [|done].
    eapply session_inv_core; [done | by repeat split | by apply share_set_clear_wf, I]. }
  destruct (subscribed (proto s1) && authorized (proto s1)) eqn:E.
  - destruct (materialize_job s1 _ _) as [j|] eqn:Ej; [|done].
    apply andb_true_iff in E as [_ Ha].
    destruct (inv_authorized _ _ I1 Ha) as (_ & _ & [i Hi]). by eapply issue_inv.
  - eapply session_inv_core; [exact I1 | by repeat split | apply I1].
Qed.

Lemma dispatch_inv s st req env :
  session_inv G s -> offers s env ->
  let '(r, s', _) := dispatch s st req env in
  match r with Messages _ => session_inv G s' | _ => True end.
Proof.
  intros I Ho. unfold dispatch. destruct (from_request req) as [[]|]; [| | | | | | |done]; try done.
  - by apply (handle_subscribe_inv s st req p).
  - by apply handle_authorize_inv.
  - pose proof (handle_submit_core s st req p env) as Hc.
    destruct (handle_submit _ _ _ _ _) as [[r s'] st']. destruct Hc as [Hc Hk].
    destruct r; try done. eapply session_inv_core; [done..|].
    destruct Hk as [->| ->]; [|apply insert_key_queue]; apply I.
  - by apply (handle_configure_inv s st req p).
  - pose proof (handle_suggest_core s st req difficulty0 env) as Hc.
    destruct (handle_suggest_difficulty _ _ _ _ _) as [[r s'] st']. destruct Hc as [Hc Hk].
    destruct r; try done. eapply session_inv_core; [done..|]. rewrite Hk. apply I.
Qed.

Lemma after_handler_inv r s st ban env sent s' st' :
  match r with Messages _ => session_inv G s | _ => True end ->
  after_handler (r, s, st) ban env = Running sent s' st' -> session_inv G s'.
Proof.
  unfold after_handler. destruct r; try done. intros I.
  pose proof (apply_retarget_core s st env) as Hc.
  destruct (apply_retarget s st env) as [[[] s1] st1]; try done. intros [= <- <- <-].
  destruct Hc as [Hc Hk]. eapply session_inv_core; [done..|]. rewrite Hk. apply I.
Qed.

Variable parse_request : string -> option StratumRequest.

Lemma handle_line_inv s st line env :
  session_inv G s -> offers s env ->
  let '((r, s', _), _) := handle_line parse_request s st line env in
  match r with Messages _ => session_inv G s' | _ => True end.
Proof.
  intros I Ho. unfold handle_line. destruct (try_consume _ _ _) as [ok r].
  set (s1 := set_guard s _ _ _).
  assert (session_inv G s1) by (eapply session_inv_core; [done | by repeat split | apply I]).
  destruct ok; [|done]. cbn [negb]. destruct (is_blank line); [done|].
  destruct (parse_request line) as [req|]; [|done]. cbv iota.
  pose proof (dispatch_inv s1 st req env) as Hd. destruct (dispatch _ _ _ _) as [[??] ?]. by apply Hd.
Qed.

(** The template an event may hand the session a job of. *)
Definition offered_template (t : option JobTemplate) (e : Event) (env : Env) : option JobTemplate :=
  match e with
  | NewJob b => Some (Engine.b_template b)
  | Inbound _ => match t with Some t => Some t | None => engine_template env end
  | _ => None
  end.

Lemma run_step_inv s st e env env' sent s' st' :
  session_inv G s ->
  (forall t, offered_template (current_template s) e env = Some t -> G (fresh_job_id env) t) ->
  run_step parse_request s st e env env' = Running sent s' st' -> session_inv G s'.
Proof.
  intros I Ho. destruct e; try done; cbn [run_step].
  - pose proof (handle_line_inv s st line env I Ho) as Hl.
    destruct (handle_line _ _ _ _ _) as [[[r s1] st1] ban]. by apply after_handler_inv.
  - pose proof (on_broadcast_inv s st b env I (Ho _ eq_refl)) as Hb.
    destruct (on_broadcast _ _ _ _) as [[r s1] st1]. by apply after_handler_inv.
  - by apply after_handler_inv.
Qed.
End Offered.

(** *** Submissions, one after another *)
Definition submission : Type := StratumRequest * SubmitParams * Env.

Definition submit_one (x : Session * PoolStats) (q : submission) : Session * PoolStats :=
  let '(req, p, env) := q in
  let '(_, s', st') := handle_submit x.1 x.2 req p env in (s', st').

(** Everything a submission must pass before it is booked. *)
Definition accepted_by (s : Session) (p : SubmitParams) (env : Env) (entry : JobEntry)
    (r : ShareResult) : Prop :=
  authorized (proto s) = true /\ worker (ident s) = Some (sub_worker p)
  /\ find_job (issued_jobs s) (sub_job_id p) = Some entry
  /\ contains (share_set s) (share_key_of p) = false /\ validation_joins env = true
  /\ validate_share_no_dedup (share_params_of s p) (job entry) entry (extranonce1 s)
       (min_difficulty (vardiff_cfg s)) (unix_clock env) = Ok r.

Lemma accepted_submit s st req p env entry r :
  accepted_by s p env entry r ->
  let '(res, s', _) := handle_submit s st req p env in
  res = Messages [resp_ok (req_id req) (VBool true)] /\ same_core s s'
  /\ share_set s' = insert_key (share_set s) (share_key_of p)
  /\ n_accepted s' = n_accepted s + 1 /\ vardiff_cfg s' = vardiff_cfg s.
Proof.
  intros (Ha & Hw & Hf & Hc & Hj & Hv). unfold handle_submit.
  rewrite Ha, Hw, bool_decide_false by (intros Hne; by apply Hne). cbn [negb orb].
  rewrite Hf, Hc, Hj, Hv. cbn [negb]. cbn [is_ok].
  unfold accept_share. by destruct r, (Credit.credit _ _ _ _ _).
Qed.

Lemma submit_run_core qs x :
  let x' := foldl submit_one x qs in
  same_core x.1 x'.1
  /\ exists ks, (length ks <= length qs)%nat
       /\ share_set x'.1 = foldl insert_key (share_set x.1) ks.
Proof.
  revert x; induction qs as [|[[req p] env] qs IH]; intros x; cbv zeta in *; cbn [foldl].
  - split; [apply same_core_refl|]. by exists [].
  - destruct (IH (submit_one x (req, p, env))) as (Hc & ks & Hl & Hk).
    pose proof (handle_submit_core x.1 x.2 req p env) as Hs.
    cbn [submit_one] in Hc, Hk |- *. destruct (handle_submit _ _ _ _ _) as [[? s1] ?].
    cbn [fst] in Hc, Hk. destruct Hs as [Hs Hset]. split; [by eapply same_core_trans|].
    destruct Hset as [Hset|Hset]; rewrite Hset in Hk.
    + exists ks. split; [cbn [length]; lia | done].
    + exists (share_key_of p :: ks). split; [cbn [length]; lia | done].
Qed.

(** The header a submission stands for does not see what the duplicate key
    does: claimed version bits while rolling is off, or an extranonce2 of a
    width the job does not have. *)
Definition same_work (s : Session) (p p' : SubmitParams) (j : StratumJob) : Prop :=
  sub_worker p' = sub_worker p /\ sub_job_id p' = sub_job_id p /\ sub_ntime p' = sub_ntime p
  /\ sub_nonce p' = sub_nonce p
  /\ ((version_rolling_enabled (proto s) = false /\ sub_extranonce2 p' = sub_extranonce2 p)
      \/ (sub_version_bits p' = sub_version_bits p
          /\ length (sub_extranonce2 p) <> extranonce2_size s
          /\ length (sub_extranonce2 p') <> extranonce2_size s
          /\ exists i e, job e = j /\ pays any_offer s i e)).

Lemma same_work_assemble s p p' j :
  same_work s p p' j ->
  p_version_bits (share_params_of s p') = p_version_bits (share_params_of s p)
  /\ assemble_coinbase j (extranonce1 s) (sub_extranonce2 p')
     = assemble_coinbase j (extranonce1 s) (sub_extranonce2 p).
Proof.
  intros (_ & _ & _ & _ & [[Hr He]|(Hv & Hl & Hl' & i & e & <- & id & t & _ & Hj)]);
    cbn [share_params_of p_version_bits].
  - by rewrite Hr, He.
  - split; [by rewrite Hv|].
    rewrite !(assemble_wrong_width _ _ _ _ _ _ _ _ _ Hj) by lia. done.
Qed.

Lemma same_work_validates s p p' entry d clock r :
  same_work s p p' (job entry) ->
  validate_share_no_dedup (share_params_of s p) (job entry) entry (extranonce1 s) d clock = Ok r ->
  exists r', validate_share_no_dedup (share_params_of s p') (job entry) entry (extranonce1 s) d
               clock = Ok r' /\ result_hash r' = result_hash r.
Proof.
  intros Hw Hv. pose proof (same_work_assemble _ _ _ _ Hw) as [Hb Ha].
  destruct Hw as (_ & Ej & Et & En & _).
  apply validate_Ok in Hv as (Hs & Hn & h & Hh & Hm & ->).
  assert (share_header (share_params_of s p') (job entry) (extranonce1 s) = Ok h) as Hh'.
  { rewrite <- Hh. unfold share_header. rewrite Hb. cbn [share_params_of p_extranonce2 p_ntime
      p_nonce p_version_rolling_mask]. by rewrite Ha, Et, En. }
  eexists. split.
  - apply validate_Ok. split; [done|]. split; [|by exists h].
    unfold ntime_ok in *. cbn in *. by rewrite Et.
  - cbv zeta. by destruct (meets_target _ (network_target _)).
Qed.

(** After an accepted submission and further ones, its key is still there. *)
Lemma accepted_shares s st req p env entry r qs :
  share_set_wf (share_set s) -> accepted_by s p env entry r ->
  (length qs < max_size (share_set s))%nat ->
  let x := foldl submit_one (s, st) ((req, p, env) :: qs) in
  authorized (proto x.1) = true /\ worker (ident x.1) = Some (sub_worker p)
  /\ find_job (issued_jobs x.1) (sub_job_id p) = Some entry
  /\ contains (share_set x.1) (share_key_of p) = true.
Proof.
  intros W Hacc Hl x.
  pose proof (accepted_submit s st req p env entry r Hacc) as Ha.
  destruct Hacc as (Hau & Hw & Hf & Hc & _).
  pose proof (submit_run_core qs (submit_one (s, st) (req, p, env))) as (Hcore & ks & Hks & Hset).
  subst x. cbn [foldl] in *. set (x := foldl submit_one _ qs) in *.
  cbn [submit_one fst snd] in Hcore, Hset.
  destruct (handle_submit s st req p env) as [[? s1] ?]. cbn [fst] in *.
  destruct Ha as (_ & Hc1 & Hs1 & _).
  destruct (same_core_trans _ _ _ Hc1 Hcore) as (Ei & Ep & _ & _ & Ej & _).
  rewrite Ei, Ep, Ej, Hset, Hs1. repeat split; try done.
  apply insert_run_keeps; [done | done | by eapply Nat.le_lt_trans].
Qed.

(** The second of two submissions of one solution, after the first. *)
Lemma same_work_accepted s s1 p p' env env' entry r :
  share_set_wf (share_set s) -> accepted_by s p env entry r -> same_work s p p' (job entry) ->
  share_key_of p' <> share_key_of p -> contains (share_set s) (share_key_of p') = false ->
  unix_clock env' = unix_clock env -> validation_joins env' = true -> same_core s s1 ->
  share_set s1 = insert_key (share_set s) (share_key_of p) -> vardiff_cfg s1 = vardiff_cfg s ->
  exists r', accepted_by s1 p' env' entry r' /\ result_hash r' = result_hash r.
Proof.
  intros W (Ha & Hw & Hf & _ & _ & Hv) Hsame Hk Hc Henv Hjoin (Ei & Ep & E1 & _ & Ej & _ & _) Hset Hcfg.
  destruct (same_work_validates _ _ _ _ _ _ _ Hsame Hv) as (r' & Hv' & Hh).
  exists r'. split; [|done]. destruct Hsame as (Ew & Eid & _).
  unfold accepted_by. rewrite Ep, Ei, Ej, E1, Ew, Eid, Hset, Hcfg, Henv.
  repeat split; try done.
  - by apply insert_key_other.
  - unfold share_params_of in *. by rewrite Ep.
Qed.

Variable parse_request : string -> option StratumRequest.

Lemma session_start_inv G s t : session_inv G s -> session_inv G (session_start s t).
Proof. intros I. destruct t; [|done]. eapply session_inv_core; [done | by repeat split | apply I]. Qed.

Lemma reachable_inv s0 s : session_inv any_offer s0 -> reachable parse_request s0 s -> session_inv any_offer s.
Proof.
  intros I. induction 1 as [t|]; [by apply session_start_inv | by eapply run_step_inv].
Qed.

(** *** The templates a connection is handed *)

(** The template the session should hold after an event: the last one broadcast,
    or, before any, the engine's when an authorization took it up. *)
Definition cached (t : option JobTemplate) (e : Event) (env : Env) (s' : Session) : option JobTemplate :=
  match e, t with
  | NewJob b, _ => Some (Engine.b_template b)
  | _, Some t => Some t
  | Inbound _, None => if bool_decide (is_Some (current_template s')) then engine_template env else None
  | _, None => None
  end.

(** A connection with the record of what the engine has handed it: the template
    on offer at each event, under the identifier a job of it would get, and the
    one to hold now. *)
Inductive handed (s0 : Session) : list (string * JobTemplate) -> option JobTemplate -> Session -> Prop :=
| handed_start t : handed s0 [] t (session_start s0 t)
| handed_step log t s st e env env' sent s' st' :
    handed s0 log t s -> run_step parse_request s st e env env' = Running sent s' st' ->
    handed s0 (log ++ option_list (pair (fresh_job_id env) <$> offered_template t e env))
      (cached t e env s') s'.

Lemma handed_reachable s0 log t s : handed s0 log t s -> reachable parse_request s0 s.
Proof. induction 1; [apply reach_start | by eapply reach_step]. Qed.

Lemma reachable_handed s0 s : reachable parse_request s0 s -> exists log t, handed s0 log t s.
Proof.
  induction 1 as [t|s st e env env' sent s' st' _ (log & t & IH)]; [exists [], t; apply handed_start|].
  do 2 eexists. by eapply handed_step.
Qed.

Lemma submit_template s st req p env :
  current_template (handle_submit s st req p env).1.2 = current_template s.
Proof.
  unfold handle_submit, reject_with, reject_share, accept_share. repeat case_match; by simplify_eq/=.
Qed.

Lemma authorize_takes s st req p env :
  let s' := (handle_authorize s st req p env).1.2 in
  current_template s' = current_template s \/ current_template s' = authorize_template s env.
Proof.
  unfold handle_authorize, switch_identity, authorize_template. repeat case_match; simplify_eq/=; auto.
Qed.

Lemma dispatch_template s st req env :
  let s' := (dispatch s st req env).1.2 in
  current_template s' = current_template s \/ current_template s' = authorize_template s env.
Proof.
  unfold dispatch. destruct (from_request req) as [[]|]; try (left; done).
  - apply authorize_takes.
  - left. apply submit_template.
  - left. unfold handle_configure. by destruct (version_rolling p).
  - left. unfold handle_suggest_difficulty. by repeat case_match.
Qed.

Lemma retarget_template s st env : current_template (apply_retarget s st env).1.2 = current_template s.
Proof. unfold apply_retarget. by repeat case_match. Qed.

Lemma after_handler_session (step : Step) ban env sent s' st' :
  after_handler step ban env = Running sent s' st' ->
  exists msgs st, step.1.1 = Messages msgs /\ s' = (apply_retarget step.1.2 st env).1.2.
Proof.
  unfold after_handler. destruct step as [[[msgs| |] s] st]; try done.
  destruct (apply_retarget s st env) as [[[] s1] st1] eqn:E; try done. intros [= _ <- _].
  exists msgs, st. split; [done|]. cbn [fst snd]. by rewrite E.
Qed.

Lemma run_step_template s st e env env' sent s' st' :
  run_step parse_request s st e env env' = Running sent s' st' ->
  current_template s' = cached (current_template s) e env s'.
Proof.
  intros Hr. destruct e; try done; cbn [run_step] in Hr.
  - destruct (handle_line parse_request s st line env) as [step ban] eqn:El.
    apply after_handler_session in Hr as (msgs & st1 & _ & Es).
    assert (current_template step.1.2 = current_template s
            \/ current_template step.1.2 = authorize_template s env) as Ht.
    { revert El. unfold handle_line. destruct (try_consume _ _ _) as [ok r]. destruct ok; cbn [negb].
      - destruct (is_blank line); [intros [= <- _]; by left|].
        destruct (parse_request line) as [req|]; intros [= <- _]; [|by left].
        exact (dispatch_template (set_guard s _ _ _) st req env).
      - intros [= <- _]. by left. }
    assert (current_template s' = current_template step.1.2) as Et by (rewrite Es; apply retarget_template).
    unfold cached. rewrite Et. unfold authorize_template in Ht.
    destruct (current_template s) as [t|]; [by destruct Ht as [->| ->]|].
    destruct Ht as [->| ->]; [by rewrite bool_decide_false by (by intros [? ?])|].
    destruct (engine_template env); [by rewrite bool_decide_true by done | by case_bool_decide].
  - apply after_handler_session in Hr as (msgs & st1 & Hm & ->). rewrite retarget_template.
    revert Hm. unfold on_broadcast. cbv zeta. destruct (subscribed _ && authorized _); [|done].
    by destruct (materialize_job _ _ _).
  - apply after_handler_session in Hr as (msgs & st1 & _ & ->). rewrite retarget_template. cbn. by destruct (current_template s).
Qed.

(** Every job held was built from a template of the record, under its own
    identifier; the template held is the one the record says. *)
Lemma handed_inv s0 log t s :
  session_inv (fun _ _ => False) s0 -> current_template s0 = None -> handed s0 log t s ->
  session_inv (fun id x => (id, x) ∈ log) s /\ current_template s = t.
Proof.
  intros I0 E0. induction 1 as [t|log t s st e env env' sent s' st' _ [I <-] Hr].
  - split; [|by destruct t]. apply session_start_inv. by eapply session_inv_mono; [|exact I0].
  - split; [|by eapply run_step_template]. eapply run_step_inv; [| |exact Hr].
    + eapply session_inv_mono; [|exact I]. intros id x Hx. by apply elem_of_app; left.
    + intros x Hx. apply elem_of_app; right. rewrite Hx. by apply list_elem_of_singleton.
Qed.

(** *** The version-rolling mask *)

(** No message gives the session a bit of the mask back. *)
Definition mask_narrows (s s' : Session) : Prop :=
  forall i, Z.testbit (version_rolling_mask (proto s')) i = true ->
            Z.testbit (version_rolling_mask (proto s)) i = true.

Lemma mask_kept s s' : version_rolling_mask (proto s') = version_rolling_mask (proto s) -> mask_narrows s s'.
Proof. unfold mask_narrows. by intros ->. Qed.

Lemma mask_narrows_trans s s' s'' : mask_narrows s s' -> mask_narrows s' s'' -> mask_narrows s s''.
Proof. unfold mask_narrows. auto. Qed.

Lemma configure_narrows s st req p : mask_narrows s (handle_configure s st req p).1.2.
Proof.
  unfold handle_configure. destruct (version_rolling p); [|by apply mask_kept].
  intros i. cbn. destruct (cfg_mask p); [|done]. rewrite !Z.land_spec, !andb_true_iff. tauto.
Qed.

Lemma authorize_mask s st req p env : mask_narrows s (handle_authorize s st req p env).1.2.
Proof.
  apply mask_kept. unfold handle_authorize, switch_identity. repeat case_match; by simplify_eq/=.
Qed.

Lemma dispatch_narrows s st req env : mask_narrows s (dispatch s st req env).1.2.
Proof.
  unfold dispatch. destruct (from_request req) as [[]|]; try by apply mask_kept.
  - apply authorize_mask.
  - apply mask_kept. pose proof (handle_submit_core s st req p env) as Hc.
    destruct (handle_submit _ _ _ _ _) as [[? ?] ?]. destruct Hc as [(_ & Ep & _) _]. cbn. by rewrite Ep.
  - apply configure_narrows.
  - apply mask_kept. pose proof (handle_suggest_core s st req difficulty0 env) as Hc.
    destruct (handle_suggest_difficulty _ _ _ _ _) as [[? ?] ?]. destruct Hc as [(_ & Ep & _) _]. cbn. by rewrite Ep.
Qed.

Lemma retarget_narrows s st env : mask_narrows s (apply_retarget s st env).1.2.
Proof.
  apply mask_kept. pose proof (apply_retarget_core s st env) as Hc.
  destruct (apply_retarget s st env) as [[? ?] ?]. destruct Hc as [(_ & Ep & _) _]. cbn. by rewrite Ep.
Qed.

Lemma broadcast_mask s st b env : mask_narrows s (on_broadcast s st b env).1.2.
Proof.
  apply mask_kept. unfold on_broadcast. cbv zeta. repeat case_match; by simplify_eq/=.
Qed.

Lemma run_step_narrows s st e env env' sent s' st' :
  run_step parse_request s st e env env' = Running sent s' st' -> mask_narrows s s'.
Proof.
  intros Hr. destruct e; try done; cbn [run_step] in Hr.
  - destruct (handle_line parse_request s st line env) as [step ban] eqn:El.
    apply after_handler_session in Hr as (msgs & st1 & _ & ->).
    eapply mask_narrows_trans; [|apply retarget_narrows].
    revert El. unfold handle_line. destruct (try_consume _ _ _) as [ok r].
    destruct ok; cbn [negb]; [|by intros [= <- _]; apply mask_kept].
    destruct (is_blank line); [by intros [= <- _]; apply mask_kept|].
    destruct (parse_request line) as [req|]; intros [= <- _]; [|by apply mask_kept].
    exact (dispatch_narrows (set_guard s _ _ _) st req env).
  - apply after_handler_session in Hr as (msgs & st1 & _ & ->).
    eapply mask_narrows_trans; [apply broadcast_mask | apply retarget_narrows].
  - apply after_handler_session in Hr as (msgs & st1 & _ & ->). apply retarget_narrows.
Qed.

(** The sessions a connection can still be in, from a state it is in. *)
Inductive continues (s : Session) : Session -> Prop :=
| continues_refl : continues s s
| continues_step s1 st e env env' sent s2 st2 :
    continues s s1 -> run_step parse_request s1 st e env env' = Running sent s2 st2 -> continues s s2.

Lemma continues_narrows s s' : continues s s' -> mask_narrows s s'.
Proof.
  induction 1 as [|s1 st e env env' sent s2 st2 _ IH Hr]; [by apply mask_kept|].
  eapply mask_narrows_trans; [exact IH|]. by eapply run_step_narrows.
Qed.
End Invariant.

(** ** A concrete connection, for evaluation *)
Definition demo_parse (line : string) : option StratumRequest :=
  if bool_decide (line = "configure") then
    Some (mkRequest (VU64 1) "mining.configure"
            (VArray [VArray [VString "version-rolling"];
                     VObject [("version-rolling.mask", VString "ffffffff")]]))
  else if bool_decide (line = "subscribe") then
    Some (mkRequest (VU64 2) "mining.subscribe" (VArray [VString "miner"]))
  else if bool_decide (line = "authorize") then
    Some (mkRequest (VU64 3) "mining.authorize" (VArray [VString "bcrt1qdemo.rig"; VString "x"]))
  else None.

Definition demo_env (id : string) : Env :=
  mkEnv 10 10 10 10 1700000000 1700000000 1700000000 1700000000 (Some 1700000050) id
    (Some demo_built_template) (fun _ => Err DuplicateShare) true.
Definition demo_stats : PoolStats := stats_new false 1700000000 0.
Definition demo_session : Session :=
  session_new "/btcpool/" 2000 demo_en1 4 Regtest
    (mkVardiffConfig 10 60 1000 1000000 (f64_of_Z 4) f1 (f64_of_Z 2))
    (mkSecurityConfig 10 100 600 50 4096 128 8) "00000000000000ff" 0.

Abbreviation demo_step := (@run_step zero_sha256 hex_codec legacy_codec demo_codec toy_libm demo_parse).
Definition outcome_session (o : Outcome) : Session :=
  match o with Running _ s _ => s | Ended _ s _ => s | Crashed s _ => s end.
Definition outcome_sent (o : Outcome) : list Value :=
  match o with Running l _ _ => l | _ => [] end.
Definition outcome_stats (o : Outcome) : PoolStats :=
  match o with Running _ _ st => st | Ended _ _ st => st | Crashed _ st => st end.

Definition demo_o1 : Outcome := demo_step demo_session demo_stats (Inbound "subscribe") (demo_env "a") (demo_env "a").
Definition demo_o2 : Outcome :=
  demo_step (outcome_session demo_o1) (outcome_stats demo_o1) (Inbound "authorize") (demo_env "b") (demo_env "b").
Definition demo_ready : Session := outcome_session demo_o2.

Lemma demo_ready_reachable :
  @reachable zero_sha256 hex_codec legacy_codec demo_codec toy_libm demo_parse demo_session demo_ready.
Proof.
  eapply (reach_step _ _ _ demo_stats (Inbound "authorize") (demo_env "b") (demo_env "b")
            (outcome_sent demo_o2) _ (outcome_stats demo_o2)).
  - eapply (reach_step _ _ _ demo_stats (Inbound "subscribe") (demo_env "a") (demo_env "a")
            (outcome_sent demo_o1) _ (outcome_stats demo_o1)).
    + apply (reach_start _ _ None).
    + vm_compute. reflexivity.
  - vm_compute. reflexivity.
Qed.

(** What the engine had on offer to the demo connection. *)
Definition demo_log : list (string * JobTemplate) :=
  [("a", demo_built_template); ("b", demo_built_template)].

Lemma demo_log_template (id : string) (x t : JobTemplate) :
  (id, x) ∈ [("a", t); ("b", t)] -> t = x.
Proof. set_solver. Qed.

Lemma handed_eq `{Sha256} `{HexCodec} `{TxCodec} `{AddressCodec} `{Libm} parse_request s0 log t s st e
    env env' sent s' st' log' t' :
  handed parse_request s0 log t s -> run_step parse_request s st e env env' = Running sent s' st' ->
  log' = log ++ option_list (pair (fresh_job_id env) <$> offered_template t e env) ->
  t' = cached t e env s' -> handed parse_request s0 log' t' s'.
Proof. intros Hh Hr -> ->. by eapply handed_step. Qed.

Lemma demo_subscribed_handed :
  @handed zero_sha256 hex_codec legacy_codec demo_codec toy_libm demo_parse demo_session
    [("a", demo_built_template)] None (outcome_session demo_o1).
Proof.
  apply (handed_eq demo_parse demo_session [] None demo_session demo_stats (Inbound "subscribe")
           (demo_env "a") (demo_env "a") (outcome_sent demo_o1) _ (outcome_stats demo_o1)).
  - apply (handed_start _ _ None).
  - vm_compute. reflexivity.
  - reflexivity.
  - vm_compute. reflexivity.
Qed.

Lemma demo_ready_handed :
  @handed zero_sha256 hex_codec legacy_codec demo_codec toy_libm demo_parse demo_session demo_log
    (Some demo_built_template) demo_ready.
Proof.
  apply (handed_eq demo_parse demo_session [("a", demo_built_template)] None (outcome_session demo_o1) (outcome_stats demo_o1)
           (Inbound "authorize") (demo_env "b") (demo_env "b") (outcome_sent demo_o2) _
           (outcome_stats demo_o2)).
  - apply demo_subscribed_handed.
  - vm_compute. reflexivity.
  - reflexivity.
  - vm_compute. reflexivity.
Qed.

Lemma demo_ready_one_job : exists e, issued_jobs demo_ready = [e].
Proof. vm_compute. eexists. reflexivity. Qed.

Lemma demo_ready_shares : share_set_wf (share_set demo_ready).
Proof.
  assert (share_set demo_ready = share_set_new) as -> by (vm_compute; reflexivity).
  apply share_set_new_wf.
Qed.

(** ** Properties *)

(** C7. Every job a connection holds pays the wallet it is authorised as, the
    whole value of the template the engine handed out under that job's own
    identifier.  [handed] runs a connection from its first message, whatever
    the peer sends, the engine broadcasts and the other sessions do, and records
    in [log] each template on offer with the identifier a job of it would get
    ([reachable_handed]: every reachable session has such a record).  In any
    such state: the template held is the last one handed out; an authorised
    session is subscribed and has an identity; the history has at most 16 jobs;
    and each job is that of a template [x] recorded under the job's identifier:
    it has [x]'s previous block, version, target, merkle branch and
    transactions, and its coinbase, assembled with any extranonce2 of the
    session's width, is the transaction that pays the coinbase value of [x] to
    the current identity's script, at the height of [x], with [x]'s witness
    commitment. *)
Theorem issued_jobs_pay_the_identity `{Sha256} `{HexCodec} `{TxCodec} `{AddressCodec} `{Libm}
    (parse_request : string -> option StratumRequest) (tag : string) (d : Z) (en1 : bytes)
    (n2 : nat) (net : Network) (vcfg : VardiffConfig) (sec : SecurityConfig) (sid : string)
    (t0 : Instant) (log : list (string * JobTemplate)) (t : option JobTemplate) (s : Session) :
  handed parse_request (session_new tag d en1 n2 net vcfg sec sid t0) log t s ->
  current_template s = t
  /\ (authorized (proto s) = true -> subscribed (proto s) = true /\ is_Some (identity (ident s)))
  /\ (length (issued_jobs s) <= JOB_HISTORY_DEPTH)%nat
  /\ forall e, e ∈ issued_jobs s ->
     exists i x, identity (ident s) = Some i /\ (job_id (job e), x) ∈ log
       /\ payout_address (job e) = address (payout i)
       /\ same_template (job e) x
       /\ forall en2, length en2 = extranonce2_size s ->
          assemble_coinbase (job e) (extranonce1 s) en2
          = tx_serialize (coinbase_tx (encode_bip34_height (t_height x)
                                         ++ string_bytes (coinbase_tag s) ++ extranonce1 s ++ en2)
                            (t_coinbase_value x) (script_pubkey (payout i))
                            (t_witness_commitment x)).
Proof.
  intros HR. apply handed_inv in HR as [[_ _ Ha _ Hj Hh _] Et]; [|apply session_new_inv | done].
  split; [done|]. split; [intros E; by destruct (Ha E) as (? & _ & ?)|]. split; [done|].
  intros e He. destruct Hj as [Hj|(i & Hi & HF)]; [rewrite Hj in He; set_solver|].
  rewrite Forall_forall in HF. destruct (HF e He) as (id & x & Hx & Hb). exists i, x.
  destruct (job_of_template _ _ _ _ _ _ _ Hb) as (-> & -> & Hsame).
  do 4 (split; [done|]). intros en2 Hl. by apply (assemble_serialized _ _ _ _ _ _ _ _ _ Hb); rewrite Hl.
Qed.

Lemma issued_jobs_pay_the_identity_witness :
  exists e i, issued_jobs demo_ready = [e] /\ identity (ident demo_ready) = Some i
    /\ payout_address (job e) = address (payout i)
    /\ (job_id (job e), demo_built_template) ∈ demo_log /\ same_template (job e) demo_built_template.
Proof.
  destruct (@issued_jobs_pay_the_identity zero_sha256 hex_codec legacy_codec demo_codec
    toy_libm demo_parse _ _ _ _ _ _ _ _ _ demo_log _ demo_ready demo_ready_handed) as (_ & _ & _ & Hp).
  destruct demo_ready_one_job as [e E].
  destruct (Hp e) as (i & x & Hi & Hx & Ha & Hs & _); [rewrite E; by apply list_elem_of_singleton|].
  destruct (demo_log_template _ _ _ Hx).
  exists e, i. auto.
Defined.

(** C34. Version rolling stays inside BIP320 for the whole life of a session:
    in every reachable state the session's mask only has bits of
    [VERSION_ROLLING_MASK]; from then on it can only narrow: whatever the
    session goes through, repeated [mining.configure] requests included, a bit
    set later is set now; it is not zero while rolling is enabled; and the
    version of a header built for a submission differs from its job's version
    only in bits of the mask, which are BIP320 bits. *)
Theorem version_rolling_stays_in_bip320 `{Sha256} `{HexCodec} `{TxCodec} `{AddressCodec} `{Libm}
    (parse_request : string -> option StratumRequest) (tag : string) (d : Z) (en1 : bytes)
    (n2 : nat) (net : Network) (vcfg : VardiffConfig) (sec : SecurityConfig) (sid : string)
    (t0 : Instant) (s : Session) (p : SubmitParams) (base v : Z) :
  reachable parse_request (session_new tag d en1 n2 net vcfg sec sid t0) s ->
  (forall i, Z.testbit (version_rolling_mask (proto s)) i = true ->
             Z.testbit VERSION_ROLLING_MASK i = true)
  /\ (forall s', continues parse_request s s' ->
        forall i, Z.testbit (version_rolling_mask (proto s')) i = true ->
                  Z.testbit (version_rolling_mask (proto s)) i = true)
  /\ (version_rolling_enabled (proto s) = true -> version_rolling_mask (proto s) <> 0)
  /\ (resolve_version base (p_version_bits (share_params_of s p))
         (p_version_rolling_mask (share_params_of s p)) = Ok v ->
      forall i, 0 <= i < 32 -> Z.testbit VERSION_ROLLING_MASK i = false ->
                Z.testbit v i = Z.testbit base i).
Proof.
  intros HR. apply reachable_inv in HR as [Hm Hr _ _ _ _ _]; [|apply session_new_inv].
  pose proof (continues_narrows parse_request s) as Hnarrow.
  assert (forall i, Z.testbit (version_rolling_mask (proto s)) i = true ->
             Z.testbit VERSION_ROLLING_MASK i = true) as Hsub.
  { intros i Hi. rewrite <- Hm, Z.land_spec in Hi. by apply andb_true_iff in Hi as [_ Hi]. }
  do 3 (split; [done|]). cbn [share_params_of p_version_bits p_version_rolling_mask].
  unfold resolve_version.
  destruct (version_rolling_enabled (proto s)); [|by intros [= <-]].
  destruct (sub_version_bits p) as [bits|]; [|by intros [= <-]]. cbn [default from_option id].
  destruct (_ =? 0); [|done]. intros [= <-] i Hi Hb.
  rewrite Z.lor_spec, !Z.land_spec, testbit_not32 by lia.
  destruct (Z.testbit (version_rolling_mask (proto s)) i) eqn:E; [|cbn; btauto].
  apply Hsub in E. congruence.
Qed.

Lemma version_rolling_stays_in_bip320_witness :
  Z.testbit (version_rolling_mask (proto demo_ready)) 13 = true
  /\ Z.testbit VERSION_ROLLING_MASK 13 = true.
Proof.
  split; [vm_compute; reflexivity|].
  apply (@version_rolling_stays_in_bip320 zero_sha256 hex_codec legacy_codec demo_codec
    toy_libm demo_parse _ _ _ _ _ _ _ _ _ demo_ready (mkSubmit "" "" [] 0 0 None) 0 0
    demo_ready_reachable).
  vm_compute. reflexivity.
Defined.

(** Work is not counted twice under its own name: once a submission has
    been accepted, the same submission, repeated after any fewer than
    [max_size] further submissions of the session, is answered as a duplicate
    (or ends the session once too many shares were invalid) and does not raise
    the session's count of accepted shares. *)
Lemma resubmission_is_duplicate `{Sha256} `{HexCodec} `{TxCodec} `{Libm}
    (s : Session) (st : PoolStats) (req req' : StratumRequest) (p : SubmitParams) (env env' : Env)
    (entry : JobEntry) (r : ShareResult) (qs : list submission) :
  share_set_wf (share_set s) -> accepted_by s p env entry r ->
  (length qs < max_size (share_set s))%nat ->
  let x := foldl submit_one (s, st) ((req, p, env) :: qs) in
  handle_submit x.1 x.2 req' p env' = reject_with x.1 x.2 req' RDuplicate DuplicateShare env'
  /\ n_accepted (handle_submit x.1 x.2 req' p env').1.2 = n_accepted x.1.
Proof.
  intros W Hacc Hl x.
  destruct (accepted_shares s st req p env entry r qs W Hacc Hl) as (Ha & Hw & Hf & Hc).
  fold x in Ha, Hw, Hf, Hc.
  assert (handle_submit x.1 x.2 req' p env'
          = reject_with x.1 x.2 req' RDuplicate DuplicateShare env') as E.
  { unfold handle_submit.
    rewrite Ha, Hw, bool_decide_false by (intros Hne; by apply Hne). cbn [negb orb].
    by rewrite Hf, Hc. }
  split; [done|]. rewrite E.
  pose proof (reject_with_core x.1 x.2 req' RDuplicate DuplicateShare env') as Hr.
  destruct (reject_with _ _ _ _ _ _) as [[??] ?]. apply Hr.
Qed.

Definition demo_submit (version_bits : option Z) : SubmitParams :=
  mkSubmit "bcrt1qdemo.rig" "b" [x05; x06; x07; x08] 1700000100 7 version_bits.
Definition demo_submit_entry : JobEntry :=
  default (mkJobEntry demo_job 0 false 0) (find_job (issued_jobs demo_ready) "b").
Definition demo_submit_result : ShareResult :=
  match @validate_share_no_dedup zero_sha256 hex_codec legacy_codec
          (share_params_of demo_ready (demo_submit None)) (job demo_submit_entry) demo_submit_entry
          (extranonce1 demo_ready) 1000 (Some 1700000050) with
  | Ok r => r
  | Err _ => Valid 0 0 []
  end.
Definition demo_req : StratumRequest := mkRequest (VU64 9) "mining.submit" VNull.

Lemma resubmission_is_duplicate_witness :
  n_accepted (@handle_submit zero_sha256 hex_codec legacy_codec toy_libm
    (foldl (@submit_one zero_sha256 hex_codec legacy_codec toy_libm) (demo_ready, demo_stats)
       [(demo_req, demo_submit None, demo_env "c")]).1
    (foldl (@submit_one zero_sha256 hex_codec legacy_codec toy_libm) (demo_ready, demo_stats)
       [(demo_req, demo_submit None, demo_env "c")]).2
    demo_req (demo_submit None) (demo_env "d")).1.2 = 1.
Proof.
  edestruct (@resubmission_is_duplicate zero_sha256 hex_codec legacy_codec
    toy_libm demo_ready demo_stats demo_req demo_req (demo_submit None) (demo_env "c")
    (demo_env "d") demo_submit_entry demo_submit_result []) as [_ Hn].
  - apply demo_ready_shares.
  - do 5 (split; [vm_compute; reflexivity|]). vm_compute. reflexivity.
  - apply Nat.ltb_lt. vm_compute. reflexivity.
  - refine (eq_trans Hn _). vm_compute. reflexivity.
Defined.

(** The duplicate key is finer than the work it stands for, so one
    solution can be counted again: when two submissions differ only in version
    bits the session ignores because rolling is off, or only in extranonce2
    values that do not have the job's width, both are accepted whenever the
    first is, the session's count rises by two, and both were judged on the
    same block hash. *)
Lemma same_work_counted_twice `{Sha256} `{HexCodec} `{TxCodec} `{Libm}
    (s : Session) (st st' : PoolStats) (req req' : StratumRequest) (p p' : SubmitParams)
    (env env' : Env) (entry : JobEntry) (r : ShareResult) :
  share_set_wf (share_set s) -> accepted_by s p env entry r -> same_work s p p' (job entry) ->
  share_key_of p' <> share_key_of p -> contains (share_set s) (share_key_of p') = false ->
  unix_clock env' = unix_clock env -> validation_joins env' = true ->
  let s1 := (handle_submit s st req p env).1.2 in
  let x2 := handle_submit s1 st' req' p' env' in
  x2.1.1 = Messages [resp_ok (req_id req') (VBool true)]
  /\ n_accepted x2.1.2 = n_accepted s + 2
  /\ exists r', accepted_by s1 p' env' entry r' /\ result_hash r' = result_hash r.
Proof.
  intros W Hacc Hsame Hk Hc Henv Hjoin. cbv zeta.
  pose proof (accepted_submit s st req p env entry r Hacc) as Ha.
  destruct (handle_submit s st req p env) as [[res s1] st1]. cbn [fst snd].
  destruct Ha as (_ & Hcore & Hset & Hn & Hcfg).
  destruct (same_work_accepted s s1 p p' env env' entry r W Hacc Hsame Hk Hc Henv Hjoin Hcore Hset Hcfg)
    as (r' & Hacc' & Hh).
  pose proof (accepted_submit s1 st' req' p' env' entry r' Hacc') as Hb.
  destruct (handle_submit s1 st' req' p' env') as [[res' s2] st2]. cbn [fst snd].
  destruct Hb as (-> & _ & _ & Hn' & _). split; [done|]. split; [lia|]. by exists r'.
Qed.

Lemma same_work_counted_twice_witness :
  n_accepted (@handle_submit zero_sha256 hex_codec legacy_codec toy_libm
    (@handle_submit zero_sha256 hex_codec legacy_codec toy_libm demo_ready demo_stats demo_req
       (demo_submit None) (demo_env "c")).1.2
    demo_stats demo_req (demo_submit (Some 1)) (demo_env "d")).1.2 = 2.
Proof.
  edestruct (@same_work_counted_twice zero_sha256 hex_codec legacy_codec
    toy_libm demo_ready demo_stats demo_stats demo_req demo_req (demo_submit None)
    (demo_submit (Some 1)) (demo_env "c") (demo_env "d") demo_submit_entry demo_submit_result)
    as (_ & Hn & _).
  - apply demo_ready_shares.
  - do 5 (split; [vm_compute; reflexivity|]). vm_compute. reflexivity.
  - do 4 (split; [vm_compute; reflexivity|]). left. split; vm_compute; reflexivity.
  - vm_compute. discriminate.
  - vm_compute. reflexivity.
  - reflexivity.
  - reflexivity.
  - refine (eq_trans Hn _). vm_compute. reflexivity.
Defined.

(** The line reader does not depend on how the bytes arrive, as long as
    they fit: whatever non-empty chunks carry a line, its newline and the bytes
    after it, a line of at most [max] bytes is returned without its carriage
    return and exactly the bytes after the newline stay unread, and a line that
    is still longer than [max] without its carriage return is refused; and no
    line longer than [max] is ever returned. *)
Lemma read_line_chunking (max : nat) (chunks : list bytes) (line rest : bytes) :
  Forall (fun c => c <> []) chunks -> LF ∉ line -> concat chunks = line ++ LF :: rest ->
  ((length line <= max)%nat ->
     exists left, read_line_bounded max chunks = Ok (Some (strip_cr line), left)
       /\ concat left = rest)
  /\ ((max < length (strip_cr line))%nat -> read_line_bounded max chunks = Err tt)
  /\ (forall l left, read_line_bounded max chunks = Ok (Some l, left) -> (length l <= max)%nat).
Proof.
  intros HF Hl E. unfold read_line_bounded.
  destruct (read_loop_line max [] chunks line rest) as [H1 H2]; [set_solver | done | done | done |].
  split; [done|]. split; [done|]. intros l left. apply read_loop_bounded. cbn. lia.
Qed.

Lemma read_line_chunking_witness :
  exists left, read_line_bounded 3 [[x41; x42]; [CR; LF; x43]; [x44]] = Ok (Some [x41; x42], left)
    /\ concat left = [x43; x44].
Proof.
  apply (read_line_chunking 3 [[x41; x42]; [CR; LF; x43]; [x44]] [x41; x42; CR] [x43; x44]).
  - repeat constructor; discriminate.
  - apply (bool_decide_unpack _). vm_compute. exact I.
  - reflexivity.
  - cbn. lia.
Defined.

End Session.
