(* ===== verification/Device.v ===== *)
(** * Device: the Stratum V1 miner at the other end ([network/session.rs],
    [protocol/sv1.rs])

    What a device reads from the messages of a session, by the Stratum V1
    protocol, and the block header it hashes.  The theorem is that this header
    is the one the validator rebuilds from the session's state. *)
From S2P Require Import Prelude Text F64 Json Errors Interfaces Target Rpc Hashrate Credit.
From S2P Require Import Vardiff Stats Store Security Accounting Identity Template Jobs.
From S2P Require Import Validator Engine Sv1 Session.
Import Target Rpc Credit Vardiff Stats Security Accounting Identity Template Jobs Validator Sv1 Session.

Module Device.

(** ** Fixed-width hexadecimal *)
Lemma radix16_loop_app max s1 s2 : forall acc,
  radix16_loop max acc (s1 +:+ s2) = radix16_loop max acc s1 ≫= fun a => radix16_loop max a s2.
Proof.
  induction s1 as [|c s1 IH]; intros acc; [done|]. cbn [String.app radix16_loop]. simpl.
  destruct (hex_digit_val c) as [d|]; simpl; [|reflexivity].
  destruct (acc * 16 + d <=? max); [apply IH | reflexivity].
Qed.

Lemma hex_digit_val_digit z : 0 <= z < 16 -> hex_digit_val (hex_digit z) = Some z /\ ascii_val (hex_digit z) <> 43.
Proof.
  intros Hz. assert (z ∈ seqZ 0 16) as Hin by (apply elem_of_seqZ; lia). revert z Hin Hz.
  apply (Forall_forall (fun z => 0 <= z < 16 -> _)). repeat constructor; done.
Qed.

Lemma radix16_hex_fixed max n : forall z acc,
  0 <= z < 16 ^ Z.of_nat n -> 0 <= acc -> acc * 16 ^ Z.of_nat n + z <= max ->
  radix16_loop max acc (hex_fixed n z) = Some (acc * 16 ^ Z.of_nat n + z).
Proof.
  induction n as [|n IH]; intros z acc Hz Hacc Hmax; [cbn in *; f_equal; lia|].
  rewrite Nat2Z.inj_succ, Z.pow_succ_r in * by lia. cbn [hex_fixed].
  pose proof (Z.mod_pos_bound z 16 ltac:(lia)) as Hm. pose proof (Z.div_mod z 16 ltac:(lia)) as Hdm.
  set (p := 16 ^ Z.of_nat n) in *.
  assert (0 < p) by (apply Z.pow_pos_nonneg; lia).
  rewrite radix16_loop_app, IH; [|fold p|done|fold p]; [|split; [apply Z.div_pos; lia | apply Z.div_lt_upper_bound; lia]|nia].
  cbn. destruct (hex_digit_val_digit (z mod 16) Hm) as [-> _]. cbn. fold p.
  replace ((acc * p + z / 16) * 16 + z mod 16) with (acc * (16 * p) + z) by lia.
  by rewrite (proj2 (Z.leb_le _ _) Hmax).
Qed.

Lemma hex_fixed_head n z : exists c s, hex_fixed (S n) z = String c s /\ ascii_val c <> 43.
Proof.
  revert z. induction n as [|n IH]; intros z.
  - exists (hex_digit (z mod 16)), EmptyString. split; [done|]. apply hex_digit_val_digit, Z.mod_pos_bound. lia.
  - destruct (IH (z / 16)) as (c & s & E & Hc). exists c. cbn [hex_fixed] in *. rewrite E. eauto.
Qed.

Lemma u32_hex_roundtrip z : is_u32 z -> u32_from_hex (hex_fixed 8 z) = Some z.
Proof.
  intros Hz. unfold u32_from_hex, from_str_radix16.
  destruct (hex_fixed_head 7 z) as (c & s & E & Hc). rewrite E, (proj2 (Z.eqb_neq _ _) Hc), <- E.
  unfold is_u32, u32_max in *. rewrite radix16_hex_fixed; [f_equal; lia | change (16 ^ Z.of_nat 8) with (2 ^ 32); lia..].
Qed.

(** ** What the device reads *)
Record DeviceJob := mkDeviceJob {
  dj_id : string;
  dj_prev : bytes;
  dj_coinb1 : bytes;
  dj_coinb2 : bytes;
  dj_branch : list bytes;
  dj_version : Z;
  dj_bits : Z
}.

Section Device.
Context `{Sha256} `{HexCodec}.

Definition str_param (params : list Value) (k : nat) : option string := params !! k ≫= as_str.
Definition hex_param (params : list Value) (k : nat) : option bytes := str_param params k ≫= hex_decode.
Definition u32_param (params : list Value) (k : nat) : option Z := str_param params k ≫= u32_from_hex.

(** [mining.notify]: the previous hash comes in 4-byte words of reversed bytes. *)
Definition read_branch (v : Value) : option (list bytes) :=
  l ← as_array v; mapM (fun x => as_str x ≫= hex_decode) l.

Definition read_notify (v : Value) : option DeviceJob :=
  method ← value_get v "method"; name ← as_str method;
  if bool_decide (name = "mining.notify"%string) then
    params ← value_get v "params"; l ← as_array params;
    id ← str_param l 0;
    prev ← hex_param l 1;
    c1 ← hex_param l 2;
    c2 ← hex_param l 3;
    path ← l !! 4%nat; branch ← read_branch path;
    version ← u32_param l 5;
    bits ← u32_param l 6;
    Some (mkDeviceJob id (swap_each_word prev) c1 c2 branch version bits)
  else None.

(** The answer to [mining.subscribe]: the extranonce1 and the width of the
    extranonce2. *)
Definition read_subscribe (v : Value) : option (bytes * Z) :=
  r ← value_get v "result"; l ← as_array r;
  en1 ← hex_param l 1;
  size ← l !! 2%nat; n2 ← as_u64 size;
  Some (en1, n2).

(** The answer to [mining.configure] is the only one with an object for its
    result: the mask the device may roll, if any. *)
Definition read_configure (v : Value) : option (option Z) :=
  r ← value_get v "result"; m ← as_object r;
  Some (mask ← map_get "version-rolling.mask" m; hex ← as_str mask; u32_from_hex hex).

Definition device_mask (log : list Value) : option Z :=
  default None (last (omap read_configure log)).

(** The header for a submission: the version bits the device chose replace those
    of the mask. *)
Definition device_header (dj : DeviceJob) (mask : option Z) (en1 : bytes) (p : SubmitParams) : bytes :=
  header_layout
    (match mask, sub_version_bits p with
     | Some k, Some bits => Z.lor (Z.land (dj_version dj) (not32 k)) (Z.land bits k)
     | _, _ => dj_version dj
     end)
    (dj_prev dj)
    (merkle_root (dj_branch dj) (dj_coinb1 dj ++ en1 ++ sub_extranonce2 p ++ dj_coinb2 dj))
    (sub_ntime p) (dj_bits dj) (sub_nonce p).
End Device.

(** ** What the session has sent *)
Section Log.
Context `{Sha256} `{HexCodec} `{TxCodec} `{AddressCodec} `{Libm}.
Variable parse_request : string -> option StratumRequest.

(** Templates come from the builder. *)
Definition genuine (t : JobTemplate) : Prop := is_u32 (t_version t) /\ exists gbt, build_job_template gbt = Ok t.
Definition genuine_opt (t : option JobTemplate) : Prop := match t with Some t => genuine t | None => True end.
Definition genuine_event (e : Session.Event) : Prop :=
  match e with NewJob b => genuine (Engine.b_template b) | _ => True end.

(** The sessions a connection can be in, with the messages sent so far. *)
Inductive told (s0 : Session) : list Value -> Session -> Prop :=
| told_start t : genuine_opt t -> told s0 [] (session_start s0 t)
| told_step log s st e env env' sent s' st' :
    told s0 log s -> genuine_event e -> genuine_opt (engine_template env) ->
    run_step parse_request s st e env env' = Running sent s' st' -> told s0 (log ++ sent) s'.

(** ** The invariant *)

(** What a device needs of a job: every field can be read back. *)
Record readable (j : StratumJob) : Prop := {
  rd_version : is_u32 (j_version j);
  rd_prev : exists prev, hex_decode_to_slice 32 (j_prev_hash j) = Some prev;
  rd_bits : is_Some (u32_from_hex (j_bits j));
  rd_branch : merkle_branch j = hex_encode <$> merkle_branch_raw j
}.

Definition notified (log : list Value) (e : JobEntry) : Prop :=
  readable (job e) /\ exists clean, build_notify (job e) clean ∈ log.

Record told_inv (log : list Value) (s : Session) : Prop := {
  ti_jobs : Forall (notified log) (issued_jobs s);
  ti_template : genuine_opt (current_template s);
  ti_subscribed : subscribed (proto s) = true ->
    exists v, v ∈ log /\ read_subscribe v = Some (extranonce1 s, Z.of_nat (extranonce2_size s));
  ti_mask : device_mask log = if version_rolling_enabled (proto s)
                              then Some (version_rolling_mask (proto s)) else None
}.

Lemma genuine_readable id t payout tag n1 n2 j :
  genuine t -> build_job_for_payout id t payout tag n1 n2 = Ok j -> readable j.
Proof.
  intros (Hv & gbt & Ht) Hj.
  destruct (build_job_for_payout_fields _ _ _ _ _ _ _ Hj) as (Ep & Eb & Ebits & _ & _ & _ & Ever).
  destruct (build_job_template_fields _ _ Ht) as (txids & bits & _ & _ & Hp & Hb & Hbits & _).
  split.
  - by rewrite Ever.
  - rewrite Ep. unfold stratum_prev_hash in Hp. destruct (hex_decode (Rpc.prev_hash gbt)) as [b|]; [|done].
    simpl in Hp. case_bool_decide as Hl; [|done]. injection Hp as <-. eexists.
    apply hex_slice_encode. by rewrite length_swap_each_word, length_reverse.
  - rewrite Ebits, Hb, Hbits. eauto.
  - rewrite Eb. unfold build_job_for_payout in Hj. bind_inv Hj. destruct x. injection Hj as <-. cbn.
    unfold build_job_template in Ht. do 2 bind_inv Ht. destruct (_ && _); [done|]. do 3 bind_inv Ht.
    by injection Ht as <-.
Qed.

Lemma notified_mono log more e : notified log e -> notified (log ++ more) e.
Proof. intros (Hr & c & Hin). split; [done|]. exists c. set_solver. Qed.

(** Messages that are no answer to [mining.configure]. *)
Definition plain (msgs : list Value) : Prop := Forall (fun v => read_configure v = None) msgs.

Lemma device_mask_plain log msgs : plain msgs -> device_mask (log ++ msgs) = device_mask log.
Proof.
  intros Hp. unfold device_mask. rewrite omap_app.
  assert (omap read_configure msgs = []) as ->; [|by rewrite app_nil_r].
  induction Hp as [|v msgs Hv _ IH]; [done|]. simpl. by rewrite Hv.
Qed.

(** A step that sends plain messages and keeps what the invariant reads. *)
Lemma told_inv_step log s msgs s' :
  told_inv log s -> plain msgs ->
  proto s' = proto s -> extranonce1 s' = extranonce1 s -> extranonce2_size s' = extranonce2_size s ->
  genuine_opt (current_template s') -> Forall (notified (log ++ msgs)) (issued_jobs s') ->
  told_inv (log ++ msgs) s'.
Proof.
  intros [Hj Ht Hs Hm] Hp Ep E1 E2 Ht' Hj'. split; [done | done | |].
  - rewrite Ep, E1, E2. intros Hsub. destruct (Hs Hsub) as (v & Hv & Hr). exists v. split; [set_solver | done].
  - by rewrite device_mask_plain, Ep.
Qed.

Lemma told_inv_keep log s msgs s' :
  told_inv log s -> plain msgs -> same_core s s' -> current_template s' = current_template s ->
  told_inv (log ++ msgs) s'.
Proof.
  intros I Hp (_ & Ep & E1 & E2 & Ej & _) Et. apply (told_inv_step log s); try done.
  - rewrite Et. apply I.
  - rewrite Ej. eapply Forall_impl; [apply I|]. intros e. apply notified_mono.
Qed.

(** What a handler's answer keeps. *)
Definition tells_device (s : Session) (x : Session.Step) : Prop :=
  match x.1.1 with
  | Messages msgs => forall log, told_inv log s -> told_inv (log ++ msgs) x.1.2
  | _ => True
  end.

Lemma plain_one v : read_configure v = None -> plain [v].
Proof. intros. by apply Forall_singleton. Qed.

Lemma plain_nil : plain [].
Proof. constructor. Qed.
#[local] Hint Resolve plain_nil plain_one : core.

(** A silent change of what the invariant does not read. *)
Lemma told_inv_silent log s s' :
  told_inv log s -> same_core s s' -> current_template s' = current_template s -> told_inv log s'.
Proof. intros. rewrite <- (app_nil_r log). by apply (told_inv_keep log s). Qed.

Lemma tells_same s st msgs : plain msgs -> tells_device s (Messages msgs, s, st).
Proof. intros Hp log I. by apply (told_inv_keep log s). Qed.

(** The answers to a submission are plain and keep the template. *)
Definition plain_answer (s : Session) (x : Session.Step) : Prop :=
  match x.1.1 with Messages msgs => plain msgs | _ => True end
  /\ current_template x.1.2 = current_template s.

Lemma reject_share_template s st r env : current_template (reject_share s st r env).1.2 = current_template s.
Proof. unfold reject_share. by destruct (record_rejected _ _ _ _ _) as [[??] ?]. Qed.

Lemma reject_with_plain s st req r e env : plain_answer s (reject_with s st req r e env).
Proof.
  unfold reject_with. pose proof (reject_share_template s st r env) as E.
  destruct (reject_share s st r env) as [[[] s'] st']; cbn in E; (split; [|done]); [done | by apply plain_one].
Qed.

Lemma submit_plain s st req p env : plain_answer s (handle_submit s st req p env).
Proof.
  unfold handle_submit. destruct (negb _ || _).
  { pose proof (reject_share_template s st Unauthorized env) as E.
    destruct (reject_share _ _ _ _) as [[??] ?]. split; [by apply plain_one | done]. }
  destruct (find_job _ _) as [entry|]; [|apply reject_with_plain].
  destruct (contains _ _); [apply reject_with_plain|]. destruct (negb (validation_joins env)); [done|].
  destruct (validate_share_no_dedup _ _ _ _ _ _) as [[? hd ?|hd ? ?]|e]; cbn [is_ok]; [| |apply reject_with_plain].
  all: unfold accept_share; destruct (Credit.credit _ _ _ _ _); (split; [by apply plain_one | done]).
Qed.

Lemma submit_tells s st req p env : tells_device s (handle_submit s st req p env).
Proof.
  pose proof (handle_submit_core s st req p env) as Hc. pose proof (submit_plain s st req p env) as [Hp Ht].
  destruct (handle_submit s st req p env) as [[r s'] st']. destruct Hc as [Hc _]. cbn in Hp, Ht.
  unfold tells_device. cbn. destruct r; [|done..]. intros log I. by apply (told_inv_keep log s).
Qed.

Lemma subscribe_tells s st req p : tells_device s (handle_subscribe s st req p).
Proof.
  intros log [Hj Ht Hs Hm]. cbn [fst snd handle_subscribe]. split.
  - eapply Forall_impl; [exact Hj|]. intros e. apply notified_mono.
  - done.
  - intros _. exists (resp_subscribe (req_id req) (session_id (ident s)) (hex_encode (extranonce1 s))
                       (Z.of_nat (extranonce2_size s))). split; [set_solver|].
    unfold read_subscribe. simpl. unfold hex_param, str_param. simpl. by rewrite hex_decode_encode.
  - cbn. by rewrite device_mask_plain by (by apply plain_one).
Qed.

Lemma device_mask_snoc log v m : read_configure v = Some m -> device_mask (log ++ [v]) = m.
Proof. intros E. unfold device_mask. rewrite omap_app. simpl. by rewrite E, last_snoc. Qed.

Lemma read_configure_answer id rolling mask d en :
  is_u32 mask -> read_configure (resp_configure id rolling mask d en) = Some (if rolling then Some mask else None).
Proof.
  intros Hm. pose proof (u32_hex_roundtrip mask Hm) as Hr. unfold read_configure, resp_configure, resp_ok.
  generalize dependent (hex_fixed 8 mask). intros h Hr. simpl. destruct rolling; simpl.
  - by rewrite Hr.
  - destruct d, en; reflexivity.
Qed.

Lemma configure_tells s st req p : session_inv any_offer s -> tells_device s (handle_configure s st req p).
Proof.
  intros I log [Hj Ht Hs Hm]. pose proof (handle_configure_inv any_offer s st req p I) as I'.
  unfold handle_configure in I' |- *. cbn [fst snd] in *.
  set (s1 := if version_rolling p then _ else s) in *.
  assert (issued_jobs s1 = issued_jobs s /\ current_template s1 = current_template s
    /\ subscribed (proto s1) = subscribed (proto s) /\ extranonce1 s1 = extranonce1 s
    /\ extranonce2_size s1 = extranonce2_size s) as (Ej & Et & Es & E1 & E2)
    by (unfold s1; by destruct (version_rolling p)).
  split.
  - rewrite Ej. eapply Forall_impl; [exact Hj|]. intros e. apply notified_mono.
  - by rewrite Et.
  - rewrite Es, E1, E2. intros Hsub. destruct (Hs Hsub) as (v & Hv & Hr). exists v. split; [set_solver | done].
  - apply device_mask_snoc, read_configure_answer.
    pose proof (inv_mask _ _ I') as Hmask. rewrite <- Hmask, Z.land_comm. apply land_u32. done.
Qed.

Lemma suggest_tells s st req d env : tells_device s (handle_suggest_difficulty s st req d env).
Proof.
  unfold handle_suggest_difficulty. destruct (suggest _ _ _) as [[applied v]|]; [|done].
  intros log I. apply (told_inv_keep log s); [done | | by repeat split | done].
  constructor; [done|]. destruct (subscribed _); [by apply plain_one | done].
Qed.

(** Announcing a new job. *)
Lemma notified_job log e e' : job e = job e' -> notified log e -> notified log e'.
Proof. unfold notified. by intros ->. Qed.

Lemma materialize_readable s id t j : genuine t -> materialize_job s id t = Ok j -> readable j.
Proof.
  intros Ht Hj. unfold materialize_job in Hj. bind_inv Hj. by eapply genuine_readable.
Qed.

Lemma announce_tells log s id t j clean clean' tm msgs :
  told_inv log s -> genuine t -> materialize_job s id t = Ok j -> plain msgs ->
  told_inv (log ++ msgs ++ [build_notify j clean])
    (set_work s (Some t) (issue (issued_jobs s) j clean' (difficulty s) tm)).
Proof.
  intros I Ht Hj Hp. apply (told_inv_step log s); try done.
  - apply Forall_app. split; [done | by apply plain_one].
  - cbn. apply issue_jobs_Forall.
    + intros e e'. apply notified_job.
    + eapply Forall_impl; [apply I|]. intros e. apply notified_mono.
    + split; [by eapply materialize_readable|]. exists clean. cbn. set_solver.
Qed.

Lemma broadcast_tells s st b env : genuine (Engine.b_template b) -> tells_device s (on_broadcast s st b env).
Proof.
  intros Hg. unfold on_broadcast.
  set (s1 := if Engine.b_clean b then _ else s).
  assert (same_core s s1 /\ current_template s1 = current_template s) as [Hc Et]
    by (unfold s1; by destruct (Engine.b_clean b)).
  assert (forall log, told_inv log s -> told_inv log s1) as Hkeep
    by (intros log I; by apply (told_inv_silent log s)).
  destruct (subscribed (proto s1) && authorized (proto s1)).
  - destruct (materialize_job s1 _ _) as [j|] eqn:Ej; [|done]. intros log I.
    apply (announce_tells log s1 _ _ _ _ _ _ [_] (Hkeep log I) Hg Ej). by apply plain_one.
  - intros log I. apply (told_inv_step log s1); try done; [by apply Hkeep|].
    rewrite app_nil_r. apply (Hkeep log I).
Qed.

Lemma authorize_as_told log s raw i : told_inv log s -> told_inv log (authorize_as s raw i).
Proof. intros []. by split. Qed.

Lemma switch_told log s st i env s' st' g :
  told_inv log s -> switch_identity s st i env = (Some (s', st'), g) -> told_inv log s'.
Proof.
  intros [] E. unfold switch_identity in E.
  destruct (record_new_authorization _) as [[|] ?]; [|done]. injection E as <- <- <-. by split.
Qed.

Lemma authorize_tells s st req p env :
  genuine_opt (engine_template env) -> tells_device s (handle_authorize s st req p env).
Proof.
  intros Hg. unfold handle_authorize. destruct (subscribed (proto s)); [|by apply tells_same, plain_one].
  cbn [negb]. destruct (check_worker_name _ _); [|by apply tells_same, plain_one].
  destruct (parse _ _ _) as [i|]; [|by apply tells_same, plain_one].
  set (sw := if bool_decide _ then _ else _).
  assert (forall s1 st1 g log, sw = (Some (s1, st1), g) -> told_inv log s ->
            told_inv log (authorize_as s1 (auth_worker p) i)) as Hsw.
  { intros s1 st1 g log E I. apply authorize_as_told. revert E. unfold sw. case_bool_decide.
    - by intros [= <- <- <-].
    - by apply switch_told. }
  destruct sw as [[[s1 st1]|] g]; [|done].
  specialize (fun log => Hsw s1 st1 g log eq_refl). unfold authorize_as in Hsw. cbv zeta.
  set (s2 := set_ident _ _) in *.
  set (tpl := match current_template s2 with Some _ => _ | None => _ end).
  assert (forall log, told_inv log s2 -> genuine_opt tpl) as Htpl.
  { intros log [_ Ht _ _]. unfold tpl. by destruct (current_template s2). }
  assert (plain [resp_ok (req_id req) (VBool true); msg_set_difficulty (difficulty s2)]) as Hp
    by (repeat constructor).
  destruct tpl as [t|].
  - destruct (materialize_job s2 _ t) as [j|] eqn:Ej; [|done]. intros log I.
    apply Hsw in I. pose proof (Htpl log I). by apply (announce_tells log s2 _ t j true true _ _ I ltac:(done) Ej Hp).
  - intros log I. apply Hsw in I. by apply (told_inv_keep log s2).
Qed.

Lemma dispatch_tells s st req env :
  session_inv any_offer s -> genuine_opt (engine_template env) -> tells_device s (dispatch s st req env).
Proof.
  intros I Hg. unfold dispatch. destruct (from_request req) as [[]|]; try (by apply tells_same, plain_one).
  - apply subscribe_tells.
  - by apply authorize_tells.
  - apply submit_tells.
  - by apply configure_tells.
  - apply suggest_tells.
Qed.

Lemma after_handler_tells log r s0 s st ban env sent s' st' :
  tells_device s0 (r, s, st) -> told_inv log s0 ->
  after_handler (r, s, st) ban env = Running sent s' st' -> told_inv (log ++ sent) s'.
Proof.
  unfold after_handler. destruct r; try done. intros Hr I.
  unfold apply_retarget. destruct (check_retarget _ _ _) as [[[d|] v]|]; [| |done]; intros [= <- <- <-];
    rewrite app_assoc; (apply (told_inv_keep _ s); [by apply Hr | | by repeat split | done]).
  - by apply plain_one.
  - done.
Qed.

Lemma run_step_tells log s st e env env' sent s' st' :
  session_inv any_offer s -> told_inv log s -> genuine_event e -> genuine_opt (engine_template env) ->
  run_step parse_request s st e env env' = Running sent s' st' -> told_inv (log ++ sent) s'.
Proof.
  intros I T Hev Hen. destruct e; try done; cbn [run_step].
  - assert (tells_device s (handle_line parse_request s st line env).1) as Hl.
    { unfold handle_line. destruct (try_consume _ _ _) as [ok r]. set (s1 := set_guard s _ _ _).
      assert (session_inv any_offer s1) as I1 by (eapply session_inv_core; [done | by repeat split | apply I]).
      assert (forall log, told_inv log s -> told_inv log s1) as Hkeep
        by (intros l IL; by apply (told_inv_silent l s)).
      destruct ok; [|done]. cbn [negb]. destruct (is_blank line).
      { intros l IL. cbn. rewrite app_nil_r. by apply Hkeep. }
      destruct (parse_request line) as [req|]; [|done]. cbn [fst].
      pose proof (dispatch_tells s1 st req env I1 Hen) as Hd. unfold tells_device in *.
      destruct (dispatch s1 st req env) as [[[] ?] ?]; [|done..]. intros l IL. by apply Hd, Hkeep. }
    destruct (handle_line _ _ _ _ _) as [[[r s1] st1] ban]. by apply (after_handler_tells log r s).
  - pose proof (broadcast_tells s st b env Hev) as Hb.
    destruct (on_broadcast _ _ _ _) as [[r s1] st1]. by apply (after_handler_tells log r s).
  - apply (after_handler_tells log _ s); [|done]. by apply tells_same.
Qed.

Lemma told_reachable s0 log s : told s0 log s -> reachable parse_request s0 s.
Proof. induction 1; [apply reach_start | by eapply reach_step]. Qed.

Lemma session_new_told tag d en1 n2 net vcfg sec sid t tpl :
  genuine_opt tpl -> told_inv [] (session_start (session_new tag d en1 n2 net vcfg sec sid t) tpl).
Proof. intros Hg. by destruct tpl; split. Qed.

Lemma told_told_inv tag d en1 n2 net vcfg sec sid t log s :
  told (session_new tag d en1 n2 net vcfg sec sid t) log s -> told_inv log s.
Proof.
  intros HT. induction HT as [tpl|log s st e env env' sent s' st' HT IH]; [by apply session_new_told|].
  eapply (run_step_tells log s st e env env'); try done.
  apply (reachable_inv parse_request (session_new tag d en1 n2 net vcfg sec sid t)); [apply session_new_inv|].
  by eapply told_reachable.
Qed.

(** *** Reading a job back *)
Lemma read_branch_encoded l : read_branch (VArray (VString <$> (hex_encode <$> l))) = Some l.
Proof.
  unfold read_branch. cbn [as_array]. apply mapM_Some_2, Forall2_fmap_l, Forall2_fmap_l, Forall_Forall2_diag.
  apply Forall_true. intros b. cbn. apply hex_decode_encode.
Qed.

Definition job_fields (j : StratumJob) (prev : bytes) (bits : Z) : DeviceJob :=
  mkDeviceJob (job_id j) (swap_each_word prev) (coinbase1 j) (coinbase2 j) (merkle_branch_raw j)
    (j_version j) bits.

Lemma read_build_notify j clean :
  readable j ->
  exists prev bits, hex_decode_to_slice 32 (j_prev_hash j) = Some prev /\ u32_from_hex (j_bits j) = Some bits
    /\ read_notify (build_notify j clean) = Some (job_fields j prev bits).
Proof.
  intros [Hv [prev Hp] [bits Hb] Hbr]. exists prev, bits. split; [done|]. split; [done|].
  apply hex_slice_Some in Hp as [Hp _]. pose proof (u32_hex_roundtrip _ Hv) as Hr.
  pose proof (read_branch_encoded (merkle_branch_raw j)) as Hm.
  unfold read_notify, build_notify, msg_notify, notification. rewrite Hbr.
  generalize dependent (hex_fixed 8 (j_version j)). generalize (hex_fixed 8 (j_cur_time j)). intros ht hv Hr.
  generalize dependent (VArray (VString <$> (hex_encode <$> merkle_branch_raw j))). intros br Hm.
  simpl. unfold hex_param, u32_param, str_param. simpl.
  rewrite Hp. simpl. rewrite !hex_decode_encode. simpl. rewrite Hm. simpl. rewrite Hr. simpl. by rewrite Hb.
Qed.

Lemma read_notify_header s i e p mask prev bits :
  pays any_offer s i e -> length (sub_extranonce2 p) = extranonce2_size s ->
  mask = (if version_rolling_enabled (proto s) then Some (version_rolling_mask (proto s)) else None) ->
  (forall k b, mask = Some k -> sub_version_bits p = Some b -> Z.land b (not32 k) = 0) ->
  hex_decode_to_slice 32 (j_prev_hash (job e)) = Some prev -> u32_from_hex (j_bits (job e)) = Some bits ->
  share_header (share_params_of s p) (job e) (extranonce1 s)
  = Ok (device_header (job_fields (job e) prev bits) mask (extranonce1 s) p).
Proof.
  intros (id & t & _ & Hj) Hl -> Hk Hp Hb. unfold share_header. cbn [share_params_of p_extranonce2 p_version_bits
    p_version_rolling_mask p_ntime p_nonce].
  rewrite (assemble_exact _ _ _ _ _ _ _ _ _ Hj) by (by rewrite Hl).
  unfold device_header. cbn [job_fields dj_version dj_prev dj_branch dj_coinb1 dj_coinb2 dj_bits].
  unfold resolve_version, build_header. rewrite Hp, Hb.
  destruct (version_rolling_enabled (proto s)); [|done].
  destruct (sub_version_bits p) as [b|]; [|done].
  cbn [from_option]. unfold Datatypes.id. by rewrite (Hk _ _ eq_refl eq_refl).
Qed.
End Log.

(** ** Property *)

(** C4. The pool checks the very header the device hashed.  Take any state a
    V1 connection can be in, with the messages sent on it, and a submission on a
    job of the session's history with an extranonce2 of the announced width and
    version bits inside the announced mask.  Then the connection was sent a
    [mining.notify] under that job id and an answer to [mining.subscribe] from
    which a device, by the protocol's own rules, computes a header; the header the
    validator rebuilds from the session's state is that one, byte for byte; and
    the share is valid exactly when the job is live, the time is in range and the
    device's own hash meets the target. *)
Theorem v1_device_hashes_the_validated_header `{Sha256} `{HexCodec} `{TxCodec} `{AddressCodec} `{Libm}
    (parse_request : string -> option StratumRequest) (tag : string) (d : Z) (en1 : bytes)
    (n2 : nat) (net : Network) (vcfg : VardiffConfig) (sec : SecurityConfig) (sid : string)
    (t0 : Instant) (log : list Value) (s : Session) (p : SubmitParams) (e : JobEntry)
    (target : Z) (clock : option Z) :
  told parse_request (session_new tag d en1 n2 net vcfg sec sid t0) log s ->
  authorized (proto s) = true ->
  find_job (issued_jobs s) (sub_job_id p) = Some e ->
  length (sub_extranonce2 p) = extranonce2_size s ->
  (forall k bits, device_mask log = Some k -> sub_version_bits p = Some bits -> Z.land bits (not32 k) = 0) ->
  exists notify answer dj en1',
    notify ∈ log /\ read_notify notify = Some dj /\ dj_id dj = sub_job_id p
    /\ answer ∈ log /\ read_subscribe answer = Some (en1', Z.of_nat (length (sub_extranonce2 p)))
    /\ share_header (share_params_of s p) (job e) (extranonce1 s)
       = Ok (device_header dj (device_mask log) en1' p)
    /\ (is_ok (validate_share_no_dedup (share_params_of s p) (job e) e (extranonce1 s) target clock) = true
        <-> superseded_by_clean e = false /\ ntime_ok (share_params_of s p) (job e) clock
            /\ meets_target (double_sha256 (device_header dj (device_mask log) en1' p))
                 (difficulty_to_target target) = true).
Proof.
  intros HT Ha Hf Hl Hk. pose proof (told_told_inv _ _ _ _ _ _ _ _ _ _ _ _ HT) as [Hj _ Hs Hm].
  pose proof (reachable_inv _ _ _ (session_new_inv any_offer tag d en1 n2 net vcfg sec sid t0) (told_reachable _ _ _ _ HT)) as I.
  destruct (inv_authorized _ _ I Ha) as (Hsub & _ & _). destruct (Hs Hsub) as (answer & Hans & Hread).
  apply find_job_Some in Hf as [He Hid]. rewrite Forall_forall in Hj.
  destruct (Hj e He) as (Hr & clean & Hn).
  destruct (inv_jobs _ _ I) as [Hnil|(i & _ & Hpay)]; [rewrite Hnil in He; set_solver|].
  rewrite Forall_forall in Hpay. destruct (read_build_notify (job e) clean Hr) as (prev & bits & Hp & Hb & Hd).
  pose proof (read_notify_header s i e p (device_mask log) prev bits (Hpay e He) Hl Hm Hk Hp Hb) as Hh.
  exists (build_notify (job e) clean), answer, (job_fields (job e) prev bits), (extranonce1 s).
  rewrite Hl. do 6 (split; [done|]). split.
  - destruct (validate_share_no_dedup _ _ _ _ _ _) as [r|] eqn:Ev; [|done]. intros _.
    apply validate_Ok in Ev as (? & ? & h & Eh & Hmt & _). rewrite Hh in Eh. injection Eh as <-. done.
  - intros (Hsup & Hnt & Hmt). erewrite (proj2 (validate_Ok _ _ _ _ _ _ _)); [done|]. eauto 10.
Qed.

(** A device that negotiates version rolling, subscribes, authorises and is sent
    a job. *)
Definition dev_o1 : Outcome := demo_step demo_session demo_stats (Inbound "configure") (demo_env "a") (demo_env "a").
Definition dev_o2 : Outcome :=
  demo_step (outcome_session dev_o1) (outcome_stats dev_o1) (Inbound "subscribe") (demo_env "b") (demo_env "b").
Definition dev_o3 : Outcome :=
  demo_step (outcome_session dev_o2) (outcome_stats dev_o2) (Inbound "authorize") (demo_env "c") (demo_env "c").
Definition dev_log : list Value := outcome_sent dev_o1 ++ outcome_sent dev_o2 ++ outcome_sent dev_o3.
Definition dev_session : Session := outcome_session dev_o3.
Definition dev_submit : SubmitParams :=
  mkSubmit "bcrt1qdemo.rig" "c" [x05; x06; x07; x08] 1700000000 7 (Some 0x2000).
Definition dev_entry : JobEntry :=
  match issued_jobs dev_session with e :: _ => e | [] => mkJobEntry demo_job 0 false 0 end.

Lemma demo_template_genuine : @genuine zero_sha256 hex_codec demo_built_template.
Proof. split; [vm_compute; split; discriminate|]. exists demo_gbt. vm_compute. reflexivity. Qed.

Lemma dev_told :
  @told zero_sha256 hex_codec legacy_codec demo_codec toy_libm demo_parse demo_session dev_log dev_session.
Proof.
  assert (forall id, @genuine_opt zero_sha256 hex_codec (engine_template (demo_env id))) as Hg
    by (intros; apply demo_template_genuine).
  unfold dev_log. rewrite app_assoc, <- (app_nil_l (outcome_sent dev_o1)).
  apply (told_step _ _ _ (outcome_session dev_o2) (outcome_stats dev_o2) (Inbound "authorize") (demo_env "c")
    (demo_env "c") _ _ (outcome_stats dev_o3)); [|exact I | apply Hg | vm_compute; reflexivity].
  apply (told_step _ _ _ (outcome_session dev_o1) (outcome_stats dev_o1) (Inbound "subscribe") (demo_env "b")
    (demo_env "b") _ _ (outcome_stats dev_o2)); [|exact I | apply Hg | vm_compute; reflexivity].
  apply (told_step _ _ _ demo_session demo_stats (Inbound "configure") (demo_env "a") (demo_env "a")
    _ _ (outcome_stats dev_o1)); [|exact I | apply Hg | vm_compute; reflexivity].
  exact (told_start _ _ None I).
Qed.

Lemma v1_device_hashes_the_validated_header_witness :
  device_mask dev_log = Some VERSION_ROLLING_MASK
  /\ exists notify dj en1', notify ∈ dev_log /\ @read_notify hex_codec notify = Some dj
    /\ @share_header zero_sha256 hex_codec (share_params_of dev_session dev_submit) (job dev_entry)
         (extranonce1 dev_session)
       = Ok (@device_header zero_sha256 dj (device_mask dev_log) en1' dev_submit).
Proof.
  assert (device_mask dev_log = Some VERSION_ROLLING_MASK) as Hm by (vm_compute; reflexivity).
  split; [exact Hm|].
  destruct (@v1_device_hashes_the_validated_header zero_sha256 hex_codec legacy_codec demo_codec toy_libm
    demo_parse _ _ _ _ _ _ _ _ _ dev_log dev_session dev_submit dev_entry 1000 (Some 1700000050) dev_told)
    as (notify & answer & dj & en1' & Hn & Hr & _ & _ & _ & Hh & _);
    [vm_compute; reflexivity | vm_compute; reflexivity | reflexivity
    | rewrite Hm; intros k bits [= <-] [= <-]; reflexivity |].
  exists notify, dj, en1'. auto.
Defined.

End Device.
