(* ===== verification/Sv2Codec.v ===== *)
(** * Sv2Codec: the binary data types of Stratum V2

    The codec is the third-party crate [binary_sv2]: the class [BinarySv2], on a
    message as the list of its fields, with an instance that writes and reads
    the format of the Stratum V2 specification. *)
From S2P Require Import Prelude.

Module Sv2Codec.

(** ** The codec *)

(** A field with its data type; [FF32] is the bit pattern of a float. *)
Inductive Field : Type :=
| FU8 (z : Z) | FU16 (z : Z) | FU32 (z : Z) | FU64 (z : Z) | FF32 (z : Z)
| FBool (b : bool)
| FU256 (b : bytes)
| FStr (b : bytes)
| FB032 (b : bytes)
| FB064K (b : bytes)
| FSeq0255 (l : list bytes)
| FOptU32 (o : option Z).

Inductive FieldTy : Type :=
| TU8 | TU16 | TU32 | TU64 | TF32 | TBool | TU256 | TStr | TB032 | TB064K | TSeq0255 | TOptU32.

Definition field_ty (f : Field) : FieldTy :=
  match f with
  | FU8 _ => TU8 | FU16 _ => TU16 | FU32 _ => TU32 | FU64 _ => TU64 | FF32 _ => TF32
  | FBool _ => TBool | FU256 _ => TU256 | FStr _ => TStr | FB032 _ => TB032
  | FB064K _ => TB064K | FSeq0255 _ => TSeq0255 | FOptU32 _ => TOptU32
  end.

Definition uint_ok (n : nat) (z : Z) : bool := (0 <=? z) && (z <? 256 ^ Z.of_nat n).

(** The documented bounds of the data types, which [try_from] checks where the
    Rust type does not. *)
Definition field_ok (f : Field) : bool :=
  match f with
  | FU8 z => uint_ok 1 z
  | FU16 z => uint_ok 2 z
  | FU32 z | FF32 z => uint_ok 4 z
  | FU64 z => uint_ok 8 z
  | FBool _ => true
  | FU256 b => Z.of_nat (length b) =? 32
  | FStr b => Z.of_nat (length b) <=? 255
  | FB032 b => Z.of_nat (length b) <=? 32
  | FB064K b => Z.of_nat (length b) <=? 65535
  | FSeq0255 l => (Z.of_nat (length l) <=? 255) && forallb (fun b => Z.of_nat (length b) =? 32) l
  | FOptU32 o => match o with Some z => uint_ok 4 z | None => true end
  end.

(** The sub-protocols of [SetupConnection]. *)
Inductive Protocol : Type :=
| MiningProtocol | JobDeclarationProtocol | TemplateDistributionProtocol.

(** [binary_sv2::to_bytes] and [from_bytes]: total on fields within their
    bounds, inverse to each other, and type preserving; the reader of the
    sub-protocol; and the error code of
    [OpenMiningChannelError::unsupported_extranonce_size]. *)
Class BinarySv2 := {
  to_bytes : list Field -> option bytes;
  from_bytes : list FieldTy -> bytes -> option (list Field);
  to_bytes_total fs : forallb field_ok fs = true -> is_Some (to_bytes fs);
  from_to_bytes fs b :
    forallb field_ok fs = true -> to_bytes fs = Some b -> from_bytes (field_ty <$> fs) b = Some fs;
  from_bytes_typed tys b fs :
    from_bytes tys b = Some fs -> field_ty <$> fs = tys /\ forallb field_ok fs = true;
  protocol_of_u8 : Z -> option Protocol;
  protocol_mining : protocol_of_u8 0 = Some MiningProtocol;
  extranonce_error_code : bytes;
  extranonce_error_code_fits : field_ok (FStr extranonce_error_code) = true
}.

(** *** The format of the specification *)
Definition field_layout (f : Field) : bytes :=
  let sized n (b : bytes) := to_le_bytes n (Z.of_nat (length b)) ++ b in
  match f with
  | FU8 z => to_le_bytes 1 z
  | FU16 z => to_le_bytes 2 z
  | FU32 z | FF32 z => to_le_bytes 4 z
  | FU64 z => to_le_bytes 8 z
  | FBool b => to_le_bytes 1 (Z.b2z b)
  | FU256 b => b
  | FStr b | FB032 b => sized 1%nat b
  | FB064K b => sized 2%nat b
  | FSeq0255 l => to_le_bytes 1 (Z.of_nat (length l)) ++ concat l
  | FOptU32 (Some z) => to_le_bytes 1 1 ++ to_le_bytes 4 z
  | FOptU32 None => to_le_bytes 1 0
  end.

(** [n] bytes off the front. *)
Definition take_exact (n : nat) (l : bytes) : option (bytes * bytes) :=
  if (n <=? length l)%nat then Some (take n l, drop n l) else None.

Definition take_uint (n : nat) (l : bytes) : option (Z * bytes) :=
  p ← take_exact n l; Some (le_val p.1, p.2).

Definition take_sized (n : nat) (l : bytes) : option (bytes * bytes) :=
  p ← take_uint n l; take_exact (Z.to_nat p.1) p.2.

Fixpoint take_hashes (n : nat) (l : bytes) : option (list bytes * bytes) :=
  match n with
  | O => Some ([], l)
  | S m => p ← take_exact 32 l; q ← take_hashes m p.2; Some (p.1 :: q.1, q.2)
  end.

Definition take_field (t : FieldTy) (l : bytes) : option (Field * bytes) :=
  match t with
  | TU8 => p ← take_uint 1 l; Some (FU8 p.1, p.2)
  | TU16 => p ← take_uint 2 l; Some (FU16 p.1, p.2)
  | TU32 => p ← take_uint 4 l; Some (FU32 p.1, p.2)
  | TU64 => p ← take_uint 8 l; Some (FU64 p.1, p.2)
  | TF32 => p ← take_uint 4 l; Some (FF32 p.1, p.2)
  | TBool => p ← take_uint 1 l; Some (FBool (Z.odd p.1), p.2)
  | TU256 => p ← take_exact 32 l; Some (FU256 p.1, p.2)
  | TStr => p ← take_sized 1 l; Some (FStr p.1, p.2)
  | TB032 => p ← take_sized 1 l;
             if Z.of_nat (length p.1) <=? 32 then Some (FB032 p.1, p.2) else None
  | TB064K => p ← take_sized 2 l; Some (FB064K p.1, p.2)
  | TSeq0255 => p ← take_uint 1 l; q ← take_hashes (Z.to_nat p.1) p.2; Some (FSeq0255 q.1, q.2)
  | TOptU32 => p ← take_uint 1 l;
               if p.1 =? 0 then Some (FOptU32 None, p.2)
               else if p.1 =? 1 then q ← take_uint 4 p.2; Some (FOptU32 (Some q.1), q.2)
               else None
  end.

Fixpoint take_fields (tys : list FieldTy) (l : bytes) : option (list Field * bytes) :=
  match tys with
  | [] => Some ([], l)
  | t :: tys' => p ← take_field t l; q ← take_fields tys' p.2; Some (p.1 :: q.1, q.2)
  end.

(** A number within the range of its width. *)
Ltac uint_range :=
  unfold uint_ok; apply andb_true_iff; split; [apply Z.leb_le | apply Z.ltb_lt]; cbn; lia.

(** *** The format can be read back *)
Lemma take_exact_app n a l : length a = n -> take_exact n (a ++ l) = Some (a, l).
Proof.
  intros <-. unfold take_exact. rewrite length_app, (proj2 (Nat.leb_le _ _)) by lia.
  by rewrite take_app_length, drop_app_length.
Qed.

Lemma take_uint_app n z l :
  uint_ok n z = true -> take_uint n (to_le_bytes n z ++ l) = Some (z, l).
Proof.
  unfold uint_ok. intros Hz. apply andb_true_iff in Hz as [H1 H2]. zbool.
  unfold take_uint. rewrite take_exact_app by apply length_to_le_bytes. cbn.
  rewrite le_val_to_le_bytes, Z.mod_small by lia. done.
Qed.

Lemma take_sized_app n (b l : bytes) :
  uint_ok n (Z.of_nat (length b)) = true ->
  take_sized n ((to_le_bytes n (Z.of_nat (length b)) ++ b) ++ l) = Some (b, l).
Proof.
  intros Hb. unfold take_sized. rewrite <- app_assoc, take_uint_app by done. cbn.
  rewrite Nat2Z.id. by apply take_exact_app.
Qed.

Lemma take_hashes_app hs l :
  forallb (fun b => Z.of_nat (length b) =? 32) hs = true ->
  take_hashes (length hs) (concat hs ++ l) = Some (hs, l).
Proof.
  induction hs as [|h hs IH]; intros Hh; [done|]. cbn in Hh. apply andb_true_iff in Hh as [Hl Hh].
  zbool. cbn [length take_hashes concat]. rewrite <- app_assoc, take_exact_app by lia. cbn.
  by rewrite IH.
Qed.

Lemma small_uint n k : 0 <= k <= 255 -> (0 < n)%nat -> uint_ok n k = true.
Proof.
  intros Hk Hn. unfold uint_ok. apply andb_true_iff. split; [apply Z.leb_le; lia|].
  apply Z.ltb_lt. apply Z.lt_le_trans with (256 ^ 1); [lia|]. apply Z.pow_le_mono_r; lia.
Qed.

Lemma take_field_layout f l :
  field_ok f = true -> take_field (field_ty f) (field_layout f ++ l) = Some (f, l).
Proof.
  destruct f as [z|z|z|z|z|b|b|b|b|b|hs|o]; cbn [field_ok field_ty field_layout take_field]; intros Hf.
  1-5: by rewrite take_uint_app by done.
  - rewrite take_uint_app by (destruct b; done). by destruct b.
  - zbool. by rewrite take_exact_app by lia.
  - zbool. rewrite take_sized_app by (apply small_uint; lia). done.
  - rewrite take_sized_app by (zbool; apply small_uint; lia). cbn. by rewrite Hf.
  - zbool. rewrite take_sized_app; [done|]. uint_range.
  - apply andb_true_iff in Hf as [Hn Hh]. zbool.
    rewrite <- app_assoc, take_uint_app by (apply small_uint; lia). cbn.
    by rewrite Nat2Z.id, take_hashes_app.
  - destruct o as [z|]; [|done]. rewrite <- app_assoc, take_uint_app by done.
    cbn -[take_uint to_le_bytes]. by rewrite take_uint_app.
Qed.

Lemma take_fields_layout fs l :
  forallb field_ok fs = true ->
  take_fields (field_ty <$> fs) (concat (field_layout <$> fs) ++ l) = Some (fs, l).
Proof.
  induction fs as [|f fs IH]; intros Hf; [done|]. cbn in Hf. apply andb_true_iff in Hf as [H1 H2].
  cbn [fmap list_fmap concat take_fields]. rewrite <- app_assoc, take_field_layout by done. cbn.
  by rewrite IH.
Qed.

(** *** What is read is well typed *)
Lemma take_exact_Some n l a r : take_exact n l = Some (a, r) -> length a = n.
Proof.
  unfold take_exact. destruct (Nat.leb_spec n (length l)); [|done]. intros [= <- <-].
  rewrite length_take. lia.
Qed.

Lemma take_uint_Some n l z r : take_uint n l = Some (z, r) -> uint_ok n z = true.
Proof.
  unfold take_uint. destruct (take_exact n l) as [[a r']|] eqn:E; [|done]. cbn. intros [= <- _].
  apply take_exact_Some in E. pose proof (le_val_bounds a) as Hb. rewrite E in Hb.
  unfold uint_ok. apply andb_true_iff. split; [apply Z.leb_le; lia | apply Z.ltb_lt; lia].
Qed.

Lemma take_sized_Some n l b r :
  take_sized n l = Some (b, r) -> uint_ok n (Z.of_nat (length b)) = true.
Proof.
  unfold take_sized. destruct (take_uint n l) as [[z l']|] eqn:E; [|done]. cbn. intros Hb.
  apply take_uint_Some in E. apply take_exact_Some in Hb. rewrite Hb.
  rewrite Z2Nat.id; [done|]. unfold uint_ok in E. apply andb_true_iff in E as [E _]. by zbool.
Qed.

Lemma take_hashes_Some n l hs r :
  take_hashes n l = Some (hs, r) ->
  length hs = n /\ forallb (fun b => Z.of_nat (length b) =? 32) hs = true.
Proof.
  revert l hs r; induction n as [|n IH]; intros l hs r; cbn [take_hashes]; [by intros [= <- _]|].
  destruct (take_exact 32 l) as [[h l']|] eqn:E; [|done]. cbn.
  destruct (take_hashes n l') as [[hs' r']|] eqn:E'; [|done]. cbn. intros [= <- _].
  apply take_exact_Some in E. apply IH in E' as [<- E']. split; [done|]. cbn.
  rewrite E'. apply andb_true_iff. split; [apply Z.eqb_eq; lia | done].
Qed.

Lemma take_field_Some t l f r :
  take_field t l = Some (f, r) -> field_ty f = t /\ field_ok f = true.
Proof.
  destruct t; cbn [take_field]; intros Hf.
  1-6: destruct (take_uint _ l) as [[z l']|] eqn:E; [|done]; cbn in Hf; injection Hf as <- _;
       apply take_uint_Some in E; done.
  - destruct (take_exact _ l) as [[b l']|] eqn:E; [|done]; cbn in Hf; injection Hf as <- _.
    apply take_exact_Some in E. split; [done|]. cbn. apply Z.eqb_eq. lia.
  - destruct (take_sized _ l) as [[b l']|] eqn:E; [|done]; cbn in Hf; injection Hf as <- _.
    apply take_sized_Some in E. unfold uint_ok in E. apply andb_true_iff in E as [_ E]. zbool.
    split; [done|]. cbn. apply Z.leb_le. lia.
  - destruct (take_sized _ l) as [[b l']|]; [|done]; cbn in Hf.
    destruct (_ <=? 32) eqn:E; [|done]. injection Hf as <- _. done.
  - destruct (take_sized _ l) as [[b l']|] eqn:E; [|done]; cbn in Hf; injection Hf as <- _.
    apply take_sized_Some in E. unfold uint_ok in E. apply andb_true_iff in E as [_ E]. zbool.
    split; [done|]. cbn. apply Z.leb_le. lia.
  - destruct (take_uint _ l) as [[z l']|] eqn:E; [|done]; cbn in Hf.
    destruct (take_hashes _ l') as [[hs r']|] eqn:E'; [|done]; cbn in Hf; injection Hf as <- _.
    apply take_uint_Some in E. unfold uint_ok in E. apply andb_true_iff in E as [_ E]. zbool.
    apply take_hashes_Some in E' as [Hl Hh]. split; [done|]. cbn. rewrite Hh, andb_true_r.
    apply Z.leb_le. lia.
  - destruct (take_uint 1 l) as [[z l']|] eqn:E; [|done]; cbn -[take_uint] in Hf.
    destruct (z =? 0); [by injection Hf as <- _|]. destruct (z =? 1); [|done].
    destruct (take_uint 4 l') as [[q r']|] eqn:E'; [|done]; cbn in Hf; injection Hf as <- _.
    apply take_uint_Some in E'. done.
Qed.

Lemma take_fields_Some tys l fs r :
  take_fields tys l = Some (fs, r) -> field_ty <$> fs = tys /\ forallb field_ok fs = true.
Proof.
  revert l fs r; induction tys as [|t tys IH]; intros l fs r; cbn [take_fields]; [by intros [= <- _]|].
  destruct (take_field t l) as [[f l']|] eqn:E; [|done]. cbn.
  destruct (take_fields tys l') as [[fs' r']|] eqn:E'; [|done]. cbn. intros [= <- _].
  apply take_field_Some in E as [<- E]. apply IH in E' as [<- E']. split; [done|]. cbn.
  by rewrite E, E'.
Qed.

Definition spec_to_bytes (fs : list Field) : option bytes :=
  if forallb field_ok fs then Some (concat (field_layout <$> fs)) else None.
Definition spec_from_bytes (tys : list FieldTy) (b : bytes) : option (list Field) :=
  fst <$> take_fields tys b.

Lemma spec_to_bytes_total fs : forallb field_ok fs = true -> is_Some (spec_to_bytes fs).
Proof. intros E. unfold spec_to_bytes. rewrite E. by eexists. Qed.

Lemma spec_from_to_bytes fs b :
  forallb field_ok fs = true -> spec_to_bytes fs = Some b ->
  spec_from_bytes (field_ty <$> fs) b = Some fs.
Proof.
  intros E. unfold spec_to_bytes, spec_from_bytes. rewrite E. intros [= <-].
  rewrite <- (app_nil_r (concat _)), take_fields_layout by done. done.
Qed.

Lemma spec_from_bytes_typed tys b fs :
  spec_from_bytes tys b = Some fs -> field_ty <$> fs = tys /\ forallb field_ok fs = true.
Proof.
  unfold spec_from_bytes. destruct (take_fields tys b) as [[fs' r]|] eqn:E; [|done].
  intros [= <-]. by eapply take_fields_Some.
Qed.

Definition spec_protocol (z : Z) : option Protocol :=
  if z =? 0 then Some MiningProtocol
  else if z =? 1 then Some JobDeclarationProtocol
  else if z =? 2 then Some TemplateDistributionProtocol
  else None.

Definition spec_sv2 : BinarySv2 := {|
  to_bytes := spec_to_bytes;
  from_bytes := spec_from_bytes;
  to_bytes_total := spec_to_bytes_total;
  from_to_bytes := spec_from_to_bytes;
  from_bytes_typed := spec_from_bytes_typed;
  protocol_of_u8 := spec_protocol;
  protocol_mining := eq_refl;
  extranonce_error_code := [x78];
  extranonce_error_code_fits := eq_refl
|}.
End Sv2Codec.
