(* ===== verification/Sv2Wire.v ===== *)
(** * Sv2Wire: Stratum V2 messages ([src/protocol/sv2/messages.rs], [job.rs])

    Frames, the decoded inbound messages, the outbound payloads and the
    translation of a job into its two messages. *)
From S2P Require Import Prelude Text F64 Json Errors Interfaces Target Rpc Security Identity.
From S2P Require Import Template Jobs Validator Sv2Codec.
Import Target Template Validator Sv2Codec.

Module Sv2Wire.

(** ** Framing *)
Definition EXT_TYPE : Z := 0x0000.
Definition CHANNEL_MSG_BIT : Z := 0x8000.

Definition frame_bytes (msg_type : Z) (channel_msg : bool) (payload : bytes) : bytes :=
  let ext := Z.lor EXT_TYPE (if channel_msg then CHANNEL_MSG_BIT else 0) in
  let len := to_le_bytes 4 (wrap32 (Z.of_nat (length payload))) in
  to_le_bytes 2 ext ++ [byte_of msg_type] ++ take 3 len ++ payload.

(** ** Inbound messages *)
Definition FLAG_REQUIRES_STANDARD_JOBS : Z := Z.shiftl 1 0.
Definition FLAG_REQUIRES_WORK_SELECTION : Z := Z.shiftl 1 1.
Definition UNSUPPORTED_SETUP_FLAGS : Z :=
  Z.lor FLAG_REQUIRES_STANDARD_JOBS FLAG_REQUIRES_WORK_SELECTION.

Record SetupConn := mkSetupConn {
  protocol : Protocol;
  min_version : Z;
  max_version : Z;
  flags : Z
}.

Record OpenExtended := mkOpenExtended {
  oe_request_id : Z;
  user_identity : string;
  nominal_hash_rate : Z;
  max_target : bytes;
  min_extranonce_size : Z
}.

Record SubmitExtended := mkSubmitExtended {
  se_channel_id : Z;
  sequence_number : Z;
  se_job_id : Z;
  se_nonce : Z;
  se_ntime : Z;
  se_version : Z;
  se_extranonce : bytes
}.

(** The fields of the inbound messages, in the order of the specification. *)
Definition SETUP_CONNECTION : list FieldTy :=
  [TU8; TU16; TU16; TU32; TStr; TU16; TStr; TStr; TStr; TStr].
Definition OPEN_EXTENDED : list FieldTy := [TU32; TStr; TF32; TU256; TU16].
Definition SUBMIT_EXTENDED : list FieldTy := [TU32; TU32; TU32; TU32; TU32; TU32; TB032].

(** A job as the two messages carry it. *)
Record NewExtendedMiningJob := mkNewJob {
  nj_channel_id : Z;
  nj_job_id : Z;
  nj_min_ntime : option Z;
  nj_version : Z;
  version_rolling_allowed : bool;
  merkle_path : list bytes;
  coinbase_tx_prefix : bytes;
  coinbase_tx_suffix : bytes
}.

Record SetNewPrevHash := mkSetPrev {
  sp_channel_id : Z;
  sp_job_id : Z;
  sp_prev_hash : bytes;
  sp_min_ntime : Z;
  nbits : Z
}.

Section Messages.
Context `{BinarySv2}.

Definition decode_setup_connection (payload : bytes) : option SetupConn :=
  fs ← from_bytes SETUP_CONNECTION payload;
  match fs with
  | FU8 p :: FU16 lo :: FU16 hi :: FU32 fl :: _ =>
      proto ← protocol_of_u8 p; Some (mkSetupConn proto lo hi fl)
  | _ => None
  end.

Definition decode_open_extended (payload : bytes) : option OpenExtended :=
  fs ← from_bytes OPEN_EXTENDED payload;
  match fs with
  | [FU32 req; FStr user; FF32 rate; FU256 target; FU16 size] =>
      Some (mkOpenExtended req (from_utf8_lossy user) rate target size)
  | _ => None
  end.

Definition decode_submit_extended (payload : bytes) : option SubmitExtended :=
  fs ← from_bytes SUBMIT_EXTENDED payload;
  match fs with
  | [FU32 ch; FU32 seq; FU32 job; FU32 nonce; FU32 ntime; FU32 version; FB032 en] =>
      Some (mkSubmitExtended ch seq job nonce ntime version en)
  | _ => None
  end.

(** ** Outbound messages *)
Definition encode (fs : list Field) : option bytes := to_bytes fs.

(** [try_from] into a bounded type. *)
Definition try_from (f : Field) : option Field := if field_ok f then Some f else None.

Definition setup_connection_success (used_version : Z) : option bytes :=
  encode [FU16 used_version; FU32 0].

Definition setup_connection_error (code : string) (flags : Z) : option bytes :=
  c ← try_from (FStr (string_bytes code)); encode [FU32 flags; c].

Definition open_extended_success (request_id channel_id : Z) (target_le : bytes)
    (extranonce_size : Z) (extranonce_prefix : bytes) : option bytes :=
  p ← try_from (FB032 extranonce_prefix);
  encode [FU32 request_id; FU32 channel_id; FU256 target_le; FU16 extranonce_size; p; FU32 0].

Definition open_channel_error_extranonce (request_id : Z) : option bytes :=
  encode [FU32 request_id; FStr extranonce_error_code].

Definition open_channel_error (request_id : Z) (code : string) : option bytes :=
  c ← try_from (FStr (string_bytes code)); encode [FU32 request_id; c].

Definition set_target (channel_id : Z) (target_le : bytes) : option bytes :=
  encode [FU32 channel_id; FU256 target_le].

Definition submit_shares_success (channel_id last_sequence_number shares_sum : Z) : option bytes :=
  encode [FU32 channel_id; FU32 last_sequence_number; FU32 1; FU64 shares_sum].

Definition submit_shares_error (channel_id sequence_number : Z) (code : string) : option bytes :=
  c ← try_from (FStr (string_bytes code)); encode [FU32 channel_id; FU32 sequence_number; c].

(** ** Jobs *)
Definition difficulty_to_sv2_target (difficulty : Z) : bytes :=
  reverse (difficulty_to_target difficulty).

Definition sv2_target_le (a b : bytes) : bool := lex_leb (reverse a) (reverse b).

Definition stratum_prevhash_to_internal `{HexCodec} (stratum_hex : string) : option bytes :=
  b ← hex_decode stratum_hex;
  if bool_decide (length b = 32%nat) then Some (swap_each_word b) else None.

Definition build_new_extended_job (job : StratumJob) (channel_id job_id : Z) (future : bool)
  : option NewExtendedMiningJob :=
  let min_ntime := if future then None else Some (j_cur_time job) in
  _ ← try_from (FSeq0255 (merkle_branch_raw job));
  _ ← try_from (FB064K (coinbase1 job));
  _ ← try_from (FB064K (coinbase2 job));
  Some (mkNewJob channel_id job_id min_ntime (j_version job) true (merkle_branch_raw job)
          (coinbase1 job) (coinbase2 job)).

Definition build_set_new_prev_hash `{HexCodec} (job : StratumJob) (channel_id job_id : Z)
  : option SetNewPrevHash :=
  prev ← stratum_prevhash_to_internal (j_prev_hash job);
  bits ← u32_from_hex (j_bits job);
  Some (mkSetPrev channel_id job_id prev (j_cur_time job) bits).

(** The fields of the two messages, as [encode] is given them. *)
Definition new_job_fields (m : NewExtendedMiningJob) : list Field :=
  [FU32 (nj_channel_id m); FU32 (nj_job_id m); FOptU32 (nj_min_ntime m); FU32 (nj_version m);
   FBool (version_rolling_allowed m); FSeq0255 (merkle_path m);
   FB064K (coinbase_tx_prefix m); FB064K (coinbase_tx_suffix m)].

Definition prev_hash_fields (m : SetNewPrevHash) : list Field :=
  [FU32 (sp_channel_id m); FU32 (sp_job_id m); FU256 (sp_prev_hash m); FU32 (sp_min_ntime m);
   FU32 (nbits m)].
End Messages.

(** ** Reading frames

    What the specification says a peer does with the bytes of [frame_bytes]. *)
Record RawFrame := mkRawFrame { rf_type : Z; rf_channel : bool; rf_payload : bytes }.

Definition parse_frame (l : bytes) : option (RawFrame * bytes) :=
  e ← take_uint 2 l; t ← take_uint 1 e.2; n ← take_uint 3 t.2; p ← take_exact (Z.to_nat n.1) n.2;
  if Z.land e.1 0x7fff =? 0
  then Some (mkRawFrame t.1 (Z.testbit e.1 15) p.1, p.2)
  else None.

Fixpoint parse_stream (fuel : nat) (l : bytes) : option (list RawFrame) :=
  match fuel, l with
  | _, [] => Some []
  | S f, _ => x ← parse_frame l; xs ← parse_stream f x.2; Some (x.1 :: xs)
  | O, _ => None
  end.

Definition write_frame (f : RawFrame) : bytes := frame_bytes (rf_type f) (rf_channel f) (rf_payload f).

Definition frame_fits (f : RawFrame) : Prop :=
  0 <= rf_type f < 256 /\ Z.of_nat (length (rf_payload f)) < 2 ^ 24.

(** The low bytes of a little-endian integer. *)
Lemma take_to_le_bytes k n z : (k <= n)%nat -> take k (to_le_bytes n z) = to_le_bytes k z.
Proof.
  revert n z; induction k as [|k IH]; intros [|n] z Hk; [done | done | lia |].
  cbn [to_le_bytes take]. f_equal. apply IH. lia.
Qed.

Lemma parse_write_frame f l :
  frame_fits f -> parse_frame (write_frame f ++ l) = Some (f, l).
Proof.
  intros [Ht Hl]. destruct f as [t c p]. cbn in Ht, Hl.
  unfold write_frame, frame_bytes, parse_frame. cbn [rf_type rf_channel rf_payload]. cbv zeta.
  rewrite take_to_le_bytes by lia. unfold wrap32. rewrite Z.mod_small by lia.
  change [byte_of t] with (to_le_bytes 1 t).
  rewrite <- !app_assoc.
  rewrite take_uint_app by (by destruct c). cbn -[take_uint to_le_bytes take_exact].
  rewrite take_uint_app by uint_range.
  cbn -[take_uint to_le_bytes take_exact].
  rewrite take_uint_app by uint_range.
  cbn -[take_uint to_le_bytes take_exact]. rewrite Nat2Z.id, take_exact_app by done. cbn.
  by destruct c.
Qed.

Lemma length_write_frame f : (6 <= length (write_frame f))%nat.
Proof.
  unfold write_frame, frame_bytes. rewrite !length_app, length_take, !length_to_le_bytes. cbn. lia.
Qed.

Lemma parse_stream_frames fs fuel :
  Forall frame_fits fs -> (length fs <= fuel)%nat ->
  parse_stream fuel (concat (write_frame <$> fs)) = Some fs.
Proof.
  intros HF; revert fuel; induction HF as [|f fs Hf _ IH]; intros fuel Hl; [by destruct fuel|].
  destruct fuel as [|fuel]; [cbn in Hl; lia|]. cbn in Hl.
  change (concat (write_frame <$> f :: fs)) with (write_frame f ++ concat (write_frame <$> fs)).
  pose proof (length_write_frame f) as Hw. pose proof (parse_write_frame f (concat (write_frame <$> fs)) Hf) as Hp.
  destruct (write_frame f) as [|b l]; [cbn in Hw; lia|].
  cbn [app parse_stream]. cbn [app] in Hp. rewrite Hp. cbn. rewrite IH by lia. done.
Qed.

(** ** Targets *)
Lemma length_sv2_target d : length (difficulty_to_sv2_target d) = 32%nat.
Proof. unfold difficulty_to_sv2_target. by rewrite length_reverse, length_difficulty_to_target. Qed.

Lemma sv2_target_le_val a b :
  length a = length b -> sv2_target_le a b = (le_val a <=? le_val b).
Proof.
  intros Hl. unfold sv2_target_le. rewrite lex_leb_be_val by (by rewrite !length_reverse).
  by rewrite !be_val_reverse.
Qed.

Lemma sv2_target_val d :
  0 <= d <= u64_max -> le_val (difficulty_to_sv2_target d) = DIFF1 / Z.max 1 d.
Proof.
  intros Hd. unfold difficulty_to_sv2_target. by rewrite le_val_reverse, difficulty_to_target_val.
Qed.

(** ** The header of the device

    The specification's header for a share of an extended channel: the coinbase
    from the job's two parts around the channel's prefix and the device's own
    bytes, the root along the path, and the announced previous hash. *)
Definition device_header `{Sha256} (nj : NewExtendedMiningJob) (sp : SetNewPrevHash)
    (extranonce_prefix : bytes) (m : SubmitExtended) : bytes :=
  header_layout (se_version m) (sp_prev_hash sp)
    (merkle_root (merkle_path nj)
       (coinbase_tx_prefix nj ++ extranonce_prefix ++ se_extranonce m ++ coinbase_tx_suffix nj))
    (se_ntime m) (nbits sp) (se_nonce m).

Lemma restore_version base v :
  is_u32 base -> is_u32 v ->
  Z.land v (not32 VERSION_ROLLING_MASK) = Z.land base (not32 VERSION_ROLLING_MASK) ->
  resolve_version base (Some (Z.land v VERSION_ROLLING_MASK)) (Some VERSION_ROLLING_MASK) = Ok v.
Proof.
  intros Hb Hv E. unfold resolve_version. cbn [default from_option id].
  assert (Z.land (Z.land v VERSION_ROLLING_MASK) (not32 VERSION_ROLLING_MASK) = 0) as ->
    by (rewrite <- Z.land_assoc; change (Z.land VERSION_ROLLING_MASK (not32 VERSION_ROLLING_MASK)) with 0;
        apply Z.land_0_r).
  cbn [Z.eqb]. f_equal. rewrite <- E, <- Z.land_assoc, Z.land_diag.
  rewrite <- Z.land_lor_distr_r.
  change (Z.lor (not32 VERSION_ROLLING_MASK) VERSION_ROLLING_MASK) with (Z.ones 32).
  rewrite Z.land_ones by lia. apply Z.mod_small. unfold is_u32, u32_max in Hv. lia.
Qed.
End Sv2Wire.
