(* ===== verification/Sv2.v ===== *)
(** * Sv2: one Stratum V2 connection ([src/protocol/sv2/mod.rs])

    The session state, the encrypted writer as the frames it has sent and the
    writes it can still make, every handler, the job push, the retarget and one
    iteration of the loop.  Reasons of a disconnect are kept without the parts
    that format a foreign error.  The Noise layer is in [Noise]. *)
From S2P Require Import Prelude Text F64 Json Errors Interfaces Target Rpc Hashrate Credit.
From S2P Require Import Vardiff Stats Store Security Accounting Identity Template Jobs.
From S2P Require Import Validator Engine Sv1 Session Sv2Codec Sv2Wire.
Import Target Rpc Credit Vardiff Stats Security Accounting Identity Template Jobs Validator.
Import Sv2Codec Sv2Wire.

Module Sv2.

Definition SV2_PROTOCOL_VERSION : Z := 2.

(** The message types of the specification. *)
Definition MESSAGE_TYPE_SETUP_CONNECTION : Z := 0x00.
Definition MESSAGE_TYPE_SETUP_CONNECTION_SUCCESS : Z := 0x01.
Definition MESSAGE_TYPE_SETUP_CONNECTION_ERROR : Z := 0x02.
Definition MESSAGE_TYPE_OPEN_MINING_CHANNEL_ERROR : Z := 0x12.
Definition MESSAGE_TYPE_OPEN_EXTENDED_MINING_CHANNEL : Z := 0x13.
Definition MESSAGE_TYPE_OPEN_EXTENDED_MINING_CHANNEL_SUCCES : Z := 0x14.
Definition MESSAGE_TYPE_SUBMIT_SHARES_EXTENDED : Z := 0x1b.
Definition MESSAGE_TYPE_SUBMIT_SHARES_SUCCESS : Z := 0x1c.
Definition MESSAGE_TYPE_SUBMIT_SHARES_ERROR : Z := 0x1d.
Definition MESSAGE_TYPE_NEW_EXTENDED_MINING_JOB : Z := 0x1f.
Definition MESSAGE_TYPE_MINING_SET_NEW_PREV_HASH : Z := 0x20.
Definition MESSAGE_TYPE_SET_TARGET : Z := 0x21.

(** ** State *)
Record Channel := mkChannel {
  worker : option string;
  identity : option MinerIdentity;
  setup_done : bool;
  channel_open : bool;
  channel_id : Z;
  extranonce_prefix : bytes;
  extranonce_size : nat
}.

Record Work := mkWork {
  job_ids : list (Z * string);
  next_job_id : Z;
  issued_jobs : IssuedJobs;
  pending_template : option JobTemplate
}.

Record Sv2Session := mkSv2 {
  chan : Channel;
  work : Work;
  session_id : string;
  extranonce_total : nat;
  difficulty : Z;
  vardiff : Vardiff;
  vardiff_cfg : VardiffConfig;
  credit_state : ShareCredit;
  share_set : ShareSet;
  guard : SessionGuard;
  coinbase_tag : string;
  network : Network;
  n_accepted : Z;
  n_rejected : Z
}.

(** What a handler reads from outside: the clocks and answers of a V1 handler,
    the counter of [generate_extranonce1] and the next [CHANNEL_ID]. *)
Record Env := mkEnv {
  base : Session.Env;
  extranonce_counter : Z;
  new_channel_id : Z
}.

(** [NoiseWriter]: the frames sent, and how many more writes succeed ([None]
    when none ever fails). *)
Record Writer := mkWriter { sent : list RawFrame; writes_left : option nat }.

Inductive Flow : Type := Continue | Disconnect (reason : string) | Panicked.

Abbreviation Step := (Flow * Sv2Session * PoolStats * Writer)%type.

Definition stats_worker (s : Sv2Session) : option string := canonical_name <$> identity (chan s).

(** Field updates. *)
Definition set_chan (s : Sv2Session) (c : Channel) : Sv2Session :=
  mkSv2 c (work s) (session_id s) (extranonce_total s) (difficulty s) (vardiff s) (vardiff_cfg s)
    (credit_state s) (share_set s) (guard s) (coinbase_tag s) (network s) (n_accepted s) (n_rejected s).
Definition set_work (s : Sv2Session) (w : Work) : Sv2Session :=
  mkSv2 (chan s) w (session_id s) (extranonce_total s) (difficulty s) (vardiff s) (vardiff_cfg s)
    (credit_state s) (share_set s) (guard s) (coinbase_tag s) (network s) (n_accepted s) (n_rejected s).
Definition set_diff (s : Sv2Session) (d : Z) (v : Vardiff) (c : ShareCredit) : Sv2Session :=
  mkSv2 (chan s) (work s) (session_id s) (extranonce_total s) d v (vardiff_cfg s)
    c (share_set s) (guard s) (coinbase_tag s) (network s) (n_accepted s) (n_rejected s).
Definition set_shares (s : Sv2Session) (k : ShareSet) : Sv2Session :=
  mkSv2 (chan s) (work s) (session_id s) (extranonce_total s) (difficulty s) (vardiff s)
    (vardiff_cfg s) (credit_state s) k (guard s) (coinbase_tag s) (network s) (n_accepted s)
    (n_rejected s).
Definition set_guard (s : Sv2Session) (g : SessionGuard) (acc rej : Z) : Sv2Session :=
  mkSv2 (chan s) (work s) (session_id s) (extranonce_total s) (difficulty s) (vardiff s)
    (vardiff_cfg s) (credit_state s) (share_set s) g (coinbase_tag s) (network s) acc rej.

Definition set_pending (s : Sv2Session) (t : option JobTemplate) : Sv2Session :=
  set_work s (mkWork (job_ids (work s)) (next_job_id (work s)) (issued_jobs (work s)) t).
Definition set_issued (s : Sv2Session) (j : IssuedJobs) : Sv2Session :=
  set_work s (mkWork (job_ids (work s)) (next_job_id (work s)) j (pending_template (work s))).

Definition sv2_new (pool_tag : string) (initial_difficulty : Z) (prefix : bytes) (en1 en2 : nat)
    (net : Network) (vcfg : VardiffConfig) (sec : SecurityConfig) (sid : string) (t : Instant)
  : Sv2Session :=
  mkSv2 (mkChannel None None false false 0 prefix en2) (mkWork [] 1 issued_new None)
    sid (en1 + en2) initial_difficulty (vardiff_new vcfg initial_difficulty t) vcfg
    (credit_new (Vardiff.min_difficulty vcfg) t) share_set_new (guard_new sec t) pool_tag net 0 0.

(** ** Job identifiers *)
Definition JOB_ID_CAP : nat := 16.

Definition assign_job_id (s : Sv2Session) (engine_job_id : string) : Z * Sv2Session :=
  let w := work s in
  let id := next_job_id w in
  let n := wrap32 (id + 1) in
  let next := if n =? 0 then 1 else n in
  let ids := job_ids w ++ [(id, engine_job_id)] in
  let ids' := drop (length ids - JOB_ID_CAP) ids in
  (id, set_work s (mkWork ids' next (issued_jobs w) (pending_template w))).

Definition engine_job_id (s : Sv2Session) (sv2_job_id : Z) : option string :=
  list_find (fun p => p.1 = sv2_job_id) (job_ids (work s)) ≫= fun x => Some x.2.2.

(** ** Writing *)
Definition send (w : Writer) (msg_type : Z) (channel_msg : bool) (payload : bytes) : bool * Writer :=
  let f := mkRawFrame msg_type channel_msg payload in
  match writes_left w with
  | None => (true, mkWriter (sent w ++ [f]) None)
  | Some (S n) => (true, mkWriter (sent w ++ [f]) (Some n))
  | Some O => (false, w)
  end.

(** A payload that must be encoded and written for the session to go on. *)
Definition respond (s : Sv2Session) (st : PoolStats) (w : Writer) (msg_type : Z) (channel_msg : bool)
    (payload : option bytes) (what : string) : Step :=
  match payload with
  | None => (Disconnect ("encode " +:+ what), s, st, w)
  | Some p =>
      let '(ok, w1) := send w msg_type channel_msg p in
      if ok then (Continue, s, st, w1) else (Disconnect "write", s, st, w1)
  end.

Section Handlers.
Context `{Sha256} `{HexCodec} `{TxCodec} `{AddressCodec} `{Libm} `{BinarySv2}.

Definition network_difficulty (s : Sv2Session) : option Z :=
  t ← pending_template (work s);
  d ← Engine.bits_to_difficulty (t_bits t);
  if is_finite d && (f1 <=? d)%f64 then Some (f64_to_u64 d) else None.

(** ** Share bookkeeping *)
Definition accept_share (s : Sv2Session) (st : PoolStats) (w : string)
    (hash_difficulty job_difficulty : Z) (env : Session.Env) : Sv2Session * PoolStats :=
  let '(worth, c) := Credit.credit (credit_state s) (difficulty s) job_difficulty hash_difficulty
                       (Session.now env) in
  let v := record_share (vardiff s) worth (Session.now env) in
  let s1 := set_diff (set_guard s (guard s) (n_accepted s + 1) (n_rejected s)) (difficulty s) v c in
  (s1, record_accepted st (session_id s) w worth hash_difficulty (Session.tick_now env)
         (Session.wall1 env) (Session.wall2 env)).

Definition reject_share (s : Sv2Session) (st : PoolStats) (reason : RejectReason) (env : Session.Env)
  : bool * Sv2Session * PoolStats :=
  let '(over, st1, g) := record_rejected st (guard s) (default "?" (stats_worker s)) reason
                           (Session.wall1 env) in
  (over, set_guard s g (n_accepted s) (n_rejected s + 1), st1).

(** ** Outbound helpers *)
Definition accept (s : Sv2Session) (st : PoolStats) (w : Writer) (seq : Z) : Step :=
  respond s st w MESSAGE_TYPE_SUBMIT_SHARES_SUCCESS true
    (submit_shares_success (channel_id (chan s)) seq (difficulty s)) "SubmitSharesSuccess".

Definition reject (s : Sv2Session) (st : PoolStats) (w : Writer) (seq : Z) (code : string) : Step :=
  respond s st w MESSAGE_TYPE_SUBMIT_SHARES_ERROR true
    (submit_shares_error (channel_id (chan s)) seq code) "SubmitSharesError".

Definition open_error (s : Sv2Session) (st : PoolStats) (w : Writer) (request_id : Z) (code : string)
  : Step :=
  respond s st w MESSAGE_TYPE_OPEN_MINING_CHANNEL_ERROR false (open_channel_error request_id code)
    "OpenMiningChannelError".

Definition setup_error (s : Sv2Session) (st : PoolStats) (w : Writer) (code : string) (flags : Z)
    (reason : string) : Step :=
  let w1 := match setup_connection_error code flags with
            | Some p => (send w MESSAGE_TYPE_SETUP_CONNECTION_ERROR false p).2
            | None => w
            end in
  (Disconnect reason, s, st, w1).

Definition send_job (s : Sv2Session) (w : Writer) (t : JobTemplate) (future : bool)
    (env : Session.Env) : bool * Sv2Session * Writer :=
  match identity (chan s) with
  | None => (false, s, w)
  | Some i =>
      match build_job_for_payout (Session.fresh_job_id env) t (payout i)
              (string_bytes (coinbase_tag s)) (length (extranonce_prefix (chan s)))
              (extranonce_size (chan s)) with
      | Err _ => (false, s, w)
      | Ok job =>
          let '(id, s1) := assign_job_id s (job_id job) in
          let issued := set_issued s1 (issue (issued_jobs (work s1)) job future (difficulty s1)
                                         (Session.now env)) in
          match m ← build_new_extended_job job (channel_id (chan s)) id future;
                encode (new_job_fields m) with
          | None => (false, s1, w)
          | Some p =>
              let '(ok, w1) := send w MESSAGE_TYPE_NEW_EXTENDED_MINING_JOB true p in
              if negb ok then (false, s1, w1)
              else if future then
                match m ← build_set_new_prev_hash job (channel_id (chan s)) id;
                      encode (prev_hash_fields m) with
                | None => (false, s1, w1)
                | Some p2 =>
                    let '(ok2, w2) := send w1 MESSAGE_TYPE_MINING_SET_NEW_PREV_HASH true p2 in
                    if ok2 then (true, issued, w2) else (false, s1, w2)
                end
              else (true, issued, w1)
          end
      end
  end.

(** ** Handlers *)
Definition handle_setup_connection (s : Sv2Session) (st : PoolStats) (w : Writer) (payload : bytes)
  : Step :=
  match decode_setup_connection payload with
  | None => (Disconnect "bad SetupConnection", s, st, w)
  | Some setup =>
      match protocol setup with
      | MiningProtocol =>
          if SV2_PROTOCOL_VERSION <? Sv2Wire.min_version setup then
            setup_error s st w "protocol-version-mismatch" 0 "unsupported SV2 version range"
          else if negb (Z.land (flags setup) UNSUPPORTED_SETUP_FLAGS =? 0) then
            setup_error s st w "unsupported-feature-flags" UNSUPPORTED_SETUP_FLAGS
              "unsupported feature flags"
          else
            let used_version := Z.min SV2_PROTOCOL_VERSION (max_version setup) in
            let c := chan s in
            let s1 := set_chan s (mkChannel (worker c) (identity c) true (channel_open c)
                                    (channel_id c) (extranonce_prefix c) (extranonce_size c)) in
            respond s1 st w MESSAGE_TYPE_SETUP_CONNECTION_SUCCESS false
              (setup_connection_success used_version) "SetupConnectionSuccess"
      | _ => setup_error s st w "unsupported-protocol" 0 "unsupported sub-protocol"
      end
  end.

(** The identity bookkeeping: [None] when the authorization budget is spent. *)
Definition take_identity (s : Sv2Session) (st : PoolStats) (is_new : bool)
  : option (Sv2Session * PoolStats) * SessionGuard :=
  if is_new then
    let '(allowed, g) := record_new_authorization (guard s) in
    if allowed then
      let c := chan s in
      let st1 := match identity c with
                 | Some prev => mark_worker_offline st (canonical_name prev)
                 | None => st
                 end in
      (Some (set_guard (set_chan s (mkChannel None None (setup_done c) (channel_open c)
                                      (channel_id c) (extranonce_prefix c) (extranonce_size c)))
               g (n_accepted s) (n_rejected s), st1), g)
    else (None, g)
  else (Some (s, st), guard s).

(** The part of [handle_open_extended] once the extranonce is granted; with no
    extranonce reserved at all the subtraction of the prefix length fails. *)
Definition open_channel (s : Sv2Session) (st : PoolStats) (w : Writer) (open : OpenExtended)
    (i : MinerIdentity) (is_new : bool) (env : Env) : Step :=
  let granted := Nat.max (Z.to_nat (min_extranonce_size open)) 1 in
  if (extranonce_total s <? granted)%nat then (Panicked, s, st, w) else
  let prefix := Session.generate_extranonce1 (extranonce_counter env)
                  (extranonce_total s - granted) in
  let c := chan s in
  let s1 := set_chan s (mkChannel (Some (user_identity open)) (Some i) (setup_done c)
                          (channel_open c) (new_channel_id env) prefix granted) in
  let own := difficulty_to_sv2_target (difficulty s) in
  let target := if sv2_target_le own (max_target open) then own else max_target open in
  let st1 := if is_new
             then set_worker_protocol
                    (mark_worker_online st (canonical_name i) (difficulty s)
                       (Session.wall1 (base env))) (canonical_name i) "sv2"
             else st in
  match open_extended_success (oe_request_id open) (new_channel_id env) target
          (Z.of_nat granted mod 2 ^ 16) prefix with
  | None => (Disconnect "encode OpenExtendedMiningChannelSuccess", s1, st1, w)
  | Some p =>
      let '(ok, w1) := send w MESSAGE_TYPE_OPEN_EXTENDED_MINING_CHANNEL_SUCCES false p in
      if negb ok then (Disconnect "write", s1, st1, w1)
      else
        let c1 := chan s1 in
        let s2 := set_chan s1 (mkChannel (worker c1) (identity c1) (setup_done c1) true
                                 (channel_id c1) (extranonce_prefix c1) (extranonce_size c1)) in
        match pending_template (work s2) with
        | None => (Continue, s2, st1, w1)
        | Some t =>
            let '(ok2, s3, w2) := send_job s2 w1 t true (base env) in
            if ok2 then (Continue, s3, st1, w2) else (Disconnect "write", s3, st1, w2)
        end
  end.

Definition handle_open_extended (s : Sv2Session) (st : PoolStats) (w : Writer) (payload : bytes)
    (env : Env) : Step :=
  if negb (setup_done (chan s)) then
    (Disconnect "OpenExtendedMiningChannel before SetupConnection", s, st, w)
  else
    match decode_open_extended payload with
    | None => (Disconnect "bad OpenExtendedMiningChannel", s, st, w)
    | Some open =>
        match check_worker_name (guard s) (user_identity open) with
        | Err _ => open_error s st w (oe_request_id open) "invalid-user-identity"
        | Ok _ =>
            match parse (user_identity open) (network s) (max_worker_name_len (guard s)) with
            | Err _ => open_error s st w (oe_request_id open) "invalid-user-identity"
            | Ok i =>
                if channel_open (chan s) then
                  open_error s st w (oe_request_id open) "multiple-channels-unsupported"
                else
                  let is_new := negb (bool_decide (stats_worker s = Some (canonical_name i))) in
                  match take_identity s st is_new with
                  | (None, g) =>
                      (Disconnect "too many worker identities",
                       set_guard s g (n_accepted s) (n_rejected s), st, w)
                  | (Some (s1, st1), _) =>
                      let requested := Z.to_nat (min_extranonce_size open) in
                      if (extranonce_total s1 <? requested)%nat then
                        let w1 := match open_channel_error_extranonce (oe_request_id open) with
                                  | Some p => (send w MESSAGE_TYPE_OPEN_MINING_CHANNEL_ERROR false p).2
                                  | None => w
                                  end in
                        (Continue, s1, st1, w1)
                      else open_channel s1 st1 w open i is_new env
                  end
            end
        end
    end.

(** The share as the validator sees it and as the dedup set records it. *)
Definition share_params_of (j : StratumJob) (m : SubmitExtended) : ShareParams :=
  mkShareParams (job_id j) (se_extranonce m) (se_ntime m) (se_nonce m)
    (Some (Z.land (se_version m) VERSION_ROLLING_MASK)) (Some VERSION_ROLLING_MASK).

Definition share_key_of (j : StratumJob) (m : SubmitExtended) : ShareKey :=
  mkShareKey (job_id j) (se_extranonce m) (se_ntime m) (se_nonce m)
    (Z.land (se_version m) VERSION_ROLLING_MASK).

Definition reject_with (s : Sv2Session) (st : PoolStats) (w : Writer) (seq : Z)
    (reason : RejectReason) (code : string) (env : Session.Env) : Step :=
  let '(over, s1, st1) := reject_share s st reason env in
  if over then (Disconnect "too many invalid shares", s1, st1, w)
  else reject s1 st1 w seq code.

(** The job a submission names. *)
Definition resolve_job (s : Sv2Session) (sv2_job_id : Z) : option JobEntry :=
  id ← engine_job_id s sv2_job_id; find_job (issued_jobs (work s)) id.

Definition handle_submit (s : Sv2Session) (st : PoolStats) (w : Writer) (payload : bytes)
    (env : Session.Env) : Step :=
  if negb (channel_open (chan s)) then (Disconnect "SubmitShares before channel open", s, st, w)
  else
    match decode_submit_extended payload with
    | None => (Disconnect "bad SubmitSharesExtended", s, st, w)
    | Some m =>
        let who := default "?" (stats_worker s) in
        let seq := sequence_number m in
        if negb (bool_decide (length (se_extranonce m) = extranonce_size (chan s))) then
          reject_with s st w seq BadExtranonce "bad-extranonce-size" env
        else
          match resolve_job s (se_job_id m) with
          | None => reject_with s st w seq JobNotFound "stale-job" env
          | Some entry =>
              let key := share_key_of (job entry) m in
              if contains (share_set s) key then
                reject_with s st w seq RDuplicate "duplicate-share" env
              else if negb (Session.validation_joins env) then (Disconnect "internal error", s, st, w)
              else
                let v := validate_share_no_dedup (share_params_of (job entry) m) (job entry) entry
                           (extranonce_prefix (chan s)) (Vardiff.min_difficulty (vardiff_cfg s))
                           (Session.unix_clock env) in
                let s1 := if is_ok v then set_shares s (insert_key (share_set s) key) else s in
                match v with
                | Ok (Valid _ hd _) =>
                    let '(s2, st2) := accept_share s1 st who hd (Jobs.difficulty entry) env in
                    accept s2 st2 w seq
                | Ok (Block hd hex hash) =>
                    let submit_result := Session.submit_answer env (Engine.mkFoundBlock
                                           (j_height (job entry)) (block_hash_display hash) hex who
                                           (payout_address (job entry))) in
                    let '(s2, st2) := accept_share s1 st who hd (Jobs.difficulty entry) env in
                    let st3 := match submit_result with
                               | Ok outcome =>
                                   record_block_outcome st2 outcome (j_height (job entry)) who
                                     (payout_address (job entry)) (block_hash_display hash)
                                     (Session.wall3 env) (Session.wall4 env)
                               | Err _ => st2
                               end in
                    accept s2 st3 w seq
                | Err e =>
                    reject_with s1 st w seq (from_error e) (reason_label (from_error e)) env
                end
          end
    end.

(** ** Dispatch; the flag asks for a ban of the peer's address *)
Definition handle_message (s : Sv2Session) (st : PoolStats) (w : Writer) (msg_type : Z)
    (payload : bytes) (env : Env) : Step * bool :=
  let '(ok, r) := try_consume (Security.share_rate (guard s)) (Session.rate_now1 (base env))
                    (Session.rate_now2 (base env)) in
  let s1 := set_guard s (guard_set_rate (guard s) r) (n_accepted s) (n_rejected s) in
  if negb ok then ((Disconnect "rate limited", s1, record_rate_limited st, w), true)
  else
    (if msg_type =? MESSAGE_TYPE_SETUP_CONNECTION then handle_setup_connection s1 st w payload
     else if msg_type =? MESSAGE_TYPE_OPEN_EXTENDED_MINING_CHANNEL then
       handle_open_extended s1 st w payload env
     else if msg_type =? MESSAGE_TYPE_SUBMIT_SHARES_EXTENDED then
       handle_submit s1 st w payload (base env)
     else (Continue, s1, st, w), false).

(** ** Retarget: [None] is the panic of the controller *)
Definition apply_retarget (s : Sv2Session) (st : PoolStats) (w : Writer) (env : Session.Env)
  : option (bool * Sv2Session * PoolStats * Writer) :=
  if negb (channel_open (chan s)) then Some (true, s, st, w)
  else
    match check_retarget (vardiff s) (Session.now env) (network_difficulty s) with
    | None => None
    | Some (None, v) => Some (true, set_diff s (difficulty s) v (credit_state s), st, w)
    | Some (Some d, v) =>
        let s1 := set_diff s d v (credit_state s) in
        let st1 := match stats_worker s with
                   | Some wk => update_worker_vardiff st wk d (Session.wall1 env)
                   | None => st
                   end in
        match set_target (channel_id (chan s)) (difficulty_to_sv2_target d) with
        | None => Some (false, s1, st1, w)
        | Some p =>
            let '(ok, w1) := send w MESSAGE_TYPE_SET_TARGET true p in Some (ok, s1, st1, w1)
        end
    end.

(** ** The loop of [run] *)
Inductive Event : Type :=
| Inbound (msg_type : Z) (payload : bytes)
| TimedOut
| ReaderClosed
| NewJob (b : Engine.JobBroadcast)
| Lagged
| EngineGone.

Inductive Outcome : Type :=
| Running (s : Sv2Session) (st : PoolStats) (w : Writer)
| Ended (ban : bool) (s : Sv2Session) (st : PoolStats) (w : Writer)
| Crashed (s : Sv2Session) (st : PoolStats) (w : Writer).

Definition close (s : Sv2Session) (st : PoolStats) : PoolStats :=
  let st1 := miner_disconnected st in
  match stats_worker s with Some wk => mark_worker_offline st1 wk | None => st1 end.

Definition retarget_or_end (s : Sv2Session) (st : PoolStats) (w : Writer) (env : Session.Env)
  : Outcome :=
  match apply_retarget s st w env with
  | None => Crashed s st w
  | Some (ok, s1, st1, w1) => if ok : bool then Running s1 st1 w1 else Ended false s1 (close s1 st1) w1
  end.

(** The broadcast arm, before the retarget: [false] ends the session. *)
Definition on_broadcast (s : Sv2Session) (w : Writer) (b : Engine.JobBroadcast) (env : Env)
  : bool * Sv2Session * Writer :=
  let t := Engine.b_template b in
  let clean := Engine.b_clean b in
  let s1 := if clean then set_shares s (share_set_clear (share_set s)) else s in
  if channel_open (chan s1) then
    let '(ok, s2, w1) := send_job s1 w t clean (base env) in
    if ok then (true, set_pending s2 (Some t), w1) else (false, s2, w1)
  else (true, set_pending s1 (Some t), w).

Definition run_step (s : Sv2Session) (st : PoolStats) (w : Writer) (e : Event) (env : Env)
    (env' : Session.Env) : Outcome :=
  match e with
  | Inbound msg_type payload =>
      match check_message_size (guard s) (Z.of_nat (length payload)) with
      | Err _ => Ended true s (close s st) w
      | Ok _ =>
          let '((flow, s1, st1, w1), ban) := handle_message s st w msg_type payload env in
          match flow with
          | Continue => retarget_or_end s1 st1 w1 env'
          | Disconnect _ => Ended ban s1 (close s1 st1) w1
          | Panicked => Crashed s1 st1 w1
          end
      end
  | TimedOut | ReaderClosed | EngineGone => Ended false s (close s st) w
  | NewJob b =>
      let '(ok, s1, w1) := on_broadcast s w b env in
      if ok then retarget_or_end s1 st w1 env' else Ended false s1 (close s1 st) w1
  | Lagged => retarget_or_end s st w env'
  end.

(** The session once [run] has cached the engine's template. *)
Definition session_start (s : Sv2Session) (t : option JobTemplate) : Sv2Session :=
  match t with Some _ => set_pending s t | None => s end.
End Handlers.
End Sv2.
