(* ===== verification/Sv2Safety.v ===== *)
(** * Sv2Safety: the invariants of a Stratum V2 connection

    What the device was told and what the validator will check are the same
    work.  States are those of a connection that has followed the engine's
    broadcasts without missing one, together with the tip (previous hash and
    bits) the last broadcast carried, or ([handed]) with the record of the jobs
    pushed and of the templates they are of. *)
From S2P Require Import Prelude Text F64 Json Errors Interfaces Target Rpc Hashrate Credit.
From S2P Require Import Vardiff Stats Store Security Accounting Identity Template Jobs.
From S2P Require Import Validator Engine Sv1 Session Sv2Codec Sv2Wire Sv2.
Import Target Rpc Credit Vardiff Stats Security Accounting Identity Template Jobs Validator.
Import Sv2Codec Sv2Wire Sv2.

Module Sv2Safety.

(** ** Job identifiers: a counter that skips zero *)
Definition ID_MODULUS : Z := 2 ^ 32 - 1.
Definition nth_id (a : Z) (k : nat) : Z := (a + Z.of_nat k) mod ID_MODULUS + 1.

Lemma nth_id_range a k : 1 <= nth_id a k < 2 ^ 32.
Proof. unfold nth_id, ID_MODULUS. pose proof (Z.mod_pos_bound (a + Z.of_nat k) (2 ^ 32 - 1)). lia. Qed.

Lemma nth_id_next a k :
  (let n := wrap32 (nth_id a k + 1) in if n =? 0 then 1 else n) = nth_id a (S k).
Proof.
  cbv zeta. unfold nth_id, wrap32, ID_MODULUS.
  replace (a + Z.of_nat (S k)) with (a + Z.of_nat k + 1) by lia.
  set (x := a + Z.of_nat k). pose proof (Z.mod_pos_bound x (2 ^ 32 - 1) ltac:(lia)) as Hx.
  rewrite <- (Zplus_mod_idemp_l x). set (y := x mod (2 ^ 32 - 1)) in *.
  destruct (Z.eq_dec y (2 ^ 32 - 2)) as [->|Hy]; [reflexivity|].
  rewrite !Z.mod_small by lia. destruct (Z.eqb_spec (y + 1 + 1) 0); lia.
Qed.

Lemma nth_id_inj a i j :
  (i < 32)%nat -> (j < 32)%nat -> nth_id a i = nth_id a j -> i = j.
Proof.
  intros Hi Hj E. unfold nth_id, ID_MODULUS in E.
  assert ((a + Z.of_nat i) mod (2 ^ 32 - 1) = (a + Z.of_nat j) mod (2 ^ 32 - 1)) as E' by lia.
  pose proof (Z.div_mod (a + Z.of_nat i) (2 ^ 32 - 1) ltac:(lia)).
  pose proof (Z.div_mod (a + Z.of_nat j) (2 ^ 32 - 1) ltac:(lia)).
  rewrite E' in *. nia.
Qed.

(** ** Following the engine *)
Abbreviation Tip := (string * string)%type.
Definition tip_of (t : JobTemplate) : Tip := (t_prev_hash t, t_bits t).

(** A broadcast that is not clean keeps the tip; nothing may be missed. *)
Definition follows (tip : option Tip) (e : Event) (tip' : option Tip) : Prop :=
  match e with
  | NewJob b =>
      tip' = Some (tip_of (Engine.b_template b)) /\ (Engine.b_clean b = false -> tip = tip')
  | Lagged => False
  | _ => tip' = tip
  end.

Section Invariant.
Context `{Sha256} `{HexCodec} `{TxCodec} `{AddressCodec} `{Libm} `{BinarySv2}.

Inductive tracked (s0 : Sv2Session) (w0 : Writer)
  : option Tip -> Sv2Session -> Writer -> Prop :=
| tracked_start t : tracked s0 w0 (tip_of <$> t) (session_start s0 t) w0
| tracked_step tip s st w e env env' tip' s' st' w' :
    tracked s0 w0 tip s w -> follows tip e tip' ->
    run_step s st w e env env' = Running s' st' w' -> tracked s0 w0 tip' s' w'.

(** ** The invariant *)

(** The device has been sent the job entry [e] under the identifier of [p]. *)
Definition on_wire (ch : Z) (w : Writer) (p : Z * string) (e : JobEntry) : Prop :=
  p.2 = entry_id e
  /\ exists future nj pl,
       build_new_extended_job (job e) ch p.1 future = Some nj
       /\ encode (new_job_fields nj) = Some pl
       /\ mkRawFrame MESSAGE_TYPE_NEW_EXTENDED_MINING_JOB true pl ∈ sent w.

Definition pays (s : Sv2Session) (i : MinerIdentity) (e : JobEntry) : Prop :=
  exists id t, build_job_for_payout id t (payout i) (string_bytes (coinbase_tag s))
                 (length (extranonce_prefix (chan s))) (extranonce_size (chan s)) = Ok (job e).

(** The last previous hash announced. *)
Definition announcement (w : Writer) : option bytes :=
  rf_payload <$> last (filter (fun f => rf_type f = MESSAGE_TYPE_MINING_SET_NEW_PREV_HASH) (sent w)).

Definition announced (w : Writer) (tip : Tip) : Prop :=
  exists sp pl,
    announcement w = Some pl /\ encode (prev_hash_fields sp) = Some pl
    /\ stratum_prevhash_to_internal tip.1 = Some (sp_prev_hash sp)
    /\ u32_from_hex tip.2 = Some (nbits sp).

Definition live_on (tip : option Tip) (e : JobEntry) : Prop :=
  superseded_by_clean e = false -> tip = Some (j_prev_hash (job e), j_bits (job e)).

Record sv2_inv (tip : option Tip) (s : Sv2Session) (w : Writer) : Prop := {
  iv_open : channel_open (chan s) = true ->
            setup_done (chan s) = true /\ is_Some (identity (chan s))
            /\ (length (extranonce_prefix (chan s)) + extranonce_size (chan s)
                = extranonce_total s)%nat;
  iv_closed : channel_open (chan s) = false ->
              identity (chan s) = None /\ issued_jobs (work s) = [];
  iv_wire : Forall2 (on_wire (channel_id (chan s)) w) (job_ids (work s)) (issued_jobs (work s));
  iv_ids : exists a, fst <$> job_ids (work s) = nth_id a <$> seq 0 (length (job_ids (work s)))
                     /\ next_job_id (work s) = nth_id a (length (job_ids (work s)));
  iv_pays i : identity (chan s) = Some i -> Forall (pays s i) (issued_jobs (work s));
  iv_depth : (length (issued_jobs (work s)) <= JOB_HISTORY_DEPTH)%nat;
  iv_shares : share_set_wf (share_set s);
  iv_pending : tip_of <$> pending_template (work s) = tip;
  iv_live : Forall (live_on tip) (issued_jobs (work s));
  iv_announced t : tip = Some t -> channel_open (chan s) = true -> announced w t
}.

(** *** Writers and sessions that only differ in what the invariant ignores *)
Definition quiet (w w' : Writer) : Prop :=
  exists fs, sent w' = sent w ++ fs
    /\ Forall (fun f => rf_type f <> MESSAGE_TYPE_MINING_SET_NEW_PREV_HASH) fs.

Lemma ch_quiet_refl w : quiet w w.
Proof. exists []. by rewrite app_nil_r. Qed.

Lemma ch_quiet_trans w w' w'' : quiet w w' -> quiet w' w'' -> quiet w w''.
Proof.
  intros (fs & E & F) (fs' & E' & F'). exists (fs ++ fs').
  rewrite E', E, app_assoc. split; [done|]. by apply Forall_app.
Qed.

Lemma send_sent w ty c p :
  let '(ok, w') := send w ty c p in
  sent w' = if ok then sent w ++ [mkRawFrame ty c p] else sent w.
Proof. unfold send. by destruct (writes_left w) as [[|n]|]. Qed.

Lemma send_quiet w ty c p :
  ty <> MESSAGE_TYPE_MINING_SET_NEW_PREV_HASH -> quiet w (send w ty c p).2.
Proof.
  intros Hty. pose proof (send_sent w ty c p) as E. destruct (send w ty c p) as [[|] w']; cbn.
  - eexists. split; [exact E|]. by apply Forall_singleton.
  - exists []. by rewrite app_nil_r.
Qed.

Lemma respond_spec s st w ty c p what :
  ty <> MESSAGE_TYPE_MINING_SET_NEW_PREV_HASH ->
  let '(_, s', st', w') := respond s st w ty c p what in s' = s /\ st' = st /\ quiet w w'.
Proof.
  intros Hty. unfold respond. destruct p as [p|]; [|by split; [|split; [|apply ch_quiet_refl]]].
  pose proof (send_quiet w ty c p Hty) as Hq. by destruct (send w ty c p) as [[|] w'].
Qed.

Lemma quiet_wire ch w w' p e : quiet w w' -> on_wire ch w p e -> on_wire ch w' p e.
Proof.
  intros (fs & E & _) (Hid & fu & nj & pl & Hb & He & Hin).
  split; [done|]. exists fu, nj, pl. rewrite E. set_solver.
Qed.

Lemma quiet_announcement w w' : quiet w w' -> announcement w' = announcement w.
Proof.
  intros (fs & E & F). unfold announcement. rewrite E, filter_app.
  replace (filter _ fs) with (@nil RawFrame); [by rewrite app_nil_r|].
  symmetry. clear E. induction F as [|f fs Hf _ IH]; [done|].
  rewrite filter_cons_False by done. exact IH.
Qed.

Definition same_core (s s' : Sv2Session) : Prop :=
  chan s' = chan s /\ work s' = work s /\ extranonce_total s' = extranonce_total s
  /\ coinbase_tag s' = coinbase_tag s /\ network s' = network s.

Lemma ch_same_core_refl s : same_core s s.
Proof. by repeat split. Qed.

Lemma ch_same_core_trans s s' s'' : same_core s s' -> same_core s' s'' -> same_core s s''.
Proof. unfold same_core. intuition congruence. Qed.

Lemma inv_core tip s w s' w' :
  sv2_inv tip s w -> same_core s s' -> share_set_wf (share_set s') -> quiet w w' ->
  sv2_inv tip s' w'.
Proof.
  intros [] (Ec & Ew & Et & Eg & En) Hs Q.
  split; rewrite ?Ec, ?Ew, ?Et; try done.
  - eapply Forall2_impl; [done|]. intros p e. by apply quiet_wire.
  - unfold pays in *. by rewrite Ec, Eg.
  - intros t Ht Hn. unfold announced. rewrite (quiet_announcement w w' Q). by apply iv_announced0.
Qed.

(** *** Handlers that leave the core alone *)
Lemma ch_reject_share_core s st r env :
  let '(_, s', _) := reject_share s st r env in same_core s s' /\ share_set s' = share_set s.
Proof. unfold reject_share. by destruct (record_rejected _ _ _ _ _) as [[??] ?]. Qed.

Lemma ch_reject_with_core s st w seq r code env :
  let '(_, s', _, w') := reject_with s st w seq r code env in
  same_core s s' /\ share_set s' = share_set s /\ quiet w w'.
Proof.
  unfold reject_with. pose proof (ch_reject_share_core s st r env) as Hc.
  destruct (reject_share s st r env) as [[over s1] st1]. destruct Hc as [Hc Hs].
  destruct over; [by split; [|split; [|apply ch_quiet_refl]]|].
  pose proof (respond_spec s1 st1 w MESSAGE_TYPE_SUBMIT_SHARES_ERROR true
    (submit_shares_error (channel_id (chan s1)) seq code) "SubmitSharesError" ltac:(done)) as Hr.
  unfold reject. destruct (respond _ _ _ _ _ _ _) as [[[? ?] ?] ?]. by destruct Hr as (-> & _ & ?).
Qed.

Lemma ch_accept_share_core s st wk hd jd env :
  let '(s', _) := accept_share s st wk hd jd env in same_core s s' /\ share_set s' = share_set s.
Proof. unfold accept_share. by destruct (Credit.credit _ _ _ _ _). Qed.

Lemma accept_core s st w seq :
  let '(_, s', _, w') := accept s st w seq in s' = s /\ quiet w w'.
Proof.
  pose proof (respond_spec s st w MESSAGE_TYPE_SUBMIT_SHARES_SUCCESS true
    (submit_shares_success (channel_id (chan s)) seq (difficulty s)) "SubmitSharesSuccess" ltac:(done)) as Hr.
  unfold accept. destruct (respond _ _ _ _ _ _ _) as [[[? ?] ?] ?]. by destruct Hr as (-> & _ & ?).
Qed.

(** A submission records at most one key. *)
Definition recorded (k k' : ShareSet) : Prop := k' = k \/ exists key, k' = insert_key k key.

Lemma recorded_wf k k' : share_set_wf k -> recorded k k' -> share_set_wf k'.
Proof. intros Hk [->|[key ->]]; [done | by apply insert_key_queue]. Qed.

Lemma ch_handle_submit_core s st w payload env :
  let '(_, s', _, w') := handle_submit s st w payload env in
  same_core s s' /\ recorded (share_set s) (share_set s') /\ quiet w w'.
Proof.
  unfold handle_submit.
  assert (same_core s s /\ recorded (share_set s) (share_set s) /\ quiet w w) as Hid
    by (split; [done|]; split; [by left | apply ch_quiet_refl]).
  destruct (negb _); [exact Hid|].
  destruct (decode_submit_extended payload) as [m|]; [|exact Hid].
  assert (forall r code,
    let '(_, s', _, w') := reject_with s st w (sequence_number m) r code env in
    same_core s s' /\ recorded (share_set s) (share_set s') /\ quiet w w') as Hrej.
  { intros r code. pose proof (ch_reject_with_core s st w (sequence_number m) r code env) as Hr.
    destruct (reject_with _ _ _ _ _ _ _) as [[[? s'] ?] w']. destruct Hr as (Hc' & Hk' & Hq).
    split; [done|]. split; [by left | done]. }
  destruct (negb _); [apply Hrej|].
  destruct (resolve_job _ _) as [entry|]; [|apply Hrej].
  destruct (contains _ _); [apply Hrej|].
  set (v := validate_share_no_dedup _ _ _ _ _ _).
  set (key := share_key_of (job entry) m).
  assert (forall hd st3, let '(s2, _) := accept_share (set_shares s (insert_key (share_set s) key)) st
            (default "?" (stats_worker s)) hd (Jobs.difficulty entry) env in
    let '(_, s', _, w') := accept s2 st3 w (sequence_number m) in
    same_core s s' /\ recorded (share_set s) (share_set s') /\ quiet w w') as Hacc.
  { intros hd st3. pose proof (ch_accept_share_core (set_shares s (insert_key (share_set s) key)) st
      (default "?" (stats_worker s)) hd (Jobs.difficulty entry) env) as Ha.
    destruct (accept_share _ _ _ _ _ _) as [s2 ?]. destruct Ha as [Hc Hk].
    pose proof (accept_core s2 st3 w (sequence_number m)) as Hw.
    destruct (accept _ _ _ _) as [[[? s'] ?] w']. destruct Hw as [-> Hq].
    split; [exact Hc|]. split; [|done]. right. by exists key. }
  destruct (negb (Session.validation_joins env)); [exact Hid|].
  destruct v as [[? hd ?|hd ? hash]|e]; cbn [is_ok].
  - specialize (Hacc hd). destruct (accept_share _ _ _ _ _ _) as [s2 st2]. apply Hacc.
  - specialize (Hacc hd). destruct (accept_share _ _ _ _ _ _) as [s2 st2]. apply Hacc.
  - apply Hrej.
Qed.

(** *** A job is pushed *)
Lemma send_job_true s w t future env s' w' :
  send_job s w t future env = (true, s', w') ->
  exists i j nj p,
    identity (chan s) = Some i
    /\ build_job_for_payout (Session.fresh_job_id env) t (payout i) (string_bytes (coinbase_tag s))
         (length (extranonce_prefix (chan s))) (extranonce_size (chan s)) = Ok j
    /\ build_new_extended_job j (channel_id (chan s)) (next_job_id (work s)) future = Some nj
    /\ encode (new_job_fields nj) = Some p
    /\ s' = set_issued (assign_job_id s (job_id j)).2
              (issue (issued_jobs (work s)) j future (difficulty s) (Session.now env))
    /\ let f1 := mkRawFrame MESSAGE_TYPE_NEW_EXTENDED_MINING_JOB true p in
       if future
       then exists sp p2, build_set_new_prev_hash j (channel_id (chan s)) (next_job_id (work s)) = Some sp
              /\ encode (prev_hash_fields sp) = Some p2
              /\ sent w' = sent w ++ [f1; mkRawFrame MESSAGE_TYPE_MINING_SET_NEW_PREV_HASH true p2]
       else sent w' = sent w ++ [f1].
Proof.
  unfold send_job. destruct (identity (chan s)) as [i|]; [|done].
  destruct (build_job_for_payout _ _ _ _ _ _) as [j|] eqn:Ej; [|done].
  unfold assign_job_id. cbv zeta.
  destruct (build_new_extended_job _ _ _ _) as [nj|] eqn:En; [|done]. cbn [mbind option_bind].
  destruct (encode (new_job_fields nj)) as [p|] eqn:Ep; [|done].
  pose proof (send_sent w MESSAGE_TYPE_NEW_EXTENDED_MINING_JOB true p) as S1.
  destruct (send w _ true p) as [[|] w1]; [|done]. cbn [negb].
  intros Hr. exists i, j, nj, p. do 4 (split; [done|]).
  destruct future.
  - destruct (build_set_new_prev_hash _ _ _) as [sp|] eqn:Es; [|done]. cbn [mbind option_bind] in Hr.
    destruct (encode (prev_hash_fields sp)) as [p2|] eqn:Ep2; [|done].
    pose proof (send_sent w1 MESSAGE_TYPE_MINING_SET_NEW_PREV_HASH true p2) as S2.
    destruct (send w1 _ true p2) as [[|] w2]; [|done]. injection Hr as <- <-.
    split; [done|]. exists sp, p2. do 2 (split; [done|]). rewrite S2, S1, <- app_assoc. done.
  - by injection Hr as <- <-.
Qed.

Definition trim {A} (l : list A) : list A :=
  if (JOB_HISTORY_DEPTH <=? length l)%nat then tail l else l.

Lemma drop_snoc_trim {A} (l : list A) x :
  (length l <= JOB_HISTORY_DEPTH)%nat ->
  drop (length (l ++ [x]) - JOB_ID_CAP) (l ++ [x]) = trim l ++ [x].
Proof.
  intros Hl. unfold trim, JOB_ID_CAP, JOB_HISTORY_DEPTH in *. rewrite length_app. cbn [length].
  destruct (Nat.leb_spec 16 (length l)).
  - replace (length l + 1 - 16)%nat with 1%nat by lia. destruct l; [cbn in *; lia|].
    cbn [app skipn tail]. by rewrite drop_0.
  - by replace (length l + 1 - 16)%nat with 0%nat by lia.
Qed.

Lemma Forall2_trim {A B} (R : A -> B -> Prop) l k : Forall2 R l k -> Forall2 R (trim l) (trim k).
Proof.
  intros HF. unfold trim. rewrite (Forall2_length _ _ _ HF).
  destruct (_ <=? _)%nat; [|done]. by destruct HF.
Qed.

Lemma Forall_trim {A} (P : A -> Prop) l : Forall P l -> Forall P (trim l).
Proof. intros HF. unfold trim. destruct (_ <=? _)%nat; [|done]. by destruct HF. Qed.

Lemma issue_trim entries j clean d now :
  issue entries j clean d now
  = trim (if clean then supersede <$> entries else entries) ++ [mkJobEntry j now false d].
Proof. done. Qed.

(** The identifiers stay a run of the counter. *)
Lemma ids_snoc a (ids : list (Z * string)) e :
  fst <$> ids = nth_id a <$> seq 0 (length ids) -> (length ids <= JOB_HISTORY_DEPTH)%nat ->
  let ids' := trim ids ++ [(nth_id a (length ids), e)] in
  exists b, fst <$> ids' = nth_id b <$> seq 0 (length ids')
            /\ nth_id a (S (length ids)) = nth_id b (length ids').
Proof.
  intros E Hl. unfold trim, JOB_HISTORY_DEPTH in *.
  destruct (Nat.leb_spec 16 (length ids)) as [H16|].
  - assert (exists x l, ids = x :: l) as (x & l & ->) by (destruct ids; [cbn in *; lia | eauto]).
    cbn [tail length] in *. cbv zeta. exists (a + 1).
    assert (forall k, nth_id a (S k) = nth_id (a + 1) k) as Hs
      by (intros k; unfold nth_id; do 2 f_equal; lia).
    rewrite length_app. cbn [length]. rewrite Nat.add_1_r, seq_S, fmap_app. cbn.
    split; [|apply Hs]. rewrite fmap_app. cbn. f_equal; [|by rewrite Hs].
    cbn in E. injection E as _ E. rewrite E, <- seq_shift. unfold fmap.
    rewrite <- list_fmap_compose. apply list_fmap_ext. intros; cbn; apply Hs.
  - cbv zeta. exists a. rewrite length_app. cbn [length]. rewrite Nat.add_1_r. split; [|done].
    rewrite seq_S, !fmap_app, E. done.
Qed.

Lemma on_wire_supersede ch w p e : on_wire ch w p e -> on_wire ch w p (supersede e).
Proof. done. Qed.

Lemma Forall_marked (P : JobEntry -> Prop) (clean : bool) entries :
  (forall e, P e -> P (supersede e)) -> Forall P entries ->
  Forall P (if clean then supersede <$> entries else entries).
Proof.
  intros HP HF. destruct clean; [|done]. apply Forall_fmap. eapply Forall_impl; [exact HF|]. done.
Qed.

Lemma wire_marked ch w ids (clean : bool) entries :
  Forall2 (on_wire ch w) ids entries ->
  Forall2 (on_wire ch w) ids (if clean then supersede <$> entries else entries).
Proof.
  intros HF. destruct clean; [|done]. apply Forall2_fmap_r. eapply Forall2_impl; [exact HF|]. done.
Qed.

(** The frames of a push: the job is on the wire, and the announcement is the
    new one or the old one. *)
Lemma pushed_frames w w' f1 rest :
  rf_type f1 = MESSAGE_TYPE_NEW_EXTENDED_MINING_JOB -> sent w' = sent w ++ f1 :: rest ->
  f1 ∈ sent w' /\ (forall ch p e, on_wire ch w p e -> on_wire ch w' p e)
  /\ (rest = [] -> announcement w' = announcement w)
  /\ (forall f2, rest = [f2] -> rf_type f2 = MESSAGE_TYPE_MINING_SET_NEW_PREV_HASH ->
        announcement w' = Some (rf_payload f2)).
Proof.
  intros Hf E. split; [rewrite E; set_solver|]. split.
  { intros ch p e (Hid & fu & nj & pl & Hb & He & Hin). split; [done|]. exists fu, nj, pl.
    rewrite E. set_solver. }
  unfold announcement. rewrite E, filter_app, filter_cons_False by (rewrite Hf; done). split.
  - intros ->. by rewrite app_nil_r.
  - intros f2 -> Hf2. rewrite filter_cons_True by done. cbn. by rewrite last_snoc.
Qed.

(** The template pending meanwhile does not matter. *)
Lemma send_job_inv tip s q w t future env s' w' :
  sv2_inv tip s w -> channel_open (chan s) = true ->
  send_job (set_pending s q) w t future env = (true, s', w') -> (future = false -> tip = Some (tip_of t)) ->
  sv2_inv (Some (tip_of t)) (set_pending s' (Some t)) w'.
Proof.
  intros I Ho Hs Htip. destruct (send_job_true _ _ _ _ _ _ _ Hs)
    as (i & j & nj & p & Hi & Hj & Hn & Hp & -> & Hw).
  cbn [chan work set_pending set_work job_ids next_job_id issued_jobs coinbase_tag difficulty]
    in Hi, Hj, Hn, Hw |- *.
  destruct I as [Iop Icl Iwire (a & Ids & Inext) Ipay Idep Ish Ipend Ilive Iann].
  pose proof (Forall2_length _ _ _ Iwire) as Hlen.
  destruct (build_job_for_payout_fields _ _ _ _ _ _ _ Hj) as (Eprev & _ & Ebits & _).
  set (f1 := mkRawFrame MESSAGE_TYPE_NEW_EXTENDED_MINING_JOB true p) in *.
  assert (exists rest, sent w' = sent w ++ f1 :: rest
            /\ (if future then exists sp p2,
                   build_set_new_prev_hash j (channel_id (chan s)) (next_job_id (work s)) = Some sp
                   /\ encode (prev_hash_fields sp) = Some p2
                   /\ rest = [mkRawFrame MESSAGE_TYPE_MINING_SET_NEW_PREV_HASH true p2]
                else rest = [])) as (rest & Es & Hrest).
  { cbv zeta in Hw. destruct future.
    - destruct Hw as (sp & p2 & ? & ? & E). eexists. split; [exact E|]. by exists sp, p2.
    - by exists []. }
  destruct (pushed_frames w w' f1 rest eq_refl Es) as (Hin & Hmono & Hkeep & Hnew).
  unfold assign_job_id. cbv zeta.
  cbn [chan work set_pending set_work job_ids next_job_id].
  rewrite drop_snoc_trim by (by rewrite Hlen).
  split; cbn [chan work set_pending set_issued set_work snd job_ids next_job_id issued_jobs
              pending_template share_set extranonce_total]; try done.
  - by rewrite Ho.
  - rewrite issue_trim. apply Forall2_app.
    + apply Forall2_trim, wire_marked. eapply Forall2_impl; [exact Iwire|]. intros; by apply Hmono.
    + repeat constructor. by exists future, nj, p.
  - rewrite Inext. destruct (ids_snoc a (job_ids (work s)) (job_id j) Ids) as (b & Eb & En);
      [by rewrite Hlen|]. exists b. split; [exact Eb|]. rewrite <- En. apply nth_id_next.
  - intros i' Hi'. rewrite issue_trim. apply Forall_app. split.
    + apply Forall_trim, Forall_marked; [done|]. by apply Ipay.
    + apply Forall_singleton. rewrite Hi in Hi'. injection Hi' as <-.
      by exists (Session.fresh_job_id env), t.
  - by apply length_issue.
  - rewrite issue_trim. apply Forall_app. split.
    + apply Forall_trim. destruct future; [by apply Forall_fmap, Forall_true|].
      by rewrite <- Htip.
    + apply Forall_singleton. intros _. cbn. by rewrite Eprev, Ebits.
  - intros t0 [= <-] _. destruct future.
    + destruct Hrest as (sp & p2 & Hsp & Hp2 & Er). exists sp, p2.
      split; [by apply (Hnew _ Er)|]. split; [done|].
      unfold build_set_new_prev_hash in Hsp. rewrite Eprev, Ebits in Hsp. cbn [tip_of fst snd].
      destruct (stratum_prevhash_to_internal _) as [prev|]; [|done]. cbn in Hsp.
      destruct (u32_from_hex _) as [bits|]; [|done]. cbn in Hsp. by injection Hsp as <-.
    + unfold announced. rewrite (Hkeep Hrest). apply Iann; [by apply Htip | done].
Qed.

(** *** The other handlers, when the session goes on *)
Definition inv_if (tip : option Tip) (x : Step) : Prop :=
  let '(flow, s, _, w) := x in match flow with Continue => sv2_inv tip s w | _ => True end.

Lemma respond_inv tip s st w ty c p what :
  ty <> MESSAGE_TYPE_MINING_SET_NEW_PREV_HASH -> sv2_inv tip s w ->
  inv_if tip (respond s st w ty c p what).
Proof.
  intros Hty I. pose proof (respond_spec s st w ty c p what Hty) as Hr. unfold inv_if.
  destruct (respond _ _ _ _ _ _ _) as [[[[] s'] st'] w']; try done. destruct Hr as (-> & _ & Hq).
  eapply inv_core; [done | apply ch_same_core_refl | apply I | done].
Qed.

(** Before the channel opens, what the channel says does not matter. *)
Lemma closed_inv tip s w c :
  sv2_inv tip s w -> channel_open (chan s) = false -> channel_open c = false -> identity c = None ->
  sv2_inv tip (set_chan s c) w.
Proof.
  intros [Iop Icl Iwire Iids Ipay Idep Ish Ipend Ilive Iann] Ho Hc Hi.
  destruct (Icl Ho) as [_ Hj].
  split; cbn [chan work set_chan extranonce_total share_set]; try done.
  - by rewrite Hc.
  - rewrite Hj in *. by inversion Iwire.
  - by rewrite Hi.
  - by rewrite Hc.
Qed.

Lemma handle_setup_inv tip s st w payload :
  sv2_inv tip s w -> inv_if tip (handle_setup_connection s st w payload).
Proof.
  intros I. unfold handle_setup_connection.
  destruct (decode_setup_connection payload) as [setup|]; [|done].
  destruct (protocol setup); [|done..]. destruct (_ <? _); [done|].
  destruct (negb _); [done|]. apply respond_inv; [done|].
  destruct I. split; cbn [chan work set_chan extranonce_total share_set setup_done identity
    channel_open channel_id extranonce_prefix extranonce_size]; try done.
  intros Ho. destruct (iv_open0 Ho) as (_ & ? & ?). done.
Qed.

(** The channel once it is open, before any job. *)
Definition opened (s : Sv2Session) (user : string) (i : MinerIdentity) (id : Z) (prefix : bytes)
    (size : nat) : Sv2Session :=
  set_chan s (mkChannel (Some user) (Some i) true true id prefix size).

Lemma opened_inv tip s w user i id prefix size :
  sv2_inv tip s w -> channel_open (chan s) = false ->
  (length prefix + size = extranonce_total s)%nat ->
  sv2_inv None (set_pending (opened s user i id prefix size) None) w.
Proof.
  intros [Iop Icl Iwire Iids Ipay Idep Ish Ipend Ilive Iann] Ho Hl.
  destruct (Icl Ho) as [_ Hj].
  split; cbn [chan work opened set_chan set_pending set_work job_ids issued_jobs extranonce_total
    share_set channel_open setup_done identity extranonce_prefix extranonce_size channel_id]; try done.
  - rewrite Hj in *. by inversion Iwire.
  - intros i' _. by rewrite Hj.
  - by rewrite Hj.
Qed.

Lemma length_generate c n : length (Session.generate_extranonce1 c n) = n.
Proof.
  unfold Session.generate_extranonce1.
  destruct (Nat.leb_spec n 8).
  - rewrite length_drop, length_to_be_bytes. lia.
  - rewrite length_app, repeat_length, length_to_be_bytes. lia.
Qed.

Lemma set_pending_id s q : pending_template (work s) = q -> set_pending s q = s.
Proof. intros <-. by destruct s as [? []]. Qed.

Lemma send_job_pending s w t future env :
  pending_template (work (send_job s w t future env).1.2) = pending_template (work s).
Proof. unfold send_job, assign_job_id. by repeat case_match; simplify_eq/=. Qed.

Lemma open_channel_inv tip s st w open i is_new env :
  sv2_inv tip s w -> channel_open (chan s) = false -> setup_done (chan s) = true ->
  inv_if tip (open_channel s st w open i is_new env).
Proof.
  intros I Ho Hset. unfold open_channel. cbv zeta.
  set (granted := Nat.max _ 1).
  destruct (Nat.ltb_spec (extranonce_total s) granted) as [|Hg]; [done|].
  set (prefix := Session.generate_extranonce1 _ _).
  assert (length prefix + granted = extranonce_total s)%nat as Hl
    by (unfold prefix; rewrite length_generate; lia).
  destruct (open_extended_success _ _ _ _ _) as [p|]; [|done].
  pose proof (send_quiet w MESSAGE_TYPE_OPEN_EXTENDED_MINING_CHANNEL_SUCCES false p ltac:(done)) as Hq.
  destruct (send w _ false p) as [[|] w1]; [|done]. cbn [negb snd chan set_chan worker identity
    setup_done channel_id extranonce_prefix extranonce_size] in *.
  rewrite Hset.
  set (s2 := opened s (user_identity open) i (new_channel_id env) prefix granted).
  match goal with |- context [pending_template (work ?x)] => change x with s2 end.
  pose proof (opened_inv tip s w (user_identity open) i (new_channel_id env) prefix granted I Ho Hl) as I0.
  fold s2 in I0.
  assert (sv2_inv None (set_pending s2 None) w1) as I1
    by (eapply inv_core; [exact I0 | apply ch_same_core_refl | apply I0 | exact Hq]).
  pose proof (iv_pending _ _ _ I) as Epend.
  change (pending_template (work s2)) with (pending_template (work s)).
  destruct (pending_template (work s)) as [t|] eqn:Et; cbn in Epend.
  - pose proof (send_job_pending s2 w1 t true (base env)) as Ep.
    destruct (send_job s2 w1 t true (base env)) as [[[|] s3] w2] eqn:Ej; [|done].
    change (pending_template (work s3) = pending_template (work s)) in Ep.
    rewrite <- Epend. cbn [inv_if].
    rewrite <- (set_pending_id s3 (Some t)) by (by rewrite Ep).
    apply (send_job_inv None (set_pending s2 None) (Some t) w1 t true (base env));
      [exact I1 | done | | done].
    rewrite <- Ej. f_equal. unfold s2. destruct s as [? [? ? ? ?]]. cbn in Et. by subst.
  - cbn [inv_if]. rewrite <- Epend. rewrite set_pending_id in I1; [exact I1 | exact Et].
Qed.

Lemma handle_open_inv tip s st w payload env :
  sv2_inv tip s w -> inv_if tip (handle_open_extended s st w payload env).
Proof.
  intros I. unfold handle_open_extended.
  destruct (setup_done (chan s)) eqn:Hset; [|done]. cbn [negb].
  destruct (decode_open_extended payload) as [open|]; [|done].
  destruct (check_worker_name _ _); [|by apply respond_inv].
  destruct (parse _ _ _) as [i|]; [|by apply respond_inv].
  destruct (channel_open (chan s)) eqn:Ho; [by apply respond_inv|].
  set (is_new := negb _).
  destruct (take_identity s st is_new) as [[[s1 st1]|] g] eqn:Ei; [|done].
  assert (sv2_inv tip s1 w /\ channel_open (chan s1) = false /\ setup_done (chan s1) = true)
    as (I1 & Ho1 & Hset1).
  { unfold take_identity in Ei. destruct is_new; [|by injection Ei as <- <- <-].
    destruct (record_new_authorization _) as [[|] g']; [|done]. injection Ei as <- <- <-.
    split; [|done].
    set (c := mkChannel None None _ _ _ _ _).
    pose proof (closed_inv tip s w c I Ho Ho eq_refl) as I1.
    eapply inv_core; [exact I1 | by repeat split | apply I | apply ch_quiet_refl]. }
  destruct (_ <? _)%nat.
  - cbn [inv_if]. destruct (open_channel_error_extranonce _) as [p|]; [|done].
    eapply inv_core; [exact I1 | apply ch_same_core_refl | apply I1 | by apply send_quiet].
  - by apply open_channel_inv.
Qed.

Lemma handle_message_inv tip s st w ty payload env :
  sv2_inv tip s w -> inv_if tip (handle_message s st w ty payload env).1.
Proof.
  intros I. unfold handle_message. destruct (try_consume _ _ _) as [ok r].
  set (s1 := set_guard s _ _ _).
  assert (sv2_inv tip s1 w) as I1
    by (eapply inv_core; [exact I | by repeat split | apply I | apply ch_quiet_refl]).
  destruct ok; [|done]. cbn [negb fst].
  destruct (_ =? _); [by apply handle_setup_inv|].
  destruct (_ =? _); [by apply handle_open_inv|].
  destruct (_ =? _); [|done].
  pose proof (ch_handle_submit_core s1 st w payload (base env)) as Hc.
  unfold inv_if. destruct (handle_submit _ _ _ _ _) as [[[[] s'] st'] w']; try done.
  destruct Hc as (Hc & Hs & Hq).
  eapply inv_core; [done..| |done]. by eapply recorded_wf; [apply I1|].
Qed.

Lemma ch_on_broadcast_inv tip s w b env tip' s' w' :
  sv2_inv tip s w -> follows tip (NewJob b) tip' ->
  on_broadcast s w b env = (true, s', w') -> sv2_inv tip' s' w'.
Proof.
  intros I [-> Ht]. unfold on_broadcast. cbv zeta.
  set (s1 := if Engine.b_clean b then _ else s).
  assert (sv2_inv tip s1 w) as I1.
  { unfold s1. destruct (Engine.b_clean b); [|done].
    eapply inv_core; [done | by repeat split | by apply share_set_clear_wf, I | apply ch_quiet_refl]. }
  destruct (channel_open (chan s1)) eqn:Ho.
  - destruct (send_job s1 w _ _ _) as [[[|] s2] w1] eqn:Es; [|done]. intros [= <- <-].
    rewrite <- (set_pending_id s1 _ eq_refl) in Es. by eapply send_job_inv.
  - intros [= <- <-]. destruct I1 as [Iop Icl Iwire Iids Ipay Idep Ish Ipend Ilive Iann].
    destruct (Icl Ho) as [_ Hj].
    split; cbn [chan work set_pending set_work job_ids issued_jobs pending_template]; try done.
    + by rewrite Hj.
    + by rewrite Ho.
Qed.

Lemma retarget_inv tip s st w env s' st' w' :
  sv2_inv tip s w -> retarget_or_end s st w env = Running s' st' w' -> sv2_inv tip s' w'.
Proof.
  intros I. unfold retarget_or_end, apply_retarget.
  destruct (negb _); [by intros [= <- <- <-]|].
  destruct (check_retarget _ _ _) as [[[d|] v]|]; [| |done].
  - destruct (set_target _ _) as [p|]; [|done].
    pose proof (send_quiet w MESSAGE_TYPE_SET_TARGET true p ltac:(done)) as Hq.
    destruct (send w _ true p) as [[|] w1]; [|done]. intros [= <- <- <-].
    eapply inv_core; [exact I | by repeat split | apply I | exact Hq].
  - intros [= <- <- <-]. eapply inv_core; [exact I | by repeat split | apply I | apply ch_quiet_refl].
Qed.

Lemma ch_run_step_inv tip s st w e env env' tip' s' st' w' :
  sv2_inv tip s w -> follows tip e tip' -> run_step s st w e env env' = Running s' st' w' ->
  sv2_inv tip' s' w'.
Proof.
  intros I Hf. destruct e; cbn [run_step]; try done.
  - cbn in Hf. subst tip'. destruct (check_message_size _ _); [|done].
    pose proof (handle_message_inv tip s st w msg_type payload env I) as Hm.
    destruct (handle_message _ _ _ _ _ _) as [[[[[] s1] st1] w1] ban]; [|done..].
    by apply retarget_inv.
  - destruct (on_broadcast s w b env) as [[[|] s1] w1] eqn:Eb; [|done].
    apply retarget_inv. by eapply ch_on_broadcast_inv.
Qed.

Lemma sv2_new_inv tag d prefix n1 n2 net vcfg sec sid t w tpl :
  sv2_inv (tip_of <$> tpl) (session_start (sv2_new tag d prefix n1 n2 net vcfg sec sid t) tpl) w.
Proof.
  destruct tpl; (split; cbn; try done; [by exists 0 | unfold JOB_HISTORY_DEPTH; lia | apply share_set_new_wf]).
Qed.

Lemma tracked_inv tag d prefix n1 n2 net vcfg sec sid t w0 tip s w :
  tracked (sv2_new tag d prefix n1 n2 net vcfg sec sid t) w0 tip s w -> sv2_inv tip s w.
Proof. induction 1; [apply sv2_new_inv | by eapply ch_run_step_inv]. Qed.

(** *** The templates the engine hands a channel *)

(** The last template seen, and the job an event may have the session push. *)
Definition latest (t : option JobTemplate) (e : Event) : option JobTemplate :=
  match e with NewJob b => Some (Engine.b_template b) | _ => t end.

Definition on_offer (t : option JobTemplate) (e : Event) (env : Env) : list (string * JobTemplate) :=
  match latest t e with Some x => [(Session.fresh_job_id (base env), x)] | None => [] end.

(** A connection that follows the broadcasts, with the record of the jobs it
    pushed (a push takes the next V2 identifier): the identifier each got from
    the engine and the template the engine had on offer. *)
Inductive handed (s0 : Sv2Session) (w0 : Writer)
  : option Tip -> list (string * JobTemplate) -> option JobTemplate -> Sv2Session -> Writer -> Prop :=
| handed_start t : handed s0 w0 (tip_of <$> t) [] t (session_start s0 t) w0
| handed_step tip log t s st w e env env' tip' s' st' w' :
    handed s0 w0 tip log t s w -> follows tip e tip' ->
    run_step s st w e env env' = Running s' st' w' ->
    handed s0 w0 tip'
      (if next_job_id (work s') =? next_job_id (work s) then log else log ++ on_offer t e env)
      (latest t e) s' w'.

Lemma handed_tracked s0 w0 tip log t s w : handed s0 w0 tip log t s w -> tracked s0 w0 tip s w.
Proof. induction 1; [apply tracked_start | by eapply tracked_step]. Qed.

Lemma tracked_handed s0 w0 tip s w : tracked s0 w0 tip s w -> exists log t, handed s0 w0 tip log t s w.
Proof.
  induction 1 as [t|tip s st w e env env' tip' s' st' w' _ (log & t & IH)]; [exists [], t; apply handed_start|].
  do 2 eexists. by eapply handed_step.
Qed.

(** What a job of the channel depends on besides its template. *)
Definition terms (s : Sv2Session) : option MinerIdentity * nat * nat * string :=
  (identity (chan s), length (extranonce_prefix (chan s)), extranonce_size (chan s), coinbase_tag s).

Definition same_terms (s s' : Sv2Session) : Prop :=
  issued_jobs (work s) = [] \/ terms s' = terms s.

(** The history is kept, or one job of the offer [o] is added to it. *)
Inductive grows (o : list (string * JobTemplate)) (s s' : Sv2Session) : Prop :=
| grows_kept :
    issued_jobs (work s') = issued_jobs (work s) -> next_job_id (work s') = next_job_id (work s) ->
    same_terms s s' -> grows o s s'
| grows_by id x i j clean d tm :
    o = [(id, x)] -> identity (chan s') = Some i ->
    build_job_for_payout id x (payout i) (string_bytes (coinbase_tag s'))
      (length (extranonce_prefix (chan s'))) (extranonce_size (chan s')) = Ok j ->
    issued_jobs (work s') = issue (issued_jobs (work s)) j clean d tm ->
    next_job_id (work s') <> next_job_id (work s) -> same_terms s s' -> grows o s s'.

Lemma grows_core o s s' : same_core s s' -> grows o s s'.
Proof.
  intros (Ec & Ew & _ & Eg & _). apply grows_kept; rewrite ?Ew; [done..|].
  right. unfold terms. by rewrite Ec, Eg.
Qed.

Lemma grows_from o s s1 s2 :
  issued_jobs (work s1) = issued_jobs (work s) -> next_job_id (work s1) = next_job_id (work s) ->
  same_terms s s1 -> grows o s1 s2 -> grows o s s2.
Proof.
  intros Ei En Ht G. assert (same_terms s1 s2 -> same_terms s s2) as Htrans.
  { unfold same_terms in *. rewrite Ei. intuition congruence. }
  destruct G as [E N T|id x i j clean d tm Eo Hi Hb E N T].
  - apply grows_kept; [congruence..|]. by apply Htrans.
  - eapply grows_by; [done..| |by rewrite <- En|by apply Htrans]. by rewrite <- Ei.
Qed.

Lemma grows_to o s s1 s2 :
  grows o s s1 -> issued_jobs (work s2) = issued_jobs (work s1) ->
  next_job_id (work s2) = next_job_id (work s1) -> chan s2 = chan s1 -> coinbase_tag s2 = coinbase_tag s1 ->
  grows o s s2.
Proof.
  intros G Ei En Ec Eg. assert (terms s2 = terms s1) as Et by (unfold terms; by rewrite Ec, Eg).
  destruct G as [E N T|id x i j clean d tm Eo Hi Hb E N T].
  - apply grows_kept; [congruence..|]. unfold same_terms in *. by rewrite Et.
  - eapply (grows_by _ _ _ id x i j clean d tm); rewrite ?Ec, ?Eg, ?Ei, ?En; try done.
    unfold same_terms in *. by rewrite Et.
Qed.

(** The next identifier is never the last. *)
Lemma next_id_range tip s w : sv2_inv tip s w -> 1 <= next_job_id (work s) < 2 ^ 32.
Proof. intros I. destruct (iv_ids _ _ _ I) as (a & _ & ->). apply nth_id_range. Qed.

Lemma send_job_grows s w t future env s' w' :
  1 <= next_job_id (work s) < 2 ^ 32 -> send_job s w t future env = (true, s', w') ->
  grows [(Session.fresh_job_id env, t)] s s'.
Proof.
  intros Hr Hs. apply send_job_true in Hs as (i & j & nj & p & Hi & Hj & _ & _ & -> & _).
  eapply (grows_by _ _ _ _ _ i j); [done..| | |by right]; cbn.
  - done.
  - unfold wrap32. destruct (Z.eq_dec (next_job_id (work s) + 1) (2 ^ 32)) as [E|].
    + rewrite E, Z.mod_same, Z.eqb_refl by done. lia.
    + rewrite Z.mod_small by lia. destruct (Z.eqb_spec (next_job_id (work s) + 1) 0); lia.
Qed.

(** Before the channel opens there is no job. *)
Lemma closed_terms tip s w s' : sv2_inv tip s w -> channel_open (chan s) = false -> same_terms s s'.
Proof. intros I Ho. left. by apply (iv_closed _ _ _ I Ho). Qed.

(** Inbound messages, the template held being the one on offer. *)
Definition held_offer (s : Sv2Session) (env : Env) : list (string * JobTemplate) :=
  match pending_template (work s) with Some x => [(Session.fresh_job_id (base env), x)] | None => [] end.

Definition grows_if (o : list (string * JobTemplate)) (s : Sv2Session) (x : Step) : Prop :=
  let '(flow, s', _, _) := x in
  match flow with
  | Continue => grows o s s' /\ pending_template (work s') = pending_template (work s)
  | _ => True
  end.

Lemma grows_if_core o s s1 st w : same_core s s1 -> grows_if o s (Continue, s1, st, w).
Proof. intros Hc. split; [by apply grows_core|]. destruct Hc as (_ & -> & _). done. Qed.

Lemma respond_grows o s s1 st w ty c p what :
  ty <> MESSAGE_TYPE_MINING_SET_NEW_PREV_HASH -> same_core s s1 ->
  grows_if o s (respond s1 st w ty c p what).
Proof.
  intros Hty Hc. pose proof (respond_spec s1 st w ty c p what Hty) as Hr. unfold grows_if.
  destruct (respond _ _ _ _ _ _ _) as [[[[] s'] st'] w']; try done. destruct Hr as (-> & _ & _).
  by apply (grows_if_core o s s1 st' w').
Qed.

Lemma open_channel_grows tip s st w open i is_new env :
  sv2_inv tip s w -> channel_open (chan s) = false ->
  grows_if (held_offer s env) s (open_channel s st w open i is_new env).
Proof.
  intros I Ho. unfold open_channel. cbv zeta. pose proof (next_id_range _ _ _ I) as Hr.
  destruct (_ <? _)%nat; [done|]. destruct (open_extended_success _ _ _ _ _) as [p|]; [|done].
  destruct (send w _ false p) as [[|] w1]; [|done]. cbn [negb].
  set (s2 := set_chan (set_chan s _) _).
  assert (forall o s3, grows o s2 s3 -> grows o s s3) as Hfrom
    by (intros o s3; apply grows_from; [done | done | by eapply closed_terms]).
  unfold held_offer. change (pending_template (work s2)) with (pending_template (work s)).
  destruct (pending_template (work s)) as [t|] eqn:Et.
  - pose proof (send_job_pending s2 w1 t true (base env)) as Ep.
    destruct (send_job s2 w1 t true (base env)) as [[[|] s3] w2] eqn:Es; [|done].
    split; [|exact Ep]. eapply Hfrom, send_job_grows; [|exact Es]. exact Hr.
  - split; [|done]. apply Hfrom, grows_core, ch_same_core_refl.
Qed.

Lemma handle_open_grows tip s st w payload env :
  sv2_inv tip s w -> grows_if (held_offer s env) s (handle_open_extended s st w payload env).
Proof.
  intros I. unfold handle_open_extended, open_error.
  destruct (negb _); [done|]. destruct (decode_open_extended payload) as [open|]; [|done].
  destruct (check_worker_name _ _); [|by apply respond_grows].
  destruct (parse _ _ _) as [i|]; [|by apply respond_grows].
  destruct (channel_open (chan s)) eqn:Ho; [by apply respond_grows|].
  set (is_new := negb _).
  destruct (take_identity s st is_new) as [[[s1 st1]|] g] eqn:Ei; [|done].
  assert (sv2_inv tip s1 w /\ channel_open (chan s1) = false /\ work s1 = work s)
    as (I1 & Ho1 & Ew).
  { unfold take_identity in Ei. destruct is_new; [|by injection Ei as <- <- <-].
    destruct (record_new_authorization _) as [[|] g']; [|done]. injection Ei as <- <- <-.
    split; [|done].
    set (c := mkChannel None None _ _ _ _ _).
    pose proof (closed_inv tip s w c I Ho Ho eq_refl) as I1.
    eapply inv_core; [exact I1 | by repeat split | apply I | apply ch_quiet_refl]. }
  destruct (_ <? _)%nat.
  - split; [|by rewrite Ew]. apply grows_kept; rewrite ?Ew; [done..|]. by eapply closed_terms.
  - pose proof (open_channel_grows tip s1 st1 w open i is_new env I1 Ho1) as G.
    unfold grows_if in *. destruct (open_channel _ _ _ _ _ _ _) as [[[[] s3] ?] ?]; try done.
    destruct G as [G Ep]. split; [|by rewrite Ep, Ew]. unfold held_offer in *. rewrite <- Ew.
    eapply grows_from; [..|exact G]; [by rewrite Ew.. | by eapply closed_terms].
Qed.

Lemma handle_message_grows tip s st w ty payload env :
  sv2_inv tip s w -> grows_if (held_offer s env) s (handle_message s st w ty payload env).1.
Proof.
  intros I. unfold handle_message. destruct (try_consume _ _ _) as [ok r].
  set (s1 := set_guard s _ _ _).
  assert (sv2_inv tip s1 w) as I1
    by (eapply inv_core; [exact I | by repeat split | apply I | apply ch_quiet_refl]).
  destruct ok; [|done]. cbn [negb fst].
  assert (forall x, grows_if (held_offer s1 env) s1 x -> grows_if (held_offer s env) s x) as Hfrom.
  { intros [[[[] s2] ?] ?]; [|done..]. intros [G Ep]. split; [|done].
    apply (grows_from _ s s1 s2); [done | done | by right | exact G]. }
  apply Hfrom. destruct (_ =? _).
  - unfold handle_setup_connection. destruct (decode_setup_connection payload) as [setup|]; [|done].
    destruct (protocol setup); [|done..]. destruct (_ <? _); [done|]. destruct (negb _); [done|].
    set (s2 := set_chan s1 _). pose proof (respond_spec s2 st w MESSAGE_TYPE_SETUP_CONNECTION_SUCCESS false
      (setup_connection_success (Z.min SV2_PROTOCOL_VERSION (max_version setup))) "SetupConnectionSuccess"
      ltac:(done)) as Hr.
    destruct (respond _ _ _ _ _ _ _) as [[[[] s'] st'] w']; try done. destruct Hr as (-> & _ & _).
    split; [|done]. apply grows_kept; [done | done | by right].
  - destruct (_ =? _); [by eapply handle_open_grows|]. destruct (_ =? _); [|by apply grows_if_core].
    pose proof (ch_handle_submit_core s1 st w payload (base env)) as Hc.
    destruct (handle_submit _ _ _ _ _) as [[[[] s'] st'] w']; try done. by apply grows_if_core, Hc.
Qed.

Lemma retarget_core s st w env s' st' w' :
  retarget_or_end s st w env = Running s' st' w' -> same_core s s'.
Proof.
  unfold retarget_or_end, apply_retarget. destruct (negb _); [by intros [= <- _ _]|].
  destruct (check_retarget _ _ _) as [[[d|] v]|]; [| |done].
  - destruct (set_target _ _) as [p|]; [|done].
    destruct (send w _ true p) as [[|] w1]; [|done]. by intros [= <- _ _].
  - by intros [= <- _ _].
Qed.

Lemma run_step_grows tip s st w e env env' tip' s' st' w' :
  sv2_inv tip s w -> follows tip e tip' -> run_step s st w e env env' = Running s' st' w' ->
  grows (on_offer (pending_template (work s)) e env) s s'
  /\ pending_template (work s') = latest (pending_template (work s)) e.
Proof.
  intros I Hf. pose proof (next_id_range _ _ _ I) as Hr. destruct e; cbn [run_step]; try done.
  - destruct (check_message_size _ _); [|done].
    pose proof (handle_message_grows tip s st w msg_type payload env I) as G.
    destruct (handle_message _ _ _ _ _ _) as [[[[[] s1] st1] w1] ban]; [|done..].
    intros Hs. apply retarget_core in Hs as (Ec & Ew & _ & Eg & _). destruct G as [G Ep].
    split; [|by rewrite Ew]. eapply grows_to; [exact G|by rewrite ?Ew..].
  - unfold on_broadcast. cbv zeta. set (s1 := if Engine.b_clean b then _ else s).
    assert (same_core s s1) as (Ec1 & Ew1 & _ & Eg1 & _) by (unfold s1; by destruct (Engine.b_clean b)).
    assert (forall o s2, grows o s1 s2 -> grows o s s2) as Hfrom.
    { intros o s2. apply grows_from; [by rewrite Ew1.. |]. right. unfold terms. by rewrite Ec1, Eg1. }
    destruct (channel_open (chan s1)).
    + destruct (send_job s1 w _ _ _) as [[[|] s2] w1] eqn:Es; [|done]. intros Hs.
      apply retarget_core in Hs as (Ec & Ew & _ & Eg & _). split; [|by rewrite Ew].
      eapply grows_to; [eapply Hfrom, send_job_grows, Es; by rewrite Ew1|by rewrite ?Ew, ?Ec, ?Eg..].
    + intros Hs. apply retarget_core in Hs as (Ec & Ew & _ & Eg & _). split; [|by rewrite Ew].
      eapply grows_to; [apply Hfrom, grows_core, ch_same_core_refl|by rewrite ?Ew, ?Ec, ?Eg..].
Qed.

(** The jobs of the history are the last ones of the record, in its order, each
    built from the template recorded. *)
Definition from_log (log : list (string * JobTemplate)) (s : Sv2Session) (e : JobEntry) : Prop :=
  exists i id x, identity (chan s) = Some i /\ (id, x) ∈ log
    /\ build_job_for_payout id x (payout i) (string_bytes (coinbase_tag s))
         (length (extranonce_prefix (chan s))) (extranonce_size (chan s)) = Ok (job e).

Record logged (log : list (string * JobTemplate)) (t : option JobTemplate) (s : Sv2Session) : Prop := {
  lg_pending : pending_template (work s) = t;
  lg_jobs : Forall (from_log log s) (issued_jobs (work s));
  lg_order : sublist (entry_id <$> issued_jobs (work s)) log.*1
}.

Lemma from_log_terms log log' s s' e :
  terms s' = terms s -> (forall q, q ∈ log -> q ∈ log') -> from_log log s e -> from_log log' s' e.
Proof.
  intros [= Ei El Es Et] Hl (i & id & x & Hi & Hx & Hb). exists i, id, x.
  rewrite Ei, El, Es, Et. auto.
Qed.

Lemma from_log_same log log' s s' :
  same_terms s s' -> (forall q, q ∈ log -> q ∈ log') -> Forall (from_log log s) (issued_jobs (work s)) ->
  Forall (from_log log' s') (issued_jobs (work s)).
Proof.
  intros [->|Ht] Hl HF; [done|]. eapply Forall_impl; [exact HF|]. intros e. by apply from_log_terms.
Qed.

Lemma trim_sublist {A} (l : list A) : sublist (trim l) l.
Proof. unfold trim. destruct (_ <=? _)%nat; [|done]. destruct l; [done | by constructor]. Qed.

Lemma issue_ids entries j clean d tm :
  sublist (entry_id <$> issue entries j clean d tm) ((entry_id <$> entries) ++ [job_id j]).
Proof.
  rewrite issue_trim, fmap_app. apply sublist_app; [|done].
  transitivity (entry_id <$> (if clean then supersede <$> entries else entries)).
  - apply fmap_sublist, trim_sublist.
  - destruct clean; [|done]. by rewrite <- list_fmap_compose.
Qed.

Lemma grows_logged o log t s s' t' :
  logged log t s -> grows o s s' -> pending_template (work s') = t' ->
  logged (if next_job_id (work s') =? next_job_id (work s) then log else log ++ o) t' s'.
Proof.
  intros [_ Hj Ho] G Hp. destruct G as [E N T|id x i j clean d tm -> Hi Hb E N T].
  - rewrite N, Z.eqb_refl. split; [done| |by rewrite E]. rewrite E. by eapply from_log_same.
  - destruct (Z.eqb_spec (next_job_id (work s')) (next_job_id (work s))) as [|_]; [done|].
    split; [done| |].
    + rewrite E, issue_trim. apply Forall_app. split.
      * apply Forall_trim, Forall_marked; [done|]. eapply from_log_same; [done| |done]. set_solver.
      * apply Forall_singleton. exists i, id, x. set_solver.
    + rewrite E, fmap_app. etransitivity; [apply issue_ids|]. apply sublist_app; [done|].
      destruct (job_of_template _ _ _ _ _ _ _ Hb) as (<- & _). done.
Qed.

Lemma handed_logged tag d prefix n1 n2 net vcfg sec sid t0 w0 tip log t s w :
  handed (sv2_new tag d prefix n1 n2 net vcfg sec sid t0) w0 tip log t s w -> logged log t s.
Proof.
  induction 1 as [t|tip log t s st w e env env' tip' s' st' w' Hh IH Hf Hr]; [by destruct t|].
  apply handed_tracked, tracked_inv in Hh as I.
  destruct (run_step_grows _ _ _ _ _ _ _ _ _ _ _ I Hf Hr) as [G Hp]. rewrite (lg_pending _ _ _ IH) in G, Hp.
  by apply (grows_logged _ _ t).
Qed.

(** *** From identifiers back to jobs *)
Lemma resolve_wire tip s w id e :
  sv2_inv tip s w -> NoDup (entry_id <$> issued_jobs (work s)) -> resolve_job s id = Some e ->
  e ∈ issued_jobs (work s) /\ on_wire (channel_id (chan s)) w (id, entry_id e) e.
Proof.
  intros I Hnd. unfold resolve_job, engine_job_id.
  destruct (list_find _ _) as [[k [id' eid]]|] eqn:Ef; [|done]. cbn.
  apply list_find_Some in Ef as (Hk & Hid & _). cbn in Hid. subst id'. intros Hfind.
  destruct (Forall2_lookup_l _ _ _ _ _ (iv_wire _ _ _ I) Hk) as (e' & Hk' & Hw).
  pose proof Hw as [Heq _]. cbn in Heq. subst eid.
  assert (e' ∈ issued_jobs (work s)) as Hin by (by eapply list_elem_of_lookup_2).
  rewrite (find_job_NoDup _ _ Hnd Hin) in Hfind. by injection Hfind as <-.
Qed.

(** Every job pushed and kept is found under the identifier it was sent with. *)
Lemma pushed_resolves tip s w k p e :
  sv2_inv tip s w -> NoDup (entry_id <$> issued_jobs (work s)) ->
  job_ids (work s) !! k = Some p -> issued_jobs (work s) !! k = Some e ->
  resolve_job s p.1 = Some e.
Proof.
  intros I Hnd Hp He. unfold resolve_job, engine_job_id.
  destruct (iv_ids _ _ _ I) as (a & Ids & _).
  pose proof (Forall2_length _ _ _ (iv_wire _ _ _ I)) as Hlen.
  pose proof (iv_depth _ _ _ I) as Hd. unfold JOB_HISTORY_DEPTH in Hd.
  assert (forall i q, job_ids (work s) !! i = Some q -> q.1 = nth_id a i /\ (i < 16)%nat) as Hnth.
  { intros i q Hq. pose proof (lookup_lt_Some _ _ _ Hq) as Hlt.
    assert ((fst <$> job_ids (work s)) !! i = Some q.1) as Hf by (by rewrite list_lookup_fmap, Hq).
    rewrite Ids, list_lookup_fmap, lookup_seq_lt in Hf by done. cbn in Hf. injection Hf as <-.
    split; [done | lia]. }
  destruct (list_find _ _) as [[i q]|] eqn:Ef.
  - apply list_find_Some in Ef as (Hi & Hq & _). cbn.
    destruct (Hnth _ _ Hi) as [Ei ?], (Hnth _ _ Hp) as [Ek ?].
    assert (i = k) as -> by (apply (nth_id_inj a); [lia | lia | congruence]).
    rewrite Hp in Hi. injection Hi as <-.
    destruct (Forall2_lookup_lr _ _ _ _ _ _ (iv_wire _ _ _ I) Hp He) as [-> _].
    apply find_job_NoDup; [done | by eapply list_elem_of_lookup_2].
  - apply list_find_None in Ef. rewrite Forall_forall in Ef.
    exfalso. by apply (Ef p (list_elem_of_lookup_2 _ _ _ Hp)).
Qed.

Lemma new_job_copies j ch id future nj :
  build_new_extended_job j ch id future = Some nj ->
  nj_channel_id nj = ch /\ nj_job_id nj = id /\ nj_version nj = j_version j
  /\ merkle_path nj = merkle_branch_raw j
  /\ coinbase_tx_prefix nj = coinbase1 j /\ coinbase_tx_suffix nj = coinbase2 j.
Proof.
  unfold build_new_extended_job, try_from. intros Hn.
  destruct (field_ok (FSeq0255 _)); [|done]. cbn [mbind option_bind] in Hn.
  destruct (field_ok (FB064K (coinbase1 j))); [|done]. cbn [mbind option_bind] in Hn.
  destruct (field_ok (FB064K (coinbase2 j))); [|done]. cbn [mbind option_bind] in Hn.
  by injection Hn as <-.
Qed.

Lemma share_header_device s i e m nj sp future ch :
  pays s i e -> length (se_extranonce m) = extranonce_size (chan s) ->
  is_u32 (j_version (job e)) -> is_u32 (se_version m) ->
  Z.land (se_version m) (not32 VERSION_ROLLING_MASK)
  = Z.land (j_version (job e)) (not32 VERSION_ROLLING_MASK) ->
  build_new_extended_job (job e) ch (se_job_id m) future = Some nj ->
  stratum_prevhash_to_internal (j_prev_hash (job e)) = Some (sp_prev_hash sp) ->
  u32_from_hex (j_bits (job e)) = Some (nbits sp) ->
  share_header (share_params_of (job e) m) (job e) (extranonce_prefix (chan s))
  = Ok (device_header nj sp (extranonce_prefix (chan s)) m).
Proof.
  intros (id & t & Hj) Hl Hv Hv' Hout Hn Hp Hb. unfold share_header, share_params_of.
  cbn [p_version_bits p_version_rolling_mask p_extranonce2 p_ntime p_nonce].
  rewrite restore_version by done. cbn [mbind].
  destruct (new_job_copies _ _ _ _ _ Hn) as (_ & _ & _ & Em & Ec1 & Ec2).
  rewrite (assemble_exact _ _ _ _ _ _ _ _ _ Hj) by (by rewrite Hl).
  unfold build_header, hex_decode_to_slice, device_header, header_layout.
  unfold stratum_prevhash_to_internal in Hp.
  destruct (hex_decode (j_prev_hash (job e))) as [b|]; [|done]. cbn [mbind option_bind] in *.
  destruct (bool_decide _); [|done]. injection Hp as <-. cbn [ok_or]. rewrite Hb.
  by rewrite Em, Ec1, Ec2.
Qed.

(** ** Submissions, one after another *)
Definition submit_one (x : Sv2Session * PoolStats * Writer) (q : bytes * Session.Env)
  : Sv2Session * PoolStats * Writer :=
  let '(_, s, st, w) := handle_submit x.1.1 x.1.2 x.2 q.1 q.2 in (s, st, w).

Lemma ch_submit_run_core qs x :
  let x' := foldl submit_one x qs in
  same_core x.1.1 x'.1.1
  /\ exists ks, (length ks <= length qs)%nat
       /\ share_set x'.1.1 = foldl insert_key (share_set x.1.1) ks.
Proof.
  revert x; induction qs as [|[p env] qs IH]; intros x; cbv zeta in *; cbn [foldl].
  - split; [apply ch_same_core_refl|]. by exists [].
  - destruct (IH (submit_one x (p, env))) as (Hc & ks & Hl & Hk).
    pose proof (ch_handle_submit_core x.1.1 x.1.2 x.2 p env) as Hs.
    unfold submit_one in Hc, Hk |- *. cbn [fst snd] in Hc, Hk |- *.
    destruct (handle_submit _ _ _ _ _) as [[[? s1] ?] ?].
    cbn [fst] in Hc, Hk. destruct Hs as (Hs & Hset & _). split; [by eapply ch_same_core_trans|].
    destruct Hset as [Hset|[key Hset]]; rewrite Hset in Hk.
    + exists ks. split; [cbn [length]; lia | done].
    + exists (key :: ks). split; [cbn [length]; lia | done].
Qed.

(** Everything a submission must pass before it is booked. *)
Definition accepted_by (s : Sv2Session) (m : SubmitExtended) (env : Session.Env) (e : JobEntry)
    (r : ShareResult) : Prop :=
  channel_open (chan s) = true /\ length (se_extranonce m) = extranonce_size (chan s)
  /\ resolve_job s (se_job_id m) = Some e
  /\ contains (share_set s) (share_key_of (job e) m) = false /\ Session.validation_joins env = true
  /\ validate_share_no_dedup (share_params_of (job e) m) (job e) e (extranonce_prefix (chan s))
       (Vardiff.min_difficulty (vardiff_cfg s)) (Session.unix_clock env) = Ok r.

Lemma ch_accepted_submit s st w payload m env e r :
  decode_submit_extended payload = Some m -> accepted_by s m env e r ->
  let '(_, s', _, _) := handle_submit s st w payload env in
  same_core s s' /\ share_set s' = insert_key (share_set s) (share_key_of (job e) m)
  /\ n_accepted s' = n_accepted s + 1.
Proof.
  intros Hd (Ho & Hl & Hr & Hc & Hj & Hv). unfold handle_submit.
  rewrite Ho, Hd, bool_decide_true by done. cbn [negb]. rewrite Hr, Hc, Hj, Hv. cbn [negb is_ok].
  unfold accept_share, accept, respond.
  destruct r, (Credit.credit _ _ _ _ _); by repeat case_match; simplify_eq/=.
Qed.

(** Two submissions that stand for one piece of work on the job [j]: same
    coinbase, version, time and nonce. *)
Definition same_work (s : Sv2Session) (j : StratumJob) (m m' : SubmitExtended) : Prop :=
  se_job_id m' = se_job_id m /\ se_ntime m' = se_ntime m /\ se_nonce m' = se_nonce m
  /\ resolve_version (j_version j) (p_version_bits (share_params_of j m'))
       (p_version_rolling_mask (share_params_of j m'))
     = resolve_version (j_version j) (p_version_bits (share_params_of j m))
         (p_version_rolling_mask (share_params_of j m))
  /\ assemble_coinbase j (extranonce_prefix (chan s)) (se_extranonce m')
     = assemble_coinbase j (extranonce_prefix (chan s)) (se_extranonce m).

Lemma resolved_bits base v v' :
  resolve_version base (Some (Z.land v' VERSION_ROLLING_MASK)) (Some VERSION_ROLLING_MASK)
  = resolve_version base (Some (Z.land v VERSION_ROLLING_MASK)) (Some VERSION_ROLLING_MASK) ->
  Z.land v' VERSION_ROLLING_MASK = Z.land v VERSION_ROLLING_MASK.
Proof.
  assert (forall x, Z.land (Z.land x VERSION_ROLLING_MASK) (not32 VERSION_ROLLING_MASK) = 0) as Hz.
  { intros x. rewrite <- Z.land_assoc.
    change (Z.land VERSION_ROLLING_MASK (not32 VERSION_ROLLING_MASK)) with 0. apply Z.land_0_r. }
  unfold resolve_version. cbn [default from_option id]. rewrite !Hz. cbn [Z.eqb]. intros [= E].
  apply (f_equal (fun z => Z.land z VERSION_ROLLING_MASK)) in E.
  rewrite !Z.land_lor_distr_l, <- !Z.land_assoc, !Z.land_diag in E.
  rewrite (Z.land_comm (not32 VERSION_ROLLING_MASK)) in E.
  change (Z.land VERSION_ROLLING_MASK (not32 VERSION_ROLLING_MASK)) with 0 in E.
  by rewrite Z.land_0_r, !Z.lor_0_l in E.
Qed.

Lemma same_work_key s i e m m' :
  pays s i e -> length (se_extranonce m) = extranonce_size (chan s) ->
  length (se_extranonce m') = extranonce_size (chan s) -> same_work s (job e) m m' ->
  share_key_of (job e) m' = share_key_of (job e) m.
Proof.
  intros (id & t & Hj) Hl Hl' (_ & Et & En & Ev & Ea).
  rewrite !(assemble_exact _ _ _ _ _ _ _ _ _ Hj) in Ea by (by rewrite ?Hl, ?Hl').
  apply app_inv_head, app_inv_head in Ea.
  assert (se_extranonce m' = se_extranonce m) as Ex 
    by (by apply app_inv_tail in Ea).
  unfold share_key_of. rewrite Ex, Et, En. f_equal. by apply resolved_bits in Ev.
Qed.
End Invariant.
End Sv2Safety.
