(* ===== verification/Sv2Props.v ===== *)
(** * Sv2Props: what a Stratum V2 connection guarantees

    The properties of [Sv2] over the states of [Sv2Safety], with a concrete
    connection to evaluate. *)
From S2P Require Import Prelude Text F64 Json Errors Interfaces Target Rpc Hashrate Credit.
From S2P Require Import Vardiff Stats Store Security Accounting Identity Template Jobs.
From S2P Require Import Validator Engine Sv1 Session Sv2Codec Sv2Wire Sv2 Sv2Safety.
Import Target Rpc Credit Vardiff Stats Security Accounting Identity Template Jobs Validator.
Import Sv2Codec Sv2Wire Sv2 Sv2Safety.

Module Sv2Props.

(** ** A concrete connection *)

(** The exponential as its series, for runs whose retargets matter. *)
Fixpoint exp_series (n : nat) (k : Z) (term y : f64) : f64 :=
  match n with
  | O => term
  | S n' => (term + exp_series n' (k + 1) (term * y / f64_of_Z k) y)%f64
  end.
Definition series_libm : Libm := {|
  fexp_ := fun x => if (x <? f0)%f64 then (f1 / exp_series 30 1 f1 (fneg x))%f64
                    else exp_series 30 1 f1 x;
  fpowf := fun x _ => x
|}.

Definition payload_of (fs : list Field) : bytes := default [] (spec_to_bytes fs).
Definition demo_setup : bytes :=
  payload_of [FU8 0; FU16 2; FU16 2; FU32 4; FStr []; FU16 0; FStr []; FStr []; FStr []; FStr []].
Definition demo_open (target : bytes) : bytes :=
  payload_of [FU32 7; FStr (string_bytes "bcrt1qdemo.rig"); FF32 0; FU256 target; FU16 4].
Definition demo_share (job nonce : Z) : SubmitExtended :=
  mkSubmitExtended 1 nonce job nonce 1700000100 0x20002000 [x05; x06; x07; x08].
Definition demo_submit (job nonce : Z) : bytes :=
  payload_of [FU32 1; FU32 nonce; FU32 job; FU32 nonce; FU32 1700000100; FU32 0x20002000;
              FB032 [x05; x06; x07; x08]].

Definition demo_time (t : Z) (id : string) : Session.Env :=
  Session.mkEnv t t t t 1700000000 1700000000 1700000000 1700000000 (Some 1700000050) id None
    (fun _ => Err DuplicateShare) true.
Definition demo_base : Sv2Session :=
  sv2_new "/btcpool/" 2000 demo_en1 4 4 Regtest
    (mkVardiffConfig 10 60 1000 1000000 (f64_of_Z 4) f1 (f64_of_Z 2))
    (mkSecurityConfig 10 100 600 50 4096 128 8) "00000000000000ff" 0.
Definition demo_writer : Writer := mkWriter [] None.

Abbreviation step := (@run_step zero_sha256 hex_codec legacy_codec demo_codec series_libm spec_sv2).
Abbreviation demo_tracked :=
  (@tracked zero_sha256 hex_codec legacy_codec demo_codec series_libm spec_sv2).

(** One event at a time [t] (in seconds); a session that has ended stays ended. *)
Definition feed (o : Outcome) (x : Event * Z * string) : Outcome :=
  let '(e, t, id) := x in
  match o with
  | Running s st w =>
      step s st w e (mkEnv (demo_time (t * NANOS) id) 9 1) (demo_time (t * NANOS) id)
  | _ => o
  end.
Definition demo_run (t : option JobTemplate) (xs : list (Event * Z * string)) : Outcome :=
  foldl feed (Running (session_start demo_base t) Session.demo_stats demo_writer) xs.

Definition outcome_of (o : Outcome) : Sv2Session * PoolStats * Writer :=
  match o with Running s st w | Ended _ s st w | Crashed s st w => (s, st, w) end.

Definition demo_hello (target : bytes) : list (Event * Z * string) :=
  [(Inbound MESSAGE_TYPE_SETUP_CONNECTION demo_setup, 1, "a");
   (Inbound MESSAGE_TYPE_OPEN_EXTENDED_MINING_CHANNEL (demo_open target), 2, "b")].
Definition demo_opened : Outcome := demo_run (Some demo_built_template) (demo_hello (repeat xff 32)).
Definition demo_s : Sv2Session := (outcome_of demo_opened).1.1.
Definition demo_w : Writer := (outcome_of demo_opened).2.

Lemma ch_demo_log_template (id : string) (x t : JobTemplate) : (id, x) ∈ [("b", t)] -> t = x.
Proof. set_solver. Qed.

Lemma ch_handed_eq `{Sha256} `{HexCodec} `{TxCodec} `{AddressCodec} `{Libm} `{BinarySv2} s0 w0 tip log t
    s st w e env env' s' st' w' (next next' : Z) log' :
  handed s0 w0 tip log t s w -> follows tip e tip -> latest t e = t ->
  run_step s st w e env env' = Running s' st' w' ->
  next_job_id (work s) = next -> next_job_id (work s') = next' ->
  (if next' =? next then log else log ++ on_offer t e env) = log' ->
  handed s0 w0 tip log' t s' w'.
Proof.
  intros Hh Hf Hl Hr <- <- <-. rewrite <- Hl at 2. by eapply handed_step.
Qed.

Lemma demo_handed_opened :
  @handed zero_sha256 hex_codec legacy_codec demo_codec series_libm spec_sv2
    demo_base demo_writer (Some (tip_of demo_built_template)) [("b", demo_built_template)]
    (Some demo_built_template) demo_s demo_w.
Proof.
  set (o1 := outcome_of (demo_run (Some demo_built_template) (take 1 (demo_hello (repeat xff 32))))).
  apply (@ch_handed_eq zero_sha256 hex_codec legacy_codec demo_codec series_libm spec_sv2
    demo_base demo_writer (Some (tip_of demo_built_template)) [] (Some demo_built_template)
    o1.1.1 o1.1.2 o1.2
    (Inbound MESSAGE_TYPE_OPEN_EXTENDED_MINING_CHANNEL (demo_open (repeat xff 32)))
    (mkEnv (demo_time (2 * NANOS) "b") 9 1) (demo_time (2 * NANOS) "b")
    _ (outcome_of demo_opened).1.2 _ 1 2); [|done | done | vm_compute; reflexivity..|reflexivity].
  apply (@ch_handed_eq zero_sha256 hex_codec legacy_codec demo_codec series_libm spec_sv2
    demo_base demo_writer (Some (tip_of demo_built_template)) [] (Some demo_built_template)
    (session_start demo_base (Some demo_built_template)) Session.demo_stats demo_writer
    (Inbound MESSAGE_TYPE_SETUP_CONNECTION demo_setup)
    (mkEnv (demo_time (1 * NANOS) "a") 9 1) (demo_time (1 * NANOS) "a")
    _ o1.1.2 _ 1 1); [|done | done | vm_compute; reflexivity..|reflexivity].
  apply (@handed_start zero_sha256 hex_codec legacy_codec demo_codec series_libm spec_sv2
    demo_base demo_writer (Some demo_built_template)).
Qed.

Lemma demo_tracked_opened :
  demo_tracked demo_base demo_writer (Some (tip_of demo_built_template)) demo_s demo_w.
Proof. eapply handed_tracked, demo_handed_opened. Qed.

(** ** Properties *)

(** C3. The device and the validator work on the same header.  In any state of
    a connection that has followed the engine's broadcasts, for every job
    identifier of a submission that resolves to a live job: the device has been
    sent a [NewExtendedMiningJob] with that identifier, and the last
    [SetNewPrevHash] it was sent is such that the header the specification has
    the device hash (for an extranonce of the granted size, and a version that
    differs from the job's only in the BIP320 bits) is, byte for byte, the header
    the validator rebuilds and checks. *)
Theorem device_hashes_the_validated_header `{Sha256} `{HexCodec} `{TxCodec} `{AddressCodec} `{Libm}
    `{BinarySv2} (tag : string) (d : Z) (prefix : bytes) (n1 n2 : nat) (net : Network)
    (vcfg : VardiffConfig) (sec : SecurityConfig) (sid : string) (t0 : Instant) (w0 w : Writer)
    (tip : option Tip) (s : Sv2Session) (m : SubmitExtended) (e : JobEntry) :
  tracked (sv2_new tag d prefix n1 n2 net vcfg sec sid t0) w0 tip s w ->
  NoDup (entry_id <$> issued_jobs (work s)) ->
  resolve_job s (se_job_id m) = Some e -> superseded_by_clean e = false ->
  length (se_extranonce m) = extranonce_size (chan s) ->
  is_u32 (j_version (job e)) -> is_u32 (se_version m) ->
  Z.land (se_version m) (not32 VERSION_ROLLING_MASK)
  = Z.land (j_version (job e)) (not32 VERSION_ROLLING_MASK) ->
  exists nj sp p1 p2,
    mkRawFrame MESSAGE_TYPE_NEW_EXTENDED_MINING_JOB true p1 ∈ sent w
    /\ encode (new_job_fields nj) = Some p1 /\ nj_job_id nj = se_job_id m
    /\ announcement w = Some p2 /\ encode (prev_hash_fields sp) = Some p2
    /\ share_header (share_params_of (job e) m) (job e) (extranonce_prefix (chan s))
       = Ok (device_header nj sp (extranonce_prefix (chan s)) m).
Proof.
  intros HT Hnd Hr Hlive Hl Hv Hv' Hout. apply tracked_inv in HT as I.
  destruct (resolve_wire _ _ _ _ _ I Hnd Hr) as (Hin & _ & fu & nj & p1 & Hn & Hp1 & Hsent).
  pose proof (iv_live _ _ _ I) as HL. rewrite Forall_forall in HL.
  specialize (HL e Hin Hlive).
  assert (channel_open (chan s) = true) as Ho.
  { destruct (channel_open (chan s)) eqn:Ho; [done|].
    destruct (iv_closed _ _ _ I Ho) as [_ E]. rewrite E in Hin. set_solver. }
  destruct (iv_open _ _ _ I Ho) as (_ & [i Hi] & _).
  destruct (iv_announced _ _ _ I _ HL Ho) as (sp & p2 & Ha & Hp2 & Hprev & Hbits).
  exists nj, sp, p1, p2. do 2 (split; [done|]).
  split; [by destruct (new_job_copies _ _ _ _ _ Hn) as (_ & ? & _)|]. do 2 (split; [done|]).
  pose proof (iv_pays _ _ _ I i Hi) as HP. rewrite Forall_forall in HP.
  by eapply share_header_device; eauto.
Qed.

Definition demo_job_entry : JobEntry :=
  default (mkJobEntry demo_job 0 false 0) (resolve_job demo_s 1).

Lemma device_hashes_the_validated_header_witness :
  exists nj sp, nj_job_id nj = 1
    /\ @share_header zero_sha256 hex_codec (share_params_of (job demo_job_entry) (demo_share 1 7))
         (job demo_job_entry) (extranonce_prefix (chan demo_s))
       = Ok (@device_header zero_sha256 nj sp (extranonce_prefix (chan demo_s)) (demo_share 1 7)).
Proof.
  destruct (@device_hashes_the_validated_header zero_sha256 hex_codec legacy_codec demo_codec
    series_libm spec_sv2 _ _ _ _ _ _ _ _ _ _ _ _ _ demo_s (demo_share 1 7) demo_job_entry
    demo_tracked_opened) as (nj & sp & p1 & p2 & _ & _ & Hid & _ & _ & Hh).
  - vm_compute. apply NoDup_singleton.
  - vm_compute. reflexivity.
  - vm_compute. reflexivity.
  - reflexivity.
  - vm_compute. split; discriminate.
  - vm_compute. split; discriminate.
  - vm_compute. reflexivity.
  - exists nj, sp. split; [exact Hid | exact Hh].
Defined.

(** C9. Every job pushed on a channel pays its identity the whole value of the
    template the engine handed out under that job's own identifier, and is found
    again under the identifier it was pushed with.  [handed] runs a connection
    that follows the broadcasts and records in [log] each job pushed: the
    identifier the engine gave it and the template then on offer
    ([tracked_handed]: every such connection has a record).  The engine gives no
    identifier twice ([NoDup log.*1]: [next_job_id] counts).  In any such state:
    the template held is the last one broadcast; an open channel has an identity
    and its extranonce split is exactly the reserved width; the job at any
    position of the history is resolved by the V2 identifier it was pushed
    under, and is that of a template [x] recorded under the job's identifier:
    it has [x]'s previous block, version, target, merkle branch and
    transactions, and its coinbase, assembled with any extranonce of the granted
    size, pays the coinbase value of [x] to the identity's script. *)
Theorem channel_jobs_pay_and_resolve `{Sha256} `{HexCodec} `{TxCodec} `{AddressCodec} `{Libm}
    `{BinarySv2} (tag : string) (d : Z) (prefix : bytes) (n1 n2 : nat) (net : Network)
    (vcfg : VardiffConfig) (sec : SecurityConfig) (sid : string) (t0 : Instant) (w0 w : Writer)
    (tip : option Tip) (log : list (string * JobTemplate)) (t : option JobTemplate)
    (s : Sv2Session) :
  handed (sv2_new tag d prefix n1 n2 net vcfg sec sid t0) w0 tip log t s w -> NoDup log.*1 ->
  pending_template (work s) = t
  /\ (channel_open (chan s) = true ->
     setup_done (chan s) = true /\ is_Some (identity (chan s))
     /\ (length (extranonce_prefix (chan s)) + extranonce_size (chan s) = extranonce_total s)%nat)
  /\ length (job_ids (work s)) = length (issued_jobs (work s))
  /\ forall k p e, job_ids (work s) !! k = Some p -> issued_jobs (work s) !! k = Some e ->
     resolve_job s p.1 = Some e
     /\ exists i x, identity (chan s) = Some i /\ (job_id (job e), x) ∈ log
          /\ payout_address (job e) = address (payout i) /\ same_template (job e) x
          /\ forall en, length en = extranonce_size (chan s) ->
             assemble_coinbase (job e) (extranonce_prefix (chan s)) en
             = tx_serialize (coinbase_tx (encode_bip34_height (t_height x)
                                            ++ string_bytes (coinbase_tag s)
                                            ++ extranonce_prefix (chan s) ++ en)
                               (t_coinbase_value x) (script_pubkey (payout i))
                               (t_witness_commitment x)).
Proof.
  intros HH Hnd. apply handed_logged in HH as L. apply handed_tracked, tracked_inv in HH as I.
  split; [apply L|]. split; [apply I|].
  split; [apply (Forall2_length _ _ _ (iv_wire _ _ _ I))|].
  intros k p e Hp He. split.
  - eapply pushed_resolves; [done| |done..]. by eapply sublist_NoDup; [|apply L].
  - pose proof (lg_jobs _ _ _ L) as HJ. rewrite Forall_forall in HJ.
    destruct (HJ e) as (i & id & x & Hi & Hx & Hb); [by eapply list_elem_of_lookup_2|]. exists i, x.
    destruct (job_of_template _ _ _ _ _ _ _ Hb) as (-> & -> & Hsame).
    do 4 (split; [done|]). intros en Hl. by apply (assemble_serialized _ _ _ _ _ _ _ _ _ Hb); rewrite Hl.
Qed.

Lemma channel_jobs_pay_and_resolve_witness :
  channel_open (chan demo_s) = true /\ is_Some (identity (chan demo_s))
  /\ resolve_job demo_s 1 = Some demo_job_entry
  /\ (job_id (job demo_job_entry), demo_built_template) ∈ [("b", demo_built_template)].
Proof.
  destruct (@channel_jobs_pay_and_resolve zero_sha256 hex_codec legacy_codec demo_codec
    series_libm spec_sv2 _ _ _ _ _ _ _ _ _ _ _ _ _ _ _ demo_s demo_handed_opened)
    as (_ & Ho & _ & Hp); [vm_compute; apply NoDup_singleton|].
  assert (channel_open (chan demo_s) = true) as E by (vm_compute; reflexivity).
  destruct (Hp 0%nat (1, "b") demo_job_entry) as (Hr & i & x & _ & Hx & _);
    [vm_compute; reflexivity | vm_compute; reflexivity|].
  split; [exact E|]. split; [apply (Ho E)|]. split; [exact Hr|].
  destruct (ch_demo_log_template _ _ _ Hx). exact Hx.
Defined.

(** C33. Work is counted once on a V2 channel: once a submission has been
    accepted, any submission of the granted extranonce size that stands for the
    same work (same job, coinbase, version, time and nonce), after any fewer
    than [max_size] further submissions, is answered as a duplicate or ends the
    session, and does not raise the count of accepted shares.  (The V1 session
    has no such property: [Session.same_work_counted_twice].) *)
Theorem channel_counts_work_once `{Sha256} `{HexCodec} `{TxCodec} `{AddressCodec} `{Libm}
    `{BinarySv2} (s : Sv2Session) (st : PoolStats) (w : Writer) (payload payload' : bytes)
    (m m' : SubmitExtended) (env env' : Session.Env) (i : MinerIdentity) (e : JobEntry)
    (r : ShareResult) (qs : list (bytes * Session.Env)) :
  share_set_wf (share_set s) -> pays s i e ->
  decode_submit_extended payload = Some m -> decode_submit_extended payload' = Some m' ->
  accepted_by s m env e r -> same_work s (job e) m m' ->
  length (se_extranonce m') = extranonce_size (chan s) ->
  (length qs < max_size (share_set s))%nat ->
  let x := foldl submit_one (s, st, w) ((payload, env) :: qs) in
  let y := handle_submit x.1.1 x.1.2 x.2 payload' env' in
  y = reject_with x.1.1 x.1.2 x.2 (sequence_number m') RDuplicate "duplicate-share" env'
  /\ n_accepted y.1.1.2 = n_accepted x.1.1.
Proof.
  intros W Hp Hd Hd' Hacc Hsame Hl' Hq x y.
  pose proof (ch_accepted_submit s st w payload m env e r Hd Hacc) as Ha.
  destruct Hacc as (Ho & Hl & Hr & Hc & _).
  pose proof (same_work_key s i e m m' Hp Hl Hl' Hsame) as Hkey.
  pose proof (ch_submit_run_core qs (submit_one (s, st, w) (payload, env))) as (Hcore & ks & Hks & Hset).
  cbn [foldl] in x. fold x in Hcore, Hset. unfold submit_one in Hcore, Hset.
  cbn [fst snd] in Hcore, Hset. destruct (handle_submit s st w payload env) as [[[? s1] ?] ?].
  cbn [fst] in Hcore, Hset. destruct Ha as (Hc1 & Hs1 & _).
  destruct (ch_same_core_trans _ _ _ Hc1 Hcore) as (Ec & Ew & _).
  assert (contains (share_set x.1.1) (share_key_of (job e) m') = true) as Hin.
  { rewrite Hset, Hs1, Hkey. apply insert_run_keeps; [done | done | by eapply Nat.le_lt_trans]. }
  assert (y = reject_with x.1.1 x.1.2 x.2 (sequence_number m') RDuplicate "duplicate-share" env') as E.
  { unfold y, handle_submit, resolve_job, engine_job_id. rewrite Ec, Ew, Ho, Hd'. cbn [negb].
    rewrite bool_decide_true by done. cbn [negb].
    destruct Hsame as (Ej & _). rewrite Ej.
    unfold resolve_job, engine_job_id in Hr. by rewrite Hr, Hin. }
  split; [done|]. rewrite E.
  unfold reject_with, reject_share, reject, respond, send.
  by repeat case_match; simplify_eq/=.
Qed.

Definition demo_result : ShareResult :=
  match @validate_share_no_dedup zero_sha256 hex_codec legacy_codec
          (share_params_of (job demo_job_entry) (demo_share 1 7)) (job demo_job_entry)
          demo_job_entry (extranonce_prefix (chan demo_s)) 1000 (Some 1700000050) with
  | Ok r => r
  | Err _ => Valid 0 0 []
  end.

Definition demo_after : Sv2Session * PoolStats * Writer :=
  foldl (@submit_one zero_sha256 hex_codec legacy_codec series_libm spec_sv2)
    (demo_s, Session.demo_stats, demo_w) [(demo_submit 1 7, demo_time (3 * NANOS) "c")].

Definition demo_identity : MinerIdentity :=
  mkIdentity "bcrt1qdemo.rig" "bcrt1qdemo.rig" (mkPayout "bcrt1qdemo" [x00; x14]) (Some "rig").

Lemma demo_pays : @pays legacy_codec demo_s demo_identity demo_job_entry.
Proof. exists "b", demo_built_template. vm_compute. reflexivity. Qed.

Lemma demo_shares_wf : share_set_wf (share_set demo_s).
Proof.
  assert (share_set demo_s = share_set_new) as -> by (vm_compute; reflexivity).
  apply share_set_new_wf.
Qed.

Lemma channel_counts_work_once_witness :
  n_accepted (@handle_submit zero_sha256 hex_codec legacy_codec series_libm spec_sv2
    demo_after.1.1 demo_after.1.2 demo_after.2 (demo_submit 1 7) (demo_time (4 * NANOS) "d")).1.1.2 = 1.
Proof.
  edestruct (@channel_counts_work_once zero_sha256 hex_codec legacy_codec demo_codec series_libm
    spec_sv2 demo_s Session.demo_stats demo_w (demo_submit 1 7) (demo_submit 1 7) (demo_share 1 7)
    (demo_share 1 7) (demo_time (3 * NANOS) "c") (demo_time (4 * NANOS) "d") demo_identity
    demo_job_entry demo_result []) as [_ Hn].
  - apply demo_shares_wf.
  - apply demo_pays.
  - vm_compute. reflexivity.
  - vm_compute. reflexivity.
  - do 5 (split; [vm_compute; reflexivity|]). vm_compute. reflexivity.
  - do 4 (split; [reflexivity|]). reflexivity.
  - reflexivity.
  - apply Nat.ltb_lt. vm_compute. reflexivity.
  - refine (eq_trans Hn _). vm_compute. reflexivity.
Defined.

(** ** Where the connection departs from its intent *)

(** A template on another tip. *)
Definition other_tip_template : JobTemplate :=
  match @build_job_template zero_sha256 hex_codec
          (Rpc.mkGbtResult 0x20000000 (hex_text (repeat x02 32)) "1d00ffff" 1700000000 900001
             312500000 [] None None [] 0) with
  | Ok t => t
  | Err _ => demo_built_template
  end.

Definition lag_run : Outcome :=
  demo_run (Some demo_built_template)
    (demo_hello (repeat xff 32)
     ++ [(Lagged, 3, "c"); (NewJob (Engine.mkBroadcast other_tip_template false), 4, "d")]).
Definition lag_s : Sv2Session := (outcome_of lag_run).1.1.
Definition lag_w : Writer := (outcome_of lag_run).2.
Definition lag_entry : JobEntry := default demo_job_entry (resolve_job lag_s 2).
Definition lag_job : NewExtendedMiningJob :=
  default (mkNewJob 0 0 None 0 false [] [] []) (build_new_extended_job (job lag_entry) 1 2 false).
Definition lag_prev : SetNewPrevHash :=
  default (mkSetPrev 0 0 [] 0 0) (@build_set_new_prev_hash hex_codec (job demo_job_entry) 1 1).

(** A missed clean broadcast misdirects a V2 device: when a lagging receiver
    drops the broadcast of a new tip, the next refresh of that tip is pushed as
    an immediate job without [SetNewPrevHash].  The job resolves and is live, but
    the header the device hashes (under the previous hash it was last sent) is
    not the header the validator checks. *)
Lemma missed_clean_broadcast_misdirects_device :
  let m := demo_share 2 7 in
  (exists st, lag_run = Running lag_s st lag_w)
  /\ resolve_job lag_s (se_job_id m) = Some lag_entry /\ superseded_by_clean lag_entry = false
  /\ (exists p, @encode spec_sv2 (new_job_fields lag_job) = Some p /\ nj_job_id lag_job = 2
        /\ mkRawFrame MESSAGE_TYPE_NEW_EXTENDED_MINING_JOB true p ∈ sent lag_w)
  /\ (exists p, announcement lag_w = Some p /\ @encode spec_sv2 (prev_hash_fields lag_prev) = Some p)
  /\ exists h, @share_header zero_sha256 hex_codec (share_params_of (job lag_entry) m) (job lag_entry)
                 (extranonce_prefix (chan lag_s)) = Ok h
        /\ @device_header zero_sha256 lag_job lag_prev (extranonce_prefix (chan lag_s)) m <> h.
Proof.
  cbv zeta. split; [eexists; vm_compute; reflexivity|].
  do 2 (split; [vm_compute; reflexivity|]).
  split; [|split].
  - eexists. split; [vm_compute; reflexivity|]. split; [vm_compute; reflexivity|].
    apply (list_elem_of_lookup_2 _ 4%nat). vm_compute. reflexivity.
  - eexists. split; vm_compute; reflexivity.
  - eexists. split; [vm_compute; reflexivity|]. vm_compute. discriminate.
Qed.

Definition device_limit : bytes := difficulty_to_sv2_target 2500.
Definition eased_run : Outcome :=
  demo_run (Some demo_built_template)
    (demo_hello device_limit
     ++ [(Inbound MESSAGE_TYPE_SUBMIT_SHARES_EXTENDED (demo_submit 1 1), 100, "c");
         (Inbound MESSAGE_TYPE_SUBMIT_SHARES_EXTENDED (demo_submit 1 2), 200, "d")]).

(** The device's [max_target] is honoured once only: at channel open the
    target is clamped to it, but a later retarget sends [SetTarget] from the
    difficulty alone, so a device that opened with a limit of difficulty 2500 is
    told the easier target of difficulty 1000. *)
Lemma retarget_ignores_max_target :
  let s := (outcome_of eased_run).1.1 in
  let w := (outcome_of eased_run).2 in
  (exists p f, sent w !! 1%nat = Some f
     /\ rf_type f = MESSAGE_TYPE_OPEN_EXTENDED_MINING_CHANNEL_SUCCES /\ rf_payload f = p
     /\ @open_extended_success spec_sv2 7 1 device_limit 4 (extranonce_prefix (chan s)) = Some p)
  /\ (exists p, last (sent w) = Some (mkRawFrame MESSAGE_TYPE_SET_TARGET true p)
        /\ @set_target spec_sv2 (channel_id (chan s)) (difficulty_to_sv2_target (difficulty s)) = Some p)
  /\ difficulty s = 1000
  /\ sv2_target_le (difficulty_to_sv2_target (difficulty s)) device_limit = false.
Proof.
  cbv zeta. split; [do 2 eexists; do 3 (split; [vm_compute; reflexivity|]); vm_compute; reflexivity|].
  split; [eexists; split; vm_compute; reflexivity|]. split; vm_compute; reflexivity.
Qed.
End Sv2Props.
