(* ===== verification/Presence.v ===== *)
(** * Presence: the sessions of both protocols on the shared statistics

    The pool as its connection tasks see it: V1 and V2 sessions that start, run
    their loops and end in any interleaving on one [PoolStats], beside the
    pruner, the hashrate ticks, the checkpoints and the settled blocks.  A
    session whose task panicked stays as [Dead]: nothing runs its closing
    code. *)
From S2P Require Import Prelude Text F64 Json Errors Interfaces Target Rpc Hashrate Credit.
From S2P Require Import Vardiff Stats Store Snapshot Security Accounting Identity Template Jobs.
From S2P Require Import Validator Engine Sv1 Session Sv2Codec Sv2Wire Sv2 Sv2Props.
Import Rpc Vardiff Stats Security Accounting Identity Template Jobs Validator Sv1 Snapshot.

Module Presence.

(** ** Statistics calls that change nobody's presence *)

(** Calls that touch neither the worker states nor the connected figure. *)
Local Ltac same := apply unmoved_same; repeat case_match; reflexivity.

Create HintDb presence.
#[export] Hint Resolve unmoved_protocol unmoved_submit unmoved_worker_accepted
  unmoved_worker_rejected unmoved_prune : presence.

Lemma unmoved_enqueue s w : unmoved s (enqueue s w).
Proof. same. Qed.

Lemma unmoved_record_ledger s w a now : unmoved s (record_ledger s w a now).
Proof.
  unfold record_ledger. destruct (store s); [|done]. destruct (_ !! w); [|done].
  destruct (roll_to _ _) as [[[m es]|] a1]; same.
Qed.

Lemma unmoved_round_reset s now : unmoved s (round_reset s now).
Proof.
  split; [|done]. intros n w _ Ht. cbn. rewrite lookup_fmap. by apply tells_fmap.
Qed.

Lemma unmoved_found s now : unmoved s (block_found s now).
Proof. etrans; [|apply unmoved_round_reset]. same. Qed.

Lemma unmoved_enroll s height hash w payout won now :
  unmoved s (enroll_pending_block s height hash w payout won now).
Proof. unfold enroll_pending_block. destruct (_ !! hash); same. Qed.
#[export] Hint Resolve unmoved_record_ledger unmoved_found unmoved_enroll : presence.

Lemma unmoved_outcome s o height w payout hash now1 now2 :
  unmoved s (record_block_outcome s o height w payout hash now1 now2).
Proof.
  unfold record_block_outcome. etrans; [|apply unmoved_enroll].
  destruct (is_win o); [auto with presence | same].
Qed.

Lemma unmoved_resolution s b r now : unmoved s (record_block_resolution s b r now).2.
Proof.
  unfold record_block_resolution, resolve_block. destruct (_ !! pb_hash b); [|done].
  cbn [snd]. etrans; [|apply unmoved_enqueue].
  destruct (won_at_submit b), r; try same. etrans; [|apply unmoved_found]. same.
Qed.

Lemma unmoved_rejected s g w reason now : unmoved s (record_rejected s g w reason now).1.2.
Proof.
  unfold record_rejected.
  assert (unmoved s (ledger_share_rejected
    (worker_share_rejected (share_rejected s (reason_label reason)) w (reason_label reason)) w now)) as E.
  { etrans; [|apply unmoved_record_ledger]. etrans; [|apply unmoved_worker_rejected]. same. }
  destruct (counts_as_invalid reason); [|done]. by destruct (record_invalid _).
Qed.

Section Calls.
Context `{Libm}.

Lemma unmoved_accepted s sid w credit hd tick now1 now2 :
  unmoved s (record_accepted s sid w credit hd tick now1 now2).
Proof.
  unfold record_accepted. cbv zeta.
  etrans; [|apply unmoved_record_ledger]. etrans; [|apply unmoved_submit].
  etrans; [|apply unmoved_worker_accepted]. unfold share_accepted. same.
Qed.

Lemma unmoved_tick s now : unmoved s (tick_hashrates s now).
Proof. unfold tick_hashrates, record_best_hashrate. cbv zeta. same. Qed.

Lemma unmoved_checkpoint s now : unmoved s (record_hashrate_snapshot s now).
Proof.
  unfold record_hashrate_snapshot, flush_ledger_at. cbv zeta.
  destruct (store s); [|same]. destruct (roll_to _ _) as [[[m es]|] a1]; same.
Qed.
End Calls.
#[export] Hint Resolve unmoved_outcome unmoved_resolution unmoved_rejected unmoved_accepted
  unmoved_tick unmoved_checkpoint unmoved_moves moves_refl moves_vardiff : presence.

(** ** V1 sessions *)
Section V1.
Context `{Sha256} `{HexCodec} `{TxCodec} `{AddressCodec} `{Libm}.
Import Session.

(** A handler takes its session from one worker to another. *)
Definition v1_moves (s : Session) (st : PoolStats) (x : Session.Step) : Prop :=
  moves (stats_worker s) (stats_worker x.1.2) st x.2.

(** Handlers that keep the identity and nobody's presence. *)
Lemma v1_still s st r s' st' :
  stats_worker s' = stats_worker s -> unmoved st st' -> v1_moves s st (r, s', st').
Proof. intros E Hu. unfold v1_moves. cbn. rewrite E. auto with presence. Qed.

Lemma v1_reject s st r env : unmoved st (reject_share s st r env).2.
Proof.
  unfold reject_share.
  pose proof (unmoved_rejected st (guard s) (default "?" (stats_worker s)) r (wall1 env)) as E.
  by destruct (record_rejected _ _ _ _ _) as [[??] ?].
Qed.

Lemma v1_reject_with s st req r e env : v1_moves s st (reject_with s st req r e env).
Proof.
  unfold reject_with. pose proof (v1_reject s st r env) as E. pose proof (reject_share_core s st r env) as Hc.
  destruct (reject_share s st r env) as [[over s'] st']. destruct Hc as ((Ei & _) & _).
  destruct over; (apply v1_still; [unfold stats_worker; by rewrite Ei | done]).
Qed.

Lemma v1_accept s st w hd jd env : unmoved st (accept_share s st w hd jd env).2.
Proof. unfold accept_share. destruct (Credit.credit _ _ _ _ _). cbn. auto with presence. Qed.

Lemma v1_submit s st req p env : v1_moves s st (handle_submit s st req p env).
Proof.
  pose proof (handle_submit_core s st req p env) as Hc.
  assert (unmoved st (handle_submit s st req p env).2).
  { clear Hc. unfold handle_submit. destruct (negb _ || _).
    { pose proof (v1_reject s st Unauthorized env). by destruct (reject_share _ _ _ _) as [[??] ?]. }
    assert (forall s r e, unmoved st (reject_with s st req r e env).2) as Hr.
    { intros s' r e. unfold reject_with. pose proof (v1_reject s' st r env).
      destruct (reject_share _ _ _ _) as [[[] ?] ?]; done. }
    destruct (find_job _ _) as [entry|]; [|apply Hr]. destruct (contains _ _); [apply Hr|].
    destruct (negb (validation_joins env)); [done|].
    destruct (validate_share_no_dedup _ _ _ _ _ _) as [[? hd ?|hd ? ?]|e]; cbn [is_ok]; [| |apply Hr].
    all: match goal with |- context [accept_share ?s1 ?x ?w ?h ?d ?v] =>
           pose proof (v1_accept s1 x w h d v) as E; destruct (accept_share s1 x w h d v) end.
    - done.
    - etrans; [exact E|]. cbn. destruct (submit_answer env _); [auto with presence | done]. }
  destruct (handle_submit s st req p env) as [[r s'] st']. destruct Hc as ((Ei & _) & _).
  apply v1_still; [unfold stats_worker; by rewrite Ei | done].
Qed.

(** Leaving the worker the session was under, if any. *)
Lemma moves_leave o st :
  moves o None st (match o with Some w => mark_worker_offline st w | None => st end).
Proof. destruct o; [apply moves_offline | apply moves_refl]. Qed.

Lemma leave_identity st (o : option MinerIdentity) :
  moves (canonical_name <$> o) None st
    (match o with Some prev => mark_worker_offline st (canonical_name prev) | None => st end).
Proof. destruct o; [apply moves_offline | apply moves_refl]. Qed.

Lemma v1_switch s st i env s' st' g :
  switch_identity s st i env = (Some (s', st'), g) ->
  moves (stats_worker s) (Some (canonical_name i)) st st'.
Proof.
  unfold switch_identity. destruct (record_new_authorization (guard s)) as [[] g']; [|done].
  intros E. simplify_eq. eapply moves_trans; [apply leave_identity|].
  eapply moves_trans; [apply moves_online|]. auto with presence.
Qed.

Lemma v1_authorize s st req p env : v1_moves s st (handle_authorize s st req p env).
Proof.
  unfold handle_authorize. destruct (negb _); [by apply v1_still|].
  destruct (check_worker_name _ _); [|by apply v1_still].
  destruct (parse _ _ _) as [i|]; [|by apply v1_still].
  set (sw := if bool_decide _ then _ else _).
  assert (match sw with (Some (_, st1), _) => moves (stats_worker s) (Some (canonical_name i)) st st1
          | (None, _) => True end) as Hs.
  { unfold sw. case_bool_decide as E; [rewrite E; apply moves_refl|].
    destruct (switch_identity s st i env) as [[[s1 st1]|] g] eqn:Es; [|done]. by eapply v1_switch. }
  destruct sw as [[[s1 st1]|] g]; [|by apply v1_still].
  unfold v1_moves. repeat case_match; simplify_eq/=; exact Hs.
Qed.

Lemma v1_retarget s st env : v1_moves s st (apply_retarget s st env).
Proof.
  unfold apply_retarget. destruct (check_retarget _ _ _) as [[[d|] v]|]; [|by apply v1_still..].
  unfold v1_moves. cbn. change (stats_worker (set_diff s d v (credit_state s))) with (stats_worker s).
  destruct (stats_worker s); auto with presence.
Qed.

Lemma v1_dispatch s st req env : v1_moves s st (dispatch s st req env).
Proof.
  unfold dispatch. destruct (from_request req) as [[]|]; try by apply v1_still.
  - apply v1_authorize.
  - apply v1_submit.
  - unfold handle_configure. destruct (version_rolling _); by apply v1_still.
  - unfold handle_suggest_difficulty. destruct (suggest _ _ _) as [[? ?]|]; by apply v1_still.
Qed.

Lemma v1_broadcast s st b env : v1_moves s st (on_broadcast s st b env).
Proof. unfold on_broadcast. destruct (Engine.b_clean b); repeat case_match; by apply v1_still. Qed.

Variable parse_request : string -> option StratumRequest.

Lemma v1_line s st line env : v1_moves s st (handle_line parse_request s st line env).1.
Proof.
  unfold handle_line. destruct (try_consume _ _ _) as [ok r]. destruct (negb ok).
  { apply v1_still; [done|]. by apply unmoved_same. }
  destruct (is_blank line); [by apply v1_still|]. destruct (parse_request line); [|by apply v1_still].
  set (s1 := set_guard _ _ _ _). by apply (v1_dispatch s1).
Qed.

(** One turn of the loop: where the session went, and [close] at its end. *)
Definition v1_outcome (s : Session) (st : PoolStats) (o : Session.Outcome) : Prop :=
  match o with
  | Running _ s' st' | Crashed s' st' => moves (stats_worker s) (stats_worker s') st st'
  | Ended _ s' st' => exists st1, moves (stats_worker s) (stats_worker s') st st1 /\ st' = close s' st1
  end.

Lemma v1_after s st x ban env : v1_moves s st x -> v1_outcome s st (after_handler x ban env).
Proof.
  destruct x as [[r s1] st1]. intros Hm. destruct r; cbn; [|by exists st1|done].
  pose proof (v1_retarget s1 st1 env) as Hr. destruct (apply_retarget s1 st1 env) as [[[] s2] st2];
    by eapply moves_trans.
Qed.

Lemma v1_run_step s st e env env' : v1_outcome s st (run_step parse_request s st e env env').
Proof.
  destruct e; cbn [run_step];
    try (exists st; split; [apply moves_refl | done]).
  - pose proof (v1_line s st line env) as Hl. destruct (handle_line _ _ _ _ _) as [x ban].
    by apply v1_after.
  - apply v1_after, v1_broadcast.
  - by apply v1_after, v1_still.
Qed.
End V1.

(** ** V2 sessions *)
Section V2.
Import Sv2Codec Sv2Wire Sv2.
Context `{Sha256} `{HexCodec} `{TxCodec} `{AddressCodec} `{Libm} `{BinarySv2}.

Definition v2_moves (s : Sv2Session) (st : PoolStats) (x : Sv2.Step) : Prop :=
  moves (stats_worker s) (stats_worker x.1.1.2) st x.1.2.

Lemma v2_still s st f s' st' w' :
  stats_worker s' = stats_worker s -> unmoved st st' -> v2_moves s st (f, s', st', w').
Proof. intros E Hu. unfold v2_moves. cbn. rewrite E. auto with presence. Qed.

(** Answering changes neither the session nor the statistics. *)
Lemma v2_respond s0 st0 s st w t ch p what :
  moves (stats_worker s0) (stats_worker s) st0 st -> v2_moves s0 st0 (respond s st w t ch p what).
Proof. unfold respond, v2_moves. repeat case_match; done. Qed.

Lemma v2_reject s st r env : unmoved st (reject_share s st r env).2.
Proof.
  unfold reject_share.
  pose proof (unmoved_rejected st (guard s) (default "?" (stats_worker s)) r (Session.wall1 env)) as E.
  by destruct (record_rejected _ _ _ _ _) as [[??] ?].
Qed.

Lemma v2_reject_with s0 s st w seq r code env :
  stats_worker s = stats_worker s0 -> v2_moves s0 st (reject_with s st w seq r code env).
Proof.
  intros E. unfold reject_with. pose proof (v2_reject s st r env) as Hu.
  assert (stats_worker (reject_share s st r env).1.2 = stats_worker s) as Es
    by (unfold reject_share; by destruct (record_rejected _ _ _ _ _) as [[??] ?]).
  destruct (reject_share s st r env) as [[over s'] st']. cbn in *. destruct over.
  - apply v2_still; [congruence | done].
  - apply v2_respond. rewrite Es, E. auto with presence.
Qed.

Lemma v2_accept_share s st who hd jd env :
  stats_worker (accept_share s st who hd jd env).1 = stats_worker s
  /\ unmoved st (accept_share s st who hd jd env).2.
Proof. unfold accept_share. destruct (Credit.credit _ _ _ _ _). cbn. auto with presence. Qed.

Lemma v2_submit s st w payload env : v2_moves s st (handle_submit s st w payload env).
Proof.
  unfold handle_submit. destruct (negb (channel_open _)); [by apply v2_still|].
  destruct (decode_submit_extended payload) as [m|]; [|by apply v2_still].
  destruct (negb _); [by apply v2_reject_with|].
  destruct (resolve_job _ _) as [entry|]; [|by apply v2_reject_with].
  destruct (contains _ _); [by apply v2_reject_with|].
  destruct (negb (Session.validation_joins env)); [by apply v2_still|].
  destruct (validate_share_no_dedup _ _ _ _ _ _) as [[? hd ?|hd ? ?]|e]; cbn [is_ok];
    [| |by apply v2_reject_with].
  all: match goal with |- context [accept_share ?s1 ?x ?who ?h ?d ?v] =>
         destruct (v2_accept_share s1 x who h d v) as [E1 E2]; destruct (accept_share s1 x who h d v) end.
  all: cbn in E1, E2; apply v2_respond; rewrite E1.
  - by apply unmoved_moves.
  - apply unmoved_moves. etrans; [exact E2|]. destruct (Session.submit_answer env _); [|done].
    auto with presence.
Qed.

Lemma v2_send_job s w t future env :
  stats_worker (send_job s w t future env).1.2 = stats_worker s.
Proof. unfold send_job, assign_job_id. by repeat case_match; simplify_eq/=. Qed.

Lemma v2_open_channel s st w open i (is_new : bool) env :
  stats_worker s = (if is_new then None else Some (canonical_name i)) ->
  v2_moves s st (open_channel s st w open i is_new env).
Proof.
  intros Hs. unfold open_channel. cbv zeta. destruct (_ <? _)%nat; [by apply v2_still|].
  set (st1 := if is_new then set_worker_protocol _ _ _ else st).
  assert (moves (stats_worker s) (Some (canonical_name i)) st st1) as Hm.
  { unfold st1. rewrite Hs. destruct is_new; [|apply moves_refl].
    eapply moves_trans; [apply moves_online|]. auto with presence. }
  clearbody st1. unfold v2_moves.
  destruct (open_extended_success _ _ _ _ _); [|done]. destruct (send _ _ _ _) as [[] w1]; [|done].
  cbn [negb]. destruct (pending_template _) as [t|]; [|done].
  match goal with |- context [send_job ?s2 ?x ?y ?f ?v] =>
    pose proof (v2_send_job s2 x y f v) as E; destruct (send_job s2 x y f v) as [[ok s3] w2] end.
  cbn in E. destruct ok; cbn; by rewrite E.
Qed.

Lemma v2_take_identity s st is_new s1 st1 g :
  take_identity s st is_new = (Some (s1, st1), g) ->
  moves (stats_worker s) (stats_worker s1) st st1
  /\ stats_worker s1 = (if is_new then None else stats_worker s).
Proof.
  unfold take_identity. destruct is_new; [|intros; simplify_eq; split; [apply moves_refl | done]].
  destruct (record_new_authorization _) as [[] g']; [|done]. intros. simplify_eq.
  split; [apply leave_identity | done].
Qed.

Lemma v2_open s st w payload env : v2_moves s st (handle_open_extended s st w payload env).
Proof.
  assert (forall id code, v2_moves s st (open_error s st w id code)) as He
    by (intros; apply v2_respond, moves_refl).
  unfold handle_open_extended. destruct (negb _); [by apply v2_still|].
  destruct (decode_open_extended payload) as [open|]; [|by apply v2_still].
  destruct (check_worker_name _ _); [|done].
  destruct (parse _ _ _) as [i|]; [|done]. destruct (channel_open _); [done|].
  destruct (take_identity _ _ _) as [[[s1 st1]|] g] eqn:Et; [|by apply v2_still].
  apply v2_take_identity in Et as [Hm Hw].
  destruct (_ <? _)%nat; [exact Hm|].
  unfold v2_moves. eapply moves_trans; [exact Hm|]. apply v2_open_channel. rewrite Hw.
  case_bool_decide as E; done.
Qed.

Lemma v2_setup s st w payload : v2_moves s st (handle_setup_connection s st w payload).
Proof.
  unfold handle_setup_connection, setup_error. repeat case_match; try by apply v2_still.
  apply v2_respond, moves_refl.
Qed.

Lemma v2_message s st w t payload env : v2_moves s st (handle_message s st w t payload env).1.
Proof.
  unfold handle_message. destruct (try_consume _ _ _) as [ok r]. set (s1 := set_guard _ _ _ _).
  destruct (negb ok); [apply v2_still; [done | by apply unmoved_same]|]. cbn [fst].
  destruct (_ =? _); [by apply (v2_setup s1)|]. destruct (_ =? _); [by apply (v2_open s1)|].
  destruct (_ =? _); [by apply (v2_submit s1) | by apply v2_still].
Qed.

Definition v2_outcome (s : Sv2Session) (st : PoolStats) (o : Sv2.Outcome) : Prop :=
  match o with
  | Running s' st' _ | Crashed s' st' _ => moves (stats_worker s) (stats_worker s') st st'
  | Ended _ s' st' _ => exists st1, moves (stats_worker s) (stats_worker s') st st1 /\ st' = close s' st1
  end.

Lemma v2_retarget s0 st0 s st w env :
  moves (stats_worker s0) (stats_worker s) st0 st -> v2_outcome s0 st0 (retarget_or_end s st w env).
Proof.
  intros Hm. unfold retarget_or_end. destruct (apply_retarget s st w env) as [[[[ok s1] st1] w1]|] eqn:E; [|done].
  assert (moves (stats_worker s0) (stats_worker s1) st0 st1) as Hm1.
  { unfold apply_retarget in E. destruct (negb _); [by simplify_eq|].
    destruct (check_retarget _ _ _) as [[[d|] v]|]; [|by simplify_eq..].
    assert (forall x, moves (stats_worker s) (stats_worker s) x
      (match stats_worker s with
       | Some wk => update_worker_vardiff x wk d (Session.wall1 env) | None => x end)) as Hv
      by (intros; destruct (stats_worker s); auto with presence).
    eapply moves_trans; [exact Hm|].
    destruct (set_target _ _); [destruct (send _ _ _ _)|]; simplify_eq; apply Hv. }
  destruct ok; [done|]. by exists st1.
Qed.

Lemma v2_run_step s st w e env env' : v2_outcome s st (run_step s st w e env env').
Proof.
  destruct e; cbn [run_step]; try (exists st; split; [apply moves_refl | done]).
  - destruct (check_message_size _ _); [|exists st; split; [apply moves_refl | done]].
    pose proof (v2_message s st w msg_type payload env) as Hm.
    destruct (handle_message _ _ _ _ _ _) as [[[[f s1] st1] w1] ban].
    destruct f; [by apply v2_retarget | by exists st1 | done].
  - assert (stats_worker (on_broadcast s w b env).1.2 = stats_worker s) as E.
    { unfold on_broadcast. destruct (Engine.b_clean b), (channel_open _); try done.
      all: match goal with |- context [send_job ?s2 ?x ?y ?f ?v] =>
             pose proof (v2_send_job s2 x y f v) as E; destruct (send_job s2 x y f v) as [[[] s3] w2] end;
        done. }
    destruct (on_broadcast _ _ _ _) as [[ok s1] w1]. cbn in E. destruct ok.
    + apply v2_retarget. rewrite E. apply moves_refl.
    + exists st. rewrite E. split; [apply moves_refl | done].
  - by apply v2_retarget, moves_refl.
Qed.
End V2.

(** ** The pool *)

(** What [Session::new] and [Sv2Session::new] take from the configuration and
    the connection. *)
Record SessionConf := mkConf {
  c_pool_tag : string;
  c_initial_difficulty : Z;
  c_extranonce1 : bytes;
  c_extranonce1_size : nat;
  c_extranonce2_size : nat;
  c_network : Network;
  c_vardiff : VardiffConfig;
  c_security : SecurityConfig;
  c_session_id : string;
  c_now : Instant
}.

Definition new_v1 (c : SessionConf) : Session.Session :=
  Session.session_new (c_pool_tag c) (c_initial_difficulty c) (c_extranonce1 c) (c_extranonce2_size c)
    (c_network c) (c_vardiff c) (c_security c) (c_session_id c) (c_now c).
Definition new_v2 (c : SessionConf) : Sv2.Sv2Session :=
  Sv2.sv2_new (c_pool_tag c) (c_initial_difficulty c) (c_extranonce1 c) (c_extranonce1_size c)
    (c_extranonce2_size c) (c_network c) (c_vardiff c) (c_security c) (c_session_id c) (c_now c).

Inductive Conn : Type :=
| V1Conn (s : Session.Session)
| V2Conn (s : Sv2.Sv2Session) (w : Sv2.Writer)
| Dead (who : option string).

Record Pool := mkPool { stats : PoolStats; conns : gmap nat Conn }.

Inductive PoolEvent : Type :=
| Connect1 (k : nat) (c : SessionConf) (t : option JobTemplate)
| Connect2 (k : nat) (c : SessionConf) (t : option JobTemplate) (w : Sv2.Writer)
| Serve1 (k : nat) (e : Session.Event) (env env' : Session.Env)
| Serve2 (k : nat) (e : Sv2.Event) (env : Sv2.Env) (env' : Session.Env)
| Prune (now : Z)
| Tick (now : Instant)
| Checkpoint (now : Z)
| Settle (b : PendingBlock) (r : BlockResolution) (now : Z).

(** The worker a connection is counted under. *)
Definition who (c : Conn) : option string :=
  match c with
  | V1Conn s => Session.stats_worker s
  | V2Conn s _ => Sv2.stats_worker s
  | Dead o => o
  end.

(** The connections counted under [w]. *)
Definition counted (m : gmap nat Conn) (w : string) : Z := sum_map (fun _ c => one (who c) w) m.

Section Pool.
Context `{Sha256} `{HexCodec} `{TxCodec} `{AddressCodec} `{Libm} `{Sv2Codec.BinarySv2}.
Variable parse_request : string -> option StratumRequest.
Variable by_difficulty : gmap string Z -> list (string * Z).

Definition served1 (p : Pool) (k : nat) (o : Session.Outcome) : Pool :=
  match o with
  | Session.Running _ s st => mkPool st (<[k := V1Conn s]> (conns p))
  | Session.Ended _ _ st => mkPool st (delete k (conns p))
  | Session.Crashed s st => mkPool st (<[k := Dead (Session.stats_worker s)]> (conns p))
  end.

Definition served2 (p : Pool) (k : nat) (o : Sv2.Outcome) : Pool :=
  match o with
  | Sv2.Running s st w => mkPool st (<[k := V2Conn s w]> (conns p))
  | Sv2.Ended _ _ st _ => mkPool st (delete k (conns p))
  | Sv2.Crashed s st _ => mkPool st (<[k := Dead (Sv2.stats_worker s)]> (conns p))
  end.

Definition with_stats (p : Pool) (st : PoolStats) : Pool := mkPool st (conns p).

(** A connection takes an unused key; events for a connection that is gone are
    never delivered. *)
Definition connect (p : Pool) (k : nat) (c : Conn) : Pool :=
  match conns p !! k with
  | None => mkPool (miner_connected (stats p)) (<[k := c]> (conns p))
  | Some _ => p
  end.

Definition pool_step (p : Pool) (ev : PoolEvent) : Pool :=
  match ev with
  | Connect1 k c t => connect p k (V1Conn (Session.session_start (new_v1 c) t))
  | Connect2 k c t w => connect p k (V2Conn (Sv2.session_start (new_v2 c) t) w)
  | Serve1 k e env env' =>
      match conns p !! k with
      | Some (V1Conn s) => served1 p k (Session.run_step parse_request s (stats p) e env env')
      | _ => p
      end
  | Serve2 k e env env' =>
      match conns p !! k with
      | Some (V2Conn s w) => served2 p k (Sv2.run_step s (stats p) w e env env')
      | _ => p
      end
  | Prune now => with_stats p (prune_idle_workers by_difficulty (stats p) now)
  | Tick now => with_stats p (tick_hashrates (stats p) now)
  | Checkpoint now => with_stats p (record_hashrate_snapshot (stats p) now)
  | Settle b r now => with_stats p (record_block_resolution (stats p) b r now).2
  end.

(** ** The invariant *)
Record presence_inv (p : Pool) : Prop := {
  pi_table : table_tells (stats p) (counted (conns p));
  pi_connected : connected_miners (counters (stats p)) = Z.of_nat (size (conns p))
}.

Lemma counted_insert m k c w :
  counted (<[k := c]> m) w = counted (delete k m) w + one (who c) w.
Proof.
  unfold counted. rewrite <- insert_delete_eq, sum_map_insert_fresh by apply lookup_delete_eq. lia.
Qed.

Lemma counted_bounds m w : 0 <= counted m w <= Z.of_nat (size m).
Proof. apply sum_map_bounds. intros. apply one_bounds. Qed.

Lemma size_delete (m : gmap nat Conn) k c : m !! k = Some c -> size m = S (size (delete k m)).
Proof.
  intros E. rewrite <- (insert_delete_id m k c E) at 1. apply map_size_insert_None, lookup_delete_eq.
Qed.

Lemma table_ext s n n' : (forall w, n w = n' w) -> table_tells s n -> table_tells s n'.
Proof. intros E Ht w. rewrite <- E. apply Ht. Qed.

(** A connection [c] is replaced by [c'] while the statistics move with it. *)
Lemma table_served p k c c' st :
  presence_inv p -> Z.of_nat (size (conns p)) <= u64_max -> conns p !! k = Some c ->
  moves (who c) (who c') (stats p) st ->
  table_tells st (fun w => counted (delete k (conns p)) w + one (who c') w).
Proof.
  intros [It Ic] Hb Hk [Hm _]. apply Hm.
  - intros w. pose proof (counted_bounds (delete k (conns p)) w).
    rewrite (size_delete _ _ _ Hk) in Hb. lia.
  - eapply table_ext; [|exact It]. intros w. rewrite <- counted_insert. by rewrite insert_id.
Qed.

Lemma replaced_inv p k c c' st :
  presence_inv p -> Z.of_nat (size (conns p)) <= u64_max -> conns p !! k = Some c ->
  moves (who c) (who c') (stats p) st -> presence_inv (mkPool st (<[k := c']> (conns p))).
Proof.
  intros I Hb Hk Hm. split; cbn.
  - eapply table_ext; [|by eapply table_served]. intros w. by rewrite counted_insert.
  - rewrite (moves_connected _ _ _ _ Hm), (pi_connected _ I). by rewrite map_size_insert_Some.
Qed.

(** The closing code of both protocols. *)
Lemma conn_closed_inv p k c o st :
  presence_inv p -> Z.of_nat (size (conns p)) <= u64_max -> conns p !! k = Some c ->
  moves (who c) o (stats p) st ->
  presence_inv (mkPool (match o with
                        | Some w => mark_worker_offline (miner_disconnected st) w
                        | None => miner_disconnected st end) (delete k (conns p))).
Proof.
  intros I Hb Hk Hm. set (st1 := miner_disconnected st).
  pose proof (table_served p k c (Dead o) st I Hb Hk Hm) as Ht. cbn [who] in Ht.
  destruct (moves_leave o st1) as [Hl Hc]. rewrite (size_delete _ _ _ Hk) in Hb. split; cbn [stats conns].
  - eapply table_ext; [|apply (Hl (counted (delete k (conns p)))); [|exact Ht]].
    + intros w. cbn beta. rewrite one_None. lia.
    + intros w. pose proof (counted_bounds (delete k (conns p)) w). lia.
  - rewrite Hc. unfold st1. cbn. rewrite (moves_connected _ _ _ _ Hm), (pi_connected _ I).
    rewrite (size_delete _ _ _ Hk). unfold wrap64. rewrite Z.mod_small; unfold u64_max in *; lia.
Qed.

Lemma served1_inv p k s e env env' :
  presence_inv p -> Z.of_nat (size (conns p)) <= u64_max -> conns p !! k = Some (V1Conn s) ->
  presence_inv (served1 p k (Session.run_step parse_request s (stats p) e env env')).
Proof.
  intros I Hb Hk. pose proof (v1_run_step parse_request s (stats p) e env env') as Ho.
  destruct (Session.run_step _ _ _ _ _ _) as [sent s' st|ban s' st|s' st]; cbn in *.
  - by eapply replaced_inv.
  - destruct Ho as (st1 & Hm & ->). by apply (conn_closed_inv p k (V1Conn s)).
  - by eapply replaced_inv.
Qed.

Lemma served2_inv p k s w e env env' :
  presence_inv p -> Z.of_nat (size (conns p)) <= u64_max -> conns p !! k = Some (V2Conn s w) ->
  presence_inv (served2 p k (Sv2.run_step s (stats p) w e env env')).
Proof.
  intros I Hb Hk. pose proof (v2_run_step s (stats p) w e env env') as Ho.
  destruct (Sv2.run_step _ _ _ _ _ _) as [s' st w'|ban s' st w'|s' st w']; cbn in *.
  - by eapply replaced_inv.
  - destruct Ho as (st1 & Hm & ->). by apply (conn_closed_inv p k (V2Conn s w)).
  - by eapply replaced_inv.
Qed.

Lemma connect_inv p k c :
  presence_inv p -> Z.of_nat (size (conns p)) < u64_max -> who c = None ->
  presence_inv (connect p k c).
Proof.
  intros I Hb Hw. unfold connect. destruct (conns p !! k) eqn:Hk; [done|]. destruct I as [It Ic].
  split; cbn.
  - eapply table_ext; [|exact It]. intros w.
    rewrite counted_insert, delete_id, Hw, one_None by done. lia.
  - rewrite map_size_insert_None, Ic by done. unfold wrap64. rewrite Z.mod_small; unfold u64_max in *; lia.
Qed.

Lemma background_inv p st : unmoved (stats p) st -> presence_inv p -> presence_inv (with_stats p st).
Proof.
  intros [Ht Hc] [It Ic]. split; cbn; [|congruence]. intros w. apply Ht; [apply counted_bounds | apply It].
Qed.

Lemma pool_step_inv p ev :
  presence_inv p -> Z.of_nat (size (conns p)) < u64_max -> presence_inv (pool_step p ev).
Proof.
  intros I Hb. destruct ev; cbn [pool_step]; try (apply background_inv; auto with presence; done).
  - apply connect_inv; [done | done |]. by destruct t.
  - apply connect_inv; [done | done |]. by destruct t.
  - destruct (conns p !! k) as [[]|] eqn:Hk; [|done..]. apply served1_inv; [done | lia | done].
  - destruct (conns p !! k) as [[]|] eqn:Hk; [done | | done..]. apply served2_inv; [done | lia | done].
Qed.

Lemma pool_step_size p ev : (size (conns (pool_step p ev)) <= S (size (conns p)))%nat.
Proof.
  destruct ev; cbn [pool_step with_stats conns]; unfold connect, served1, served2; try lia.
  all: repeat case_match; cbn [conns]; rewrite ?map_size_insert, ?map_size_delete; repeat case_match; unfold id; lia.
Qed.

Lemma pool_run_inv evs : forall p,
  presence_inv p -> Z.of_nat (size (conns p)) + Z.of_nat (length evs) <= u64_max ->
  presence_inv (foldl pool_step p evs).
Proof.
  induction evs as [|ev evs IH]; intros p I Hb; [done|]. cbn [foldl length] in *.
  pose proof (pool_step_size p ev). apply IH; [|lia]. apply pool_step_inv; [done | lia].
Qed.
End Pool.

(** ** Properties *)

(** C28. Presence is exact across sessions: from a start with an empty worker
    table, after any interleaving of V1 and V2 sessions connecting, authorizing,
    switching identities, submitting, retargeting and ending, mixed with pruner
    runs, ticks, checkpoints and settled blocks, the connected figure is the
    number of connections; every worker some connection is under has a row; and
    every row the dashboard shows is online exactly when some connection is under
    its worker, and counts those connections.  A session task that panicked
    counts as connected for ever, as nothing runs its closing code. *)
Theorem presence_is_exact `{Sha256, HexCodec, TxCodec, AddressCodec, Libm, Sv2Codec.BinarySv2}
    (parse_request : string -> option StratumRequest)
    (by_difficulty : gmap string Z -> list (string * Z))
    (st : PoolStats) (evs : list PoolEvent) (n : NodeFigures) (now : Instant) :
  worker_states (workers st) = ∅ -> connected_miners (counters st) = 0 ->
  Z.of_nat (length evs) <= u64_max ->
  let p := foldl (pool_step parse_request by_difficulty) (mkPool st ∅) evs in
  let shown := snapshot (stats p) n now in
  connected_miners (sn_counters shown) = Z.of_nat (size (conns p))
  /\ (forall k c w, conns p !! k = Some c -> who c = Some w ->
      exists row, row ∈ sn_worker_states shown /\ wr_worker row = w)
  /\ (forall row, row ∈ sn_worker_states shown ->
      ws_online (wr_state row) = (0 <? counted (conns p) (wr_worker row))
      /\ ws_active_sessions (wr_state row) = counted (conns p) (wr_worker row)).
Proof.
  intros Hw Hc Hl p shown.
  assert (presence_inv p) as [It Ic].
  { apply pool_run_inv; [|cbn [conns]; rewrite map_size_empty; lia]. split; [|done]. intros w. cbn [stats conns].
    unfold counted. by rewrite Hw, lookup_empty, sum_map_empty. }
  destruct (table_shown (stats p) n now _ It) as [Hhas Hall].
  split; [exact Ic|]. split; [|exact Hall].
  intros k c w Hk Hwho. apply Hhas. unfold counted. rewrite (sum_map_delete _ _ _ _ Hk), Hwho.
  pose proof (counted_bounds (delete k (conns p)) w) as Hb. unfold counted in Hb.
  unfold one at 1. rewrite bool_decide_eq_true_2 by done. lia.
Qed.

(** A V1 session and a V2 channel authorize as one worker; then the V1 session
    ends, and the pruner runs a year later. *)
Definition demo_conf : SessionConf :=
  mkConf "/btcpool/" 2000 demo_en1 4 4 Regtest
    (mkVardiffConfig 10 60 1000 1000000 (f64_of_Z 4) f1 (f64_of_Z 2))
    (mkSecurityConfig 10 100 600 50 4096 128 8) "00000000000000ff" 0.
Definition demo_serve2 (e : Sv2.Event) (t : Z) (id : string) : PoolEvent :=
  Serve2 2 e (Sv2.mkEnv (Sv2Props.demo_time (t * NANOS) id) 9 1) (Sv2Props.demo_time (t * NANOS) id).
Definition demo_events : list PoolEvent :=
  [Connect1 1 demo_conf (Some demo_built_template);
   Connect2 2 demo_conf (Some demo_built_template) Sv2Props.demo_writer;
   Serve1 1 (Session.Inbound "subscribe") (Session.demo_env "a") (Session.demo_env "a");
   Serve1 1 (Session.Inbound "authorize") (Session.demo_env "b") (Session.demo_env "b");
   demo_serve2 (Sv2.Inbound Sv2.MESSAGE_TYPE_SETUP_CONNECTION Sv2Props.demo_setup) 1 "c";
   demo_serve2 (Sv2.Inbound Sv2.MESSAGE_TYPE_OPEN_EXTENDED_MINING_CHANNEL
                  (Sv2Props.demo_open (repeat xff 32))) 2 "d";
   Serve1 1 Session.EndOfInput (Session.demo_env "e") (Session.demo_env "e");
   Prune (1700000000 + 365 * 86400)].
Abbreviation demo_pool_step :=
  (@pool_step zero_sha256 hex_codec legacy_codec demo_codec Sv2Props.series_libm Sv2Codec.spec_sv2
     Session.demo_parse merge_order).
Definition demo_pool : Pool := foldl demo_pool_step (mkPool Session.demo_stats ∅) demo_events.

Lemma presence_is_exact_witness :
  size (conns demo_pool) = 1%nat
  /\ connected_miners (sn_counters (snapshot (stats demo_pool) (node_new 0) 0)) = 1
  /\ exists row, row ∈ sn_worker_states (snapshot (stats demo_pool) (node_new 0) 0)
                 /\ wr_worker row = "bcrt1qdemo.rig"%string
                 /\ ws_online (wr_state row) = true /\ ws_active_sessions (wr_state row) = 1.
Proof.
  pose proof (@presence_is_exact zero_sha256 hex_codec legacy_codec demo_codec
    Sv2Props.series_libm Sv2Codec.spec_sv2
    Session.demo_parse merge_order Session.demo_stats demo_events (node_new 0) 0
    eq_refl eq_refl ltac:(vm_compute; discriminate)) as (Hc & Hw & Hr).
  fold demo_pool in Hc, Hw, Hr.
  assert (size (conns demo_pool) = 1%nat) as Es by (vm_compute; reflexivity).
  split; [exact Es|]. split; [rewrite Hc, Es; reflexivity|].
  assert (counted (conns demo_pool) "bcrt1qdemo.rig" = 1) as En by (vm_compute; reflexivity).
  assert (exists c, conns demo_pool !! 2%nat = Some c /\ who c = Some "bcrt1qdemo.rig"%string)
    as (c & Hk & Hwho) by (vm_compute; eexists; split; reflexivity).
  destruct (Hw 2%nat c "bcrt1qdemo.rig"%string Hk Hwho) as (row & Hin & Hn).
  exists row. destruct (Hr row Hin) as [Ho Ha]. rewrite Hn, En in Ho, Ha. auto.
Defined.

End Presence.
