(* ===== verification/NoPanic.v ===== *)
(** * NoPanic: no session task panics

    Under a configuration in range, the retarget controllers of the sessions of
    both protocols stay well-formed whatever the peers send, so no handler of
    [network/session.rs] or [protocol/sv2/mod.rs] panics, and the difficulty of
    a session is the configured start or within the configured limits. *)
From S2P Require Import Prelude Text F64 Rounding Json Errors Interfaces Target Rpc Hashrate Credit.
From S2P Require Import Vardiff VardiffRange Stats Store Snapshot Security Accounting Identity Template Config.
From S2P Require Import Jobs Validator Engine Sv1 Session Sv2Codec Sv2Wire Sv2 Sv2Props Presence.
Import Rpc Credit Vardiff VardiffRange Stats Security Accounting Identity Template Jobs Validator Sv1.
Import Rounding Presence.

Module NoPanic.

(** ** The controller of a session *)

(** The fields a session's retarget depends on: its controller, configuration,
    assigned difficulty and credit; [pool] is the configured controller and the
    difficulty sessions start at. *)
Record control_safe (v : Vardiff) (c : VardiffConfig) (d : Z) (k : ShareCredit)
    (pool : VardiffConfig * Z) : Prop := {
  cs_wf : vardiff_wf v;
  cs_pool : c = pool.1;
  cs_cfg : cfg v = c;
  cs_current : current v = d;
  cs_floor : floor k = Z.max (min_difficulty c) 1;
  cs_range : d = pool.2 \/ min_difficulty c <= d <= max_difficulty c
}.

Lemma credit_worth k assigned_ job_d hash_d now :
  let '(worth, k') := credit k assigned_ job_d hash_d now in
  floor k' = floor k /\ floor k <= worth <= Z.max assigned_ (floor k).
Proof.
  pose proof (credit_step_floor k (mkInput assigned_ job_d hash_d now)) as Hf.
  unfold credit_step in Hf. cbn in Hf. cbn. split; [done|]. rewrite Hf. unfold effective.
  assert (floor (note_assigned k assigned_ now) = floor k /\ assigned (note_assigned k assigned_ now) = assigned_) as [-> ->].
  { unfold note_assigned. destruct (Z.eqb_spec assigned_ (assigned k)); by subst. }
  case_match; lia.
Qed.

Section Control.
Context `{L : Libm} `{!ExpAccurate L}.

Lemma control_share v c d k pool job_d hash_d now :
  control_safe v c d k pool ->
  let '(worth, k') := credit k d job_d hash_d now in
  control_safe (record_share v worth now) c d k' pool.
Proof.
  intros [Hw Hp Hc Hd Hf Hr]. pose proof (credit_worth k d job_d hash_d now) as Hwo.
  destruct (credit k d job_d hash_d now) as [worth k']. destruct Hwo as [Hf' Hb].
  pose proof (vw_current v Hw). pose proof (vw_cfg v Hw) as [_ Hmin Hmax Hex _ _]. rewrite Hc in *.
  split; [apply record_share_wf; [done | lia] | done | done | done | congruence | done].
Qed.

Lemma control_suggest v c d k pool x now :
  control_safe v c d k pool ->
  exists v', suggest v x now = Some (current v', v') /\ control_safe v' c (current v') k pool.
Proof.
  intros [Hw Hp Hc Hd Hf Hr]. destruct (suggest_wf v x now Hw) as (v' & -> & Hw' & Hc' & Hb).
  exists v'. split; [done|]. rewrite Hc in *. by split; [..|right].
Qed.

Lemma control_retarget v c d k pool now net :
  control_safe v c d k pool ->
  exists r v', check_retarget v now net = Some (r, v') /\ control_safe v' c (default d r) k pool.
Proof.
  intros [Hw Hp Hc Hd Hf Hr]. destruct (check_retarget_wf v now net Hw) as (r & v' & -> & Hw' & Hc' & Hb).
  exists r, v'. split; [done|]. rewrite Hc in *. destruct r as [x|]; cbn.
  - destruct Hb as (Hb & <- & _). split; try done. right.
    pose proof (vw_cfg v Hw) as Hok. rewrite Hc in Hok. destruct Hok as [_ Hmin Hmax _ _ _].
    unfold ceiling in Hb. case_match; lia.
  - split; try done. congruence.
Qed.
End Control.

(** ** V1 sessions *)
Section V1.
Context `{Sha256} `{HexCodec} `{TxCodec} `{AddressCodec} `{L : Libm} `{!ExpAccurate L}.
Import Session.

Definition v1_safe (pool : VardiffConfig * Z) (s : Session) : Prop :=
  control_safe (vardiff s) (vardiff_cfg s) (difficulty s) (credit_state s) pool.

Definition v1_step_safe (pool : VardiffConfig * Z) (x : Session.Step) : Prop :=
  x.1.1 <> Panicked /\ v1_safe pool x.1.2.

Lemma v1_reject_share_safe pool s st r env :
  v1_safe pool s -> v1_safe pool (reject_share s st r env).1.2.
Proof. unfold reject_share. by destruct (record_rejected _ _ _ _ _) as [[??] ?]. Qed.

Lemma v1_reject_with_safe pool s st req r e env :
  v1_safe pool s -> v1_step_safe pool (reject_with s st req r e env).
Proof.
  intros Hs. unfold reject_with. pose proof (v1_reject_share_safe pool s st r env Hs).
  destruct (reject_share s st r env) as [[[] ?] ?]; by split.
Qed.

Lemma v1_accept_share_safe pool s st w hd jd env :
  v1_safe pool s -> v1_safe pool (accept_share s st w hd jd env).1.
Proof.
  intros Hs. unfold accept_share. pose proof (control_share _ _ _ _ _ jd hd (now env) Hs) as Hc.
  by destruct (credit _ _ _ _ _).
Qed.

Lemma v1_submit_safe pool s st req p env :
  v1_safe pool s -> v1_step_safe pool (handle_submit s st req p env).
Proof.
  intros Hs. unfold handle_submit. destruct (negb _ || _).
  { pose proof (v1_reject_share_safe pool s st Unauthorized env Hs).
    destruct (reject_share _ _ _ _) as [[??] ?]. by split. }
  destruct (find_job _ _) as [entry|]; [|by apply v1_reject_with_safe].
  destruct (contains _ _); [by apply v1_reject_with_safe|]. destruct (negb (validation_joins env)); [by split|].
  destruct (validate_share_no_dedup _ _ _ _ _ _) as [[? hd ?|hd ? ?]|e]; cbn [is_ok];
    [| |by apply v1_reject_with_safe].
  all: match goal with |- context [accept_share ?s1 ?x ?w ?h ?d ?v] =>
         pose proof (v1_accept_share_safe pool s1 x w h d v Hs) as E; destruct (accept_share s1 x w h d v) end.
  all: by split.
Qed.

Lemma v1_authorize_safe pool s st req p env :
  v1_safe pool s -> v1_step_safe pool (handle_authorize s st req p env).
Proof.
  intros Hs. unfold handle_authorize. destruct (negb _); [by split|].
  destruct (check_worker_name _ _); [|by split]. destruct (parse _ _ _) as [i|]; [|by split].
  set (sw := if bool_decide _ then _ else _).
  assert (match sw with (Some (s1, _), _) => v1_safe pool s1 | (None, _) => True end) as Hsw.
  { unfold sw, switch_identity. case_bool_decide; [done|]. by destruct (record_new_authorization _) as [[] ?]. }
  destruct sw as [[[s1 st1]|] g]; [|by split].
  set (s2 := set_ident _ _). assert (v1_safe pool s2) as Hs2 by done. clearbody s2.
  repeat case_match; by split.
Qed.

Lemma v1_retarget_safe pool s st env :
  v1_safe pool s -> v1_step_safe pool (apply_retarget s st env).
Proof.
  intros Hs. unfold apply_retarget.
  destruct (control_retarget _ _ _ _ _ (now env) (network_difficulty s) Hs) as (r & v & -> & Hc).
  by destruct r; split.
Qed.

Lemma v1_dispatch_safe pool s st req env :
  v1_safe pool s -> v1_step_safe pool (dispatch s st req env).
Proof.
  intros Hs. unfold dispatch. destruct (from_request req) as [[]|]; try by split.
  - by apply v1_authorize_safe.
  - by apply v1_submit_safe.
  - unfold handle_configure. destruct (version_rolling _); by split.
  - unfold handle_suggest_difficulty.
    match goal with |- context [suggest (vardiff s) ?x ?t] =>
      destruct (control_suggest _ _ _ _ _ x t Hs) as (v & -> & Hc) end.
    by split.
Qed.

Variable parse_request : string -> option StratumRequest.

Lemma v1_line_safe pool s st line env :
  v1_safe pool s -> v1_step_safe pool (handle_line parse_request s st line env).1.
Proof.
  intros Hs. unfold handle_line. destruct (try_consume _ _ _) as [ok r].
  set (s1 := set_guard _ _ _ _). assert (v1_safe pool s1) as Hs1 by done.
  destruct (negb ok); [by split|]. destruct (is_blank line); [by split|].
  destruct (parse_request line); [by apply v1_dispatch_safe | by split].
Qed.

Lemma v1_broadcast_safe pool s st b env :
  v1_safe pool s -> v1_step_safe pool (on_broadcast s st b env).
Proof. intros Hs. unfold on_broadcast. destruct (Engine.b_clean b); repeat case_match; by split. Qed.

(** How one turn of the loop may end. *)
Definition v1_outcome_safe (pool : VardiffConfig * Z) (o : Session.Outcome) : Prop :=
  match o with Running _ s _ => v1_safe pool s | Ended _ _ _ => True | Crashed _ _ => False end.

Lemma v1_after_safe pool x ban env :
  v1_step_safe pool x -> v1_outcome_safe pool (after_handler x ban env).
Proof.
  destruct x as [[r s1] st1]. intros [Hr Hs]. cbn in Hr, Hs. destruct r; cbn; [|done..].
  pose proof (v1_retarget_safe pool s1 st1 env Hs) as [Hp Hs2].
  destruct (apply_retarget s1 st1 env) as [[r2 s2] st2] eqn:E. cbn in Hp, Hs2.
  destruct r2; [done | | done].
  unfold apply_retarget in E. repeat case_match; simplify_eq.
Qed.

Lemma v1_run_step_safe pool s st e env env' :
  v1_safe pool s -> v1_outcome_safe pool (run_step parse_request s st e env env').
Proof.
  intros Hs. destruct e; cbn [run_step]; try done.
  - pose proof (v1_line_safe pool s st line env Hs). destruct (handle_line _ _ _ _ _) as [x ban]. by apply v1_after_safe.
  - by apply v1_after_safe, v1_broadcast_safe.
  - by apply v1_after_safe.
Qed.
End V1.

(** ** V2 sessions *)
Section V2.
Import Sv2Codec Sv2Wire Sv2.
Context `{Sha256} `{HexCodec} `{TxCodec} `{AddressCodec} `{L : Libm} `{!ExpAccurate L} `{BinarySv2}.

(** With at least one extranonce byte reserved, a granted width always fits. *)
Definition v2_safe (pool : VardiffConfig * Z) (s : Sv2Session) : Prop :=
  control_safe (vardiff s) (vardiff_cfg s) (difficulty s) (credit_state s) pool
  /\ (1 <= extranonce_total s)%nat.

Definition v2_step_safe (pool : VardiffConfig * Z) (x : Sv2.Step) : Prop :=
  x.1.1.1 <> Panicked /\ v2_safe pool x.1.1.2.

Lemma v2_respond_safe pool s st w t ch p what :
  v2_safe pool s -> v2_step_safe pool (respond s st w t ch p what).
Proof. intros Hs. unfold respond. repeat case_match; by split. Qed.

Lemma v2_reject_with_safe pool s st w seq r code env :
  v2_safe pool s -> v2_step_safe pool (reject_with s st w seq r code env).
Proof.
  intros Hs. unfold reject_with, reject_share. destruct (record_rejected _ _ _ _ _) as [[[] ?] ?]; [by split|].
  by apply v2_respond_safe.
Qed.

Lemma v2_accept_share_safe pool s st who hd jd env :
  v2_safe pool s -> v2_safe pool (accept_share s st who hd jd env).1.
Proof.
  intros [Hs Ht]. unfold accept_share. pose proof (control_share _ _ _ _ _ jd hd (Session.now env) Hs) as Hc.
  by destruct (credit _ _ _ _ _).
Qed.

Lemma v2_submit_safe pool s st w payload env :
  v2_safe pool s -> v2_step_safe pool (handle_submit s st w payload env).
Proof.
  intros Hs. unfold handle_submit. destruct (negb (channel_open _)); [by split|].
  destruct (decode_submit_extended payload) as [m|]; [|by split].
  destruct (negb _); [by apply v2_reject_with_safe|].
  destruct (resolve_job _ _) as [entry|]; [|by apply v2_reject_with_safe].
  destruct (contains _ _); [by apply v2_reject_with_safe|].
  destruct (negb (Session.validation_joins env)); [by split|].
  destruct (validate_share_no_dedup _ _ _ _ _ _) as [[? hd ?|hd ? ?]|e]; cbn [is_ok];
    [| |by apply v2_reject_with_safe].
  all: match goal with |- context [accept_share ?s1 ?x ?who ?h ?d ?v] =>
         pose proof (v2_accept_share_safe pool s1 x who h d v Hs) as E; destruct (accept_share s1 x who h d v) end.
  all: by apply v2_respond_safe.
Qed.

Lemma v2_send_job_safe pool s w t future env :
  v2_safe pool s -> v2_safe pool (send_job s w t future env).1.2.
Proof. intros Hs. unfold send_job, assign_job_id. by repeat case_match; simplify_eq/=. Qed.

Lemma v2_open_channel_safe pool s st w open i is_new env :
  v2_safe pool s -> (Z.to_nat (min_extranonce_size open) <= extranonce_total s)%nat ->
  v2_step_safe pool (open_channel s st w open i is_new env).
Proof.
  intros Hs Hg. unfold open_channel. cbv zeta. destruct (Nat.ltb_spec (extranonce_total s)
    (Nat.max (Z.to_nat (min_extranonce_size open)) 1)) as [Hlt|_]; [destruct Hs; lia|].
  destruct (open_extended_success _ _ _ _ _); [|by split]. destruct (send _ _ _ _) as [[] w1]; [|by split].
  cbn [negb]. destruct (pending_template _) as [t|]; [|by split].
  match goal with |- context [send_job ?s2 ?x ?y ?f ?v] =>
    pose proof (v2_send_job_safe pool s2 x y f v Hs) as E; destruct (send_job s2 x y f v) as [[ok s3] w2] end.
  destruct ok; by split.
Qed.

Lemma v2_open_safe pool s st w payload env :
  v2_safe pool s -> v2_step_safe pool (handle_open_extended s st w payload env).
Proof.
  intros Hs. unfold handle_open_extended, open_error. destruct (negb _); [by split|].
  destruct (decode_open_extended payload) as [open|]; [|by split].
  destruct (check_worker_name _ _); [|by apply v2_respond_safe].
  destruct (parse _ _ _) as [i|]; [|by apply v2_respond_safe].
  destruct (channel_open _); [by apply v2_respond_safe|].
  destruct (take_identity _ _ _) as [[[s1 st1]|] g] eqn:Et; [|by split].
  assert (v2_safe pool s1) as Hs1.
  { unfold take_identity in Et. repeat case_match; by simplify_eq. }
  destruct (Nat.ltb_spec (extranonce_total s1) (Z.to_nat (min_extranonce_size open))); [by split|].
  by apply v2_open_channel_safe.
Qed.

Lemma v2_message_safe pool s st w t payload env :
  v2_safe pool s -> v2_step_safe pool (handle_message s st w t payload env).1.
Proof.
  intros Hs. unfold handle_message. destruct (try_consume _ _ _) as [ok r]. set (s1 := set_guard _ _ _ _).
  assert (v2_safe pool s1) as Hs1 by done. clearbody s1.
  destruct (negb ok); [by split|]. cbn [fst]. destruct (_ =? _).
  { unfold handle_setup_connection, setup_error. repeat case_match; try by split. by apply v2_respond_safe. }
  destruct (_ =? _); [by apply v2_open_safe|]. destruct (_ =? _); [by apply v2_submit_safe | by split].
Qed.

Definition v2_outcome_safe (pool : VardiffConfig * Z) (o : Sv2.Outcome) : Prop :=
  match o with Running s _ _ => v2_safe pool s | Ended _ _ _ _ => True | Crashed _ _ _ => False end.

Lemma v2_retarget_safe pool s st w env :
  v2_safe pool s -> v2_outcome_safe pool (retarget_or_end s st w env).
Proof.
  intros Hs. destruct (Hs) as [Hc Ht]. unfold retarget_or_end, apply_retarget. destruct (negb _); [done|].
  destruct (control_retarget _ _ _ _ _ (Session.now env) (network_difficulty s) Hc) as (r & v & -> & Hc').
  destruct r as [d|]; [|by split]. repeat case_match; simplify_eq; by try split.
Qed.

Lemma v2_run_step_safe pool s st w e env env' :
  v2_safe pool s -> v2_outcome_safe pool (run_step s st w e env env').
Proof.
  intros Hs. destruct e; cbn [run_step]; try done.
  - destruct (check_message_size _ _); [|done].
    pose proof (v2_message_safe pool s st w msg_type payload env Hs) as [Hp Hm].
    destruct (handle_message _ _ _ _ _ _) as [[[[f s1] st1] w1] ban]. cbn in Hp, Hm.
    destruct f; [by apply v2_retarget_safe | done | done].
  - assert (v2_safe pool (on_broadcast s w b env).1.2) as Hb.
    { unfold on_broadcast. destruct (Engine.b_clean b), (channel_open _); try done.
      all: match goal with |- context [send_job ?s2 ?x ?y ?f ?v] =>
             pose proof (v2_send_job_safe pool s2 x y f v Hs) as E; destruct (send_job s2 x y f v) as [[[] s3] w2] end;
        done. }
    destruct (on_broadcast _ _ _ _) as [[ok s1] w1]. cbn in Hb. destruct ok; [by apply v2_retarget_safe | done].
  - by apply v2_retarget_safe.
Qed.
End V2.

(** ** The pool *)
Section Pool.
Context `{Sha256} `{HexCodec} `{TxCodec} `{AddressCodec} `{L : Libm} `{!ExpAccurate L} `{Sv2Codec.BinarySv2}.
Variable parse_request : string -> option StratumRequest.
Variable by_difficulty : gmap string Z -> list (string * Z).
Variable pool : VardiffConfig * Z.
Hypothesis pool_ok : vardiff_ok pool.1.
Hypothesis start_ok : 0 <= pool.2 <= u64_max.

(** A session configuration of this pool. *)
Definition conf_ok (x : SessionConf) : Prop :=
  c_vardiff x = pool.1 /\ c_initial_difficulty x = pool.2
  /\ (1 <= c_extranonce1_size x + c_extranonce2_size x)%nat.

Definition event_ok (ev : PoolEvent) : Prop :=
  match ev with Connect1 _ x _ | Connect2 _ x _ _ => conf_ok x | _ => True end.

(** A connection whose task runs. *)
Definition conn_safe (x : Conn) : Prop :=
  match x with
  | V1Conn s => v1_safe pool s
  | V2Conn s _ => v2_safe pool s
  | Dead _ => False
  end.

Lemma control_new t : control_safe (vardiff_new pool.1 pool.2 t) pool.1 pool.2 (credit_new (min_difficulty pool.1) t) pool.
Proof. split; try done; [|by left]. apply vardiff_new_wf; [done|]. unfold u64_max in start_ok. lia. Qed.

Lemma new_conn_safe x t w :
  conf_ok x -> conn_safe (V1Conn (Session.session_start (new_v1 x) t))
               /\ conn_safe (V2Conn (Sv2.session_start (new_v2 x) t) w).
Proof.
  intros (Ec & Ei & Hn). pose proof (control_new (c_now x)) as Hc.
  destruct t; (split; [|split; [|done]]);
    cbn -[vardiff_new credit_new]; unfold v1_safe; cbn -[vardiff_new credit_new]; by rewrite Ec, Ei.
Qed.

Lemma served1_safe p k s e env env' :
  map_Forall (fun _ => conn_safe) (conns p) -> v1_safe pool s ->
  map_Forall (fun _ => conn_safe) (conns (served1 p k (Session.run_step parse_request s (stats p) e env env'))).
Proof.
  intros Hall Hs. pose proof (v1_run_step_safe parse_request pool s (stats p) e env env' Hs) as Ho.
  destruct (Session.run_step _ _ _ _ _ _); cbn in *; [by apply map_Forall_insert_2 | by apply map_Forall_delete | done].
Qed.

Lemma served2_safe p k s w e env env' :
  map_Forall (fun _ => conn_safe) (conns p) -> v2_safe pool s ->
  map_Forall (fun _ => conn_safe) (conns (served2 p k (Sv2.run_step s (stats p) w e env env'))).
Proof.
  intros Hall Hs. pose proof (v2_run_step_safe pool s (stats p) w e env env' Hs) as Ho.
  destruct (Sv2.run_step _ _ _ _ _ _); cbn in *; [by apply map_Forall_insert_2 | by apply map_Forall_delete | done].
Qed.

Lemma pool_step_safe p ev :
  event_ok ev -> map_Forall (fun _ => conn_safe) (conns p) ->
  map_Forall (fun _ => conn_safe) (conns (pool_step parse_request by_difficulty p ev)).
Proof.
  intros He Hall. destruct ev; cbn [pool_step]; try done.
  - unfold connect. destruct (conns p !! k); [done|]. cbn. apply map_Forall_insert_2; [|done].
    by apply (new_conn_safe _ _ (Sv2.mkWriter [] None)).
  - unfold connect. destruct (conns p !! k); [done|]. cbn. apply map_Forall_insert_2; [|done].
    by apply new_conn_safe.
  - destruct (conns p !! k) as [[]|] eqn:Hk; try done. apply served1_safe; [done|]. apply (Hall _ _ Hk).
  - destruct (conns p !! k) as [[]|] eqn:Hk; try done. apply served2_safe; [done|]. apply (Hall _ _ Hk).
Qed.

Lemma pool_run_safe evs : forall p,
  Forall event_ok evs -> map_Forall (fun _ => conn_safe) (conns p) ->
  map_Forall (fun _ => conn_safe) (conns (foldl (pool_step parse_request by_difficulty) p evs)).
Proof.
  induction evs as [|ev evs IH]; intros p He Hall; [done|]. apply Forall_cons in He as [He1 He2].
  by apply IH, pool_step_safe.
Qed.
End Pool.

(** ** Configured pools *)

(** The configuration values that are what their types say, within the limits of
    [VardiffRange.vardiff_ok]. *)
Record config_in_limits (c : Config.Config) : Prop := {
  cl_target : 0 <= target_share_time_secs (Config.vardiff c) <= 2 ^ 22;
  cl_min : 0 <= min_difficulty (Config.vardiff c);
  cl_max : max_difficulty (Config.vardiff c) <= 2 ^ 53;
  cl_initial : 0 <= Config.initial_difficulty (Config.pool c) <= u64_max;
  cl_factor : valid (max_retarget_factor (Config.vardiff c)) = true
}.

(** The connections of a pool take their settings from its configuration. *)
Definition configured (c : Config.Config) (ev : PoolEvent) : Prop :=
  match ev with
  | Connect1 _ x _ | Connect2 _ x _ _ =>
      c_vardiff x = Config.vardiff c /\ c_initial_difficulty x = Config.initial_difficulty (Config.pool c)
      /\ c_extranonce1_size x = Config.extranonce1_size (Config.pool c)
      /\ c_extranonce2_size x = Config.extranonce2_size (Config.pool c)
  | _ => True
  end.

(** The difficulty a live connection is assigned; [None] once its task died. *)
Definition assigned_difficulty (x : Conn) : option Z :=
  match x with
  | V1Conn s => Some (Session.difficulty s)
  | V2Conn s _ => Some (Sv2.difficulty s)
  | Dead _ => None
  end.

Lemma above_one_finite x :
  is_finite x = true -> valid x = true -> (x <=? f1)%f64 = false -> finite x /\ (f1 <? x)%f64 = true.
Proof.
  intros Hf Hv Hle. assert (finite x) as Hx.
  { destruct x as [[]|[]| |[] m e]; try done. }
  split; [done|]. destruct f1_mag as [[H1 _] _]. apply flt_mag; [done | apply Hx|].
  rewrite <- not_true_iff_false, fle_mag in Hle by (done || apply Hx). lia.
Qed.

Lemma validated_in_range c :
  Config.validate c = Ok tt -> config_in_limits c -> vardiff_ok (Config.vardiff c).
Proof.
  intros Hv [Ht Hmin Hmax _ Hf]. apply Config.config_validate_Ok in Hv as [_ _ _ Ht' Hm' Ho [Hfin Hgt]].
  destruct (above_one_finite _ Hfin Hf Hgt). split; (done || lia).
Qed.

(** ** Properties *)

(** C22. No session task panics: with a configuration that passes validation,
    whose share time is below 48 days and whose difficulties are exactly
    representable, whatever the peers of any number of V1 and V2 connections
    send, at whatever times and in whatever interleaving with job broadcasts and
    the pool's timers, every connection's task is alive, and its assigned
    difficulty is the configured start or within the configured limits. *)
Theorem no_session_panics `{Sha256, HexCodec, TxCodec, AddressCodec, L : Libm, !ExpAccurate L, Sv2Codec.BinarySv2}
    (parse_request : string -> option StratumRequest)
    (by_difficulty : gmap string Z -> list (string * Z))
    (c : Config.Config) (st : PoolStats) (evs : list PoolEvent) :
  Config.validate c = Ok tt -> config_in_limits c -> Forall (configured c) evs ->
  let p := foldl (pool_step parse_request by_difficulty) (mkPool st ∅) evs in
  forall k x, conns p !! k = Some x ->
  exists d, assigned_difficulty x = Some d
    /\ (d = Config.initial_difficulty (Config.pool c)
        \/ min_difficulty (Config.vardiff c) <= d <= max_difficulty (Config.vardiff c)).
Proof.
  intros Hv Hl He p k x Hk. set (pool := (Config.vardiff c, Config.initial_difficulty (Config.pool c))).
  assert (map_Forall (fun _ => conn_safe pool) (conns p)) as Hall.
  { apply pool_run_safe; [by apply validated_in_range | apply Hl | | by apply map_Forall_empty].
    eapply Forall_impl; [exact He|]. apply Config.config_validate_Ok in Hv as [Hen _ _ _ _ _ _].
    intros ev Hev. destruct ev; cbn [event_ok configured] in *; try done; destruct Hev as (E0 & Ei & E1 & E2);
      unfold conf_ok; rewrite E0, Ei, E1, E2; split_and!; (done || lia). }
  specialize (Hall k x Hk). destruct x as [s|s w|]; cbn in Hall; [| |done].
  - exists (Session.difficulty s). split; [done|]. destruct Hall as [_ Hp _ _ _ Hr]. by rewrite Hp in Hr.
  - exists (Sv2.difficulty s). split; [done|]. destruct Hall as [[_ Hp _ _ _ Hr] _]. by rewrite Hp in Hr.
Qed.

(** Two connections of the demonstration configuration: a V1 session that
    subscribes, suggests nothing and authorizes, and a V2 channel. *)
Definition demo_conf : SessionConf :=
  mkConf "/btcpool/" 1000 demo_en1 4 4 Regtest (Config.vardiff Config.demo_config)
    (mkSecurityConfig 10 50 600 100 16384 128 8) "00000000000000ff" 0.
Definition demo_events : list PoolEvent :=
  [Connect1 1 demo_conf (Some demo_built_template);
   Connect2 2 demo_conf (Some demo_built_template) Sv2Props.demo_writer;
   Serve1 1 (Session.Inbound "subscribe") (Session.demo_env "a") (Session.demo_env "a");
   Serve1 1 (Session.Inbound "authorize") (Session.demo_env "b") (Session.demo_env "b");
   demo_serve2 (Sv2.Inbound Sv2.MESSAGE_TYPE_SETUP_CONNECTION Sv2Props.demo_setup) 1 "c";
   demo_serve2 (Sv2.Inbound Sv2.MESSAGE_TYPE_OPEN_EXTENDED_MINING_CHANNEL
                  (Sv2Props.demo_open (repeat xff 32))) 2 "d"].
Abbreviation linear_step :=
  (@pool_step zero_sha256 hex_codec legacy_codec demo_codec linear_libm Sv2Codec.spec_sv2
     Session.demo_parse Snapshot.merge_order).

Lemma no_session_panics_witness :
  exists x, conns (foldl linear_step (mkPool Session.demo_stats ∅) demo_events) !! 2%nat = Some x
            /\ exists d, assigned_difficulty x = Some d /\ 1 <= d <= 1000000.
Proof.
  assert (Config.validate Config.demo_config = Ok tt) as Hv by (vm_compute; reflexivity).
  assert (config_in_limits Config.demo_config) as Hl by (split; [| | | |vm_compute; reflexivity]; repeat split; vm_compute; discriminate).
  assert (Forall (configured Config.demo_config) demo_events) as He
    by (repeat first [apply Forall_nil_2 | apply Forall_cons_2; [first [exact I | repeat split]|]]).
  pose proof (@no_session_panics zero_sha256 hex_codec legacy_codec demo_codec linear_libm linear_accurate
    Sv2Codec.spec_sv2 Session.demo_parse Snapshot.merge_order Config.demo_config Session.demo_stats demo_events
    Hv Hl He 2%nat) as Hp.
  cbv zeta in Hp. destruct (conns _ !! 2%nat) as [x|] eqn:E in Hp; [|vm_compute in E; discriminate].
  exists x. split; [exact E|]. destruct (Hp x eq_refl) as (d & Hd & Hr).
  exists d. split; [exact Hd|]. cbn in Hr. lia.
Defined.

End NoPanic.
