(* ===== verification/Lifetime.v ===== *)
(** * Lifetime: what running sessions do to the round and its file

    [Restart] follows the accounting calls; here they are made by the sessions of
    both protocols ([network/session.rs], [protocol/sv2/mod.rs]) as the pool runs
    them.  Every turn of a session loop is at most two accounting calls, and the
    work of a share is bounded by the configured difficulties, so the pool and its
    statistics file stay in step through any interleaving of connections. *)
From S2P Require Import Prelude Text F64 Rounding Json Errors Interfaces Target Rpc Hashrate Credit.
From S2P Require Import Vardiff VardiffRange Stats Store Snapshot Security Accounting Frame Restart Identity Template Config.
From S2P Require Import Jobs Validator Engine Sv1 Session Sv2Codec Sv2Wire Sv2 Sv2Props Presence NoPanic.
Import Rpc Credit Vardiff VardiffRange Stats Store Snapshot Security Accounting Frame Restart Identity Template Jobs.
Import Validator Sv1 Presence NoPanic.

Module Lifetime.
#[local] Hint Extern 0 (0 <= _) => lia : core.
#[local] Hint Extern 0 (1 <= _) => lia : core.

(** ** Bounded accounting *)
Section Spends.
Context `{Libm}.
Variables (track : bool) (prune : nat -> gmap string Z -> gmap string Z) (ds0 : Db * WriterState) (cap : Z).

(** From [s] to [s'] in at most [k] accounting calls, none worth more than [cap]. *)
Definition spends (k : Z) (s s' : PoolStats) : Prop :=
  forall n w, synced track prune ds0 s n w -> n + k <= u64_max -> w + k * cap <= u64_max ->
  synced track prune ds0 s' (n + k) (w + k * cap).

Hypothesis cap_pos : 0 <= cap.

Lemma spends_trans j k s s' s'' : 0 <= j -> 0 <= k -> spends j s s' -> spends k s' s'' -> spends (j + k) s s''.
Proof.
  intros Hj Hk H1 H2 n w Hy Hn Hw. rewrite Z.add_assoc, Z.mul_add_distr_r, Z.add_assoc in *.
  apply H2; [|lia|lia]. apply H1; [done|lia|nia].
Qed.

Lemma spends_quiet k s s' : 0 <= k -> quiet s s' -> spends k s s'.
Proof.
  intros Hk Q n w Hy Hn Hw. eapply synced_weaken; [by eapply synced_quiet | lia | nia].
Qed.

Lemma spends_weaken j k s s' : j <= k -> 0 <= j -> spends j s s' -> spends k s s'.
Proof.
  intros Hjk Hj Hs n w Hy Hn Hw. eapply synced_weaken; [apply Hs; [done | lia | nia] | lia | nia].
Qed.

Lemma spends_one s s' : spends 1 s s' -> spends 2 s s'.
Proof. by apply spends_weaken. Qed.

Lemma spends_op s op : op_ok op -> 0 <= op_work op <= cap -> spends 1 s (boot_step s op).
Proof.
  intros Hok Hc n w Hy Hn Hw. rewrite Z.mul_1_l in *.
  eapply synced_weaken; [apply synced_step; [done | done | lia | lia] | lia | lia].
Qed.

Lemma spends_refl k s : 0 <= k -> spends k s s.
Proof. intros. by apply spends_quiet, framed_refl. Qed.

(** *** The calls that leave the round alone *)
Lemma quiet_offline s w : quiet s (mark_worker_offline s w).
Proof. by apply framed_frame. Qed.

Lemma quiet_protocol s w p : quiet s (set_worker_protocol s w p).
Proof. by apply framed_frame. Qed.

Lemma quiet_vardiff s w d now : quiet s (update_worker_vardiff s w d now).
Proof. unfold update_worker_vardiff. destruct (_ !! w); [by apply framed_frame | apply quiet_online]. Qed.

(** *** The calls of a submission *)
Lemma spends_rejected s g w r now : spends 1 s (record_rejected s g w r now).1.2.
Proof.
  pose proof (spends_op s (ORejected g w r now) I) as E. cbn [boot_step op_work] in E. by apply E.
Qed.

Local Strategy 100 [record_accepted].
Lemma spends_accepted s sid w c h tick now1 now2 :
  0 <= c <= cap -> spends 1 s (record_accepted s sid w c h tick now1 now2).
Proof.
  intros Hc. change (record_accepted s sid w c h tick now1 now2)
    with (boot_step s (OAccepted sid w c h tick now1 now2)). apply spends_op; [apply Hc | exact Hc].
Qed.

Lemma spends_outcome s o height w payout hash now1 now2 :
  now1 <> 0 -> spends 1 s (record_block_outcome s o height w payout hash now1 now2).
Proof. intros Hn. apply (spends_op s (OOutcome o height w payout hash now1 now2)); [done | cbn; lia]. Qed.

Lemma spends_resolution s b r now : now <> 0 -> spends 1 s (record_block_resolution s b r now).2.
Proof. intros Hn. apply (spends_op s (OResolved b r now)); [done | cbn; lia]. Qed.
End Spends.

(** The most a share of this pool can be worth. *)
Definition work_cap (pool : VardiffConfig * Z) : Z := Z.max pool.2 (max_difficulty pool.1).

Lemma control_worth v c d k pool job_d hash_d now :
  control_safe v c d k pool -> 0 <= (credit k d job_d hash_d now).1 <= work_cap pool.
Proof.
  intros [Hw Hp Hc Hd Hf Hr]. pose proof (credit_worth k d job_d hash_d now) as Hwo.
  destruct (credit k d job_d hash_d now) as [worth k']. destruct Hwo as [_ Hb]. cbn.
  pose proof (vw_cfg v Hw) as [_ Hmin Hmax _ _ _]. rewrite Hc in *. subst c. unfold work_cap. lia.
Qed.

(** ** V1 sessions *)
Section V1.
Context `{Sha256} `{HexCodec} `{TxCodec} `{AddressCodec} `{L : Libm} `{!ExpAccurate L}.
Variables (track : bool) (prune : nat -> gmap string Z -> gmap string Z) (ds0 : Db * WriterState).
Variable pool : VardiffConfig * Z.
Hypothesis cap_pos : 0 <= work_cap pool.
Import Session.

Local Abbreviation spent := (spends track prune ds0 (work_cap pool)).

Lemma v1_reject_spends s st r env : spent 1 st (reject_share s st r env).2.
Proof.
  unfold reject_share.
  pose proof (spends_rejected track prune ds0 _ cap_pos st (guard s) (default "?" (stats_worker s)) r (wall1 env)) as E.
  by destruct (record_rejected _ _ _ _ _) as [[??] ?].
Qed.

Lemma v1_reject_with_spends s st req r e env : spent 2 st (reject_with s st req r e env).2.
Proof.
  unfold reject_with. pose proof (v1_reject_spends s st r env) as E.
  destruct (reject_share s st r env) as [[[] ?] ?]; by apply spends_one.
Qed.

Lemma v1_accept_spends s st w hd jd env : v1_safe pool s -> spent 1 st (accept_share s st w hd jd env).2.
Proof.
  intros Hs. unfold accept_share. pose proof (control_worth _ _ _ _ _ jd hd (now env) Hs) as Hw.
  destruct (credit _ _ _ _ _) as [worth k]. cbn in *. by apply spends_accepted.
Qed.

Lemma v1_submit_spends s st req p env :
  v1_safe pool s -> wall3 env <> 0 -> spent 2 st (handle_submit s st req p env).2.
Proof.
  intros Hs Hc. unfold handle_submit. destruct (negb _ || _).
  { pose proof (v1_reject_spends s st Unauthorized env) as E.
    destruct (reject_share _ _ _ _) as [[??] ?]. by apply spends_one. }
  destruct (find_job _ _) as [entry|]; [|apply v1_reject_with_spends].
  destruct (contains _ _); [apply v1_reject_with_spends|].
  destruct (negb (validation_joins env)); [by apply spends_refl|].
  destruct (validate_share_no_dedup _ _ _ _ _ _) as [[? hd ?|hd ? ?]|e]; cbn [is_ok]; [| |apply v1_reject_with_spends].
  all: match goal with |- context [accept_share ?s1 ?x ?w ?h ?d ?v] =>
         pose proof (v1_accept_spends s1 x w h d v Hs) as E; destruct (accept_share s1 x w h d v) end.
  - by apply spends_one.
  - eapply (spends_trans _ _ _ _ cap_pos 1 1); [done..|exact E|]. cbn. destruct (submit_answer env _).
    + by apply spends_outcome.
    + by apply spends_refl.
Qed.

Lemma v1_switch_quiet s st i env s' st' g :
  switch_identity s st i env = (Some (s', st'), g) -> quiet st st'.
Proof.
  unfold switch_identity. destruct (record_new_authorization (guard s)) as [[] g']; [|done].
  intros E. simplify_eq. eapply framed_trans; [|apply quiet_protocol]. eapply framed_trans; [|apply quiet_online].
  destruct (identity _); [apply quiet_offline | apply framed_refl].
Qed.

Lemma v1_authorize_quiet s st req p env : quiet st (handle_authorize s st req p env).2.
Proof.
  unfold handle_authorize. destruct (negb _); [apply framed_refl|].
  destruct (check_worker_name _ _); [|apply framed_refl].
  destruct (parse _ _ _) as [i|]; [|apply framed_refl].
  set (sw := if bool_decide _ then _ else _).
  assert (match sw with (Some (_, st1), _) => quiet st st1 | (None, _) => True end) as Hs.
  { unfold sw. case_bool_decide as E; [apply framed_refl|].
    destruct (switch_identity s st i env) as [[[s1 st1]|] g] eqn:Es; [|done]. by eapply v1_switch_quiet. }
  destruct sw as [[[s1 st1]|] g]; [|apply framed_refl].
  repeat case_match; simplify_eq/=; exact Hs.
Qed.

Lemma v1_retarget_quiet s st env : quiet st (apply_retarget s st env).2.
Proof.
  unfold apply_retarget. destruct (check_retarget _ _ _) as [[[d|] v]|]; [|apply framed_refl..].
  cbn. destruct (stats_worker s); [apply quiet_vardiff | apply framed_refl].
Qed.

Lemma v1_dispatch_spends s st req env :
  v1_safe pool s -> wall3 env <> 0 -> spent 2 st (dispatch s st req env).2.
Proof.
  intros Hs Hc. unfold dispatch. destruct (from_request req) as [[]|]; try by apply spends_refl.
  - by apply spends_quiet, v1_authorize_quiet.
  - by apply v1_submit_spends.
  - unfold handle_suggest_difficulty. destruct (suggest _ _ _) as [[? ?]|]; by apply spends_refl.
Qed.

Variable parse_request : string -> option StratumRequest.

Lemma v1_line_spends s st line env :
  v1_safe pool s -> wall3 env <> 0 -> spent 2 st (handle_line parse_request s st line env).1.2.
Proof.
  intros Hs Hc. unfold handle_line. destruct (try_consume _ _ _) as [ok r]. destruct (negb ok).
  { apply spends_quiet; [done.. | by apply framed_frame]. }
  destruct (is_blank line); [by apply spends_refl|]. destruct (parse_request line); [|by apply spends_refl].
  by apply v1_dispatch_spends.
Qed.

Definition v1_stats (o : Session.Outcome) : PoolStats :=
  match o with Running _ _ st | Ended _ _ st | Crashed _ st => st end.

Lemma v1_close_quiet s st : quiet st (close s st).
Proof.
  unfold close. eapply (framed_trans _ (miner_disconnected st)); [by apply framed_frame|].
  destruct (stats_worker s); [apply quiet_offline | apply framed_refl].
Qed.

Lemma v1_after_spends st x ban env : spent 2 st x.2 -> spent 2 st (v1_stats (after_handler x ban env)).
Proof.
  destruct x as [[r s1] st1]. cbn [snd]. intros Hx.
  assert (forall st2, quiet st1 st2 -> spent 2 st st2) as Hq
    by (intros st2 Q; apply (spends_trans _ _ _ _ cap_pos 2 0 st st1 st2); [done..|by apply spends_quiet]).
  unfold after_handler. destruct r; [|apply Hq, v1_close_quiet|done].
  pose proof (v1_retarget_quiet s1 st1 env) as Hr.
  destruct (apply_retarget s1 st1 env) as [[[] s2] st2]; by apply Hq.
Qed.

Lemma v1_run_step_spends s st e env env' :
  v1_safe pool s -> wall3 env <> 0 -> spent 2 st (v1_stats (run_step parse_request s st e env env')).
Proof.
  intros Hs Hc. destruct e; cbn [run_step]; try (apply spends_quiet; [done.. | apply v1_close_quiet]).
  - pose proof (v1_line_spends s st line env Hs Hc) as Hl. destruct (handle_line _ _ _ _ _) as [x ban].
    by apply v1_after_spends.
  - apply v1_after_spends. unfold on_broadcast. destruct (Engine.b_clean b); repeat case_match; by apply spends_refl.
  - by apply v1_after_spends, spends_refl.
Qed.
End V1.

(** ** V2 sessions *)
Section V2.
Import Sv2Codec Sv2Wire Sv2.
Context `{Sha256} `{HexCodec} `{TxCodec} `{AddressCodec} `{L : Libm} `{!ExpAccurate L} `{BinarySv2}.
Variables (track : bool) (prune : nat -> gmap string Z -> gmap string Z) (ds0 : Db * WriterState).
Variable pool : VardiffConfig * Z.
Hypothesis cap_pos : 0 <= work_cap pool.

Local Abbreviation spent := (spends track prune ds0 (work_cap pool)).

Lemma v2_respond_stats s st w t ch p what : (respond s st w t ch p what).1.2 = st.
Proof. unfold respond. by repeat case_match. Qed.

Lemma v2_reject_spends s st r env : spent 1 st (reject_share s st r env).2.
Proof.
  unfold reject_share.
  pose proof (spends_rejected track prune ds0 _ cap_pos st (guard s) (default "?" (stats_worker s)) r
    (Session.wall1 env)) as E.
  by destruct (record_rejected _ _ _ _ _) as [[??] ?].
Qed.

Lemma v2_reject_with_spends s st w seq r code env : spent 2 st (reject_with s st w seq r code env).1.2.
Proof.
  unfold reject_with. pose proof (v2_reject_spends s st r env) as E.
  destruct (reject_share s st r env) as [[over s'] st']. apply spends_one; [done|].
  destruct over; [done|]. unfold reject. by rewrite v2_respond_stats.
Qed.

Lemma v2_accept_spends s st who hd jd env : v2_safe pool s -> spent 1 st (accept_share s st who hd jd env).2.
Proof.
  intros [Hs _]. unfold accept_share. pose proof (control_worth _ _ _ _ _ jd hd (Session.now env) Hs) as Hw.
  destruct (credit _ _ _ _ _) as [worth k]. cbn in *. by apply spends_accepted.
Qed.

Lemma v2_submit_spends s st w payload env :
  v2_safe pool s -> Session.wall3 env <> 0 -> spent 2 st (handle_submit s st w payload env).1.2.
Proof.
  intros Hs Hc. unfold handle_submit. destruct (negb (channel_open _)); [by apply spends_refl|].
  destruct (decode_submit_extended payload) as [m|]; [|by apply spends_refl].
  destruct (negb _); [apply v2_reject_with_spends|].
  destruct (resolve_job _ _) as [entry|]; [|apply v2_reject_with_spends].
  destruct (contains _ _); [apply v2_reject_with_spends|].
  destruct (negb (Session.validation_joins env)); [by apply spends_refl|].
  destruct (validate_share_no_dedup _ _ _ _ _ _) as [[? hd ?|hd ? ?]|e]; cbn [is_ok];
    [| |apply v2_reject_with_spends].
  all: match goal with |- context [accept_share ?s1 ?x ?who ?h ?d ?v] =>
         pose proof (v2_accept_spends s1 x who h d v Hs) as E; destruct (accept_share s1 x who h d v) end.
  all: unfold accept; rewrite v2_respond_stats.
  - by apply spends_one.
  - eapply (spends_trans _ _ _ _ cap_pos 1 1); [done..|exact E|]. cbn. destruct (Session.submit_answer env _).
    + by apply spends_outcome.
    + by apply spends_refl.
Qed.

Lemma v2_open_channel_quiet s st w open i (is_new : bool) env :
  quiet st (open_channel s st w open i is_new env).1.2.
Proof.
  unfold open_channel. cbv zeta. destruct (_ <? _)%nat; [apply framed_refl|].
  set (st1 := if is_new then set_worker_protocol _ _ _ else st).
  assert (quiet st st1) as Hm.
  { unfold st1. destruct is_new; [|apply framed_refl].
    eapply framed_trans; [|apply quiet_protocol]. apply quiet_online. }
  clearbody st1. destruct (open_extended_success _ _ _ _ _); [|done]. destruct (send _ _ _ _) as [[] w1]; [|done].
  cbn [negb]. destruct (pending_template _) as [t|]; [|done].
  destruct (send_job _ _ _ _ _) as [[[] s3] w2]; done.
Qed.

Lemma v2_open_quiet s st w payload env : quiet st (handle_open_extended s st w payload env).1.2.
Proof.
  assert (forall id code, quiet st (open_error s st w id code).1.2) as He.
  { intros. unfold open_error. rewrite v2_respond_stats. apply framed_refl. }
  unfold handle_open_extended. destruct (negb _); [apply framed_refl|].
  destruct (decode_open_extended payload) as [open|]; [|apply framed_refl].
  destruct (check_worker_name _ _); [|done].
  destruct (parse _ _ _) as [i|]; [|done]. destruct (channel_open _); [done|].
  destruct (take_identity _ _ _) as [[[s1 st1]|] g] eqn:Et; [|apply framed_refl].
  assert (quiet st st1) as Hm.
  { unfold take_identity in Et. destruct (bool_decide _); cbn [negb] in Et; [simplify_eq; apply framed_refl|].
    destruct (record_new_authorization _) as [[] g']; [|done]. simplify_eq.
    destruct (identity _); [apply quiet_offline | apply framed_refl]. }
  destruct (_ <? _)%nat; [exact Hm|]. eapply framed_trans; [exact Hm | apply v2_open_channel_quiet].
Qed.

Lemma v2_message_spends s st w t payload env :
  v2_safe pool s -> Session.wall3 (base env) <> 0 -> spent 2 st (handle_message s st w t payload env).1.1.2.
Proof.
  intros Hs Hc. unfold handle_message. destruct (try_consume _ _ _) as [ok r]. set (s1 := set_guard _ _ _ _).
  destruct (negb ok); [apply spends_quiet; [done.. | by apply framed_frame]|]. cbn [fst].
  destruct (_ =? _).
  { unfold handle_setup_connection, setup_error. repeat case_match; try by apply spends_refl.
    rewrite v2_respond_stats. by apply spends_refl. }
  destruct (_ =? _); [by apply spends_quiet, v2_open_quiet|].
  destruct (_ =? _); [by apply v2_submit_spends | by apply spends_refl].
Qed.

Definition v2_stats (o : Sv2.Outcome) : PoolStats :=
  match o with Running _ st _ | Ended _ _ st _ | Crashed _ st _ => st end.

Lemma v2_close_quiet s st : quiet st (close s st).
Proof.
  unfold close. eapply (framed_trans _ (miner_disconnected st)); [by apply framed_frame|].
  destruct (stats_worker s); [apply quiet_offline | apply framed_refl].
Qed.

Lemma v2_retarget_quiet s st w env : quiet st (v2_stats (retarget_or_end s st w env)).
Proof.
  unfold retarget_or_end. destruct (apply_retarget s st w env) as [[[[ok s1] st1] w1]|] eqn:E; [|apply framed_refl].
  assert (quiet st st1) as Hm.
  { unfold apply_retarget in E. destruct (negb _); [simplify_eq; apply framed_refl|].
    destruct (check_retarget _ _ _) as [[[d|] v]|]; [|simplify_eq; apply framed_refl..].
    assert (forall x, quiet x (match stats_worker s with
       | Some wk => update_worker_vardiff x wk d (Session.wall1 env) | None => x end)) as Hv
      by (intros; destruct (stats_worker s); [apply quiet_vardiff | apply framed_refl]).
    destruct (set_target _ _); [destruct (send _ _ _ _)|]; simplify_eq; apply Hv. }
  destruct ok; [done|]. eapply framed_trans; [exact Hm | apply v2_close_quiet].
Qed.

Lemma v2_run_step_spends s st w e env env' :
  v2_safe pool s -> Session.wall3 (base env) <> 0 -> spent 2 st (v2_stats (run_step s st w e env env')).
Proof.
  intros Hs Hc. destruct e; cbn [run_step]; try (apply spends_quiet; [done.. | apply v2_close_quiet]).
  - destruct (check_message_size _ _); [|apply spends_quiet; [done.. | apply v2_close_quiet]].
    pose proof (v2_message_spends s st w msg_type payload env Hs Hc) as Hm.
    destruct (handle_message _ _ _ _ _ _) as [[[[f s1] st1] w1] ban]. cbn [fst snd] in Hm.
    assert (forall st2, quiet st1 st2 -> spent 2 st st2) as Hq
      by (intros st2 Q; apply (spends_trans _ _ _ _ cap_pos 2 0 st st1 st2); [done..|by apply spends_quiet]).
    destruct f; [apply Hq, v2_retarget_quiet | apply Hq, v2_close_quiet | done].
  - destruct (on_broadcast _ _ _ _) as [[ok s1] w1].
    apply spends_quiet; [done..|]. destruct ok; [apply v2_retarget_quiet | apply v2_close_quiet].
  - by apply spends_quiet, v2_retarget_quiet.
Qed.
End V2.

(** ** The pool *)

(** Pruning touches only the best shares of the workers. *)
Lemma in_step_untracked v f n w wb fb :
  in_step false v f n w ->
  in_step false (mkView (v_round v) (v_accepted v) (v_rejected v) (v_reasons v) (v_best v) wb)
    (set_f_best f (f_best f) fb) n w.
Proof. intros []. by split. Qed.

Section Prune.
Context `{Libm}.
Variables (track : bool) (prune : nat -> gmap string Z -> gmap string Z) (ds0 : Db * WriterState) (cap : Z).
Hypothesis cap_pos : 0 <= cap.
Variable by_difficulty : gmap string Z -> list (string * Z).

Lemma prune_spends s now :
  (track = true -> (size (worker_best_shares (workers s)) <= MAX_WORKER_BEST_SHARES)%nat) ->
  spends track prune ds0 cap 2 s (prune_idle_workers by_difficulty s now).
Proof.
  intros Ht. unfold prune_idle_workers. cbv zeta. cbn [worker_best_shares].
  destruct (Nat.ltb_spec MAX_WORKER_BEST_SHARES (size (worker_best_shares (workers s)))) as [Hlt|Hge].
  - destruct track; [specialize (Ht eq_refl); lia|]. intros n w Hy Hn Hw.
    apply (synced_weaken _ _ _ _ n w); [|lia|lia]. destruct Hy as [Hs I].
    split; [by apply store_enqueue|]. rewrite file_enqueue, (file_frame prune ds0 s) by done.
    exact (in_step_untracked _ _ _ _ _ _ I).
  - apply spends_quiet; [done..|]. apply framed_frame; [|done]. unfold view. cbn.
    unfold keep_best. by rewrite (proj2 (Nat.ltb_ge _ _)).
Qed.
End Prune.

Section Pool.
Context `{Sha256} `{HexCodec} `{TxCodec} `{AddressCodec} `{L : Libm} `{!ExpAccurate L} `{Sv2Codec.BinarySv2}.
Variables (track : bool) (prune : nat -> gmap string Z -> gmap string Z) (ds0 : Db * WriterState).
Variable parse_request : string -> option StratumRequest.
Variable by_difficulty : gmap string Z -> list (string * Z).
Variable pool : VardiffConfig * Z.
Hypothesis cap_pos : 0 <= work_cap pool.

(** The wall clock of an event that can start a round is past the epoch. *)
Definition timed (ev : PoolEvent) : Prop :=
  match ev with
  | Serve1 _ _ env _ => Session.wall3 env <> 0
  | Serve2 _ _ env _ => Session.wall3 (Sv2.base env) <> 0
  | Settle _ _ now => now <> 0
  | _ => True
  end.

(** The pruner finds the table of best shares below its cap. *)
Definition below_cap (p : Pool) (ev : PoolEvent) : Prop :=
  match ev with
  | Prune _ => (size (worker_best_shares (workers (stats p))) <= MAX_WORKER_BEST_SHARES)%nat
  | _ => True
  end.

Lemma pool_step_spends p ev :
  map_Forall (fun _ => conn_safe pool) (conns p) -> timed ev -> (track = true -> below_cap p ev) ->
  spends track prune ds0 (work_cap pool) 2 (stats p) (stats (pool_step parse_request by_difficulty p ev)).
Proof.
  intros Hall Ht Hc. destruct ev; cbn [pool_step timed below_cap] in *.
  - unfold connect. destruct (conns p !! k); [by apply spends_refl|]. apply spends_quiet; [done.. | by apply framed_frame].
  - unfold connect. destruct (conns p !! k); [by apply spends_refl|]. apply spends_quiet; [done.. | by apply framed_frame].
  - destruct (conns p !! k) as [[s| |]|] eqn:Hk; try by apply spends_refl.
    pose proof (v1_run_step_spends track prune ds0 pool cap_pos parse_request s (stats p) e env env' (Hall _ _ Hk) Ht) as Hs.
    by destruct (Session.run_step _ _ _ _ _ _).
  - destruct (conns p !! k) as [[|s w|]|] eqn:Hk; try by apply spends_refl.
    pose proof (v2_run_step_spends track prune ds0 pool cap_pos s (stats p) w e env env' (Hall _ _ Hk) Ht) as Hs.
    by destruct (Sv2.run_step _ _ _ _ _ _).
  - by apply prune_spends.
  - apply spends_quiet; [done.. | apply quiet_tick].
  - apply spends_one; [done|]. apply (spends_op _ _ _ _ (stats p) (OCheckpoint now)); [done | cbn; lia].
  - apply spends_one; [done|]. by apply spends_resolution.
Qed.
End Pool.

End Lifetime.
