(* ===== verification/Noise.v ===== *)
(** * Noise: the encrypted transport of Stratum V2 ([src/protocol/sv2/noise.rs])

    The pool's authority key: created on first start, kept in a file and pinned
    by miners; the responder's side of the handshake; and the frame reader with
    its cap on what a peer can make the pool read.  The key text format
    ([key_utils], [secp256k1]) and the Noise codec ([noise_sv2], [codec_sv2])
    are classes; the writer is [Sv2.send]. *)
From S2P Require Import Prelude Text F64 Host Security Config ConfigLoad.
Import Host Config ConfigLoad.

Module Noise.

(** ** The third-party interfaces *)

(** Secret keys: which 32 bytes are one, and their base58check text. *)
Class KeyCodec := {
  secret_valid : bytes -> bool;
  secret_to_string : bytes -> string;
  secret_of_string : string -> option bytes;
  public_to_string : bytes -> string;
  secret_of_to s : secret_valid s = true -> secret_of_string (secret_to_string s) = Some s;
  secret_of_valid t s : secret_of_string t = Some s -> secret_valid s = true;
  secret_text s : Forall (fun v => is_alnum v = true) (string_vals (secret_to_string s))
}.

(** What the frame decoder answers. *)
Inductive Decoded : Type :=
| FrameSv2 (msg_type : option Z) (payload : bytes)
| FrameHandShake
| MissingBytes
| DecodeError.

(** The Noise codec: the responder's one step, and the frame decoder, which
    asks for at least one byte whenever it reports bytes missing.  [writable] hands
    out the buffer for those bytes: the decoder that holds it, and its length. *)
Class NoiseCodec := {
  Cipher : Type;
  Decoder : Type;
  step_1 : bytes -> Z -> bytes -> option (bytes * Cipher);
  decoder_new : Decoder;
  next_frame : Decoder -> Cipher -> Decoded * Decoder * Cipher;
  writable : Decoder -> Decoder * nat;
  fill : Decoder -> bytes -> Decoder;
  missing_needs d c d' c' : next_frame d c = (MissingBytes, d', c') -> (0 < (writable d').2)%nat
}.

(** ** The authority key *)
Section Key.
Context `{KeyCodec}.

Record Authority := mkAuthority { secret : bytes; validity_secs : Z }.

(** What the host does during one start: a read fault, whether the parent
    directories and the file can be created, how many bytes of the key and
    whether the line feed are written, and the process's umask. *)
Record Io := mkIo {
  read_fault : bool;
  mkdir_ok : bool;
  open_ok : bool;
  key_written : option nat;
  newline_ok : bool;
  umask : Z
}.

(** [0o600], and the bits that would let anyone else in ([0o077]). *)
Definition OWNER_RW : Z := 6 * 64.
Definition GROUP_OTHER : Z := 7 * 8 + 7.

Definition line_feed : bytes := [x0a].

Definition write_owner_only (fs : Fs) (path contents : string) (io : Io) : bool * Fs :=
  match fs !! path with
  | Some _ => (false, fs)
  | None =>
      if negb (open_ok io) then (false, fs)
      else
        let mode := Z.land OWNER_RW (Z.lnot (umask io)) in
        let key := string_bytes contents in
        match key_written io with
        | Some n => (false, <[path := mkFile (take n key) mode]> fs)
        | None =>
            if newline_ok io then (true, <[path := mkFile (key ++ line_feed) mode]> fs)
            else (false, <[path := mkFile key mode]> fs)
        end
  end.

(** [fresh] is what [generate_secret] returns; [None] is the panic of an
    invalid one. *)
Definition load_or_generate_secret (fs : Fs) (path : string) (io : Io) (fresh : bytes)
  : option (result string bytes) * Fs :=
  match read_to_string fs path (read_fault io) with
  | Ok contents =>
      (Some (ok_or "Parsing SV2 authority key file"%string (secret_of_string (trim contents))), fs)
  | Err NotFound =>
      if negb (secret_valid fresh) then (None, fs)
      else if negb (mkdir_ok io) then (Some (Err "Creating directory"%string), fs)
      else
        let '(ok, fs1) := write_owner_only fs path (secret_to_string fresh) io in
        (Some (if ok then Ok fresh else Err "Writing SV2 authority key file"%string), fs1)
  | Err OtherError => (Some (Err "Reading SV2 authority key file"%string), fs)
  end.

Definition encode_public_key (s : bytes) : option string :=
  if secret_valid s then Some (public_to_string s) else None.

(** [AUTHORITY.get_or_init]: the first value stays. *)
Definition get_or_init (slot : option Authority) (a : Authority) : Authority := default a slot.

(** [init]: the key to pin, and the filled slot; [None] is a panic. *)
Definition init (slot : option Authority) (cfg : Sv2Config) (home : option string) (fs : Fs)
    (io : Io) (fresh : bytes) : option (result string string) * option Authority * Fs :=
  let '(r, fs1) :=
    if persist_authority_key cfg
    then load_or_generate_secret fs (expand_tilde home (authority_key_file cfg)) io fresh
    else (Some (Ok fresh), fs) in
  match r with
  | None => (None, slot, fs1)
  | Some (Err e) => (Some (Err e), slot, fs1)
  | Some (Ok s) =>
      let a := get_or_init slot (mkAuthority s (cert_validity_secs cfg)) in
      (Ok <$> encode_public_key (secret a), Some a, fs1)
  end.

(** [authority]: an ephemeral key if [init] never ran. *)
Definition authority (slot : option Authority) (fresh : bytes) : Authority :=
  get_or_init slot (mkAuthority fresh (365 * 24 * 60 * 60)).
End Key.

(** ** The handshake *)
Section Transport.
Context `{KeyCodec} `{NoiseCodec}.

Definition ELLSWIFT_ENCODING_SIZE : nat := 64.

(** On the bytes the peer sends before closing: the reply, the cipher and the
    unread bytes.  [write_ok] says whether the reply can be written; [None] is
    a panic. *)
Definition responder_handshake_with (stream secret : bytes) (validity_secs : Z) (write_ok : bool)
  : option (result string (bytes * Cipher * bytes)) :=
  if negb (secret_valid secret) then None
  else if (length stream <? ELLSWIFT_ENCODING_SIZE)%nat then Some (Err "early eof"%string)
  else
    Some (match step_1 secret validity_secs (take ELLSWIFT_ENCODING_SIZE stream) with
          | None => Err "noise handshake step_1 failed"%string
          | Some (response, codec) =>
              if write_ok then Ok (response, codec, drop ELLSWIFT_ENCODING_SIZE stream)
              else Err "write"%string
          end).

Definition responder_handshake (slot : option Authority) (fresh stream : bytes) (write_ok : bool)
  : option (result string (bytes * Cipher * bytes)) :=
  let a := authority slot fresh in
  responder_handshake_with stream (secret a) (validity_secs a) write_ok.

(** ** The reader *)
Record NoiseReader := mkNoiseReader {
  stream : bytes;        (** what the peer still sends before closing *)
  decoder : Decoder;
  state : Cipher;
  max_frame : nat;
  reserved : list nat;   (** the sizes of the buffers [writable] handed out so far *)
  requested : list nat   (** the sizes of those given to [read_exact] *)
}.

Definition reader_new (stream : bytes) (state : Cipher) (max_frame : nat) : NoiseReader :=
  mkNoiseReader stream decoder_new state max_frame [] [].

(** The loop of [read]; [None] is fuel spent. *)
Fixpoint read (fuel : nat) (r : NoiseReader) : option (result string (Z * bytes) * NoiseReader) :=
  match fuel with
  | O => None
  | S f =>
      let '(decoded, d, c) := next_frame (decoder r) (state r) in
      let r1 := mkNoiseReader (stream r) d c (max_frame r) (reserved r) (requested r) in
      match decoded with
      | FrameSv2 (Some ty) payload => Some (Ok (ty, payload), r1)
      | FrameSv2 None _ => Some (Err "SV2 frame missing header"%string, r1)
      | FrameHandShake => Some (Err "unexpected handshake frame in transport mode"%string, r1)
      | DecodeError => Some (Err "noise decode error"%string, r1)
      | MissingBytes =>
          let '(d1, n) := writable d in
          let out := reserved r ++ [n] in
          if (max_frame r <? n)%nat
          then Some (Err "SV2 frame too large"%string,
                     mkNoiseReader (stream r) d1 c (max_frame r) out (requested r))
          else
            let asked := requested r ++ [n] in
            if (length (stream r) <? n)%nat
            then Some (Err "early eof"%string, mkNoiseReader [] d1 c (max_frame r) out asked)
            else read f (mkNoiseReader (drop n (stream r)) (fill d1 (take n (stream r))) c
                           (max_frame r) out asked)
      end
  end.
End Transport.

(** ** Lemmas on the key file *)
Section KeyFacts.
Context `{KeyCodec}.

(** The file holds the key: its text, once trimmed, is read as [s]. *)
Definition holds_key (fs : Fs) (path : string) (s : bytes) : Prop :=
  exists f, fs !! path = Some f /\ valid_utf8 (f_bytes f) = true
            /\ secret_of_string (trim (bytes_string (f_bytes f))) = Some s.

Lemma written_key_held fs path s mode :
  secret_valid s = true ->
  holds_key (<[path := mkFile (string_bytes (secret_to_string s) ++ line_feed) mode]> fs) path s.
Proof.
  intros Hs. destruct (alnum_text _ (secret_text s)) as [Ha Hw].
  assert (string_bytes (secret_to_string s) ++ line_feed
          = string_bytes (secret_to_string s +:+ String (Ascii.ascii_of_nat 10) EmptyString)) as E.
  { by rewrite string_bytes_app. }
  eexists. split; [apply lookup_insert_eq|]. cbn [f_bytes]. rewrite E. split.
  - apply valid_utf8_ascii. unfold ascii_text. rewrite string_vals_app. apply Forall_app.
    split; [done | by repeat constructor].
  - rewrite bytes_string_bytes, trim_line by done. by apply secret_of_to.
Qed.

(** A start never touches a key file that is there. *)
Lemma load_keeps_file fs path io fresh f :
  fs !! path = Some f -> (load_or_generate_secret fs path io fresh).2 = fs.
Proof.
  intros Hf. unfold load_or_generate_secret, read_to_string. rewrite Hf.
  by destruct (read_fault io), (valid_utf8 (f_bytes f)).
Qed.

Lemma load_ok_holds fs path io fresh s fs1 :
  load_or_generate_secret fs path io fresh = (Some (Ok s), fs1) ->
  secret_valid s = true /\ holds_key fs1 path s.
Proof.
  unfold load_or_generate_secret, read_to_string. destruct (read_fault io); [done|].
  destruct (fs !! path) as [f|] eqn:Ef.
  - destruct (valid_utf8 (f_bytes f)) eqn:Eu; [|done]. intros [= Hs <-].
    destruct (secret_of_string _) as [s'|] eqn:Es in Hs; simplify_eq/=.
    split; [by eapply secret_of_valid | by exists f].
  - destruct (secret_valid fresh) eqn:Ev; [|done]. cbn [negb]. destruct (mkdir_ok io); [|done].
    unfold write_owner_only. rewrite Ef. destruct (open_ok io); [|done]. cbn [negb].
    destruct (key_written io); [done|]. destruct (newline_ok io); [|done]. intros [= <- <-].
    split; [done | by apply written_key_held].
Qed.

Lemma load_holding fs path io fresh s :
  holds_key fs path s -> read_fault io = false ->
  load_or_generate_secret fs path io fresh = (Some (Ok s), fs).
Proof.
  intros (f & Hf & Hu & Hs) Hr. unfold load_or_generate_secret, read_to_string.
  by rewrite Hr, Hf, Hu, Hs.
Qed.

Lemma load_faulty fs path io fresh :
  read_fault io = true ->
  load_or_generate_secret fs path io fresh = (Some (Err "Reading SV2 authority key file"%string), fs).
Proof. intros Hr. unfold load_or_generate_secret, read_to_string. by rewrite Hr. Qed.

Lemma created_mode fs path contents io ok fs1 :
  fs !! path = None -> write_owner_only fs path contents io = (ok, fs1) ->
  forall f, fs1 !! path = Some f -> Z.land (f_mode f) GROUP_OTHER = 0.
Proof.
  intros Hn Hw f. unfold write_owner_only in Hw. rewrite Hn in Hw.
  assert (forall b, Z.land (f_mode (mkFile b (Z.land OWNER_RW (Z.lnot (umask io))))) GROUP_OTHER = 0)
    as Hm. { intros b. cbn [f_mode]. by rewrite (Z.land_comm OWNER_RW), <- Z.land_assoc, Z.land_0_r. }
  destruct (open_ok io); cbn [negb] in Hw; [|simplify_eq; by rewrite Hn].
  destruct (key_written io); [|destruct (newline_ok io)]; simplify_eq;
    rewrite lookup_insert_eq; intros [= <-]; apply Hm.
Qed.

Lemma load_mode fs path io fresh f :
  fs !! path = None -> (load_or_generate_secret fs path io fresh).2 !! path = Some f ->
  Z.land (f_mode f) GROUP_OTHER = 0.
Proof.
  intros Hn. unfold load_or_generate_secret, read_to_string. rewrite Hn.
  destruct (read_fault io); [by cbn; rewrite Hn|]. destruct (secret_valid fresh); [|by cbn; rewrite Hn].
  destruct (mkdir_ok io); [|by cbn; rewrite Hn]. cbn [negb].
  destruct (write_owner_only _ _ _ _) as [ok fs1] eqn:E. cbn [snd]. by eapply created_mode.
Qed.

(** One start of the process, with its own configuration of the certificate. *)
Record Start := mkStart { s_io : Io; s_fresh : bytes; s_validity : Z }.

Definition start_cfg (file : string) (b : Start) : Sv2Config :=
  mkSv2Config true true file (s_validity b).

Definition start (file : string) (home : option string) (fs : Fs) (b : Start) :=
  init None (start_cfg file b) home fs (s_io b) (s_fresh b).

Fixpoint starts (file : string) (home : option string) (fs : Fs) (bs : list Start)
  : list (option (result string string) * option Authority) * Fs :=
  match bs with
  | [] => ([], fs)
  | b :: bs' =>
      let '(r, a, fs1) := start file home fs b in
      let '(rs, fs2) := starts file home fs1 bs' in ((r, a) :: rs, fs2)
  end.

Lemma start_load file home fs b :
  start file home fs b
  = match load_or_generate_secret fs (expand_tilde home file) (s_io b) (s_fresh b) with
    | (None, fs1) => (None, None, fs1)
    | (Some (Err e), fs1) => (Some (Err e), None, fs1)
    | (Some (Ok s), fs1) =>
        (Ok <$> encode_public_key s, Some (mkAuthority s (s_validity b)), fs1)
    end.
Proof. unfold start, init. cbn. by destruct (load_or_generate_secret _ _ _ _) as [[[|]|] ?]. Qed.

(** What a later start answers: the same key, or a read error and nothing else. *)
Definition same_key (s : bytes) (b : Start) (x : option (result string string) * option Authority) : Prop :=
  if read_fault (s_io b) then exists e, x = (Some (Err e), None)
  else x = (Some (Ok (public_to_string s)), Some (mkAuthority s (s_validity b))).

Lemma starts_holding file home s bs : forall fs,
  secret_valid s = true -> holds_key fs (expand_tilde home file) s ->
  Forall2 (same_key s) bs (starts file home fs bs).1 /\ (starts file home fs bs).2 = fs.
Proof.
  induction bs as [|b bs IH]; intros fs Hs Hk; [done|].
  assert (exists x, start file home fs b = (x, fs) /\ same_key s b x) as (x & Hx & Hsame).
  { rewrite start_load. unfold same_key. destruct (read_fault (s_io b)) eqn:Er.
    - rewrite load_faulty by done. eauto.
    - rewrite (load_holding _ _ _ _ s) by done. unfold encode_public_key. rewrite Hs. cbn. eauto. }
  destruct x as [r a]. cbn [starts]. rewrite Hx. destruct (IH fs Hs Hk) as [IH1 IH2].
  destruct (starts file home fs bs) as [rs fs2]. cbn in *. by split; [constructor|].
Qed.
End KeyFacts.

(** ** Properties *)

(** C26. The authority key a miner has pinned survives every restart: once a start
    with [persist_authority_key] has announced a key, every later start on the
    same key file, whatever the host's faults and whatever key it would have
    generated, announces the same key and serves handshakes under its secret,
    unless the file cannot be read, in which case the start fails rather than
    mint another key; and none of them changes any file.  A key file that did
    not exist is created readable and writable by the owner alone; one that did
    is never rewritten, even when it is damaged. *)
Theorem authority_key_survives_restarts `{KeyCodec} (file : string) (home : option string)
    (fs fs1 : Fs) (b : Start) (bs : list Start) (r : option (result string string))
    (a : option Authority) :
  start file home fs b = (r, a, fs1) ->
  (forall f, fs !! expand_tilde home file = Some f -> fs1 = fs)
  /\ (forall f, fs !! expand_tilde home file = None -> fs1 !! expand_tilde home file = Some f ->
      Z.land (f_mode f) GROUP_OTHER = 0)
  /\ (forall key, r = Some (Ok key) ->
      exists s, key = public_to_string s /\ a = Some (mkAuthority s (s_validity b))
             /\ (forall fresh, authority a fresh = mkAuthority s (s_validity b))
             /\ Forall2 (same_key s) bs (starts file home fs1 bs).1
             /\ (starts file home fs1 bs).2 = fs1).
Proof.
  rewrite start_load. intros Hst. set (path := expand_tilde home file) in *.
  pose proof (fun f => load_keeps_file fs path (s_io b) (s_fresh b) f) as Hkeep.
  pose proof (fun f => load_mode fs path (s_io b) (s_fresh b) f) as Hmode.
  pose proof (load_ok_holds fs path (s_io b) (s_fresh b)) as Hok.
  destruct (load_or_generate_secret fs path (s_io b) (s_fresh b)) as [o fs'] eqn:El.
  cbn [snd] in *. assert (fs1 = fs') as -> by (destruct o as [[|]|]; by simplify_eq).
  split_and!; [done | eauto |]. intros key ->.
  destruct o as [[s|e]|]; [|by simplify_eq|by simplify_eq].
  destruct (Hok s fs' eq_refl) as [Hs Hk]. unfold encode_public_key in Hst. rewrite Hs in Hst.
  simplify_eq/=. exists s. do 3 (split; [done|]). by apply starts_holding.
Qed.

(** A key format for concrete runs: two letters per byte. *)
Definition letter (v : Z) : Ascii.ascii := Ascii.ascii_of_N (Z.to_N (97 + v)).
Fixpoint letters (s : bytes) : string :=
  match s with
  | [] => EmptyString
  | b :: s' => String (letter (byte_val b / 16)) (String (letter (byte_val b mod 16)) (letters s'))
  end.
Fixpoint unletters (t : string) : option bytes :=
  match t with
  | EmptyString => Some []
  | String a (String b t') =>
      let hi := ascii_val a - 97 in
      let lo := ascii_val b - 97 in
      if within 0 hi 15 && within 0 lo 15
      then s ← unletters t'; Some (byte_of (hi * 16 + lo) :: s) else None
  | String _ EmptyString => None
  end.

Lemma ascii_val_letter v : 0 <= v < 16 -> ascii_val (letter v) = 97 + v.
Proof. intros Hv. unfold ascii_val, letter. rewrite Ascii.N_ascii_embedding; lia. Qed.

Lemma nibbles b : 0 <= byte_val b / 16 < 16 /\ 0 <= byte_val b mod 16 < 16
                  /\ byte_val b / 16 * 16 + byte_val b mod 16 = byte_val b.
Proof.
  pose proof (byte_val_range b). pose proof (Z.mod_pos_bound (byte_val b) 16).
  pose proof (Z.div_mod (byte_val b) 16). assert (0 <= byte_val b / 16) by (apply Z.div_pos; lia).
  lia.
Qed.

Lemma unletters_letters s : unletters (letters s) = Some s.
Proof.
  induction s as [|b s IH]; [done|]. cbn [letters unletters].
  destruct (nibbles b) as (H1 & H2 & H3). rewrite !ascii_val_letter by lia.
  unfold within. rewrite !(proj2 (Z.leb_le _ _)) by lia. cbn. rewrite IH. cbn. do 2 f_equal.
  rewrite <- (byte_of_val b) at 3. f_equal. lia.
Qed.

Lemma letters_alnum s : Forall (fun v => is_alnum v = true) (string_vals (letters s)).
Proof.
  induction s as [|b s IH]; [constructor|]. unfold string_vals in *. cbn [letters string_bytes fmap list_fmap].
  destruct (nibbles b) as (H1 & H2 & _).
  assert (forall v, 0 <= v < 16 -> is_alnum (byte_val (byte_of (ascii_val (letter v)))) = true) as Hl.
  { intros v Hv. rewrite ascii_val_letter, byte_val_of, Z.mod_small by lia. unfold is_alnum, within.
    rewrite (proj2 (Z.leb_le 97 (97 + v))), (proj2 (Z.leb_le (97 + v) 122)) by lia.
    apply orb_true_r. }
  constructor; [by apply Hl|]. constructor; [by apply Hl | exact IH].
Qed.

Definition secret_32 (s : bytes) : bool := Nat.eqb (length s) 32.

#[refine] Definition letter_keys : KeyCodec := {|
  secret_valid := secret_32;
  secret_to_string := letters;
  secret_of_string := fun t => s ← unletters t; if secret_32 s then Some s else None;
  public_to_string := fun s => letters (reverse s)
|}.
Proof.
  - intros s Hs. rewrite unletters_letters. cbn. by rewrite Hs.
  - intros t s. destruct (unletters t) as [u|]; cbn; [|done]. destruct (secret_32 u) eqn:E; [|done].
    by intros [= <-].
  - apply letters_alnum.
Defined.

Definition good_io : Io := mkIo false true true None true (2 * 8 + 2).
Definition bad_read : Io := mkIo true true true None true (2 * 8 + 2).
Definition key_a : bytes := repeat xaa 32.
Definition key_b : bytes := repeat xbb 32.

Lemma authority_key_survives_restarts_witness :
  (@starts letter_keys "~/pool.key" (Some "/root"%string)
     (@start letter_keys "~/pool.key" (Some "/root"%string) ∅ (mkStart good_io key_a 100)).2
     [mkStart good_io key_b 200; mkStart bad_read key_b 200]).2
  = (@start letter_keys "~/pool.key" (Some "/root"%string) ∅ (mkStart good_io key_a 100)).2.
Proof.
  destruct (@start letter_keys "~/pool.key" (Some "/root"%string) ∅ (mkStart good_io key_a 100))
    as [[r a] fs1] eqn:E.
  pose proof (proj2 (proj2 (@authority_key_survives_restarts letter_keys "~/pool.key"
    (Some "/root"%string) ∅ fs1 (mkStart good_io key_a 100)
    [mkStart good_io key_b 200; mkStart bad_read key_b 200] r a E))
    (@public_to_string letter_keys key_a)) as Hkey.
  assert (r = Some (Ok (@public_to_string letter_keys key_a))) as Hr.
  { apply (f_equal (fun x => x.1.1)) in E. cbn [fst] in E. rewrite <- E. vm_compute. reflexivity. }
  destruct (Hkey Hr) as (s & _ & _ & _ & _ & Hfs). exact Hfs.
Defined.







(** A codec that frames without encrypting: a header of 6 bytes and a tag of 16,
    then the payload and its tag. *)
Definition plain_next (d : bytes * nat) (c : unit) : Decoded * (bytes * nat) * unit :=
  let buf := d.1 in
  if (length buf <? 22)%nat then (MissingBytes, (buf, (22 - length buf)%nat), c)
  else
    let len := Z.to_nat (le_val (take 3 (drop 3 buf))) in
    let total := (22 + (if (len =? 0)%nat then 0 else len + 16))%nat in
    if (length buf <? total)%nat then (MissingBytes, (buf, (total - length buf)%nat), c)
    else (FrameSv2 (byte_val <$> buf !! 2%nat) (take len (drop 22 buf)), ([], 0%nat), c).

#[refine] Definition plain_noise : NoiseCodec := {|
  Cipher := unit;
  Decoder := bytes * nat;
  step_1 := fun _ _ re_pub => Some (re_pub, tt);
  decoder_new := ([], 0%nat);
  next_frame := plain_next;
  writable := fun d => (d, d.2);
  fill := fun d b => (d.1 ++ b, 0%nat)
|}.
Proof.
  intros [buf k] c [buf' k'] c' H. unfold plain_next in H. cbn [fst] in H. cbn [snd].
  destruct (Nat.ltb_spec (length buf) 22); [simplify_eq; lia|]. cbv zeta in H.
  case_match eqn:E; [|done]. apply Nat.ltb_lt in E. simplify_eq. lia.
Defined.

(** A frame of two bytes, then the start of another whose length is a lie. *)
Definition demo_reader (max : nat) : @NoiseReader plain_noise :=
  @reader_new plain_noise
    ([x00; x00; x1b; x02; x00; x00] ++ repeat x00 16 ++ [xaa; xbb] ++ repeat x00 16
     ++ [x00; x00; x1b; x00; x20; x00] ++ repeat x00 16) tt max.

Example demo_read :
  (fst <$> @read plain_noise 64 (demo_reader 1024),
   '(_, r) ← @read plain_noise 64 (demo_reader 1024); fst <$> @read plain_noise 64 r)
  = (Some (Ok (0x1b, [xaa; xbb])), Some (Err "SV2 frame too large"%string)).
Proof. vm_compute. reflexivity. Qed.

(** The second frame's header alone has the decoder hand out 8208 bytes to a
    reader that accepts 1024. *)
Example demo_handed_out :
  ('(_, r) ← @read plain_noise 64 (demo_reader 1024);
   '(_, r) ← @read plain_noise 64 r; Some (@reserved plain_noise r, @requested plain_noise r))
  = Some ([22; 18; 22; 8208]%nat, [22; 18; 22]%nat).
Proof. vm_compute. reflexivity. Qed.


End Noise.
