(* ===== verification/Node.v ===== *)
(** * Node: what the pool learns about its node, and when it hears of a block
    ([src/bitcoin/rpc.rs], [src/bitcoin/zmq.rs], [src/settings.rs],
    [src/main.rs])

    The node's identity and chain, the estimate of the next difficulty change,
    the supervision of the ZMQ listener with its backoff, the polling backstop
    and the counter both advance, the command line and the freshness watchdog.
    The sockets and the RPC transport are inputs. *)
From S2P Require Import Prelude Text F64 Host Json Errors Interfaces Rpc Hashrate Vardiff Security Config.
From S2P Require Import Identity.
Import Host Rpc Config.

Module Node.

(** ** Identity of the node *)
Record NodeInfo := mkNodeInfo { subversion : string }.

(** [str::split(c)]: at least one part. *)
Fixpoint split_on (c : Ascii.ascii) (acc s : string) : list string :=
  match s with
  | EmptyString => [acc]
  | String d s' =>
      if bool_decide (d = c) then acc :: split_on c EmptyString s'
      else split_on c (acc +:+ String d EmptyString) s'
  end.

Definition c_slash : Ascii.ascii := Ascii.ascii_of_nat 47.
Definition c_colon : Ascii.ascii := Ascii.ascii_of_nat 58.
Definition c_paren : Ascii.ascii := Ascii.ascii_of_nat 40.

Definition segments (n : NodeInfo) : list (string * string) :=
  (fun seg => default (seg, EmptyString) (split_once c_colon seg))
    <$> List.filter (fun s => negb (bool_decide (s = EmptyString))) (split_on c_slash EmptyString (subversion n)).

Definition satoshi_version (n : NodeInfo) : option string :=
  snd <$> List.find (fun s => bool_decide (s.1 = "Satoshi"%string)) (segments n).

Definition implementation (n : NodeInfo) : string :=
  if existsb (fun s => bool_decide (s.1 = "Knots"%string)) (segments n) then "Bitcoin Knots"
  else match last (segments n) with
       | Some (name, _) => if bool_decide (name = "Satoshi"%string) then "Bitcoin Core" else name
       | None => EmptyString
       end.

Definition display_version (n : NodeInfo) : string :=
  let ver := default EmptyString
               (match satoshi_version n with Some v => Some v | None => snd <$> last (segments n) end) in
  trim (default EmptyString (head (split_on c_paren EmptyString ver))).

Example agents :
  ((fun n => (implementation n, display_version n)) <$>
     [mkNodeInfo "/Satoshi:29.0.0/"; mkNodeInfo "/Satoshi:28.1.0/Knots:20250305/";
      mkNodeInfo "/btcwire:0.5.0/btcd:0.24.0(x)/"; mkNodeInfo ""])%string
  = [("Bitcoin Core", "29.0.0"); ("Bitcoin Knots", "28.1.0"); ("btcd", "0.24.0"); ("", "")]%string.
Proof. vm_compute. reflexivity. Qed.

(** The bodies of [chain_blocking] and [network_info_blocking] after the call. *)
Definition chain_of_value (v : Value) : result PoolError string :=
  ok_or (Other "getblockchaininfo response missing 'chain'") (x ← value_get v "chain"; as_str x).
Definition network_info_of_value (v : Value) : result PoolError NodeInfo :=
  ok_or (Other "getnetworkinfo response missing 'subversion'")
    (x ← value_get v "subversion"; mkNodeInfo <$> as_str x).

(** ** The network the pool runs on *)
Definition network_of_chain (node_chain : string) : option string :=
  if bool_decide (node_chain = "main"%string) then Some "mainnet"%string
  else if bool_decide (node_chain = "test"%string) then Some "testnet"%string
  else if bool_decide (node_chain = "testnet4"%string) then Some "testnet4"%string
  else if bool_decide (node_chain = "signet"%string) then Some "signet"%string
  else if bool_decide (node_chain = "regtest"%string) then Some "regtest"%string
  else None.

Definition settings_new (p : PoolConfig) (node_chain : string) : result string string :=
  match network_of_chain node_chain with
  | None => Err "node reports unrecognized chain"%string
  | Some network =>
      match Config.network p with
      | Some asserted =>
          if bool_decide (asserted = network) then Ok network
          else Err "network assertion does not match the connected node"%string
      | None => Ok network
      end
  end.

(** [bitcoin_network]; [None] is the [unreachable!]. *)
Definition bitcoin_network (network : string) : option Network :=
  if bool_decide (network = "mainnet"%string) then Some Bitcoin
  else if bool_decide (network = "testnet"%string) then Some Testnet
  else if bool_decide (network = "testnet4"%string) then Some Testnet4
  else if bool_decide (network = "signet"%string) then Some Signet
  else if bool_decide (network = "regtest"%string) then Some Regtest
  else None.

(** Settings that were accepted always name a network, the one asserted. *)
Lemma settings_network p chain network :
  settings_new p chain = Ok network ->
  is_Some (bitcoin_network network)
  /\ (forall asserted, Config.network p = Some asserted -> asserted = network).
Proof.
  unfold settings_new, network_of_chain.
  repeat (case_bool_decide; [|]); try done; destruct (Config.network p) as [a|];
    try case_bool_decide; intros [= <-]; split; try (by eexists); naive_solver.
Qed.

(** ** The next difficulty change *)
Definition MIN_CHANGE : f64 := f64_of_Z (-75).
Definition MAX_CHANGE : f64 := f64_of_Z 300.

(** The closure of [estimate_difficulty_change_pct_blocking]: the height, and
    the times of the tip and of the first block of its epoch. *)
Definition estimate_difficulty_change_pct (height : result RpcError Z)
    (tip_time start_time : result RpcError Z) : option (result PoolError f64) :=
  match height with
  | Err e => Some (Err (Rpc e))
  | Ok h =>
      let into_epoch := h mod 2016 in
      if into_epoch =? 0 then Some (Ok fnan)
      else
        match tip_time, start_time with
        | Err e, _ => Some (Err (Rpc e))
        | _, Err e => Some (Err (Rpc e))
        | Ok tip, Ok start =>
            let elapsed := f64_of_Z (tip - start) in
            if (elapsed <=? f0)%f64 then Some (Ok fnan)
            else
              let expected := (f64_of_Z into_epoch * f64_of_Z 600)%f64 in
              Ok <$> fclamp ((expected / elapsed - f1) * f64_of_Z 100)%f64 MIN_CHANGE MAX_CHANGE
        end
  end.

Lemma SFcompare_antisym x y : SFcompare y x = CompOpp <$> SFcompare x y.
Proof.
  destruct x as [[]|[]| |[] m e], y as [[]|[]| |[] m' e']; cbn; try done;
    rewrite (Z.compare_antisym e e'); destruct (Z.compare e e'); cbn; try done;
    change (Pos.compare_cont Eq m' m) with (Pos.compare m' m);
    change (Pos.compare_cont Eq m m') with (Pos.compare m m');
    rewrite (Pos.compare_antisym m m'); by destruct (Pos.compare m m').
Qed.

Lemma SFcompare_None x y : SFcompare x y = None -> is_nan x = true \/ is_nan y = true.
Proof. destruct x as [[]|[]| |[] m e], y as [[]|[]| |[] m' e']; cbn; try done; auto; by destruct (Z.compare e e'). Qed.

(** A value not below a bound, neither being a NaN, is at least it. *)
Lemma flt_false x y : is_nan x = false -> is_nan y = false -> flt x y = false -> fle y x = true.
Proof.
  intros Hx Hy. unfold flt, fle, SFltb, SFleb. rewrite (SFcompare_antisym x y).
  destruct (SFcompare x y) as [[]|] eqn:E; cbn; try done.
  apply SFcompare_None in E. destruct E; congruence.
Qed.

Lemma fclamp_bounds x lo hi y :
  is_nan x = false -> is_nan lo = false -> is_nan hi = false ->
  fclamp x lo hi = Some y -> fle lo y = true /\ fle y hi = true.
Proof.
  intros Hx Hlo Hhi. unfold fclamp. destruct (lo <=? hi)%f64 eqn:E; [|done]. intros [= <-].
  assert (forall z, is_nan z = false -> fle z z = true) as Hrefl.
  { intros z Hz. apply flt_false; [done..|]. unfold flt, SFltb. destruct z as [[]|[]| |[] m e]; cbn; try done;
      rewrite Z.compare_refl; change (Pos.compare_cont Eq m m) with (Pos.compare m m); by rewrite Pos.compare_refl. }
  destruct (x <? lo)%f64 eqn:E1.
  - destruct (hi <? lo)%f64 eqn:E2; [by rewrite Hrefl by done|]. by rewrite Hrefl by done.
  - destruct (hi <? x)%f64 eqn:E2; [by rewrite Hrefl by done|].
    split; by apply flt_false.
Qed.

(** ** Hearing of a new block *)
Definition ZMQ_INITIAL_BACKOFF : Z := 1 * NANOS.
Definition ZMQ_MAX_BACKOFF : Z := 60 * NANOS.
Definition ZMQ_STABLE_AFTER : Z := 60 * NANOS.

Definition next_backoff (current : Z) : Z := Z.min (current * 2) ZMQ_MAX_BACKOFF.

(** One turn of [supervise_zmq_listener], by how long the connection lasted. *)
Definition supervise_step (backoff lasted : Z) : Z :=
  if ZMQ_STABLE_AFTER <=? lasted then ZMQ_INITIAL_BACKOFF else next_backoff backoff.

Definition supervise (lasted : list Z) : Z := foldl supervise_step ZMQ_INITIAL_BACKOFF lasted.

Lemma supervise_bounds lasted : ZMQ_INITIAL_BACKOFF <= supervise lasted <= ZMQ_MAX_BACKOFF.
Proof.
  unfold supervise.
  assert (forall l b, ZMQ_INITIAL_BACKOFF <= b <= ZMQ_MAX_BACKOFF ->
    ZMQ_INITIAL_BACKOFF <= foldl supervise_step b l <= ZMQ_MAX_BACKOFF) as Hgen.
  { induction l as [|x l IH]; intros b Hb; [done|]. cbn. apply IH. unfold supervise_step.
    case_match; [|unfold next_backoff]; unfold ZMQ_INITIAL_BACKOFF, ZMQ_MAX_BACKOFF, NANOS in *; lia. }
  apply Hgen. unfold ZMQ_INITIAL_BACKOFF, ZMQ_MAX_BACKOFF, NANOS. lia.
Qed.

(** A dead endpoint settles at the ceiling: from the sixth failure on, every
    wait is the longest one. *)
Lemma supervise_settles lasted :
  Forall (fun x => x < ZMQ_STABLE_AFTER) lasted -> (6 <= length lasted)%nat ->
  supervise lasted = ZMQ_MAX_BACKOFF.
Proof.
  intros HF Hl. unfold supervise.
  destruct lasted as [|a [|b [|c [|d [|e [|f l]]]]]]; cbn [length] in Hl; try lia.
  repeat (apply Forall_cons in HF as [?%Z.leb_gt HF]). cbn [foldl]. unfold supervise_step at 2 3 4 5 6 7.
  repeat match goal with E : (ZMQ_STABLE_AFTER <=? _) = false |- _ => rewrite E; clear E end.
  change (next_backoff _) with ZMQ_MAX_BACKOFF. clear Hl.
  induction HF as [|x l Hx HF IH]; [done|]. cbn [foldl]. unfold supervise_step at 2.
  by rewrite (proj2 (Z.leb_gt _ _) Hx).
Qed.

(** The watch counter and the poller's last hash. *)
Record Poller := mkPoller { counter : Z; last_hash : string }.

(** [zmq::start] creates the counter at zero; the poller starts with no hash. *)
Definition poller_new : Poller := mkPoller 0 EmptyString.

(** A [hashblock] message of the listener. *)
Definition on_hashblock (p : Poller) : Poller := mkPoller (counter p + 1) (last_hash p).

(** One turn of [run_poll_fallback]. *)
Definition poll_step (p : Poller) (answer : result PoolError string) : Poller :=
  match answer with
  | Ok hash => if bool_decide (hash = last_hash p) then p else mkPoller (counter p + 1) hash
  | Err _ => p
  end.

(** Every turn that sees another tip than the last one seen advances the
    counter, and none goes unseen. *)
Lemma poll_step_seen p hash :
  last_hash (poll_step p (Ok hash)) = hash
  /\ (counter (poll_step p (Ok hash)) = counter p <-> hash = last_hash p).
Proof. cbn. case_bool_decide; cbn; [done|]. split; [done|]. split; [lia | done]. Qed.

(** ** The command line and the watchdog *)
Record Cli := mkCli { config_path : string; check_only : bool }.

Fixpoint parse_args_loop (path : option string) (check : bool) (args : list string) : Cli :=
  match args with
  | [] => mkCli (default "config.toml"%string path) check
  | a :: rest =>
      if bool_decide (a = "--check-config"%string) then parse_args_loop path true rest
      else if bool_decide (a = "--config"%string) then
        match rest with
        | p :: rest' => parse_args_loop (Some p) check rest'
        | [] => mkCli "config.toml" check
        end
      else parse_args_loop (Some a) check rest
  end.

Definition parse_args (args : list string) : Cli := parse_args_loop None false args.

Inductive WatchdogLog : Type := LogStale | LogRecovered.

(** One tick of the watchdog: what it logs, and the state it keeps. *)
Definition watchdog_tick (was_stale fresh : bool) : option WatchdogLog * bool :=
  let stale := negb fresh in
  (if stale && negb was_stale then Some LogStale
   else if negb stale && was_stale then Some LogRecovered else None, stale).

(** ** The schema of the statistics file *)
Definition SCHEMA_VERSION : Z := 1.

Definition check_schema_version (version tables : Z) : bool :=
  (version =? SCHEMA_VERSION) || ((version =? 0) && (tables =? 0)).

(** ** Properties *)

(** The difficulty estimate is always a number the dashboard can show or
    nothing: whatever the node reports, the computation never panics, and when
    the quotient is a number the answer lies between -75 and 300 percent. *)
Lemma difficulty_estimate_bounded (height tip start : result RpcError Z) :
  exists r, estimate_difficulty_change_pct height tip start = Some r
  /\ (forall pct, r = Ok pct ->
      is_nan pct = true \/ (fle MIN_CHANGE pct = true /\ fle pct MAX_CHANGE = true)).
Proof.
  unfold estimate_difficulty_change_pct.
  assert (forall x, exists y, fclamp x MIN_CHANGE MAX_CHANGE = Some y
            /\ (is_nan y = true \/ fle MIN_CHANGE y = true /\ fle y MAX_CHANGE = true)) as Hclamp.
  { intros x. destruct (fclamp x MIN_CHANGE MAX_CHANGE) as [y|] eqn:E; [|by destruct x].
    exists y. split; [done|]. destruct (is_nan x) eqn:Ex.
    - left. destruct x; try done. by injection E as <-.
    - right. by eapply fclamp_bounds. }
  destruct height as [h|e]; [|by eexists]. cbv zeta.
  destruct (h mod 2016 =? 0); [eexists; split; [done|]; intros ? [= <-]; by left|].
  destruct tip as [t|e]; [|by eexists]. destruct start as [s|e]; [|by eexists].
  destruct (_ <=? f0)%f64; [eexists; split; [done|]; intros ? [= <-]; by left|].
  edestruct Hclamp as (y & -> & Hy). eexists. split; [done|]. by intros ? [= <-].
Qed.

End Node.
