(* ===== verification/Tip.v ===== *)
(** * Tip: from the node's new block to the pool's next job
    ([src/bitcoin/zmq.rs], [src/mining/engine.rs])

    The three tasks between the node and the sessions, in any interleaving: the
    supervised ZMQ listener, the polling backstop, and the engine's refresh loop,
    which hears of both through one [watch] counter and has a timer of its own.
    The theorem: when no announcement waits and the last refresh made a job, the
    pool works on the tip the backstop has seen, also when ZMQ never speaks. *)
From S2P Require Import Prelude Text F64 Host Json Errors Interfaces Target Rpc Hashrate Stats Store.
From S2P Require Import Security Accounting Identity Template Jobs Engine Node.
Import Rpc Template Engine.

Module Tip.

(** ** The tasks *)

(** [supervise_zmq_listener]: connected since, or asleep until, with the backoff
    of the next sleep. *)
Inductive Listener : Type :=
| Connected (since backoff : Z)
| Asleep (until backoff lasted : Z).

(** Why [refresh] was called: [engine.run]'s first, a signal, or the timer. *)
Inductive Cause : Type := Startup | BySignal | ByTimer.

Definition NTIME_REFRESH : Z := 30 * NANOS.

(** The counter with the poller's last hash, the time of its last answer, the
    value of the counter the engine has marked as seen, the refresh under way with
    its start, the timer, the listener and the clock.  [attempt] only records the
    last finished refresh: its start and whether it made a job. *)
Record Tasks := mkTasks {
  watch : Node.Poller;
  polled : Instant;
  seen : Z;
  engine : TemplateEngine;
  refreshing : option (Cause * Instant);
  attempt : option (Instant * bool);
  next_tick : Instant;
  listener : Listener;
  clock : Instant
}.

Inductive TipEvent : Type :=
| ZmqMessage
| ZmqFailed
| ZmqRetries
| Polled (answer : result PoolError string)
| TakeSignal
| TimerTick
| Refreshed (answer : result PoolError GbtResult) (unix : Z).

(** The first poll is not delayed. *)
Definition tasks_new (strict : bool) (poll_interval : Z) (now : Instant) : Tasks :=
  mkTasks Node.poller_new (now - poll_interval) 0 (engine_new strict now) (Some (Startup, now)) None now
    (Connected now Node.ZMQ_INITIAL_BACKOFF) now.

Section Step.
Context `{Sha256} `{HexCodec} `{Libm}.
Variables (poll_fallback : bool) (poll_interval : Z).

(** [hashblock], a lost connection, and the next attempt once the sleep is over. *)
Definition listener_step (s : Tasks) (ev : TipEvent) (t : Instant) : Listener :=
  match ev, listener s with
  | ZmqFailed, Connected since backoff => Asleep (t + backoff) backoff (t - since)
  | ZmqRetries, Asleep until backoff lasted =>
      if until <=? t then Connected t (Node.supervise_step backoff lasted) else listener s
  | _, l => l
  end.

(** Did this refresh make a job? *)
Definition makes_job (e : TemplateEngine) (answer : result PoolError GbtResult) : bool :=
  match answer with
  | Ok gbt => (check_template_rules e gbt).1 && match build_job_template gbt with Ok _ => true | Err _ => false end
  | Err _ => false
  end.

(** One event of any task at the time [t].  A new refresh starts only when the
    last one is over; a signal's resets the timer when it is. *)
Definition tip_step (s : Tasks) (te : Instant * TipEvent) : Tasks :=
  let '(t, ev) := te in
  let l := listener_step s ev t in
  match ev with
  | ZmqMessage =>
      mkTasks (match listener s with Connected _ _ => Node.on_hashblock (watch s) | _ => watch s end)
        (polled s) (seen s) (engine s) (refreshing s) (attempt s) (next_tick s) l t
  | ZmqFailed | ZmqRetries =>
      mkTasks (watch s) (polled s) (seen s) (engine s) (refreshing s) (attempt s) (next_tick s) l t
  | Polled answer =>
      if poll_fallback && (polled s + poll_interval <=? t) then
        mkTasks (Node.poll_step (watch s) answer) t (seen s) (engine s) (refreshing s) (attempt s)
          (next_tick s) l t
      else mkTasks (watch s) (polled s) (seen s) (engine s) (refreshing s) (attempt s) (next_tick s) l t
  | TakeSignal =>
      match refreshing s with
      | None =>
          if seen s <? Node.counter (watch s) then
            mkTasks (watch s) (polled s) (Node.counter (watch s)) (engine s) (Some (BySignal, t)) (attempt s)
              (next_tick s) l t
          else mkTasks (watch s) (polled s) (seen s) (engine s) None (attempt s) (next_tick s) l t
      | _ => mkTasks (watch s) (polled s) (seen s) (engine s) (refreshing s) (attempt s) (next_tick s) l t
      end
  | TimerTick =>
      match refreshing s with
      | None =>
          if next_tick s <=? t then
            mkTasks (watch s) (polled s) (seen s) (engine s) (Some (ByTimer, t)) (attempt s)
              (t + NTIME_REFRESH) l t
          else mkTasks (watch s) (polled s) (seen s) (engine s) None (attempt s) (next_tick s) l t
      | _ => mkTasks (watch s) (polled s) (seen s) (engine s) (refreshing s) (attempt s) (next_tick s) l t
      end
  | Refreshed answer unix =>
      match refreshing s with
      | Some (cause, start) =>
          mkTasks (watch s) (polled s) (seen s) (refresh (engine s) answer t unix) None
            (Some (start, makes_job (engine s) answer))
            (match cause with ByTimer => next_tick s | _ => t + NTIME_REFRESH end) l t
      | None => mkTasks (watch s) (polled s) (seen s) (engine s) None (attempt s) (next_tick s) l t
      end
  end.

Definition tip_run (s : Tasks) (evs : list (Instant * TipEvent)) : Tasks := foldl tip_step s evs.

(** ** What the node answers *)

(** The node's best block at every instant. *)
Variable tip : Instant -> string.

(** An answer is about the node's tip at some instant while it was asked; time
    does not go back. *)
Definition honest (s : Tasks) (te : Instant * TipEvent) : Prop :=
  clock s <= te.1
  /\ match te.2 with
     | Polled (Ok h) => exists ta, polled s <= ta <= te.1 /\ h = tip ta
     | Refreshed (Ok gbt) _ =>
         forall cause start, refreshing s = Some (cause, start) ->
         exists ta, start <= ta <= te.1 /\ prev_hash gbt = tip ta
     | _ => True
     end.

Fixpoint honest_run (s : Tasks) (evs : list (Instant * TipEvent)) : Prop :=
  match evs with
  | [] => True
  | te :: rest => honest s te /\ honest_run (tip_step s te) rest
  end.

(** The invariant: the hash the poller holds was the tip at some instant, and
    since then an announcement waits, is being served, or was; and a refresh that
    made a job left the template of a tip no older than its start. *)
Definition served_since (s : Tasks) (ta : Instant) : Prop :=
  seen s < Node.counter (watch s)
  \/ (exists cause start, refreshing s = Some (cause, start) /\ ta <= start)
  \/ (exists start made, attempt s = Some (start, made) /\ ta <= start).

Record tip_inv (s : Tasks) : Prop := {
  ti_seen : seen s <= Node.counter (watch s);
  ti_hash : Node.last_hash (watch s) = EmptyString \/
    exists ta, ta <= clock s /\ tip ta = Node.last_hash (watch s) /\ served_since s ta;
  ti_start : forall cause start, refreshing s = Some (cause, start) -> start <= clock s;
  ti_order : forall start made, attempt s = Some (start, made) ->
    start <= clock s /\ forall cause start', refreshing s = Some (cause, start') -> start <= start';
  ti_attempt : forall start, attempt s = Some (start, true) ->
    exists tpl tb, current_template (engine s) = Some tpl /\ start <= tb <= clock s
      /\ stratum_prev_hash (tip tb) = Ok (t_prev_hash tpl)
}.

(** A refresh that made a job leaves it as the template. *)
Lemma refresh_makes_job e gbt t unix :
  makes_job e (Ok gbt) = true ->
  exists tpl, build_job_template gbt = Ok tpl /\ current_template (refresh e (Ok gbt) t unix) = Some tpl.
Proof.
  unfold makes_job, refresh. destruct (check_template_rules e gbt) as [[] e1]; [|done]. cbn.
  destruct (build_job_template gbt) as [tpl|]; [|done]. by exists tpl.
Qed.

Lemma build_job_tip gbt tpl :
  build_job_template gbt = Ok tpl -> stratum_prev_hash (prev_hash gbt) = Ok (t_prev_hash tpl).
Proof.
  unfold build_job_template. intros Ht. bind_inv Ht. bind_inv Ht. destruct (_ && _); [done|].
  bind_inv Ht. bind_inv Ht. bind_inv Ht. by injection Ht as <-.
Qed.

(** Time passes, and the counter may advance. *)
Lemma tip_inv_later s n l t tick p :
  tip_inv s -> clock s <= t -> Node.counter (watch s) <= n ->
  tip_inv (mkTasks (Node.mkPoller n (Node.last_hash (watch s))) p (seen s) (engine s) (refreshing s)
             (attempt s) tick l t).
Proof.
  intros [Hs Hh Hst Ho Ha] Ht Hn. split; cbn in *.
  - lia.
  - destruct Hh as [Hh|(ta & Hta & Htip & Hv)]; [by left|]. right. exists ta. split; [lia|]. split; [done|].
    unfold served_since in *. cbn. destruct Hv as [?|[?|?]]; [left; lia | auto..].
  - intros c st E. specialize (Hst c st E). lia.
  - intros st m E. destruct (Ho st m E) as [? Hc]. split; [lia | exact Hc].
  - intros st E. destruct (Ha st E) as (tpl & tb & ? & ? & ?). exists tpl, tb. split; [done|]. split; [lia | done].
Qed.

(** A refresh starts: it serves whatever was announced before. *)
Lemma tip_inv_start s cause l t tick n :
  tip_inv s -> clock s <= t -> seen s <= n <= Node.counter (watch s) ->
  tip_inv (mkTasks (watch s) (polled s) n (engine s) (Some (cause, t)) (attempt s) tick l t).
Proof.
  intros [Hs Hh Hst Ho Ha] Ht Hn. split; cbn in *.
  - lia.
  - destruct Hh as [Hh|(ta & Hta & Htip & Hv)]; [by left|]. right. exists ta. split; [lia|]. split; [done|].
    right. left. exists cause, t. split; [done | lia].
  - intros c st [= <- <-]. lia.
  - intros st m E. destruct (Ho st m E) as [? _]. split; [lia|]. intros c st' [= <- <-]. lia.
  - intros st E. destruct (Ha st E) as (tpl & tb & ? & ? & ?). exists tpl, tb. split; [done|]. split; [lia | done].
Qed.

Local Ltac later := apply tip_inv_later; [done | done | lia].

Lemma tip_inv_step s te : tip_inv s -> honest s te -> tip_inv (tip_step s te).
Proof.
  destruct te as [t ev]. intros Hi [Ht Hh]. cbn [fst snd] in *.
  assert (watch s = Node.mkPoller (Node.counter (watch s)) (Node.last_hash (watch s))) as Ew by by destruct (watch s).
  destruct ev as [| | |a| | |a unix]; cbn [tip_step].
  - destruct (listener s); [later|]. rewrite Ew. later.
  - rewrite Ew. later.
  - rewrite Ew. later.
  - destruct (poll_fallback && _); [|rewrite Ew; later]. destruct a as [h|]; cbn [Node.poll_step]; [|rewrite Ew; later].
    case_bool_decide as Hsame; [rewrite Ew; later|]. destruct Hh as (ta & Hta & ->), Hi as [Hs _ Hst Ho Ha].
    split; cbn; [lia| | | |].
    + right. exists ta. split; [lia|]. split; [done|]. left. cbn. lia.
    + intros c st E. specialize (Hst c st E). lia.
    + intros st m E. destruct (Ho st m E) as [? Hc]. split; [lia | exact Hc].
    + intros st E. destruct (Ha st E) as (tpl & tb & ? & ? & ?). exists tpl, tb. split; [done|]. split; [lia | done].
  - destruct (refreshing s) as [r|] eqn:Er; [rewrite <- Er, Ew; later|].
    destruct (seen s <? _) eqn:E; [apply Z.ltb_lt in E; apply tip_inv_start; [done | done | lia] |].
    rewrite <- Er, Ew. later.
  - destruct (refreshing s) as [r|] eqn:Er; [rewrite <- Er, Ew; later|].
    destruct (next_tick s <=? t); [|rewrite <- Er, Ew; later].
    pose proof (ti_seen s Hi). apply tip_inv_start; [done | done | lia].
  - destruct (refreshing s) as [[cause start]|] eqn:Er; [|rewrite <- Er, Ew; later].
    destruct Hi as [Hs Hl Hst Ho Ha]. specialize (Hst cause start Er). split; cbn; [done| |done| |].
    + destruct Hl as [Hl|(ta & Hta & Htip & Hv)]; [by left|]. right. exists ta. split; [lia|]. split; [done|].
      unfold served_since in *. cbn. destruct Hv as [?|[(c & st & E & ?)|(st & m & E & ?)]]; [by left | right; right..].
      * rewrite Er in E. injection E as <- <-. eauto.
      * destruct (Ho st m E) as [_ Hc]. specialize (Hc cause start Er). do 2 eexists. split; [done | lia].
    + intros st m [= <- <-]. by split; [lia|].
    + intros st [= <- Hm]. destruct a as [gbt|]; [|done].
      destruct (refresh_makes_job (engine s) gbt t unix Hm) as (tpl & Hb & Hc).
      destruct (Hh cause start eq_refl) as (ta & Hta & Htip). exists tpl, ta. split; [done|]. split; [lia|].
      rewrite <- Htip. by apply build_job_tip.
Qed.

Lemma tip_inv_run evs : forall s, tip_inv s -> honest_run s evs -> tip_inv (tip_run s evs).
Proof.
  induction evs as [|te evs IH]; intros s Hi Hh; [done|]. destruct Hh as [Hh1 Hh2].
  apply IH; [by apply tip_inv_step | done].
Qed.

Lemma tip_inv_new strict now : tip_inv (tasks_new strict poll_interval now).
Proof. split; cbn; try done; [by left|]. intros c st [= <- <-]. lia. Qed.

(** The timer is never more than its period away. *)
Lemma tick_due_step s te : honest s te -> next_tick s <= clock s + NTIME_REFRESH ->
  next_tick (tip_step s te) <= clock (tip_step s te) + NTIME_REFRESH.
Proof.
  destruct te as [t ev]. intros [Ht _] Hd. cbn [fst] in Ht.
  destruct ev; cbn [tip_step]; try (destruct (poll_fallback && _)); try (destruct (refreshing s) as [[[] ?]|]);
    try (destruct (seen s <? _)); try (destruct (next_tick s <=? t)); cbn; unfold NTIME_REFRESH in *; lia.
Qed.

Lemma tick_due_run evs : forall s, honest_run s evs -> next_tick s <= clock s + NTIME_REFRESH ->
  next_tick (tip_run s evs) <= clock (tip_run s evs) + NTIME_REFRESH.
Proof.
  induction evs as [|te evs IH]; intros s Hh Hd; [done|]. destruct Hh as [Hh1 Hh2].
  apply IH; [done | by apply tick_due_step].
Qed.
End Step.

(** ** Properties *)

(** C16. No new tip is missed. Whatever the ZMQ socket does and in whatever order
    the tasks run, with answers that are about the node's tip while they were asked
    and a tip that does not come back once left: as soon as the backstop has seen
    the present tip, either an announcement waits, a refresh is under way, the last
    refresh made no job, or the template builds on that tip. A waiting
    announcement starts a refresh at the loop's next turn, and the timer tries
    again at the latest thirty seconds on. *)
Theorem no_tip_change_is_missed `{Sha256} `{HexCodec} `{Libm} (tip : Instant -> string)
    (poll_fallback strict : bool) (poll_interval : Z) (now : Instant)
    (evs : list (Instant * TipEvent)) :
  let s0 := tasks_new strict poll_interval now in
  let s := tip_run poll_fallback poll_interval s0 evs in
  (forall t, tip t <> EmptyString) ->
  (forall t1 t2 t3, t1 <= t2 <= t3 -> tip t1 = tip t3 -> tip t2 = tip t1) ->
  honest_run poll_fallback poll_interval tip s0 evs ->
  Node.last_hash (watch s) = tip (clock s) ->
  next_tick s <= clock s + NTIME_REFRESH
  /\ (refreshing s = None -> forall start, attempt s = Some (start, true) ->
      (seen s < Node.counter (watch s)
       /\ forall t, refreshing (tip_step poll_fallback poll_interval s (t, TakeSignal)) = Some (BySignal, t))
      \/ exists tpl, current_template (engine s) = Some tpl
                     /\ stratum_prev_hash (tip (clock s)) = Ok (t_prev_hash tpl)).
Proof.
  intros s0 s Hne Hback Hh Hlast. split.
  { apply (tick_due_run _ _ tip); [done|]. cbn. unfold NTIME_REFRESH, NANOS. lia. }
  intros Hidle start Hat.
  destruct (tip_inv_run poll_fallback poll_interval tip evs s0 (tip_inv_new _ _ _ _) Hh) as [_ Hs _ Ho Ha].
  fold s in Hs, Ho, Ha. destruct Hs as [Hs|(ta & Hta & Htip & Hv)]; [by rewrite Hlast in Hs; destruct (Hne _ Hs)|].
  destruct Hv as [Hp|[(c & st & E & _)|(st & m & E & Hst)]]; [left|congruence|right].
  - split; [done|]. intros t. cbn [tip_step]. rewrite Hidle. apply Z.ltb_lt in Hp. by rewrite Hp.
  - rewrite Hat in E. injection E as <- <-. destruct (Ha start Hat) as (tpl & tb & Hc & Htb & Hprev).
    exists tpl. split; [done|].
    rewrite Hlast in Htip. assert (tip tb = tip ta) as E by (apply (Hback ta tb (clock s)); [lia | done]).
    by rewrite <- Htip, <- E.
Qed.

(** A dead ZMQ socket: the poller announces the node's new block. *)
Definition demo_tip (t : Instant) : string := hex_text (repeat (if t <? 5 * NANOS then x01 else x02) 32).
Definition demo_gbt_of (t : Instant) : GbtResult :=
  mkGbtResult 0x20000000 (demo_tip t) "1d00ffff" 1700000000 900000 312500000 [] None None ["csv"] 0.
Definition demo_tip_events : list (Instant * TipEvent) :=
  [(0, ZmqFailed); (1, Polled (Ok (demo_tip 1))); (2, Refreshed (Ok (demo_gbt_of 2)) 0); (3, TakeSignal);
   (4, Refreshed (Ok (demo_gbt_of 4)) 0); (6 * NANOS, Polled (Ok (demo_tip (6 * NANOS))));
   (6 * NANOS, TakeSignal); (7 * NANOS, Refreshed (Ok (demo_gbt_of (7 * NANOS))) 7)].

Lemma no_tip_change_is_missed_witness :
  let s := @tip_run toy_sha256 hex_codec toy_libm true NANOS (tasks_new true NANOS 0) demo_tip_events in
  current_template (engine s) <> None /\ seen s = Node.counter (watch s)
  /\ exists tpl, current_template (engine s) = Some tpl
                 /\ stratum_prev_hash (demo_tip (clock s)) = Ok (t_prev_hash tpl).
Proof.
  intros s.
  destruct (@no_tip_change_is_missed toy_sha256 hex_codec toy_libm demo_tip true true NANOS 0 demo_tip_events)
    as [_ Hs].
  - intros t. unfold demo_tip. destruct (t <? _); done.
  - intros t1 t2 t3 Ht. unfold demo_tip. destruct (Z.ltb_spec t1 (5 * NANOS)), (Z.ltb_spec t2 (5 * NANOS)),
      (Z.ltb_spec t3 (5 * NANOS)); (done || lia).
  - repeat split; try (apply Z.leb_le; vm_compute; reflexivity); [exists 1| | |exists (6 * NANOS)|].
    all: try (intros c st E; vm_compute in E; injection E as <- <-).
    2: exists 2. 3: exists 4. 5: exists (7 * NANOS).
    all: split; [split; apply Z.leb_le; vm_compute; reflexivity | reflexivity].
  - vm_compute. reflexivity.
  - split; [vm_compute; discriminate|]. split; [vm_compute; reflexivity|].
    destruct (Hs ltac:(vm_compute; reflexivity) (6 * NANOS) ltac:(vm_compute; reflexivity)) as [[Hp _]|Ht].
    + exfalso. revert Hp. vm_compute. discriminate.
    + exact Ht.
Defined.

End Tip.
