(* ===== verification/NodeClient.v ===== *)
(** * NodeClient: the calls on the node ([src/bitcoin/rpc.rs], the archive of
    [src/mining/engine.rs])

    Every method of [RpcClient] as the closure it runs under [call_with_refresh],
    on a connection described by its URL, timeout and credentials.  The transport
    and the node behind it are a class: what each request answers, in a world that
    also holds the cookie file.  The last lemma puts the client under the engine's
    retry ladder: a block found while the node is down is submitted to the node
    that comes back with another cookie. *)
From S2P Require Import Prelude Text F64 Host Json Errors Interfaces Rpc Hashrate Vardiff Stats Security Config.
From S2P Require Import ConfigLoad Template Engine Node.
Import Host Rpc Config Engine.

Module NodeClient.

(** ** Connections *)

(** What [build_client] gives the transport: the URL, the timeout in seconds and
    the basic credentials. *)
Record Conn := mkConn {
  conn_url : string;
  conn_timeout : Z;
  conn_auth : option (string * string)
}.

(** The library below: which URLs the transport takes, how a block hash is
    written, what each request answers and the files of the host. *)
Class NodeServer (W : Type) := {
  url_ok : string -> bool;
  block_hash_of_str : string -> option string;
  request : Conn -> string -> list Value -> W -> result RpcError Value * W;
  get_best_block_hash : Conn -> W -> result RpcError string * W;
  get_block_confirmations : Conn -> string -> W -> result RpcError Z * W;
  get_block_count : Conn -> W -> result RpcError Z * W;
  get_block_hash : Conn -> Z -> W -> result RpcError string * W;
  get_block_time : Conn -> string -> W -> result RpcError Z * W;
  get_network_hash_ps : Conn -> option Z -> option Z -> W -> result RpcError f64 * W;
  host_files : W -> Fs;
  cookie_fault : W -> bool;
  home_dir : option string
}.

Record RpcClient := mkRpcClient { cfg : RpcConfig; state : @Inner Conn }.

(** [build_client] with [Auth::UserPass]. *)
Definition build_client `{NodeServer W} (c : RpcConfig) (auth : string * string) : result string Conn :=
  if url_ok (Config.url c) then Ok (mkConn (Config.url c) (Config.timeout_secs c) (Some auth))
  else Err "invalid RPC url".

Section Client.
Context `{N : NodeServer W}.

(** [cfg.read_cookie()] as the world stands. *)
Definition cookie_now (c : RpcConfig) (w : W) : option (string * string) :=
  ConfigLoad.read_cookie (host_files w) (cookie_fault w) home_dir c.

(** [RpcClient::new]. *)
Definition rpc_client_new (c : RpcConfig) (w : W) : result string RpcClient :=
  auth ← ConfigLoad.rpc_auth (host_files w) (cookie_fault w) home_dir c;
  client ← build_client c auth;
  Ok (mkRpcClient c (mkInner client (cookie_now c w))).

(** A closure run by a method, and one request of it as a step of the closure. *)
Definition Call (T : Type) : Type := Conn -> W -> result PoolError T * W.

Definition map_rpc {T} (f : Conn -> W -> result RpcError T * W) : Call T := fun c w =>
  let '(r, w1) := f c w in (match r with Ok v => Ok v | Err e => Err (Rpc e) end, w1).

Definition then_ {T U} (f : Call T) (k : T -> Call U) : Call U := fun c w =>
  match f c w with
  | (Ok v, w1) => k v c w1
  | (Err e, w1) => (Err e, w1)
  end.

Definition give {T} (r : result PoolError T) : Call T := fun _ w => (r, w).

(** [call_with_refresh], which looks at the cookie file after the failed try. *)
Definition refresh_call {T} (f : Call T) (r : RpcClient) (w : W) : result PoolError T * RpcClient * W :=
  let w1 := (f (client (state r)) w).2 in
  let '(v, st, w') := call_with_refresh (build_client (cfg r)) f (cookie_now (cfg r) w1) (state r) w in
  (v, mkRpcClient (cfg r) st, w').

(** What a method does with the value of its call. *)
Definition after_call {T U} (k : T -> result PoolError U) (x : result PoolError T * RpcClient * W)
  : result PoolError U * RpcClient * W :=
  let '(v, r, w) := x in (match v with Ok a => k a | Err e => Err e end, r, w).

(** ** Methods *)
Definition chain_blocking (r : RpcClient) (w : W) :=
  after_call Node.chain_of_value (refresh_call (map_rpc (fun c => request c "getblockchaininfo" [])) r w).

Definition network_info_blocking (r : RpcClient) (w : W) :=
  after_call Node.network_info_of_value (refresh_call (map_rpc (fun c => request c "getnetworkinfo" [])) r w).

Definition gbt_request : Value :=
  VObject [("rules", VArray [VString "segwit"]);
           ("capabilities", VArray [VString "coinbasetxn"; VString "workid"])].

Definition get_block_template_blocking `{HexCodec} (r : RpcClient) (w : W) :=
  after_call gbt_of_value (refresh_call (map_rpc (fun c => request c "getblocktemplate" [gbt_request])) r w).

Definition submit_call (block_hex : string) : Call Value :=
  map_rpc (fun c => request c "submitblock" [VString block_hex]).
Definition submit_block_blocking (block_hex : string) (r : RpcClient) (w : W) :=
  after_call classify_submit_response (refresh_call (submit_call block_hex) r w).

Definition best_block_hash_blocking (r : RpcClient) (w : W) :=
  refresh_call (map_rpc get_best_block_hash) r w.

(** The header is asked first; an unknown hash is an answer, and then the tip is
    not asked. *)
Definition position_call (hash : string) : Call BlockChainPosition := fun c w =>
  match get_block_confirmations c hash w with
  | (Ok confirmations, w1) =>
      let '(tip, w2) := get_block_count c w1 in (block_chain_position (Ok confirmations) tip, w2)
  | (Err e, w1) => (block_chain_position (Err e) (Err e), w1)
  end.

Definition block_chain_position_blocking (hash_hex : string) (r : RpcClient) (w : W) :=
  match block_hash_of_str hash_hex with
  | None => (Err (Other ("not a block hash: " +:+ hash_hex)), r, w)
  | Some hash => refresh_call (position_call hash) r w
  end.

Definition network_hashrate_blocking (blocks height : option Z) (r : RpcClient) (w : W) :=
  refresh_call (map_rpc (fun c => get_network_hash_ps c blocks height)) r w.

(** The round trips of the difficulty estimate, in the order of the closure;
    [difficulty_estimate_bounded] shows that the clamp does not panic. *)
Definition estimate_call : Call f64 :=
  then_ (map_rpc get_block_count) (fun height =>
  if height mod 2016 =? 0 then give (Ok fnan)
  else
    then_ (map_rpc (fun c => get_block_hash c height)) (fun tip_hash =>
    then_ (map_rpc (fun c => get_block_hash c (height - height mod 2016))) (fun start_hash =>
    then_ (map_rpc (fun c => get_block_time c tip_hash)) (fun tip_time =>
    then_ (map_rpc (fun c => get_block_time c start_hash)) (fun start_time =>
    give (default (Err (Other "difficulty estimate RPC task panicked"))
            (Node.estimate_difficulty_change_pct (Ok height) (Ok tip_time) (Ok start_time)))))))).

Definition estimate_blocking (r : RpcClient) (w : W) := refresh_call estimate_call r w.
End Client.

(** [spawn_rpc]: a task that panicked is an error of its own. *)
Definition spawn_rpc {T} (what : string) (task : option (result PoolError T)) : result PoolError T :=
  match task with
  | Some r => r
  | None => Err (Other (what +:+ " RPC task panicked"))
  end.

(** ** The asynchronous methods

    Each runs its blocking twin on the blocking pool; a panic there leaves the client
    and the world as they were at that moment. *)
Section Async.
Context `{N : NodeServer W}.
Variable panicked : option (RpcClient * W).

Definition spawn_blocking {T} (what : string) (task : RpcClient -> W -> result PoolError T * RpcClient * W)
    (r : RpcClient) (w : W) : result PoolError T * RpcClient * W :=
  match panicked with
  | Some (r', w') => (spawn_rpc what None, r', w')
  | None => let '(v, r1, w1) := task r w in (spawn_rpc what (Some v), r1, w1)
  end.

Definition chain := spawn_blocking "getblockchaininfo" chain_blocking.
Definition network_info := spawn_blocking "getnetworkinfo" network_info_blocking.
Definition get_block_template `{HexCodec} := spawn_blocking "getblocktemplate" get_block_template_blocking.
Definition submit_block (block_hex : string) := spawn_blocking "submitblock" (submit_block_blocking block_hex).
Definition best_block_hash := spawn_blocking "getbestblockhash" best_block_hash_blocking.
Definition block_chain_position (hash_hex : string) :=
  spawn_blocking "getblockheader" (block_chain_position_blocking hash_hex).
Definition network_hashrate (blocks height : option Z) :=
  spawn_blocking "getnetworkhashps" (network_hashrate_blocking blocks height).
Definition estimate_difficulty_change_pct := spawn_blocking "difficulty estimate" estimate_blocking.

(** A submission whose task panicked is an error the ladder retries. *)
Lemma panicked_submission_retried hex r w :
  is_Some panicked -> exists e, (submit_block hex r w).1.1 = Err e /\ is_permanent_reject e = false.
Proof. intros [[r' w'] E]. unfold submit_block, spawn_blocking. rewrite E. by eexists. Qed.
End Async.


(** ** The archive of found blocks *)
Definition archive_path (dir : string) (height : Z) (hash_hex : string) : string :=
  path_join dir ("block_" +:+ pretty height +:+ "_" +:+ hash_hex +:+ ".hex").

(** What the host does: whether the directory and the file can be created, and
    how much is written when the write fails. *)
Record DiskIo := mkDiskIo { dir_ok : bool; file_ok : bool; written : option nat }.

(** [fs::write] truncates a file it replaces. *)
Definition archive_found_block (fs : Fs) (io : DiskIo) (mode : Z) (dir : string) (height : Z)
    (hash_hex block_hex : string) : option string * Fs :=
  let path := archive_path dir height hash_hex in
  if negb (dir_ok io && file_ok io) then (None, fs)
  else match written io with
       | Some n => (None, <[path := mkFile (take n (string_bytes block_hex)) mode]> fs)
       | None => (Some path, <[path := mkFile (string_bytes block_hex) mode]> fs)
       end.

(** An archive that succeeded holds the block, readable by hand. *)
Lemma archive_reads_back fs io mode dir height hash hex path fs' :
  archive_found_block fs io mode dir height hash hex = (Some path, fs') ->
  path = archive_path dir height hash /\ fs' !! path = Some (mkFile (string_bytes hex) mode)
  /\ (valid_utf8 (string_bytes hex) = true -> read_to_string fs' path false = Ok hex).
Proof.
  unfold archive_found_block. destruct (negb _); [done|]. destruct (written io); [done|].
  intros [= <- <-]. rewrite lookup_insert_eq. split; [done|]. split; [done|]. intros Hv.
  unfold read_to_string. rewrite lookup_insert_eq. cbn. by rewrite Hv, bytes_string_bytes.
Qed.

(** ** A node that restarts *)
Section Restarts.
Context `{N : NodeServer W}.
Variable hex : string.

(** The credentials a connection presents. *)
Definition presents (c : Conn) (k : string * string) : bool := bool_decide (conn_auth c = Some k).

(** A client that authenticates with the cookie it remembers. *)
Definition by_cookie (r : RpcClient) : Prop :=
  exists k, cookie (state r) = Some k /\ build_client (cfg r) k = Ok (client (state r)).

(** Nobody answers [submitblock] in [w]: every try is a transport error, also
    the second one. *)
Definition down (w : W) : Prop :=
  forall c, exists e w1, submit_call hex c w = (Err (Rpc e), w1)
            /\ forall c', exists e' w2, submit_call hex c' w1 = (Err (Rpc e'), w2).

(** The node is up in [w] and takes the credentials [k], which its cookie file
    holds; the others are refused; to those it answers [v]. *)
Record up (c : RpcConfig) (k : string * string) (v : Value) (w : W) : Prop := {
  up_url : url_ok (Config.url c) = true;
  up_answers : forall conn, presents conn k = true -> exists w1, submit_call hex conn w = (Ok v, w1);
  up_refuses : forall conn, presents conn k = false ->
    exists e w1, submit_call hex conn w = (Err e, w1) /\ cookie_now c w1 = Some k
    /\ forall conn', presents conn' k = true -> exists w2, submit_call hex conn' w1 = (Ok v, w2)
}.

Lemma by_cookie_new c w r k :
  cookie_now c w = Some k -> rpc_client_new c w = Ok r -> by_cookie r.
Proof.
  unfold rpc_client_new, ConfigLoad.rpc_auth, cookie_now. intros Hk. rewrite Hk. cbn.
  destruct (build_client c k) as [cl|] eqn:E; [|done]. cbn. intros [= <-]. by exists k.
Qed.

Lemma presents_own r : by_cookie r -> exists k, cookie (state r) = Some k /\ conn_auth (client (state r)) = Some k.
Proof.
  intros (k & Hk & Hb). exists k. split; [done|]. unfold build_client in Hb.
  destruct (url_ok _); [|done]. by injection Hb as <-.
Qed.

(** The client stays what it was, whatever it calls. *)
Lemma by_cookie_call {T} (f : Call T) r w : by_cookie r ->
  let y := refresh_call f r w in by_cookie y.1.2 /\ cfg y.1.2 = cfg r.
Proof.
  intros Hr. unfold refresh_call, call_with_refresh. cbv zeta.
  destruct (f (client (state r)) w) as [[v|e] w1]; cbn [fst snd]; [by destruct r|].
  destruct (cookie_now (cfg r) w1) as [k|]; cbn; [|by destruct r].
  case_bool_decide; cbn; [by destruct r|].
  destruct (build_client (cfg r) k) as [c|m] eqn:Eb; cbn; [|by destruct r].
  destruct (f c w1). cbn. split; [|done]. by exists k.
Qed.

(** Down, the answer is an error worth retrying. *)
Lemma submit_down r w : down w ->
  exists e, (submit_block_blocking hex r w).1.1 = Err e /\ is_permanent_reject e = false.
Proof.
  intros Hd. unfold submit_block_blocking, after_call, refresh_call, call_with_refresh. cbv zeta.
  destruct (Hd (client (state r))) as (e & w1 & E & Hd1). rewrite E. cbn [fst snd].
  destruct (cookie_now (cfg r) w1) as [k|]; [|by eexists].
  case_bool_decide; [by eexists|]. destruct (build_client (cfg r) k) as [c|m]; [|by eexists].
  destruct (Hd1 c) as (e' & w2 & E'). rewrite E'. by eexists.
Qed.

(** Up, it is the node's, whichever cookie the client was built with. *)
Lemma submit_up r w k v : by_cookie r -> up (cfg r) k v w ->
  (submit_block_blocking hex r w).1.1 = classify_submit_response v.
Proof.
  intros Hr [Hu Ha Hf]. unfold submit_block_blocking, after_call, refresh_call, call_with_refresh. cbv zeta.
  destruct (presents_own r Hr) as (k0 & Hk0 & Hc0).
  destruct (presents (client (state r)) k) eqn:Ep.
  - destruct (Ha _ Ep) as [w1 E]. by rewrite E.
  - destruct (Hf _ Ep) as (e & w1 & E & Hk & Hn). rewrite E. cbn [fst snd]. rewrite Hk, Hk0.
    rewrite bool_decide_false.
    2:{ intros [= ->]. unfold presents in Ep. by rewrite Hc0, bool_decide_true in Ep. }
    unfold build_client. rewrite Hu.
    destruct (Hn (mkConn (Config.url (cfg r)) (Config.timeout_secs (cfg r)) (Some k))) as [w2 E2];
      [by apply bool_decide_true|]. by rewrite E2.
Qed.

(** ** The retry ladder on this client *)

(** What happens to the client and the world between two attempts: other calls,
    the node, the host. *)
Variable between : nat -> RpcClient * W -> RpcClient * W.

Fixpoint before_attempt (start : RpcClient * W) (k : nat) : RpcClient * W :=
  match k with
  | O => start
  | S k' => let x := before_attempt start k' in
            let y := submit_block_blocking hex x.1 x.2 in
            between k' (y.1.2, y.2)
  end.

(** The answer to the [k]-th attempt, from 1, as the ladder counts them. *)
Definition attempt (start : RpcClient * W) (k : nat) : result PoolError BlockSubmitOutcome :=
  let x := before_attempt start (k - 1) in (submit_block_blocking hex x.1 x.2).1.1.

Lemma before_attempt_by_cookie start k :
  (forall i x, by_cookie x.1 -> by_cookie (between i x).1 /\ cfg (between i x).1 = cfg x.1) ->
  by_cookie start.1 -> let x := before_attempt start k in by_cookie x.1 /\ cfg x.1 = cfg start.1.
Proof.
  intros Hb Hs. induction k as [|k IH]; [done|]. cbn [before_attempt] in *. cbv zeta in *.
  destruct IH as [Hx Hc]. set (x := before_attempt start k) in *.
  assert (by_cookie (submit_block_blocking hex x.1 x.2).1.2
          /\ cfg (submit_block_blocking hex x.1 x.2).1.2 = cfg x.1) as [Hy Hcy].
  { pose proof (by_cookie_call (submit_call hex) x.1 x.2 Hx) as E. cbv zeta in E.
    unfold submit_block_blocking, after_call. by destruct (refresh_call _ _ _) as [[v r] w]. }
  destruct (Hb k ((submit_block_blocking hex x.1 x.2).1.2, (submit_block_blocking hex x.1 x.2).2) Hy) as [Hz Hcz].
  split; [done|]. rewrite Hcz. cbn [fst]. congruence.
Qed.
End Restarts.

(** ** Properties *)

(** A found block survives a restart of the node. The client authenticates
    with the cookie file; the node is down at every attempt before the [j]-th and
    up at that one, perhaps with another cookie than the client was built with, and
    it then answers with the outcome [o]. If that attempt is one of the three
    in-line ones or begins within two hours, [o] is what the pool records for the
    block; whatever else uses the client, or happens to the node, in between. *)
Lemma found_block_survives_node_restart `{N : NodeServer W} (hex : string)
    (between : nat -> RpcClient * W -> RpcClient * W) (start : RpcClient * W) (clock : nat -> Instant)
    (spawned_at : Instant) (j : nat) (k : string * string) (v : Value) (o : BlockSubmitOutcome) :
  by_cookie start.1 ->
  (forall i x, by_cookie x.1 -> by_cookie (between i x).1 /\ cfg (between i x).1 = cfg x.1) ->
  (forall i, clock i + SUBMIT_RETRY_INTERVAL <= clock (S i)) -> spawned_at <= clock 3%nat ->
  (1 <= j)%nat ->
  (forall i, (i < j - 1)%nat -> down hex (before_attempt hex between start i).2) ->
  up hex (cfg start.1) k v (before_attempt hex between start (j - 1)).2 ->
  classify_submit_response v = Ok o ->
  ((j <= 3)%nat \/ clock (j - 1)%nat < spawned_at + SUBMIT_RETRY_DEADLINE) ->
  o ∈ recorded_outcomes (attempt hex between start) clock spawned_at.
Proof.
  intros Hr Hb Hc Hs Hj Hdown Hup Ho Hd.
  apply (recorded_first_answer _ _ _ j); try done.
  - destruct (before_attempt_by_cookie hex between start (j - 1) Hb Hr) as [Hx Hcx].
    unfold attempt. cbv zeta. rewrite (submit_up hex _ _ k v Hx); [done|]. by rewrite Hcx.
  - intros i Hi. unfold transient, attempt. cbv zeta. apply submit_down, Hdown. lia.
Qed.

(** A node with its cookie, or down; the host's only file is the cookie. *)
Definition demo_request (c : Conn) (method : string) (args : list Value) (w : option (string * string))
  : result RpcError Value * option (string * string) :=
  match w with
  | Some k => (if presents c k then Ok VNull else Err (TransportError "401"), w)
  | None => (Err (TransportError "connection refused"), w)
  end.

Definition demo_cookie_file : string := "/node/.cookie".

#[local] Instance demo_server : NodeServer (option (string * string)) := {|
  url_ok _ := true;
  block_hash_of_str s := Some s;
  request := demo_request;
  get_best_block_hash _ w := (Ok "00", w);
  get_block_confirmations _ _ w := (Ok 1, w);
  get_block_count _ w := (Ok 900000, w);
  get_block_hash _ _ w := (Ok "00", w);
  get_block_time _ _ w := (Ok 0, w);
  get_network_hash_ps _ _ _ w := (Ok f0, w);
  host_files w := match w with
                  | Some (u, p) => {[ demo_cookie_file := mkFile (string_bytes (u +:+ ":" +:+ p)) 0 ]}
                  | None => ∅
                  end;
  cookie_fault _ := false;
  home_dir := None
|}.

Definition demo_cfg : RpcConfig := mkRpcConfig "http://node" (Some demo_cookie_file) None None 10.

Definition demo_client : RpcClient :=
  match rpc_client_new demo_cfg (Some ("c", "old")) with
  | Ok r => r
  | Err _ => mkRpcClient demo_cfg (mkInner (mkConn "" 0 None) None)
  end.

(** The node goes down, and is back for the sixth attempt with a new cookie. *)
Definition demo_between (i : nat) (x : RpcClient * option (string * string)) :=
  (x.1, if (i <? 4)%nat then None else Some ("c", "new")).

Lemma demo_node_down hex i : (i < 6 - 1)%nat -> down hex (before_attempt hex demo_between (demo_client, None) i).2.
Proof.
  intros Hi. do 5 (destruct i as [|i]; [intros c; do 2 eexists; split; [reflexivity|]; intros c';
    do 2 eexists; reflexivity|]). lia.
Qed.

Lemma demo_node_up hex :
  up hex (cfg demo_client) ("c", "new") VNull (before_attempt hex demo_between (demo_client, None) (6 - 1)).2.
Proof.
  split; [done | |].
  - intros conn Hc. exists (Some ("c", "new")). unfold submit_call, map_rpc. cbn. by rewrite Hc.
  - intros conn Hc. exists (Rpc (TransportError "401")), (Some ("c", "new")).
    split; [unfold submit_call, map_rpc; cbn; by rewrite Hc|]. split; [vm_compute; reflexivity|].
    intros conn' Hc'. exists (Some ("c", "new")). unfold submit_call, map_rpc. cbn. by rewrite Hc'.
Qed.

Lemma demo_by_cookie : by_cookie demo_client.
Proof. exists ("c", "old"). split; vm_compute; reflexivity. Qed.

End NodeClient.
