(* ===== verification/Winning.v ===== *)
(** * Winning: a share that is also a block, end to end

    The submit handlers of both protocols ([src/network/session.rs],
    [src/protocol/sv2/mod.rs]) over the engine's retry ladder
    ([src/mining/engine.rs]) over the RPC client ([src/bitcoin/rpc.rs]), with the
    bookkeeping of [src/mining/accounting.rs].  The handlers ask the engine through
    [submit_answer], a function of what they hand it, so that what they hand it is
    seen by letting the engine be any: the block the validator assembled.  The
    answer of an in-line attempt comes back to the handler, and the task spawned
    when all of them fail records a later one. *)
From S2P Require Import Prelude Text F64 Host Json Errors Interfaces Target Rpc Hashrate Credit.
From S2P Require Import Vardiff Stats Store Security Accounting Frame Metrics Crash Identity Template Config.
From S2P Require Import ConfigLoad Jobs Validator Engine Sv1 Session Sv2Codec Sv2Wire Sv2 Sv2Props.
From S2P Require Import Node NodeClient.
Import Host Rpc Stats Security Accounting Identity Template Jobs Validator Engine Sv1 Session NodeClient.

Module Winning.

(** What is kept of a winning submission: the job it solves, the difficulty of
    its hash, the assembled block, the hash and the worker it is credited to. *)
Record Win := mkWin {
  win_job : JobEntry;
  win_difficulty : Z;
  win_hex : string;
  win_hash : bytes;
  win_worker : string
}.

Definition win_height (x : Win) : Z := j_height (job (win_job x)).
Definition win_payout (x : Win) : string := payout_address (job (win_job x)).
Definition win_key `{HexCodec} (x : Win) : string := block_hash_display (win_hash x).

(** What the handlers must hand to [submit_found_block]. *)
Definition found_of `{HexCodec} (x : Win) : FoundBlock :=
  mkFoundBlock (win_height x) (win_key x) (win_hex x) (win_worker x) (win_payout x).

(** The row of the block among the pending ones. *)
Definition win_block `{HexCodec} (x : Win) (o : BlockSubmitOutcome) (t : Z) : PendingBlock :=
  mkPendingBlock (win_key x) (win_height x) (win_worker x) (win_payout x) t (is_win o).

Section Task.
Context `{HexCodec} `{Libm}.

(** The node's answer to the [k]-th submission of a text. *)
Variable node : string -> nat -> result PoolError BlockSubmitOutcome.
Variable clock : nat -> Instant.
Variable spawned_at : Instant.

(** The method of the engine, on this node: the answer, and whether the task is
    spawned. *)
Definition engine_submit (b : FoundBlock) : result PoolError BlockSubmitOutcome * bool :=
  submit_found_block (node (fb_hex b)).

(** [spawn_resubmit_task]: spawned when the in-line attempts all failed, it
    records the outcome of the first attempt the node answers. *)
Definition spawn_resubmit_task (st : PoolStats) (b : FoundBlock) (now1 now2 : Z) : PoolStats :=
  match resubmit (node (fb_hex b)) clock RESUBMIT_FUEL SUBMIT_INLINE_ATTEMPTS
          (spawned_at + SUBMIT_RETRY_DEADLINE) with
  | Some (Some o) =>
      record_block_outcome st o (fb_height b) (fb_worker b) (fb_payout b) (fb_hash b) now1 now2
  | _ => st
  end.

(** What the handler books of an answer. *)
Definition record_answer (a : result PoolError BlockSubmitOutcome) (st : PoolStats) (x : Win)
    (now1 now2 : Z) : PoolStats :=
  match a with
  | Ok o => record_block_outcome st o (win_height x) (win_worker x) (win_payout x) (win_key x) now1 now2
  | Err _ => st
  end.

Lemma record_outcome_pending st x o now1 now2 :
  pending_blocks (blocks st) !! win_key x = None ->
  pending_blocks (blocks (record_block_outcome st o (win_height x) (win_worker x) (win_payout x)
                            (win_key x) now1 now2)) !! win_key x
  = Some (win_block x o now2).
Proof.
  intros Hn. pose proof (f_equal Metrics.ty_pending (Metrics.tally_outcome st o (win_height x)
    (win_worker x) (win_payout x) (win_key x) now1 now2)) as E.
  cbn [Metrics.ty_pending Metrics.tally] in E. rewrite E, Hn. apply lookup_insert_eq.
Qed.

Lemma inline_Ok_not_spawned answers left k le o b : inline_attempts answers left k le = (Ok o, b) -> b = false.
Proof.
  revert k le; induction left as [|l IH]; intros k le; cbn [inline_attempts]; [done|].
  destruct (answers k) as [o'|e]; [by intros [= _ <-]|]. destruct (is_permanent_reject e); [done|apply IH].
Qed.

Variable by_difficulty : gmap string Z -> list (string * Z).

(** What the books come to once the task is done, after other operations: those
    of every other session and task. *)
Definition settle (st : PoolStats) (ops : list Crash.LifeOp) (b : FoundBlock) (now1 now2 : Z) : PoolStats :=
  if (engine_submit b).2
  then spawn_resubmit_task (foldl (Crash.life_step by_difficulty) st ops) b now1 now2
  else st.

(** No other operation makes up a row for a hash it does not report. *)
Lemma life_keeps_absent st op (h : string) :
  h ∉ Crash.reported op -> pending_blocks (blocks st) !! h = None ->
  pending_blocks (blocks (Crash.life_step by_difficulty st op)) !! h = None.
Proof.
  intros Hr Hn.
  assert (forall st', Frame.framed blocks Crash.off_blocks st st' -> pending_blocks (blocks st') !! h = None) as Hf
    by (intros st' [-> _]; done).
  destruct op as [op| | | | | |]; try by apply Hf, Crash.steady_life. cbn [Crash.life_step].
  destruct op as [sid w c hd tick now1 now2|g w r now|w|o height w payout hash now1 now2|hash r now
                 |w vd now|w|now|now]; cbn [Metrics.metered_step fst]; try by apply Hf.
  - apply Hf, Crash.steady_accepted.
  - apply Hf, Crash.steady_rejected.
  - apply Hf. by apply Frame.framed_frame.
  - pose proof (f_equal Metrics.ty_pending (Metrics.tally_outcome st o height w payout hash now1 now2)) as E.
    cbn [Metrics.ty_pending Metrics.tally] in E. rewrite E. destruct (_ !! hash); [done|].
    rewrite lookup_insert_ne; [done|]. cbn in Hr. set_solver.
  - destruct (pending_blocks (blocks st) !! hash) as [b|]; [|done].
    unfold Metrics.metered_resolution, record_block_resolution, resolve_block. cbn [fst].
    destruct (pending_blocks (blocks st) !! pb_hash b); [|done].
    destruct (won_at_submit b), r; cbn; by rewrite lookup_delete_None; right.
  - apply Hf, Crash.steady_online.
  - apply Hf. by apply Frame.framed_frame.
  - apply Hf, Crash.steady_tick.
  - apply Hf, Crash.steady_checkpoint.
Qed.

Lemma life_run_absent ops st (h : string) :
  Forall (fun op => h ∉ Crash.reported op) ops -> pending_blocks (blocks st) !! h = None ->
  pending_blocks (blocks (foldl (Crash.life_step by_difficulty) st ops)) !! h = None.
Proof.
  intros HF. revert st. induction HF as [|op ops Hop _ IH]; intros st Hn; [done|].
  by apply IH, life_keeps_absent.
Qed.

(** A recorded outcome reaches the pending blocks, by the handler or by the task,
    whatever the rest of the pool does between the two. *)
Lemma outcome_is_enrolled st x ops o now1 now2 now3 now4 :
  Forall (fun op => win_key x ∉ Crash.reported op) ops ->
  pending_blocks (blocks st) !! win_key x = None ->
  o ∈ recorded_outcomes (node (win_hex x)) clock spawned_at ->
  exists t, pending_blocks (blocks (settle (record_answer (engine_submit (found_of x)).1 st x now1 now2) ops
                                      (found_of x) now3 now4)) !! win_key x
            = Some (win_block x o t).
Proof.
  intros Hl Hn Ho. unfold recorded_outcomes in Ho. unfold settle, spawn_resubmit_task, engine_submit.
  cbn [found_of fb_hex fb_height fb_worker fb_payout fb_hash].
  destruct (submit_found_block (node (win_hex x))) as [[o'|e] spawned] eqn:E; cbn [fst snd record_answer].
  - apply list_elem_of_singleton in Ho as ->. rewrite (inline_Ok_not_spawned _ _ _ _ _ _ E).
    exists now2. by apply record_outcome_pending.
  - destruct spawned; [|by apply not_elem_of_nil in Ho].
    destruct (resubmit _ _ _ _ _) as [[o'|]|]; try by apply not_elem_of_nil in Ho.
    apply list_elem_of_singleton in Ho as ->. exists now4.
    by apply record_outcome_pending, life_run_absent.
Qed.
End Task.

(** ** The handlers of the two protocols *)
Section Handlers.
Context `{Sha256} `{HexCodec} `{TxCodec} `{AddressCodec} `{Libm} `{Sv2Codec.BinarySv2}.

(** The submission [p] names a live job of an authorised session, is no
    duplicate, and the validator finds a block in it. *)
Record v1_wins (s : Session) (p : SubmitParams) (env : Env) (x : Win) : Prop := {
  v1_authorized : authorized (proto s) = true;
  v1_as : worker (ident s) = Some (sub_worker p);
  v1_job : find_job (issued_jobs s) (sub_job_id p) = Some (win_job x);
  v1_new : contains (share_set s) (share_key_of p) = false;
  v1_joins : validation_joins env = true;
  v1_block : validate_share_no_dedup (share_params_of s p) (job (win_job x)) (win_job x) (extranonce1 s)
               (Vardiff.min_difficulty (vardiff_cfg s)) (unix_clock env)
             = Ok (Block (win_difficulty x) (win_hex x) (win_hash x));
  v1_credited : default (sub_worker p) (stats_worker s) = win_worker x
}.

Record v2_wins (s : Sv2.Sv2Session) (payload : bytes) (m : Sv2Wire.SubmitExtended) (env : Env) (x : Win) : Prop := {
  v2_open : Sv2.channel_open (Sv2.chan s) = true;
  v2_decodes : Sv2Wire.decode_submit_extended payload = Some m;
  v2_width : length (Sv2Wire.se_extranonce m) = Sv2.extranonce_size (Sv2.chan s);
  v2_job : Sv2.resolve_job s (Sv2Wire.se_job_id m) = Some (win_job x);
  v2_new : contains (Sv2.share_set s) (Sv2.share_key_of (job (win_job x)) m) = false;
  v2_joins : validation_joins env = true;
  v2_block : validate_share_no_dedup (Sv2.share_params_of (job (win_job x)) m) (job (win_job x)) (win_job x)
               (Sv2.extranonce_prefix (Sv2.chan s)) (Vardiff.min_difficulty (Sv2.vardiff_cfg s)) (unix_clock env)
             = Ok (Block (win_difficulty x) (win_hex x) (win_hash x));
  v2_credited : default "?" (Sv2.stats_worker s) = win_worker x
}.

(** The share is counted, and the pending blocks are left alone. *)
Definition credited (st st1 : PoolStats) : Prop :=
  shares_accepted (counters st1) = wrap64 (shares_accepted (counters st) + 1)
  /\ pending_blocks (blocks st1) = pending_blocks (blocks st).

Lemma accepted_credited st sid w c h tick now1 now2 : credited st (record_accepted st sid w c h tick now1 now2).
Proof.
  pose proof (Metrics.tally_accepted st sid w c h tick now1 now2) as E. cbv zeta in E.
  unfold Metrics.tally in E. cbn [Metrics.ty_accepted Metrics.ty_pending] in E.
  injection E as Ha _ _ _ _ _ Hp. by split.
Qed.

(** The same surroundings with another engine to ask. *)
Definition with_engine (env : Env) (engine : FoundBlock -> result PoolError BlockSubmitOutcome) : Env :=
  mkEnv (rate_now1 env) (rate_now2 env) (now env) (tick_now env) (wall1 env) (wall2 env) (wall3 env)
    (wall4 env) (unix_clock env) (fresh_job_id env) (engine_template env) engine (validation_joins env).

Lemma record_answer_accepted a st x now1 now2 :
  shares_accepted (counters (record_answer a st x now1 now2)) = shares_accepted (counters st).
Proof.
  destruct a as [o|]; [|done].
  pose proof (f_equal Metrics.ty_accepted (Metrics.tally_outcome st o (win_height x) (win_worker x)
    (win_payout x) (win_key x) now1 now2)) as E.
  cbn [Metrics.ty_accepted Metrics.tally] in E. exact E.
Qed.

(** The handlers ask about the block the validator assembled, whatever the
    engine would have said of any other. *)
Lemma v1_win_step s st req p env x : v1_wins s p env x ->
  exists s' st1, credited st st1
    /\ forall engine, handle_submit s st req p (with_engine env engine)
         = (Messages [resp_ok (req_id req) (VBool true)], s',
            record_answer (engine (found_of x)) st1 x (wall3 env) (wall4 env)).
Proof.
  intros [Ha Hw Hf Hc Hj Hv Hd]. unfold handle_submit.
  rewrite Ha, Hw, bool_decide_false by (intros Hne; by apply Hne). cbn [negb orb].
  rewrite Hf, Hc, Hd. cbn [validation_joins with_engine unix_clock]. rewrite Hj, Hv. cbn [negb is_ok].
  unfold accept_share, record_answer, win_height, win_payout, win_key.
  cbn [now tick_now wall1 wall2 wall3 wall4 submit_answer with_engine].
  destruct (Credit.credit _ _ _ _ _) as [worth c].
  do 2 eexists. split; [|intros engine; unfold found_of, win_height, win_payout, win_key;
    destruct (engine _); reflexivity]. apply accepted_credited.
Qed.

Lemma v2_win_step s st w payload m env x : v2_wins s payload m env x ->
  exists s' st1, credited st st1
    /\ forall engine, Sv2.handle_submit s st w payload (with_engine env engine)
         = Sv2.accept s' (record_answer (engine (found_of x)) st1 x (wall3 env) (wall4 env)) w
             (Sv2Wire.sequence_number m).
Proof.
  intros [Ho Hm Hl Hr Hc Hj Hv Hd]. unfold Sv2.handle_submit. rewrite Ho, Hm. cbn [negb].
  rewrite bool_decide_true by done. cbn [negb]. rewrite Hr, Hc, Hd.
  cbn [validation_joins with_engine unix_clock]. rewrite Hj, Hv. cbn [negb is_ok].
  unfold Sv2.accept_share, record_answer, win_height, win_payout, win_key.
  cbn [now tick_now wall1 wall2 wall3 wall4 submit_answer with_engine].
  destruct (Credit.credit _ _ _ _ _) as [worth c].
  do 2 eexists. split; [|intros engine; unfold found_of, win_height, win_payout, win_key;
    destruct (engine _); reflexivity]. apply accepted_credited.
Qed.
End Handlers.

(** The block is among those awaiting confirmation, with its outcome. *)
Definition enrolled `{HexCodec} (st : PoolStats) (x : Win) (o : BlockSubmitOutcome) : Prop :=
  exists t, pending_blocks (blocks st) !! win_key x = Some (win_block x o t).

(** What must be so of the books [book] makes of an answer of the engine: one
    share more whatever the answer; and, on the node given, the block enrolled. *)
Definition booked `{HexCodec} `{Libm} (node : string -> nat -> result PoolError BlockSubmitOutcome)
    (clock : nat -> Instant) (spawned_at : Instant) (by_difficulty : gmap string Z -> list (string * Z))
    (st : PoolStats) (x : Win) (o : BlockSubmitOutcome)
    (book : result PoolError BlockSubmitOutcome -> PoolStats) : Prop :=
  (forall a, shares_accepted (counters (book a)) = wrap64 (shares_accepted (counters st) + 1))
  /\ forall ops now1 now2, Forall (fun op => win_key x ∉ Crash.reported op) ops ->
     enrolled (settle node clock spawned_at by_difficulty (book (engine_submit node (found_of x)).1) ops
                 (found_of x) now1 now2) x o.

Lemma answers_are_booked `{HexCodec} `{Libm} node clock spawned_at by_difficulty st st1 x o now1 now2 :
  pending_blocks (blocks st) !! win_key x = None -> credited st st1 ->
  o ∈ recorded_outcomes (node (win_hex x)) clock spawned_at ->
  booked node clock spawned_at by_difficulty st x o (fun a => record_answer a st1 x now1 now2).
Proof.
  intros Hn [Ha Hp] Ho. split; [intros a; by rewrite record_answer_accepted|].
  intros ops now3 now4 Hops. apply outcome_is_enrolled; [done | by rewrite Hp | done].
Qed.

(** ** Properties *)

(** C32. A winning share reaches the chain and the books.  A submission, of either
    protocol, in which the validator finds a block is answered with acceptance and
    counted as one share, whatever the engine answers, the node being down
    included; and what the handler hands to the engine is the very text the
    validator assembled, with the block's hash, height, worker and payout address:
    whatever the engine, the books depend on it through its answer to that alone.
    On a pool that authenticates with the node's cookie file: if the node is down
    at every attempt to submit that text before the [j]-th and up at that one (with
    another cookie perhaps, and with the outcome [o]), and that attempt is in-line
    or begins within two hours, then the block stands among those awaiting
    confirmation with that outcome, under its own hash, height, worker and payout
    address, once the handler or the spawned task has booked it; whatever
    operations the pool goes through while the task waits, short of another report
    of the same hash.  (Provided no row of that hash was there before the share.) *)
Theorem winning_share_is_never_lost `{Sha256} `{HexCodec} `{TxCodec} `{AddressCodec} `{Libm} `{Sv2Codec.BinarySv2}
    `{N : NodeServer W} (x : Win) (between : nat -> RpcClient * W -> RpcClient * W)
    (start : RpcClient * W) (clock : nat -> Instant) (spawned_at : Instant) (j : nat)
    (k : string * string) (v : Value) (o : BlockSubmitOutcome)
    (by_difficulty : gmap string Z -> list (string * Z)) (st : PoolStats) :
  by_cookie start.1 ->
  (forall i y, by_cookie y.1 -> by_cookie (between i y).1 /\ cfg (between i y).1 = cfg y.1) ->
  (forall i, clock i + SUBMIT_RETRY_INTERVAL <= clock (S i)) -> spawned_at <= clock 3%nat ->
  (1 <= j)%nat ->
  (forall i, (i < j - 1)%nat -> down (win_hex x) (before_attempt (win_hex x) between start i).2) ->
  up (win_hex x) (cfg start.1) k v (before_attempt (win_hex x) between start (j - 1)).2 ->
  classify_submit_response v = Ok o ->
  ((j <= 3)%nat \/ clock (j - 1)%nat < spawned_at + SUBMIT_RETRY_DEADLINE) ->
  pending_blocks (blocks st) !! win_key x = None ->
  let node hex := attempt hex between start in
  (forall s req p env, v1_wins s p env x ->
     exists s' book,
       (forall engine, handle_submit s st req p (with_engine env engine)
          = (Messages [resp_ok (req_id req) (VBool true)], s', book (engine (found_of x))))
       /\ booked node clock spawned_at by_difficulty st x o book)
  /\ (forall s w payload m env, v2_wins s payload m env x ->
     exists s' book,
       (forall engine, Sv2.handle_submit s st w payload (with_engine env engine)
          = Sv2.accept s' (book (engine (found_of x))) w (Sv2Wire.sequence_number m))
       /\ booked node clock spawned_at by_difficulty st x o book).
Proof.
  intros Hr Hb Hc Hs Hj Hdown Hup Hv Hd Hn node.
  pose proof (found_block_survives_node_restart (win_hex x) between start clock spawned_at j k v o
    Hr Hb Hc Hs Hj Hdown Hup Hv Hd) as Ho.
  split.
  - intros s req p env Hw. destruct (v1_win_step s st req p env x Hw) as (s' & st1 & Hst & E).
    eexists s', (fun a => record_answer a st1 x _ _). split; [exact E|]. by apply answers_are_booked.
  - intros s w payload m env Hw. destruct (v2_win_step s st w payload m env x Hw) as (s' & st1 & Hst & E).
    eexists s', (fun a => record_answer a st1 x _ _). split; [exact E|]. by apply answers_are_booked.
Qed.

(** The demonstration connections with a block each, while the node is down for
    five attempts. *)
Definition demo_node (hex : string) : nat -> result PoolError BlockSubmitOutcome :=
  @attempt _ demo_server hex demo_between (demo_client, None).
Definition demo_engine (b : FoundBlock) : result PoolError BlockSubmitOutcome :=
  (engine_submit demo_node b).1.

Definition win_of (e : JobEntry) (r : ShareResult) (who : string) : Win :=
  match r with
  | Block d h b => mkWin e d h b who
  | Valid d _ b => mkWin e d EmptyString b who
  end.

Definition demo_v1 : Win := win_of demo_submit_entry demo_submit_result "bcrt1qdemo.rig".
Definition demo_v2 : Win := win_of Sv2Props.demo_job_entry Sv2Props.demo_result "bcrt1qdemo.rig".
(** Another block is reported and a share refused while the task waits. *)
Definition demo_ops : list Crash.LifeOp :=
  [Crash.Metered_ (Metrics.MOutcome Accepted 900002 "other" "bcrt1qother" "00ff" 1700000200 1700000201);
   Crash.Metered_ (Metrics.MRateLimited None); Crash.Connected].

Lemma demo_v1_wins : @v1_wins zero_sha256 hex_codec legacy_codec demo_ready (demo_submit None) (demo_env "c") demo_v1.
Proof. split; vm_compute; reflexivity. Qed.

Lemma demo_v2_wins : @v2_wins zero_sha256 hex_codec legacy_codec Sv2Codec.spec_sv2 Sv2Props.demo_s
  (Sv2Props.demo_submit 1 7) (Sv2Props.demo_share 1 7)
  (Sv2Props.demo_time (3 * NANOS) "c") demo_v2.
Proof. split; vm_compute; reflexivity. Qed.
Definition demo_clock (k : nat) : Instant := Z.of_nat k * 10 * NANOS.
Definition demo_settled (x : Win) (st : PoolStats) : PoolStats :=
  @settle toy_libm demo_node demo_clock 0 map_to_list st demo_ops (@found_of hex_codec x)
    1700000400 1700000401.

(** What the restart asks of the demonstration node. *)
Ltac demo_restart :=
  lazymatch goal with
  | |- by_cookie _ => exact demo_by_cookie
  | |- up _ _ _ _ _ => apply demo_node_up
  | |- forall i, _ -> down _ _ => apply demo_node_down
  | |- _ \/ _ => right; unfold demo_clock, SUBMIT_RETRY_DEADLINE, NANOS; lia
  | |- context [SUBMIT_RETRY_INTERVAL] => intros ?; unfold demo_clock, SUBMIT_RETRY_INTERVAL, NANOS; lia
  | |- (_ <= _)%nat => lia
  | |- _ !! _ = None => vm_compute; reflexivity
  | |- _ => done
  end.

Lemma demo_others (h : string) : h <> "00ff" -> Forall (fun op => h ∉ Crash.reported op) demo_ops.
Proof.
  intros Hh. unfold demo_ops. apply Forall_cons. split; [cbn; set_solver|].
  apply Forall_cons. split; [apply not_elem_of_nil|]. apply Forall_cons. split; [apply not_elem_of_nil | done].
Qed.

Lemma winning_share_is_never_lost_witness :
  (exists s' st', @handle_submit zero_sha256 hex_codec legacy_codec toy_libm demo_ready demo_stats demo_req
      (demo_submit None) (with_engine (demo_env "c") demo_engine)
      = (Messages [resp_ok (req_id demo_req) (VBool true)], s', st')
    /\ shares_accepted (counters st') = 1 /\ @enrolled hex_codec (demo_settled demo_v1 st') demo_v1 Accepted)
  /\ (exists s' st', @Sv2.handle_submit zero_sha256 hex_codec legacy_codec toy_libm Sv2Codec.spec_sv2
      Sv2Props.demo_s demo_stats Sv2Props.demo_w (Sv2Props.demo_submit 1 7)
      (with_engine (Sv2Props.demo_time (3 * NANOS) "c") demo_engine)
      = @Sv2.accept Sv2Codec.spec_sv2 s' st' Sv2Props.demo_w 7
    /\ shares_accepted (counters st') = 1 /\ @enrolled hex_codec (demo_settled demo_v2 st') demo_v2 Accepted).
Proof.
  split.
  - edestruct (@winning_share_is_never_lost zero_sha256 hex_codec legacy_codec demo_codec toy_libm
      Sv2Codec.spec_sv2 _ demo_server demo_v1 demo_between (demo_client, None) demo_clock 0 6 ("c", "new")
      VNull Accepted map_to_list demo_stats) as [H1 _]; [demo_restart..|].
    destruct (H1 _ demo_req _ _ demo_v1_wins) as (s' & book & E & Ha & Hb).
    exists s', (book (demo_engine (@found_of hex_codec demo_v1))). split; [exact (E demo_engine)|].
    split; [refine (eq_trans (Ha _) _); vm_compute; reflexivity|].
    refine (Hb demo_ops _ _ (demo_others _ _)). vm_compute. discriminate.
  - edestruct (@winning_share_is_never_lost zero_sha256 hex_codec legacy_codec demo_codec toy_libm
      Sv2Codec.spec_sv2 _ demo_server demo_v2 demo_between (demo_client, None) demo_clock 0 6 ("c", "new")
      VNull Accepted map_to_list demo_stats) as [_ H2]; [demo_restart..|].
    destruct (H2 _ Sv2Props.demo_w _ _ _ demo_v2_wins) as (s' & book & E & Ha & Hb).
    exists s', (book (demo_engine (@found_of hex_codec demo_v2))). split; [exact (E demo_engine)|].
    split; [refine (eq_trans (Ha _) _); vm_compute; reflexivity|].
    refine (Hb demo_ops _ _ (demo_others _ _)). vm_compute. discriminate.
Defined.
End Winning.
