(* ===== verification/Startup.v ===== *)
(** * Startup: the program as one process ([src/main.rs])

    [boot] is [main] up to the accept loop, with every way it can stop; [main_step]
    is one event of the running process, made of the connections and timers of
    [Presence] and of the tasks [main] spawns; [shutdown] is the signal's arm.
    The theorem is about a whole life of the pool: what it shows at a shutdown is
    what the next boot on the same file shows. *)
From S2P Require Import Prelude Text F64 Rounding Host Json Errors Interfaces Target Rpc Hashrate Credit.
From S2P Require Import Vardiff VardiffRange Stats Store Snapshot Security Accounting Confirm Restart Identity.
From S2P Require Import Template Config ConfigLoad Jobs Validator Engine Sv1 Session Sv2Codec Sv2Wire Sv2.
From S2P Require Import Sv2Props Presence NoPanic Lifetime Noise Node.
Import Host Rpc Sv1 Vardiff VardiffRange Stats Store Security Accounting Restart Presence NoPanic Lifetime.

Module Startup.

(** ** Boot *)

(** What one start of the process finds: the command line, the environment, the
    configuration file as parsed, the file system, whether a log file can be
    opened in a directory, the statistics file with its schema version and number of tables ([None] when
    SQLite cannot open it), the RPC client, the node's chain, the host at the
    creation of the key, whether the listening socket binds, and the clocks. *)
Record Machine := mkMachine {
  m_args : list string;
  m_vars : list (string * string);
  m_config_file : string -> result string ConfigLoad.Root;
  m_home : option string;
  m_fs : Fs;
  m_cookie_fault : bool;
  m_log_dir_ok : string -> bool;
  m_stats_file : string -> option (Z * Z * Db);
  m_client_ok : bool;
  m_chain_info : result PoolError Value;
  m_key_io : Noise.Io;
  m_fresh_key : bytes;
  m_bind_ok : bool;
  m_wall : Z;
  m_clock : Instant
}.

(** The process past its boot: its settings, the shared state, the engine with
    the liveness of its block channel, and the watchdog with what it logged. *)
Record Running := mkRunning {
  r_config : Config.Config;
  r_network : Network;
  r_authority : option string;
  r_pool : Pool;
  r_node : Snapshot.NodeFigures;
  r_engine : bool * Engine.TemplateEngine;
  r_stale : bool;
  r_log : list Node.WatchdogLog
}.

(** How [main] can go: [--check-config] passed, an error returned, the exit of
    [init_tracing], a panic, or the pool is up. *)
Inductive Boot : Type :=
| Checked
| Refused (what : string)
| Exited
| BootPanicked
| Up (r : Running).

Section Main.
Context `{Sha256} `{HexCodec} `{TxCodec} `{AddressCodec} `{L : Libm} `{Sv2Codec.BinarySv2} `{Noise.KeyCodec}.
Variable prune : nat -> gmap string Z -> gmap string Z.

(** [config::load] on the file named by the command line. *)
Definition load_config (m : Machine) (path : string) : result string Config.Config :=
  match (root ← m_config_file m path; ConfigLoad.load root (m_vars m)) with
  | Ok c => Ok c
  | Err _ => Err ("Loading config from '" +:+ path +:+ "'")%string
  end.

(** Can [init_tracing] set up its sinks? *)
Definition init_tracing (m : Machine) (c : Config.Config) : bool :=
  match ConfigLoad.log_dir_path (m_home m) (Config.logging c) with
  | Some dir => m_log_dir_ok m dir
  | None => true
  end.

(** A configured statistics file must open, and be of this schema. *)
Definition open_stats (m : Machine) (c : Config.Config) : result string PoolStats :=
  match Config.stats_db_path (Config.metrics c) with
  | Some path =>
      match m_stats_file m path with
      | Some (version, tables, d) =>
          if Node.check_schema_version version tables
          then Ok (open_recording prune d (m_wall m) (m_clock m))
          else Err ("Opening stats DB '" +:+ path +:+ "'")%string
      | None => Err ("Opening stats DB '" +:+ path +:+ "'")%string
      end
  | None => Ok (stats_new false (m_wall m) (m_clock m))
  end.

(** [RpcClient::new]. *)
Definition connect_rpc (m : Machine) (c : Config.Config) : result string unit :=
  match ConfigLoad.rpc_auth (m_fs m) (m_cookie_fault m) (m_home m) (Config.bitcoin_rpc c) with
  | Ok _ => if m_client_ok m then Ok tt else Err "Connecting to Bitcoin Knots RPC"%string
  | Err _ => Err "Connecting to Bitcoin Knots RPC"%string
  end.

Definition node_chain (m : Machine) : result string string :=
  match (v ← m_chain_info m; Node.chain_of_value v) with
  | Ok chain => Ok chain
  | Err _ => Err "Querying node chain (getblockchaininfo)"%string
  end.

(** The steps from the statistics to the runtime settings. *)
Definition boot_services (m : Machine) (c : Config.Config) : result string (PoolStats * string) :=
  st ← open_stats m c;
  _ ← connect_rpc m c;
  chain ← node_chain m;
  network ← Node.settings_new (Config.pool c) chain;
  Ok (st, network).

(** The SV2 authority's public key; [None] is a panic. *)
Definition boot_authority (m : Machine) (c : Config.Config) : option (result string (option string)) :=
  if Config.sv2_enabled (Config.sv2 c) then
    match (Noise.init None (Config.sv2 c) (m_home m) (m_fs m) (m_key_io m) (m_fresh_key m)).1.1 with
    | Some (Ok key) => Some (Ok (Some key))
    | Some (Err _) => Some (Err "Initialising SV2 Noise authority key"%string)
    | None => None
    end
  else Some (Ok None).

Definition boot (m : Machine) : Boot :=
  let cli := Node.parse_args (m_args m) in
  match load_config m (Node.config_path cli) with
  | Err e => Refused e
  | Ok c =>
      if Node.check_only cli then Checked
      else if negb (init_tracing m c) then Exited
      else
        match boot_services m c with
        | Err e => Refused e
        | Ok (st, network) =>
            match boot_authority m c with
            | None => BootPanicked
            | Some (Err e) => Refused e
            | Some (Ok key) =>
                match Node.bitcoin_network network with
                | None => BootPanicked
                | Some net =>
                    if m_bind_ok m then
                      Up (mkRunning c net key (mkPool st ∅) (Snapshot.node_new (m_clock m))
                            (true, Engine.engine_new (Config.strict_gbt_rules (Config.pool c)) (m_clock m))
                            false [])
                    else Refused "bind"%string
                end
            end
        end
  end.

(** ** The running process *)
Variable parse_request : string -> option StratumRequest.
Variable by_difficulty : gmap string Z -> list (string * Z).

(** One event: a connection, the ticker, the recorder or the pruner; one block of
    the confirmation sweep, which awaits the node between blocks; a block a
    background resubmission got through; a round of the node poll; an event of
    the template engine; a tick of the watchdog. *)
Inductive MainEvent : Type :=
| Net (ev : PoolEvent)
| ConfirmBlock (b : PendingBlock) (position : option BlockChainPosition) (now : Z)
| Resubmitted (outcome : BlockSubmitOutcome) (height : Z) (worker payout hash : string) (now1 now2 : Z)
| NodePoll (hps pct : result PoolError f64) (info : result PoolError Node.NodeInfo) (now : Instant)
| ChainEvent (ev : Engine.LoopEvent)
| Watch (now : Instant).

Definition set_pool (r : Running) (p : Pool) : Running :=
  mkRunning (r_config r) (r_network r) (r_authority r) p (r_node r) (r_engine r) (r_stale r) (r_log r).
Definition set_node (r : Running) (n : Snapshot.NodeFigures) : Running :=
  mkRunning (r_config r) (r_network r) (r_authority r) (r_pool r) n (r_engine r) (r_stale r) (r_log r).
Definition main_stats (r : Running) : PoolStats := stats (r_pool r).
Definition set_main_stats (r : Running) (st : PoolStats) : Running := set_pool r (with_stats (r_pool r) st).

(** The three answers of the node poll. *)
Definition poll_node (n : Snapshot.NodeFigures) (hps pct : result PoolError f64)
    (info : result PoolError Node.NodeInfo) (now : Instant) : Snapshot.NodeFigures :=
  let n1 := match hps with Ok x => Snapshot.set_network_hashrate n x | Err _ => n end in
  let n2 := match pct with Ok x => Snapshot.set_est_difficulty_change_pct n1 x | Err _ => n1 end in
  match info with
  | Ok i => Snapshot.set_node_info n2 (Node.implementation i) (Node.display_version i) (Node.subversion i) now
  | Err _ => n2
  end.

(** What a refresh publishes through [PoolStats]; the engine's figures keep the
    last network difficulty that could be computed. *)
Definition publish (n : Snapshot.NodeFigures) (e : Engine.TemplateEngine) : Snapshot.NodeFigures :=
  let f := Engine.figures e in
  Snapshot.set_network_difficulty
    (Snapshot.update_height n (Engine.current_height f) (Engine.current_coinbase_value f) (Engine.current_tx_count f))
    (Engine.network_difficulty f).

Definition main_step (r : Running) (ev : MainEvent) : Running :=
  match ev with
  | Net ev => set_pool r (pool_step parse_request by_difficulty (r_pool r) ev)
  | ConfirmBlock b position now =>
      set_main_stats r (Confirm.sweep_block (fun _ => position)
        (Config.confirmation_depth (Config.pool (r_config r))) now (main_stats r) b)
  | Resubmitted o height worker payout hash now1 now2 =>
      set_main_stats r (record_block_outcome (main_stats r) o height worker payout hash now1 now2)
  | NodePoll hps pct info now => set_node r (poll_node (r_node r) hps pct info now)
  | ChainEvent ev =>
      let e := Engine.loop_step (r_engine r) ev in
      mkRunning (r_config r) (r_network r) (r_authority r) (r_pool r) (publish (r_node r) e.2) e
        (r_stale r) (r_log r)
  | Watch now =>
      let '(line, stale) := Node.watchdog_tick (r_stale r) (Engine.is_template_fresh (r_engine r).2 now) in
      mkRunning (r_config r) (r_network r) (r_authority r) (r_pool r) (r_node r) (r_engine r)
        stale (r_log r ++ match line with Some l => [l] | None => [] end)
  end.

Definition main_run (r : Running) (evs : list MainEvent) : Running := foldl main_step r evs.

(** The shutdown signal, and the file once the writer has drained its queue. *)
Definition shutdown (r : Running) (now : Z) : PoolStats := shutdown_persist (main_stats r) now.
Definition file_after (d : Db) (r : Running) (now : Z) : Db :=
  (drain prune (open_file prune d, writer_new) (queue (shutdown r now))).1.

(** ** What a boot promises *)

(** A pool that is up runs a configuration that passed validation, on the network
    of the node's chain, which is the asserted one if any, with the statistics of
    the configured file or none, no connection, and an SV2 authority exactly when
    SV2 is enabled. *)
Record booted (m : Machine) (r : Running) : Prop := {
  bt_config : load_config m (Node.config_path (Node.parse_args (m_args m))) = Ok (r_config r);
  bt_valid : Config.validate (r_config r) = Ok tt;
  bt_run : Node.check_only (Node.parse_args (m_args m)) = false;
  bt_stats : open_stats m (r_config r) = Ok (main_stats r);
  bt_network : exists chain name, node_chain m = Ok chain /\ Node.network_of_chain chain = Some name
    /\ Node.bitcoin_network name = Some (r_network r)
    /\ (forall asserted, Config.network (Config.pool (r_config r)) = Some asserted -> asserted = name);
  bt_authority : is_Some (r_authority r) <-> Config.sv2_enabled (Config.sv2 (r_config r)) = true;
  bt_fresh : conns (r_pool r) = ∅ /\ r_stale r = false /\ r_log r = []
}.

Lemma load_config_valid m path c : load_config m path = Ok c -> Config.validate c = Ok tt.
Proof.
  unfold load_config. destruct (m_config_file m path) as [root|]; simpl; [|done].
  unfold ConfigLoad.load. destruct (ConfigLoad.apply_env_overrides _ _) as [root'|]; simpl; [|done].
  destruct (ConfigLoad.de_config _) as [c'|]; simpl; [|done].
  destruct (Config.validate c') as [[]|] eqn:Ev; simpl; [|done]. by intros [= <-].
Qed.

Lemma settings_chain p chain name :
  Node.settings_new p chain = Ok name -> Node.network_of_chain chain = Some name.
Proof.
  unfold Node.settings_new. destruct (Node.network_of_chain chain) as [n|]; [|done].
  destruct (Config.network p); [case_bool_decide|]; congruence.
Qed.

Lemma boot_authority_enabled m c key :
  boot_authority m c = Some (Ok key) -> is_Some key <-> Config.sv2_enabled (Config.sv2 c) = true.
Proof.
  unfold boot_authority. destruct (Config.sv2_enabled _).
  - destruct (_.1.1) as [[k|]|]; intros [= <-]. by split.
  - intros [= <-]. split; [by intros []|done].
Qed.

Lemma boot_up m r : boot m = Up r -> booted m r.
Proof.
  unfold boot. destruct (load_config m _) as [c|] eqn:Ec; [|done].
  destruct (Node.check_only _) eqn:Ek; [done|]. destruct (negb _); [done|].
  destruct (boot_services m c) as [[st name]|] eqn:Es; [|done].
  destruct (boot_authority m c) as [[key|]|] eqn:Ea; try done.
  destruct (Node.bitcoin_network name) as [net|] eqn:En; [|done].
  destruct (m_bind_ok m); [|done]. intros [= <-].
  unfold boot_services in Es. bind_inv Es. bind_inv Es. bind_inv Es. bind_inv Es. injection Es as <- <-.
  split; cbn; try done.
  - by eapply load_config_valid.
  - eexists _, _. split; [done|]. split; [by eapply settings_chain|]. split; [done|].
    by eapply Node.settings_network.
  - by apply (boot_authority_enabled m).
Qed.

(** ** A life of the process *)

(** Connections take their settings from the configuration, and the wall clock is
    past the epoch. *)
Definition event_in_order (c : Config.Config) (ev : MainEvent) : Prop :=
  match ev with
  | Net ev => configured c ev /\ timed ev
  | ConfirmBlock _ _ now | Resubmitted _ _ _ _ _ now _ => now <> 0
  | _ => True
  end.

(** The pruner never finds more best shares than the table keeps. *)
Fixpoint prunes_below_cap (r : Running) (evs : list MainEvent) : Prop :=
  match evs with
  | [] => True
  | ev :: evs' =>
      (match ev with Net e => below_cap (r_pool r) e | _ => True end)
      /\ prunes_below_cap (main_step r ev) evs'
  end.

Context `{!ExpAccurate L}.

Definition limits (c : Config.Config) : VardiffConfig * Z :=
  (Config.vardiff c, Config.initial_difficulty (Config.pool c)).

Lemma configured_event_ok c ev :
  Config.validate c = Ok tt -> configured c ev -> event_ok (limits c) ev.
Proof.
  intros Hv Hev. apply Config.config_validate_Ok in Hv as [Hen _ _ _ _ _ _].
  destruct ev; cbn [event_ok configured] in *; try done; destruct Hev as (E0 & Ei & E1 & E2);
    unfold conf_ok; rewrite E0, Ei, E1, E2; split_and!; (done || lia).
Qed.

Section Life.
Variables (track : bool) (ds0 : Db * WriterState) (c : Config.Config).
Hypothesis valid : Config.validate c = Ok tt.
Hypothesis in_limits : config_in_limits c.

Local Abbreviation cap := (work_cap (limits c)).

Lemma cap_nonneg : 0 <= cap.
Proof. destruct in_limits. unfold work_cap, limits. cbn. lia. Qed.

Record alive (r : Running) : Prop := {
  al_config : r_config r = c;
  al_conns : map_Forall (fun _ => conn_safe (limits c)) (conns (r_pool r))
}.

Lemma main_step_alive r ev : alive r -> event_in_order c ev -> alive (main_step r ev).
Proof.
  intros [Hc Hs] Hev. destruct ev; cbn [main_step]; try done.
  - split; [done|]. cbn. destruct Hev as [Hev _]. apply pool_step_safe; [by apply validated_in_range
      | apply in_limits | by apply configured_event_ok | done].
Qed.

Lemma main_step_spends r ev :
  alive r -> event_in_order c ev ->
  (track = true -> match ev with Net e => below_cap (r_pool r) e | _ => True end) ->
  spends track prune ds0 cap 2 (main_stats r) (main_stats (main_step r ev)).
Proof.
  pose proof cap_nonneg as Hcap.
  intros [Hc Hs] Hev Hb. destruct ev; cbn [main_step event_in_order] in *; try by apply spends_refl.
  - destruct Hev as [_ Ht]. by apply pool_step_spends.
  - unfold main_stats, set_main_stats, Confirm.sweep_block. cbn.
    case_match; [by apply spends_one, spends_resolution | by apply spends_refl].
  - by apply spends_one, spends_outcome.
Qed.

Lemma main_run_synced evs : forall r n w,
  alive r -> Forall (event_in_order c) evs -> (track = true -> prunes_below_cap r evs) ->
  synced track prune ds0 (main_stats r) n w ->
  n + 2 * Z.of_nat (length evs) <= u64_max -> w + 2 * Z.of_nat (length evs) * cap <= u64_max ->
  synced track prune ds0 (main_stats (main_run r evs))
    (n + 2 * Z.of_nat (length evs)) (w + 2 * Z.of_nat (length evs) * cap).
Proof.
  pose proof cap_nonneg as Hcap.
  induction evs as [|ev evs IH]; intros r n w Ha He Hb Hy Hn Hw.
  - eapply synced_weaken; [exact Hy | cbn; lia | cbn; lia].
  - apply Forall_cons in He as [He1 He2]. cbn [length prunes_below_cap main_run foldl] in *.
    replace (n + 2 * Z.of_nat (S (length evs))) with (n + 2 + 2 * Z.of_nat (length evs)) in * by lia.
    replace (w + 2 * Z.of_nat (S (length evs)) * cap)
      with (w + 2 * cap + 2 * Z.of_nat (length evs) * cap) in * by lia.
    apply IH; [by apply main_step_alive | done | by intros Ht; apply Hb | | lia | lia].
    apply main_step_spends; [done | done | by intros Ht; apply Hb | done | lia | nia].
Qed.
End Life.
End Main.

(** The watchdog logs once per episode: the lines alternate, the first is
    [LogStale], and the last is [LogStale] exactly while the template is stale. *)
Definition episode (stale : option bool) (line : Node.WatchdogLog) : option bool :=
  match stale, line with
  | Some false, Node.LogStale => Some true
  | Some true, Node.LogRecovered => Some false
  | _, _ => None
  end.

Lemma watchdog_alternates `{Sha256, HexCodec, TxCodec, AddressCodec, Libm, Sv2Codec.BinarySv2, Noise.KeyCodec}
    prune parse_request by_difficulty m r evs :
  boot prune m = Up r ->
  let r1 := main_run parse_request by_difficulty r evs in
  foldl episode (Some false) (r_log r1) = Some (r_stale r1).
Proof.
  intros Hb. apply boot_up in Hb as [_ _ _ _ _ _ (_ & Es & El)]. cbv zeta. unfold main_run.
  assert (foldl episode (Some false) (r_log r) = Some (r_stale r)) as E by (by rewrite Es, El).
  clear Es El. revert r E. induction evs as [|ev evs IH]; intros r E; [done|]. cbn [foldl]. apply IH.
  destruct ev; try exact E. cbn [main_step]. unfold Node.watchdog_tick.
  destruct (Engine.is_template_fresh _ _), (r_stale r) eqn:Es; cbn; rewrite ?foldl_app, E; done.
Qed.

Lemma booted_stats `{Noise.KeyCodec} `{Libm} prune m r path version tables d :
  boot prune m = Up r -> Config.stats_db_path (Config.metrics (r_config r)) = Some path ->
  m_stats_file m path = Some (version, tables, d) ->
  main_stats r = open_recording prune d (m_wall m) (m_clock m).
Proof.
  intros Hb Hp Hf. pose proof (bt_stats _ _ _ (boot_up _ _ _ Hb)) as Es. unfold open_stats in Es.
  rewrite Hp, Hf in Es. destruct (Node.check_schema_version _ _); congruence.
Qed.

(** ** Properties *)

(** C21. What the pool shows survives a clean restart.  Take any boot of the
    program on a statistics file, under a configuration within limits, and any
    life of the process: connections of both protocols with whatever their peers
    send, timers, pruning, confirmations, resubmissions, the node poll and the
    engine, in any order.  After the shutdown signal, whatever boot comes up next
    on the file shows the same accepted and rejected counts, work, best share,
    round start and reject reasons; and if the table of best shares stayed below
    its cap, the same best share of every worker.  The writer drains its queue,
    the recovery of a lost reset finds nothing to do, and the counts fit the
    file's 63-bit columns, the work at the configured difficulties. *)
Theorem restart_shows_the_same_round
    `{Sha256, HexCodec, TxCodec, AddressCodec, L : Libm, !ExpAccurate L, Sv2Codec.BinarySv2, Noise.KeyCodec}
    (prune : nat -> gmap string Z -> gmap string Z)
    (prune_small : forall keep t, (size t <= keep)%nat -> prune keep t = t)
    (parse_request : string -> option StratumRequest)
    (by_difficulty : gmap string Z -> list (string * Z))
    (m m' : Machine) (r r' : Running) (evs : list MainEvent) (now : Z)
    (path path' : string) (version version' tables tables' : Z) (d0 : Db) :
  let f := round_stats (open_file prune d0) in
  let r1 := main_run parse_request by_difficulty r evs in
  let d := file_after prune d0 r1 now in
  boot prune m = Up r -> config_in_limits (r_config r) ->
  Config.stats_db_path (Config.metrics (r_config r)) = Some path ->
  m_stats_file m path = Some (version, tables, d0) ->
  db_ok (open_file prune d0) ->
  Forall (event_in_order (r_config r)) evs ->
  rr_accepted f + rr_rejected f + 2 * Z.of_nat (length evs) < 2 ^ 63 ->
  rr_work f + 2 * Z.of_nat (length evs) * work_cap (limits (r_config r)) < 2 ^ 63 ->
  recover_round d = d ->
  boot prune m' = Up r' ->
  Config.stats_db_path (Config.metrics (r_config r')) = Some path' ->
  m_stats_file m' path' = Some (version', tables', d) ->
  displayed (main_stats r') = displayed (main_stats r1)
  /\ round_since_ts (round (main_stats r')) = round_since_ts (round (main_stats r1))
  /\ round_reject_reasons (main_stats r') = round_reject_reasons (main_stats r1)
  /\ (prunes_below_cap parse_request by_difficulty r evs ->
      (size (round_worker_best d) <= MAX_WORKER_BEST_SHARES)%nat ->
      forall k, default 0 (worker_best_shares (workers (main_stats r')) !! k)
                = default 0 (worker_best_shares (workers (main_stats r1)) !! k)).
Proof.
  intros f r1 d Hb Hl Hp Hf Hok He Hn Hw Hrec Hb' Hp' Hf'.
  pose proof (booted_stats _ _ _ _ _ _ _ Hb Hp Hf) as Es.
  pose proof (booted_stats _ _ _ _ _ _ _ Hb' Hp' Hf') as Es'.
  pose proof (boot_up _ _ _ Hb) as [_ Hv _ _ _ _ (Hc & _)].
  assert (forall track, (track = true -> prunes_below_cap parse_request by_difficulty r evs) ->
    synced track prune (open_file prune d0, writer_new) (main_stats r1)
      (rr_accepted f + rr_rejected f + 2 * Z.of_nat (length evs))
      (rr_work f + 2 * Z.of_nat (length evs) * work_cap (limits (r_config r)))) as Hy.
  { intros track Ht. apply (main_run_synced _ _ _ _ _ (r_config r) Hv Hl); try done.
    - split; [done|]. rewrite Hc. by apply map_Forall_empty.
    - rewrite Es. by apply synced_boot.
    - unfold u64_max. lia.
    - unfold u64_max. lia. }
  destruct (restart_figures prune (open_file prune d0) (main_stats r1) _ _ now (m_wall m') (m_clock m')
    Hrec (Hy false ltac:(done)) ltac:(lia)) as (E1 & E2 & E3).
  rewrite Es'. do 3 (split; [done|]). intros Hcap Hsz k.
  apply (restart_worker_best prune (open_file prune d0) (main_stats r1) _ _ now (m_wall m') (m_clock m')
    Hrec prune_small (Hy true (fun _ => Hcap)) ltac:(lia) Hsz).
Qed.

(** The example configuration with a statistics file, on a regtest node; a miner
    that subscribes, authorises and has a share accepted; a snapshot; and a second
    boot on the file the shutdown left. *)
Definition demo_machine (d : Db) (wall : Z) : Machine :=
  mkMachine []
    (ConfigLoad.demo_vars ++ [("BTCPOOL_METRICS__STATS_DB_PATH", "/pool.db"); ("BTCPOOL_BITCOIN_RPC__USER", "rpc")])
    (fun _ => Ok ConfigLoad.demo_file) None ∅ false (fun _ => true)
    (fun path => if bool_decide (path = "/pool.db"%string) then Some (Node.SCHEMA_VERSION, 9, d) else None)
    true (Ok (VObject [("chain", VString "regtest")])) Noise.good_io Noise.key_a true wall 0.

Definition demo_config : Config.Config :=
  match load_config (demo_machine (db_new 100) 105) "config.toml" with Ok c => c | Err _ => Config.demo_config end.

Definition no_prune (keep : nat) (t : gmap string Z) : gmap string Z := t.

Definition demo_up (d : Db) (wall : Z) : Running :=
  mkRunning demo_config Regtest None (mkPool (@open_recording linear_libm no_prune d wall 0) ∅) (Snapshot.node_new 0)
    (true, Engine.engine_new true 0) false [].

Definition demo_parse (line : string) : option StratumRequest :=
  if bool_decide (line = "submit"%string) then
    Some (mkRequest (VU64 4) "mining.submit"
            (VArray [VString "bcrt1qdemo.rig"; VString "b"; VString "05060708"; VString "6553f100"; VString "00000007"]))
  else Session.demo_parse line.

Definition demo_conf : SessionConf :=
  mkConf "/btcpool-rs/" (Config.initial_difficulty (Config.pool demo_config)) Validator.demo_en1 4 4 Regtest
    (Config.vardiff demo_config) (Config.security demo_config) "00000000000000ff" 0.

Definition demo_serve (line id : string) : MainEvent :=
  Net (Serve1 1 (Session.Inbound line) (Session.demo_env id) (Session.demo_env id)).
Definition demo_life : list MainEvent :=
  [Net (Connect1 1 demo_conf (Some Validator.demo_built_template)); demo_serve "subscribe" "a"; demo_serve "authorize" "b";
   demo_serve "submit" "c"; Watch (400 * NANOS); Net (Checkpoint 1700000060)].

Abbreviation demo_run := (@main_run Validator.zero_sha256 hex_codec legacy_codec Identity.demo_codec linear_libm
  Sv2Codec.spec_sv2 demo_parse Snapshot.merge_order).
Abbreviation demo_boot := (@boot linear_libm Noise.letter_keys no_prune).

Definition demo_end : Running := demo_run (demo_up (db_new 100) 105) demo_life.
Definition demo_file : Db := file_after no_prune (db_new 100) demo_end 1700000070.

Lemma demo_boots d wall : demo_boot (demo_machine d wall) = Up (demo_up d wall).
Proof.
  assert (load_config (demo_machine d wall) "config.toml" = Ok demo_config) as E by (vm_compute; reflexivity).
  unfold boot. change (Node.config_path _) with "config.toml"%string. rewrite E. reflexivity.
Qed.

Lemma restart_shows_the_same_round_witness :
  displayed (main_stats demo_end) = mkFigures 1 0 2048 u64_max
  /\ displayed (main_stats (demo_up demo_file 1700000100)) = displayed (main_stats demo_end)
  /\ r_log demo_end = [Node.LogStale].
Proof.
  split; [vm_compute; reflexivity|]. split; [|vm_compute; reflexivity].
  refine (proj1 (@restart_shows_the_same_round Validator.zero_sha256 hex_codec legacy_codec Identity.demo_codec linear_libm
    linear_accurate Sv2Codec.spec_sv2 Noise.letter_keys no_prune (fun _ _ _ => eq_refl) demo_parse Snapshot.merge_order
    (demo_machine (db_new 100) 105) (demo_machine demo_file 1700000100) (demo_up (db_new 100) 105)
    (demo_up demo_file 1700000100) demo_life 1700000070 "/pool.db" "/pool.db" 1 1 9 9 (db_new 100)
    (demo_boots _ _) _ _ _ _ _ _ _ _ (demo_boots _ _) _ _)).
  - split; [| | | |vm_compute; reflexivity]; repeat split; vm_compute; discriminate.
  - vm_compute. reflexivity.
  - reflexivity.
  - repeat split; try (vm_compute; discriminate).
  - repeat first [apply Forall_nil_2 | apply Forall_cons_2; [first [exact I | repeat split; discriminate]|]].
  - vm_compute. reflexivity.
  - vm_compute. reflexivity.
  - vm_compute. reflexivity.
  - vm_compute. reflexivity.
  - reflexivity.
Defined.

End Startup.
