(* ===== verification/Dashboard.v ===== *)
(** * Dashboard: the HTTP answers of the dashboard ([src/network/dashboard.rs])

    The request handlers up to the JSON they return: chart ranges and their
    sources, the decayed and the ledger charts, the scoped work history, the
    health probe, the statistics and the pool information.  The routes and the
    responses around these values are in [Http], the page's script in [Page].
    The wall clock, the monotonic clock and the database are arguments. *)
From S2P Require Import Prelude Text F64 Host Json Errors Interfaces Target Rpc Hashrate Stats Store.
From S2P Require Import History Snapshot Security Identity Template Jobs Engine.
Import Hashrate Stats Store History Snapshot Identity Template Engine.

Module Dashboard.

(** ** JSON *)

(** [json!] of a float: not a number unless finite. *)
Definition VF64 (f : f64) : Value := if is_finite f then VNumber (Float f) else VNull.
Definition VOptF64 (o : option f64) : Value := match o with Some f => VF64 f | None => VNull end.

(** ** Ranges *)
Inductive ChartSource : Type := Decayed | LedgerSource.

Record ChartWindow := mkWindow {
  duration_secs : option Z;
  bucket_secs : Z;
  source : ChartSource
}.

Definition window_1h : ChartWindow := mkWindow (Some 3600) SNAPSHOT_INTERVAL_SECS Decayed.

Definition chart_window (value : option string) : ChartWindow :=
  let v := default "1h"%string value in
  if bool_decide (v = "1h"%string) then window_1h
  else if bool_decide (v = "6h"%string) then mkWindow (Some (6 * 3600)) 60 Decayed
  else if bool_decide (v = "24h"%string) then mkWindow (Some (24 * 3600)) (5 * 60) LedgerSource
  else if bool_decide (v = "1w"%string) then mkWindow (Some (7 * 24 * 3600)) (30 * 60) LedgerSource
  else if bool_decide (v = "30d"%string) then mkWindow (Some (30 * 24 * 3600)) (2 * 3600) LedgerSource
  else if bool_decide (v = "180d"%string)
  then mkWindow (Some (6 * 30 * 24 * 3600)) (12 * 3600) LedgerSource
  else if bool_decide (v = "all"%string) then mkWindow None (12 * 3600) LedgerSource
  else window_1h.

(** Where a range starts. *)
Definition range_since (w : ChartWindow) (now : Z) : Z :=
  match duration_secs w with Some d => sat_sub now d | None => 0 end.

(** ** What is plotted *)
Inductive ChartKind : Type := Hashrate_ | ShareRate.

Definition SIX_HOURS_INDEX : nat := 5.

(** The live reading; hashrates have seven windows of which the three-hour one
    is skipped, share rates have the six. *)
Definition live_point (kind : ChartKind) (live : StatsSnapshot) (ts : Z) : RateHistoryPoint :=
  let h (i : nat) := Some (default f0 (sn_total_hashrate live !! i)) in
  let r (i : nat) := Some (default f0 (sn_shares_per_minute live !! i)) in
  match kind with
  | Hashrate_ => mkRatePoint ts (h 0%nat) (h 1%nat) (h 2%nat) (h 3%nat) (h SIX_HOURS_INDEX) (h 6%nat)
  | ShareRate => mkRatePoint ts (r 0%nat) (r 1%nat) (r 2%nat) (r 3%nat) (r 4%nat) (r 5%nat)
  end.

Definition ledger_value (kind : ChartKind) (p : WorkHistoryPoint) : f64 :=
  let secs := f64_of_Z (Z.max (wp_span_secs p) 1) in
  match kind with
  | Hashrate_ => (f64_of_Z (wp_work p) * NONCES / secs)%f64
  | ShareRate => (f64_of_Z (wp_accepted p) / (secs / f64_of_Z 60))%f64
  end.

Definition millis (ts : Z) : Value := VU64 (Z.min (ts * 1000) u64_max).

Definition chart_series_data (history : list RateHistoryPoint) (value : RateHistoryPoint -> option f64)
  : list Value :=
  (fun p => VArray [millis (rp_ts p); VOptF64 (value p)]) <$> history.

Definition make_series (name : string) (data : list Value) (width : f64) : Value :=
  VObject [("name", VString name); ("type", VString "line"); ("data", VArray data);
           ("showSymbol", VBool false); ("smooth", VBool false); ("connectNulls", VBool false);
           ("animation", VBool false); ("lineStyle", VObject [("width", VF64 width)])]%string.

Definition axis_label : Value :=
  VObject [("fontSize", VU64 10); ("hideOverlap", VBool true)]%string.

Definition chart_frame (legend_data legend_selected : Value) (series : list Value) : Value :=
  VObject
    [("backgroundColor", VString "transparent");
     ("tooltip", VObject [("trigger", VString "axis")]);
     ("legend", VObject [("data", legend_data); ("selected", legend_selected)]);
     ("grid", VObject [("left", VU64 4); ("right", VU64 12); ("top", VU64 44); ("bottom", VU64 4);
                       ("containLabel", VBool true)]);
     ("xAxis", VObject [("type", VString "time"); ("boundaryGap", VBool false);
                        ("splitLine", VObject [("show", VBool true)]); ("axisLabel", axis_label)]);
     ("yAxis", VObject [("type", VString "value"); ("min", VU64 0);
                        ("splitLine", VObject [("show", VBool true)]); ("axisLabel", axis_label)]);
     ("series", VArray series)]%string.

Definition build_ledger_chart_option (points : list WorkHistoryPoint) (kind : ChartKind) : Value :=
  let data := (fun p => VArray [millis (wp_ts p); VF64 (ledger_value kind p)]) <$> points in
  chart_frame (VArray [VString "avg"]) (VObject [("avg", VBool true)])
    [make_series "avg" data (f64_lit 8 5)]%string.

Definition build_decayed_chart_option (history : list RateHistoryPoint) : Value :=
  chart_frame
    (VArray [VString "1m"; VString "5m"; VString "10m"; VString "1h"; VString "6h"; VString "24h"])
    (VObject [("1m", VBool true); ("5m", VBool true); ("10m", VBool true); ("1h", VBool true);
              ("6h", VBool false); ("24h", VBool false)])
    [make_series "24h" (chart_series_data history twenty_four_hours) (f64_lit 6 5);
     make_series "6h" (chart_series_data history six_hours) (f64_lit 6 5);
     make_series "1h" (chart_series_data history one_hour) (f64_lit 7 5);
     make_series "10m" (chart_series_data history ten_minutes) (f64_lit 9 5);
     make_series "5m" (chart_series_data history five_minutes) (f64_lit 6 5);
     make_series "1m" (chart_series_data history one_minute) (f64_of_Z 1)]%string.

(** ** Charts *)
Section Charts.
(** SQLite's [AVG]. *)
Variable avg : list f64 -> f64.

Definition decayed_history (kind : ChartKind) (store : option Db) (since bucket : Z)
  : list RateHistoryPoint :=
  match store with
  | None => []
  | Some d => match kind with
              | Hashrate_ => get_hashrate_history avg d since bucket
              | ShareRate => get_share_rate_history avg d since bucket
              end
  end.

(** The shared body of [/chart] and [/share-chart], up to the text of the JSON. *)
Definition rate_chart_response (store : option Db) (live : StatsSnapshot) (requested : option string)
    (kind : ChartKind) (now : Z) : Value :=
  let w := chart_window requested in
  let since := range_since w now in
  match source w with
  | Decayed =>
      let history := decayed_history kind store since (bucket_secs w) in
      let live_bucket := now / Z.max (bucket_secs w) 1 * Z.max (bucket_secs w) 1 in
      build_decayed_chart_option
        (if bool_decide (rp_ts <$> last history = Some live_bucket) then history
         else history ++ [live_point kind live live_bucket])
  | LedgerSource =>
      build_ledger_chart_option (work_history_at store since (bucket_secs w) now SPool) kind
  end.

Definition chart_json (store : option Db) (live : StatsSnapshot) (requested : option string) (now : Z)
  : Value := rate_chart_response store live requested Hashrate_ now.

Definition share_chart_json (store : option Db) (live : StatsSnapshot) (requested : option string)
    (now : Z) : Value := rate_chart_response store live requested ShareRate now.
End Charts.

(** [/history]: the pool's hashrate on the ledger's own grid. *)
Definition history_json (store : option Db) (since : option Z) (now : Z) : list (Z * f64) :=
  (fun p => (wp_ts p, ledger_value Hashrate_ p))
    <$> work_history_at store (default 0 since) LEDGER_INTERVAL_SECS now SPool.

(** ** Scoped history *)
Definition canonical_scope_param `{AddressCodec} (raw : string) (network : Network) : option string :=
  let '(a, label) := match split_once c_dot raw with
                     | Some (a, l) => (a, Some l)
                     | None => (raw, None)
                     end in
  u ← address_parse a;
  checked ← require_network u network;
  Some (match label with
        | Some l => address_to_string checked +:+ String c_dot l
        | None => address_to_string checked
        end).

Record WorkPoint := mkWorkPoint {
  k_ts : Z;
  k_span_secs : Z;
  k_hashrate_hps : f64;
  k_work : Z;
  k_shares_accepted : Z;
  k_shares_rejected : Z
}.

(** The scope a request asks for; the error is the text of a 400 answer. *)
Definition work_scope `{AddressCodec} (user worker : option string) (network : Network)
  : result string LedgerScope :=
  match user, worker with
  | Some _, Some _ => Err "pass either user or worker, not both"
  | Some u, None =>
      s ← ok_or "user is not a valid address for this network" (canonical_scope_param u network);
      Ok (SUser s)
  | None, Some w =>
      s ← ok_or "worker's address part is not valid for this network" (canonical_scope_param w network);
      Ok (SWorker s)
  | None, None => Ok SPool
  end%string.

Definition work_points (store : option Db) (window : option string) (scope : LedgerScope) (now : Z)
  : list WorkHistoryPoint :=
  let w := chart_window window in
  work_history_at store (range_since w now) (Z.max (bucket_secs w) LEDGER_INTERVAL_SECS) now scope.

Definition work_json `{AddressCodec} (store : option Db) (window user worker : option string)
    (network : Network) (now : Z) : result string (list WorkPoint) :=
  scope ← work_scope user worker network;
  Ok ((fun p => mkWorkPoint (wp_ts p) (wp_span_secs p) (ledger_value Hashrate_ p) (wp_work p)
                  (wp_accepted p) (wp_rejected p)) <$> work_points store window scope now).

(** ** Health, statistics, information *)
Definition STATUS_OK : Z := 200.
Definition SERVICE_UNAVAILABLE : Z := 503.

Definition health (e : TemplateEngine) (now : Instant) : Z * Value :=
  let age := ("template_age_secs"%string, VU64 (as_secs (template_age e now))) in
  if is_blocked_on_rules e then
    (SERVICE_UNAVAILABLE,
     VObject [("status", VString "unsupported_rules");
              ("unsupported_rules", VArray (VString <$> unsupported_rules e)); age]%string)
  else if is_template_fresh e now then
    (STATUS_OK, VObject [("status", VString "ok"); age]%string)
  else (SERVICE_UNAVAILABLE, VObject [("status", VString "stale"); age]%string).

(** The snapshot with the engine's figures. *)
Definition stats_json (s : PoolStats) (n : NodeFigures) (e : TemplateEngine) (now : Instant)
  : StatsSnapshot :=
  let x := snapshot s n now in
  mkSnapshot (sn_counters x) (sn_round_shares_accepted x) (sn_round_shares_rejected x)
    (sn_round_since_ts x) (sn_reject_reasons x) (sn_round_reject_reasons x) (sn_blocks_found x)
    (sn_blocks_inconclusive x) (sn_blocks_orphaned x) (sn_blocks_pending_confirmation x) (sn_node x)
    (sn_best_hashrate_hps x) (sn_session_best_hashrate_hps x) (sn_total_hashrate x)
    (sn_shares_per_minute x) (sn_worker_hashrates x) (sn_worker_states x)
    (sn_node_rpc_last_ok_secs x) (sn_uptime_secs x) (sn_pool_difficulty x)
    (match current_template e with Some t => t_version t | None => sn_template_version x end)
    (is_template_fresh e now) (unsupported_rules e) (is_blocked_on_rules e).

(** What follows the last colon of the listen address, as a port, or 0. *)
Fixpoint last_part (acc s : string) : string :=
  match s with
  | EmptyString => acc
  | String c s' =>
      if ascii_val c =? 58 then last_part EmptyString s' else last_part (acc +:+ String c EmptyString) s'
  end.

Definition parse_u16 (s : string) : option Z :=
  let l := string_vals s in
  let digits := match l with c :: l' => if c =? 43 then l' else l | [] => [] end in
  match Host.span_digits digits with
  | (d :: ds, []) => let v := Host.digits_val (d :: ds) in if v <=? u16_max then Some v else None
  | _ => None
  end.

Definition stratum_port (listen_addr : string) : Z :=
  default 0 (parse_u16 (last_part EmptyString listen_addr)).

Record InfoView := mkInfo {
  i_version : string;
  i_stratum_port : Z;
  i_sv2_enabled : bool;
  i_sv2_authority_pubkey : option string;
  i_network : string;
  i_username_format : string
}.

Definition info_get (version listen_addr : string) (sv2_enabled : bool) (pubkey : option string)
    (network : string) : InfoView :=
  mkInfo version (stratum_port listen_addr) sv2_enabled pubkey network "YOUR_BTC_ADDRESS.worker".

(** ** Lemmas *)

(** Every range is served either in whole hours or from well inside the
    retention of the minute rows. *)
Lemma window_reads value :
  let w := chart_window value in
  (exists k, 0 < k /\ bucket_secs w = 3600 * k)
  \/ (0 < bucket_secs w <= 1800
      /\ exists d, duration_secs w = Some d /\ 0 <= d /\ d + 1800 <= LEDGER_FINE_RETENTION_SECS).
Proof.
  cbv zeta. unfold chart_window, window_1h, SNAPSHOT_INTERVAL_SECS, LEDGER_FINE_RETENTION_SECS.
  repeat case_bool_decide; cbn [bucket_secs duration_secs];
    first [ left; first [by exists 2 | by exists 12]
          | right; split; [lia|]; eexists; split; [reflexivity | lia] ].
Qed.

Lemma cutoff_before_range now0 now d b :
  0 < b -> now0 <= now -> 0 <= d -> d + b <= LEDGER_FINE_RETENTION_SECS ->
  rollup_cutoff now0 <= grid b (sat_sub now d).
Proof.
  intros Hb Hnow Hd Hr. unfold rollup_cutoff.
  change (hour_of (sat_sub now0 LEDGER_FINE_RETENTION_SECS))
    with (grid 3600 (sat_sub now0 LEDGER_FINE_RETENTION_SECS)).
  pose proof (grid_bounds 3600 (sat_sub now0 LEDGER_FINE_RETENTION_SECS) ltac:(lia)) as Hc.
  pose proof (grid_bounds b (sat_sub now d) Hb) as Hg.
  assert (0 <= grid b (sat_sub now d)) by (unfold grid; apply Z.mul_nonneg_nonneg;
    [apply Z.div_pos; unfold sat_sub; lia | lia]).
  unfold sat_sub in *. lia.
Qed.

(** The rollup is invisible to a range of [chart_window], at its own bucket or
    any coarser one below the half hour. *)
Lemma window_rollup d value bucket scope now now0 :
  now0 <= now -> bucket = bucket_secs (chart_window value) \/
                 bucket = Z.max (bucket_secs (chart_window value)) LEDGER_INTERVAL_SECS ->
  get_work_history (roll_up_ledger d now0) (range_since (chart_window value) now) bucket now scope
  = get_work_history d (range_since (chart_window value) now) bucket now scope.
Proof.
  intros Hnow Hb. apply get_work_history_rollup. unfold LEDGER_INTERVAL_SECS in Hb.
  destruct (window_reads value) as [(k & Hk & Ek)|(Hbk & dur & Hd & Hd0 & Hr)].
  - left. exists k. split; [done|]. rewrite Ek in Hb. lia.
  - right. unfold range_since. rewrite Hd. apply cutoff_before_range; [lia | done | done | lia].
Qed.

(** The row a canonical name is filed under is named by it. *)
Lemma row_name_canonical text label :
  split_once c_dot text = None -> label <> Some EmptyString ->
  row_name (worker_key (canonical_of text label)) = canonical_of text label
  /\ (worker_key (canonical_of text label)).1 = text.
Proof.
  intros Hd Hl. unfold worker_key, canonical_of. destruct label as [l|].
  - rewrite split_once_app by done. unfold row_name. cbn [fst snd].
    rewrite bool_decide_eq_false_2 by congruence. done.
  - rewrite Hd. unfold row_name. cbn [fst snd]. rewrite bool_decide_eq_true_2 by done.
    split; [|done]. clear Hd. induction text as [|c t IH]; [done|].
    change (String c t +:+ EmptyString) with (String c (t +:+ EmptyString)). by rewrite IH.
Qed.

Lemma split_identity_label raw a label : split_identity raw = Ok (a, label) -> label <> Some EmptyString.
Proof. unfold split_identity. repeat case_match; intros; by simplify_eq. Qed.

Lemma canonical_scope_identity `{AddressCodec} raw network n i :
  parse raw network n = Ok i -> canonical_scope_param raw network = Some (canonical_name i).
Proof.
  intros Hp. destruct (parse_Ok _ _ _ _ Hp) as (a & u & c & _ & Hs & Ha & Hr & Hi).
  unfold split_identity in Hs. unfold canonical_scope_param. rewrite Hi. cbn [canonical_name worker_label].
  destruct (split_once c_dot raw) as [[a' l]|].
  - destruct l; [done|]. injection Hs as -> Hl. rewrite Ha. cbn. rewrite Hr. cbn. by rewrite <- Hl.
  - injection Hs as -> Hl. rewrite Ha. cbn. rewrite Hr. cbn. by rewrite <- Hl.
Qed.

(** ** Properties *)

(** C29. Compacting the ledger never changes a chart: for every range the dashboard
    offers (and for an unknown one), both charts and the work history of every
    scope read the same from the tables before and after a rollup at any time up
    to now.  The retention of the minute rows covers every range finer than an
    hour, and coarser ranges add minute and hourly rows up on one grid.  Sums are
    those of integers, which SQLite's are while a column of the file comes to less
    than 2^63 ([History.sums_fit]). *)
Theorem charts_unaffected_by_rollup (avg : list f64 -> f64) (d : Db) (live : StatsSnapshot)
    (requested : option string) (kind : ChartKind) (scope : LedgerScope) (now now0 : Z) :
  now0 <= now ->
  rate_chart_response avg (Some (roll_up_ledger d now0)) live requested kind now
  = rate_chart_response avg (Some d) live requested kind now
  /\ work_points (Some (roll_up_ledger d now0)) requested scope now
     = work_points (Some d) requested scope now.
Proof.
  intros Hnow. split.
  - unfold rate_chart_response. destruct (source (chart_window requested)).
    + assert (meters (roll_up_ledger d now0) = meters d) as E
        by (unfold roll_up_ledger; by case_bool_decide).
      unfold decayed_history, get_hashrate_history, get_share_rate_history. by rewrite E.
    + unfold work_history_at. rewrite window_rollup; [done | done | by left].
  - unfold work_points, work_history_at. apply window_rollup; [done | by right].
Qed.

Lemma charts_unaffected_by_rollup_witness :
  work_points (Some (roll_up_ledger demo_ledger 900000)) (Some "30d"%string) SPool 900000
  = work_points (Some demo_ledger) (Some "30d"%string) SPool 900000.
Proof.
  apply (charts_unaffected_by_rollup (fun _ => f0) demo_ledger
    (snapshot (stats_new true 0 0) (node_new 0) 0) (Some "30d"%string) Hashrate_ SPool 900000 900000).
  lia.
Defined.

(** Asking for a miner's history by any spelling it can authorise with finds its
    rows and nobody else's: the parameter is rewritten to the canonical name the
    statistics are keyed on; the worker scope then selects, of all rows filed for
    authorised miners, exactly those of that canonical name, and the user scope
    exactly those that pay the same address. *)
Lemma work_scope_selects_own_rows `{AddressCodec} (raw raw' : string) (network : Network) (n n' : Z)
    (i i' : MinerIdentity) :
  parse raw network n = Ok i -> parse raw' network n' = Ok i' ->
  work_scope None (Some raw) network = Ok (SWorker (canonical_name i))
  /\ (in_scope (SWorker (canonical_name i)) (worker_key (canonical_name i')) = true
      <-> canonical_name i' = canonical_name i)
  /\ (in_scope (SUser (address (payout i))) (worker_key (canonical_name i')) = true
      <-> address (payout i') = address (payout i)).
Proof.
  intros Hp Hp'. split.
  - unfold work_scope. by rewrite (canonical_scope_identity _ _ _ _ Hp).
  - destruct (parse_Ok _ _ _ _ Hp') as (a & u & c & _ & Hs & _ & _ & Hi).
    destruct (row_name_canonical (address_to_string c) (worker_label i')) as [Hrow Haddr];
      [apply address_no_dot | by eapply split_identity_label|].
    assert (canonical_name i' = canonical_of (address_to_string c) (worker_label i')) as Hc
      by (by rewrite Hi at 1).
    assert (address (payout i') = address_to_string c) as Ha by (by rewrite Hi).
    unfold in_scope. rewrite !bool_decide_eq_true, Hc, Ha, Hrow, Haddr. done.
Qed.

Lemma work_scope_selects_own_rows_witness :
  exists i i',
    @parse demo_codec "BCRT1QDEMO.rig" Regtest 128 = Ok i
    /\ @parse demo_codec "bcrt1qdemo" Regtest 128 = Ok i'
    /\ @work_scope demo_codec None (Some "BCRT1QDEMO.rig"%string) Regtest = Ok (SWorker (canonical_name i))
    /\ (in_scope (SWorker (canonical_name i)) (worker_key (canonical_name i')) = true
        <-> canonical_name i' = canonical_name i).
Proof.
  do 2 eexists. split; [vm_compute; reflexivity|]. split; [vm_compute; reflexivity|].
  destruct (@work_scope_selects_own_rows demo_codec "BCRT1QDEMO.rig" "bcrt1qdemo" Regtest 128 128 _ _
    ltac:(vm_compute; reflexivity) ltac:(vm_compute; reflexivity)) as (H1 & H2 & _).
  split; [exact H1 | exact H2].
Defined.

(** The probe answers 200 exactly when work can be issued. *)
Lemma health_ok e now :
  (health e now).1 = STATUS_OK <-> is_blocked_on_rules e = false /\ is_template_fresh e now = true.
Proof. unfold health. destruct (is_blocked_on_rules e), (is_template_fresh e now); cbn; naive_solver. Qed.

Example ports : (stratum_port "0.0.0.0:3333", stratum_port "3333", stratum_port "[::]:70000") = (3333, 3333, 0).
Proof. vm_compute. reflexivity. Qed.

End Dashboard.
