(* ===== verification/Http.v ===== *)
(** * Http: the dashboard as a server ([src/network/dashboard.rs])

    [start] with every way it stays down, the state it builds, the table of routes
    and what each answers: status, content type, caching and body.  The handlers
    that compute JSON are in [Dashboard]; the page, the logos, the icon and the
    font are named constants of the binary.  The address is read as the standard
    library's [SocketAddr] reads it.  The reader of query strings is a class; the
    HTTP protocol itself is the library's. *)
From S2P Require Import Prelude Text F64 Host Json Errors Interfaces Target Rpc Hashrate Stats Store.
From S2P Require Import History Snapshot Security Identity Template Config Jobs Engine Node Dashboard.
Import Host Stats Store History Snapshot Identity Engine Dashboard.

Module Http.

(** ** [SocketAddr::from_str]

    A reader takes the characters left and gives a value with the rest. *)
Definition Reader (A : Type) : Type := list Z -> option (A * list Z).

Definition to_digit (radix c : Z) : option Z :=
  let d := if (48 <=? c) && (c <=? 57) then c - 48
           else if (97 <=? c) && (c <=? 122) then c - 87
           else if (65 <=? c) && (c <=? 90) then c - 55 else radix in
  if d <? radix then Some d else None.

(** The digits of a number not above [bound]: its value and how many there
    were. *)
Fixpoint read_digits (radix bound : Z) (max_digits : option nat) (result : Z) (count : nat) (l : list Z)
  : option (Z * nat * list Z) :=
  match l with
  | c :: l' =>
      match to_digit radix c with
      | Some d =>
          let r := result * radix + d in
          if bound <? r then None
          else if match max_digits with Some m => (m <? S count)%nat | None => false end then None
          else read_digits radix bound max_digits r (S count) l'
      | None => Some (result, count, l)
      end
  | [] => Some (result, count, [])
  end.

Definition read_number (radix bound : Z) (max_digits : option nat) (allow_zero_prefix : bool) : Reader Z :=
  fun l =>
    '(v, n, rest) ← read_digits radix bound max_digits 0 0 l;
    if (n =? 0)%nat then None
    else if negb allow_zero_prefix && bool_decide (head l = Some 48) && (1 <? n)%nat then None
    else Some (v, rest).

Definition read_char (c : Z) : Reader unit := fun l =>
  match l with
  | x :: l' => if x =? c then Some (tt, l') else None
  | [] => None
  end.

Definition read_separator {A} (sep : Z) (index : nat) (inner : Reader A) : Reader A := fun l =>
  match index with
  | O => inner l
  | S _ => '(_, l1) ← read_char sep l; inner l1
  end.

Definition octet : Reader Z := read_number 10 255 (Some 3%nat) false.

Definition read_ipv4_addr : Reader (list Z) := fun l =>
  '(a, l1) ← octet l;
  '(b, l2) ← read_separator 46 1 octet l1;
  '(c, l3) ← read_separator 46 2 octet l2;
  '(d, l4) ← read_separator 46 3 octet l3;
  Some ([a; b; c; d], l4).

(** [read_groups] over the slots [i], ... of [left] ones: the groups, and whether
    they end in an embedded IPv4 address. *)
Fixpoint read_groups (left i : nat) (l : list Z) : list Z * bool * list Z :=
  match left with
  | O => ([], false, l)
  | S left' =>
      let group :=
        match read_separator 58 i (read_number 16 65535 (Some 4%nat) true) l with
        | Some (g, l') => let '(gs, v4, rest) := read_groups left' (S i) l' in (g :: gs, v4, rest)
        | None => ([], false, l)
        end in
      match left', read_separator 58 i read_ipv4_addr l with
      | S _, Some ([a; b; c; d], l') => ([a * 256 + b; c * 256 + d], true, l')
      | _, _ => group
      end
  end.

Definition read_ipv6_addr : Reader (list Z) := fun l =>
  let '(head, head_ipv4, l1) := read_groups 8 0 l in
  if (length head =? 8)%nat then Some (head, l1)
  else if head_ipv4 : bool then None
  else
    '(_, l2) ← read_char 58 l1;
    '(_, l3) ← read_char 58 l2;
    let '(tail, _, l4) := read_groups (8 - (length head + 1)) 0 l3 in
    Some (head ++ replicate (8 - length head - length tail) 0 ++ tail, l4).

Definition read_scope_id : Reader Z := fun l =>
  '(_, l1) ← read_char 37 l; read_number 10 u32_max None true l1.

Definition read_port : Reader Z := fun l =>
  '(_, l1) ← read_char 58 l; read_number 10 u16_max None true l1.

Inductive SocketAddr : Type :=
| V4 (ip : list Z) (port : Z)
| V6 (groups : list Z) (scope_id port : Z).

Definition port_of (a : SocketAddr) : Z := match a with V4 _ p => p | V6 _ _ p => p end.

Definition read_socket_addr_v4 : Reader SocketAddr := fun l =>
  '(ip, l1) ← read_ipv4_addr l; '(port, l2) ← read_port l1; Some (V4 ip port, l2).

Definition read_socket_addr_v6 : Reader SocketAddr := fun l =>
  '(_, l1) ← read_char 91 l;
  '(groups, l2) ← read_ipv6_addr l1;
  let '(scope, l3) := default (0, l2) (read_scope_id l2) in
  '(_, l4) ← read_char 93 l3;
  '(port, l5) ← read_port l4;
  Some (V6 groups scope port, l5).

Definition parse_socket_addr (s : string) : option SocketAddr :=
  let l := string_vals s in
  match match read_socket_addr_v4 l with Some x => Some x | None => read_socket_addr_v6 l end with
  | Some (a, []) => Some a
  | _ => None
  end.

Example addrs :
  (parse_socket_addr "127.0.0.1:9090", parse_socket_addr "[::1]:80", parse_socket_addr "[1:2::1.2.3.4%7]:0443",
   parse_socket_addr "localhost:80", parse_socket_addr "01.2.3.4:80", parse_socket_addr "1.2.3.4:65536",
   parse_socket_addr "1.2.3.4")
  = (Some (V4 [127; 0; 0; 1] 9090), Some (V6 [0; 0; 0; 0; 0; 0; 0; 1] 0 80),
     Some (V6 [1; 2; 0; 0; 0; 0; 258; 772] 7 443), None, None, None, None).
Proof. vm_compute. reflexivity. Qed.

(** ** What is served *)

(** The constants compiled into the binary. *)
Inductive Asset : Type := DASHBOARD_HTML | FaviconIco | InterVariable | LOGO_DARK_SVG | LOGO_LIGHT_SVG.

Inductive Body : Type :=
| Static (a : Asset)
| Text_ (s : string)
| Js (v : Value)
| JsStats (x : StatsSnapshot)
| JsHistory (points : list (Z * f64))
| JsWork (points : list WorkPoint)
| JsInfo (i : InfoView)
| NoBody.

Record Response := mkResponse {
  status : Z;
  content_type : option string;
  cache_control : option string;
  body : Body
}.

(** [impl IntoResponse] of what the handlers return. *)
Definition with_type (ty : string) (b : Body) : Response := mkResponse STATUS_OK (Some ty) None b.
Definition json_response (status : Z) (b : Body) : Response :=
  mkResponse status (Some "application/json"%string) None b.
Definition text_response (status : Z) (text : string) : Response :=
  mkResponse status (Some "text/plain; charset=utf-8"%string) None (Text_ text).

Definition BAD_REQUEST : Z := 400.
Definition NOT_FOUND : Z := 404.
Definition METHOD_NOT_ALLOWED : Z := 405.

(** What [start] fixes for every request; the Prometheus handle is there when the
    recorder was installed. *)
Record DashState := mkDashState {
  d_prometheus : bool;
  d_network : string;
  d_stratum_port : Z;
  d_sv2_enabled : bool;
  d_sv2_authority_pubkey : option string
}.

(** What a request finds: the statistics with the figures about the node, the
    engine, the database, what the recorder renders, whether the blocking task
    finished, and the clocks. *)
Record Live := mkLive {
  l_stats : PoolStats;
  l_node : NodeFigures;
  l_engine : TemplateEngine;
  l_store : option Db;
  l_rendered : string;
  l_blocking_ok : bool;
  l_now : Instant;
  l_wall : Z
}.

(** The library's reader of a query string: a [u64] parameter or a text one by
    name; [None] is a rejected query. *)
Class UrlQuery := {
  query_u64 : string -> string -> option (option Z);
  query_text : string -> string -> option (option string)
}.

Section Routes.
Context `{AddressCodec} `{Q : UrlQuery}.
Variable avg : list f64 -> f64.
Variable version : string.

(** [spawn_blocking(..).await.unwrap_or_default()]: a query that panicked has no
    rows. *)
Definition rate_history (l : Live) : option Db := if l_blocking_ok l then l_store l else None.

Definition dashboard_html : Response := with_type "text/html; charset=utf-8" (Static DASHBOARD_HTML).
Definition favicon : Response := with_type "image/x-icon" (Static FaviconIco).
Definition font_inter : Response :=
  mkResponse STATUS_OK (Some "font/woff2"%string) (Some "public, max-age=31536000, immutable"%string)
    (Static InterVariable).
Definition logo_dark : Response := with_type "image/svg+xml" (Static LOGO_DARK_SVG).
Definition logo_light : Response := with_type "image/svg+xml" (Static LOGO_LIGHT_SVG).

Definition live_snapshot (l : Live) : StatsSnapshot := stats_json (l_stats l) (l_node l) (l_engine l) (l_now l).

Definition metrics_text (d : DashState) (l : Live) : Response :=
  if d_prometheus d then with_type "text/plain; version=0.0.4" (Text_ (l_rendered l))
  else text_response SERVICE_UNAVAILABLE "Prometheus metrics not enabled".

Definition health_response (l : Live) : Response :=
  let '(st, v) := health (l_engine l) (l_now l) in json_response st (Js v).

(** [Query(params)]: a query the reader rejects is answered 400. *)
Definition with_query {A} (r : option A) (k : A -> Response) : Response :=
  match r with
  | Some x => k x
  | None => text_response BAD_REQUEST "Failed to deserialize query string"
  end.

Definition history_route (l : Live) (q : string) : Response :=
  with_query (query_u64 q "since")
    (fun since => json_response STATUS_OK (JsHistory (history_json (rate_history l) since (l_wall l)))).

Definition chart_route (kind : ChartKind) (l : Live) (q : string) : Response :=
  with_query (query_text q "window") (fun w =>
    json_response STATUS_OK (Js (rate_chart_response avg (rate_history l)
      (snapshot (l_stats l) (l_node l) (l_now l)) w kind (l_wall l)))).

(** [None] is the panic of [bitcoin_network] on a name no chain has. *)
Definition work_route (d : DashState) (l : Live) (q : string) : option Response :=
  let answer n :=
    with_query (w ← query_text q "window"; u ← query_text q "user"; k ← query_text q "worker"; Some (w, u, k))
      (fun '(w, u, k) =>
         match work_json (rate_history l) w u k n (l_wall l) with
         | Ok points => json_response STATUS_OK (JsWork points)
         | Err text => text_response BAD_REQUEST text
         end) in
  answer <$> Node.bitcoin_network (d_network d).

Definition info_route (d : DashState) : Response :=
  json_response STATUS_OK
    (JsInfo (mkInfo version (d_stratum_port d) (d_sv2_enabled d) (d_sv2_authority_pubkey d)
       (d_network d) "YOUR_BTC_ADDRESS.worker")).

(** The router of [start]; a handler that panics answers nothing. *)
Definition Handler : Type := Live -> string -> option Response.

Definition routes (d : DashState) : list (string * Handler) :=
  [("/", fun _ _ => Some dashboard_html);
   ("/favicon.ico", fun _ _ => Some favicon);
   ("/fonts/inter.woff2", fun _ _ => Some font_inter);
   ("/logo-dark.svg", fun _ _ => Some logo_dark);
   ("/logo-light.svg", fun _ _ => Some logo_light);
   ("/stats", fun l _ => Some (json_response STATUS_OK (JsStats (live_snapshot l))));
   ("/history", fun l q => Some (history_route l q));
   ("/chart", fun l q => Some (chart_route Hashrate_ l q));
   ("/share-chart", fun l q => Some (chart_route ShareRate l q));
   ("/work", work_route d);
   ("/api/info", fun _ _ => Some (info_route d));
   ("/metrics", fun l _ => Some (metrics_text d l));
   ("/health", fun l _ => Some (health_response l))]%string.

Fixpoint find_route (path : string) (rs : list (string * Handler)) : option Handler :=
  match rs with
  | [] => None
  | (p, h) :: rs' => if bool_decide (p = path) then Some h else find_route path rs'
  end.

Inductive Method : Type := GET | HEAD | OtherMethod.

(** What axum makes of a request: a [get] route also answers HEAD, without the
    body. *)
Definition serve (d : DashState) (l : Live) (m : Method) (path query : string) : option Response :=
  match find_route path (routes d) with
  | None => Some (mkResponse NOT_FOUND None None NoBody)
  | Some h =>
      match m with
      | GET => h l query
      | HEAD => (fun r => mkResponse (status r) (content_type r) (cache_control r) NoBody) <$> h l query
      | OtherMethod => Some (mkResponse METHOD_NOT_ALLOWED None None NoBody)
      end
  end.

(** ** Start: not configured, not an address, not bound, or serving *)
Inductive Started : Type :=
| NotConfigured
| InvalidAddr
| BindFailed
| Serving (at_ : SocketAddr) (d : DashState).

Definition start (addr : string) (bind_ok : SocketAddr -> bool) (prometheus : bool) (network : string)
    (stratum_listen_addr : string) (sv2_enabled : bool) (sv2_authority_pubkey : option string) : Started :=
  if bool_decide (addr = EmptyString) then NotConfigured
  else
    match parse_socket_addr addr with
    | None => InvalidAddr
    | Some a =>
        if bind_ok a
        then Serving a (mkDashState prometheus network (stratum_port stratum_listen_addr) sv2_enabled
                          sv2_authority_pubkey)
        else BindFailed
    end.

(** [metrics::init]: the recorder is installed only with an address. *)
Definition METRIC_IDLE_TIMEOUT_SECS : Z := 86400.
Definition metrics_init (addr : string) (install_ok : bool) : bool :=
  if bool_decide (addr = EmptyString) then false else install_ok.

(** What [main] does of both. *)
Definition main_dashboard (c : Config.Config) (install_ok : bool) (bind_ok : SocketAddr -> bool)
    (network : string) (authority : option string) : Started :=
  let addr := Config.prometheus_addr (Config.metrics c) in
  start addr bind_ok (metrics_init addr install_ok) network (Config.listen_addr (Config.pool c))
    (Config.sv2_enabled (Config.sv2 c)) authority.
End Routes.

(** ** Lemmas *)

(** *** What a reader leaves is the end of what it was given *)
Definition leaves_suffix {A} (r : Reader A) : Prop := forall l x l', r l = Some (x, l') -> suffix l' l.

Lemma read_digits_suffix radix bound m l : forall r n v k l',
  read_digits radix bound m r n l = Some (v, k, l') -> suffix l' l.
Proof.
  induction l as [|c l IH]; intros r n v k l'; cbn [read_digits]; [by intros [= _ _ <-]|].
  destruct (to_digit radix c); [|by intros [= _ _ <-]]. cbv zeta.
  destruct (_ <? _); [done|]. case_match; [done|]. intros E. apply suffix_cons_r. by eapply IH.
Qed.

Lemma read_number_suffix radix bound m z : leaves_suffix (read_number radix bound m z).
Proof.
  intros l x l'. unfold read_number. cbn.
  destruct (read_digits _ _ _ _ _ _) as [[[v n] rest]|] eqn:E; cbn; [|done].
  repeat (case_match; [done|]). intros [= _ <-]. by eapply read_digits_suffix.
Qed.

Lemma read_char_suffix c : leaves_suffix (read_char c).
Proof. intros [|x l] [] l'; cbn; [done|]. case_match; [|done]. intros [= <-]. by exists [x]. Qed.

Lemma then_suffix {A B} (r : Reader A) (f : A -> Reader B) :
  leaves_suffix r -> (forall a, leaves_suffix (f a)) ->
  leaves_suffix (fun l => '(a, l1) ← r l; f a l1).
Proof.
  intros Hr Hf l x l'. cbn. destruct (r l) as [[a l1]|] eqn:E; cbn; [|done].
  intros Hx. etrans; [by eapply Hf | by eapply Hr].
Qed.

Lemma give_suffix {A} (a : A) : leaves_suffix (fun l => Some (a, l)).
Proof. by intros l x l' [= _ <-]. Qed.

Lemma read_separator_suffix {A} sep i (r : Reader A) : leaves_suffix r -> leaves_suffix (read_separator sep i r).
Proof. intros Hr. destruct i; [exact Hr|]. apply then_suffix; [apply read_char_suffix | done]. Qed.

Create HintDb readers.
#[export] Hint Resolve read_number_suffix read_char_suffix give_suffix read_separator_suffix : readers.

Lemma read_ipv4_addr_suffix : leaves_suffix read_ipv4_addr.
Proof.
  unfold read_ipv4_addr, octet.
  repeat (apply then_suffix; [by eauto with readers | intros ?]). apply give_suffix.
Qed.
#[export] Hint Resolve read_ipv4_addr_suffix : readers.

Lemma read_groups_suffix left : forall i l, suffix (read_groups left i l).2 l.
Proof.
  induction left as [|left IH]; intros i l; cbn [read_groups]; [done|].
  assert (Hg : forall x l', read_separator 58 i (read_number 16 65535 (Some 4%nat) true) l = Some (x, l') -> suffix l' l)
    by (apply read_separator_suffix, read_number_suffix).
  assert (H4 : forall x l', read_separator 58 i read_ipv4_addr l = Some (x, l') -> suffix l' l)
    by (apply read_separator_suffix, read_ipv4_addr_suffix).
  set (group := match read_separator 58 i (read_number 16 _ _ _) l with Some _ => _ | None => _ end).
  assert (suffix group.2 l).
  { unfold group. destruct (read_separator 58 i (read_number _ _ _ _) l) as [[g l']|]; [|done].
    specialize (IH (S i) l'). destruct (read_groups left (S i) l') as [[gs v4] rest]. cbn in *.
    etrans; [exact IH | by eapply Hg]. }
  destruct left as [|left']; [done|].
  destruct (read_separator 58 i read_ipv4_addr l) as [[ip l']|] eqn:E; [|done].
  destruct ip as [|? [|? [|? [|? [|]]]]]; try done. by eapply H4.
Qed.

Lemma read_ipv6_addr_suffix : leaves_suffix read_ipv6_addr.
Proof.
  intros l x l'. unfold read_ipv6_addr. pose proof (read_groups_suffix 8 0 l) as Hh.
  destruct (read_groups 8 0 l) as [[h v4] l1]. cbn [snd] in Hh.
  case_match; [by intros [= _ <-]|]. destruct v4; [done|]. intros Hr. etrans; [|exact Hh]. revert Hr.
  apply (then_suffix (read_char 58) (fun _ l2 => '(_, l3) ← read_char 58 l2;
    let '(tail, _, l4) := read_groups (8 - (length h + 1)) 0 l3 in
    Some (h ++ replicate (8 - length h - length tail) 0 ++ tail, l4))); [apply read_char_suffix|].
  intros _. apply then_suffix; [apply read_char_suffix|]. intros _ m y m'.
  pose proof (read_groups_suffix (8 - (length h + 1)) 0 m) as Ht.
  destruct (read_groups (8 - (length h + 1)) 0 m) as [[t v] l4]. by intros [= _ <-].
Qed.

(** *** The port of an address *)
Lemma to_digit_decimal c d : to_digit 10 c = Some d -> is_digit c = true /\ d = c - 48.
Proof.
  unfold to_digit, is_digit, within. cbv zeta. intros Hd.
  repeat case_match; simplify_eq; lia.
Qed.

Lemma read_digits_all bound l : forall r n v k,
  read_digits 10 bound None r n l = Some (v, k, []) ->
  Forall (fun c => is_digit c = true) l /\ v = fold_left (fun acc d => acc * 10 + d) ((fun c => c - 48) <$> l) r
  /\ k = (n + length l)%nat /\ (l = [] \/ v <= bound).
Proof.
  induction l as [|c l IH]; intros r n v k; cbn [read_digits].
  - intros [= <- <-]. cbn. split; [constructor|]. split; [done|]. split; [lia | by left].
  - destruct (to_digit 10 c) as [d|] eqn:Ed; [|done]. apply to_digit_decimal in Ed as [Hd ->]. cbv zeta.
    destruct (bound <? _) eqn:Eb; [done|]. intros E. destruct (IH _ _ _ _ E) as (Hf & Hv & Hk & Hl).
    split; [by constructor|]. split; [done|]. split; [cbn; lia|]. right.
    destruct Hl as [->|Hl]; [|done]. cbn in Hv. subst v. apply Z.ltb_ge in Eb. lia.
Qed.

Lemma read_port_all l p : read_port l = Some (p, []) ->
  exists c ds, l = 58 :: c :: ds /\ Forall (fun c => is_digit c = true) (c :: ds)
    /\ p = digits_val ((fun c => c - 48) <$> c :: ds) /\ p <= u16_max.
Proof.
  unfold read_port, read_number. destruct l as [|x l]; [done|]. cbn [read_char].
  destruct (x =? 58) eqn:Ex; [|done]. apply Z.eqb_eq in Ex as ->. cbn [mbind option_bind].
  destruct (read_digits 10 u16_max None 0 0 l) as [[[v n] rest]|] eqn:E; cbn [mbind option_bind]; [|done].
  destruct (n =? 0)%nat eqn:En; [done|]. cbn [negb andb]. intros [= -> ->].
  destruct (read_digits_all _ _ _ _ _ _ E) as (Hf & Hv & Hk & Hl). apply Nat.eqb_neq in En.
  destruct l as [|c ds]; [cbn in Hk; lia|]. exists c, ds. split; [done|]. split; [done|]. split; [done|].
  by destruct Hl.
Qed.

Lemma read_socket_addr_v4_port l a l' : read_socket_addr_v4 l = Some (a, l') ->
  exists l1, suffix l1 l /\ read_port l1 = Some (port_of a, l').
Proof.
  unfold read_socket_addr_v4. destruct (read_ipv4_addr l) as [[ip l1]|] eqn:E1; cbn [mbind option_bind]; [|done].
  destruct (read_port l1) as [[p l2]|] eqn:E2; cbn [mbind option_bind]; [|done]. intros [= <- <-].
  exists l1. split; [by eapply read_ipv4_addr_suffix | done].
Qed.

Lemma read_scope_id_suffix : leaves_suffix read_scope_id.
Proof. unfold read_scope_id. apply then_suffix; [apply read_char_suffix | intros _; apply read_number_suffix]. Qed.

Lemma read_socket_addr_v6_port l a l' : read_socket_addr_v6 l = Some (a, l') ->
  exists l4, suffix l4 l /\ read_port l4 = Some (port_of a, l').
Proof.
  unfold read_socket_addr_v6. intros ([[] l1] & E1 & ([g l2] & E2 & E)%bind_Some)%bind_Some.
  destruct (default (0, l2) (read_scope_id l2)) as [scope l3] eqn:E3.
  apply bind_Some in E as ([[] l4] & E4 & ([p l5] & E5 & [= <- <-])%bind_Some).
  exists l4. split; [|done].
  assert (suffix l3 l2) as H3.
  { destruct (read_scope_id l2) as [[sc m]|] eqn:Es; injection E3 as <- <-; [|done].
    exact (read_scope_id_suffix _ _ _ Es). }
  pose proof (read_char_suffix _ _ _ _ E1) as H1. pose proof (read_ipv6_addr_suffix _ _ _ E2) as H2.
  pose proof (read_char_suffix _ _ _ _ E4) as H4.
  exact (transitivity H4 (transitivity H3 (transitivity H2 H1))).
Qed.

Lemma parse_socket_addr_port s a : parse_socket_addr s = Some a ->
  exists pre l, string_vals s = pre ++ l /\ read_port l = Some (port_of a, []).
Proof.
  unfold parse_socket_addr. intros E.
  assert (exists l, suffix l (string_vals s) /\ read_port l = Some (port_of a, [])) as (l & [pre Hs] & Hp);
    [|by exists pre, l].
  destruct (read_socket_addr_v4 (string_vals s)) as [[b [|]]|] eqn:E4; try done.
  - injection E as ->. by apply read_socket_addr_v4_port.
  - destruct (read_socket_addr_v6 (string_vals s)) as [[b [|]]|] eqn:E6; try done.
    injection E as ->. by apply read_socket_addr_v6_port.
Qed.

Lemma string_vals_cons c s : string_vals (String c s) = ascii_val c :: string_vals s.
Proof.
  unfold string_vals. cbn. f_equal. rewrite byte_val_of. apply Z.mod_small.
  unfold ascii_val. pose proof (Ascii.N_ascii_bounded c). lia.
Qed.

Lemma last_part_no_colon s : forall acc, 58 ∉ string_vals s -> last_part acc s = acc +:+ s.
Proof.
  induction s as [|c s IH]; intros acc Hn; cbn [last_part].
  - induction acc as [|x acc IHa]; [done|]. exact (f_equal (String x) IHa).
  - rewrite string_vals_cons, not_elem_of_cons in Hn. destruct Hn as [Hc Hn].
    destruct (ascii_val c =? 58) eqn:E; [apply Z.eqb_eq in E; by rewrite E in Hc|].
    rewrite (IH _ Hn). clear. induction acc as [|x acc IHa]; [done|]. exact (f_equal (String x) IHa).
Qed.

Lemma last_part_vals s : forall acc pre ds,
  string_vals s = pre ++ 58 :: ds -> 58 ∉ ds -> string_vals (last_part acc s) = ds.
Proof.
  induction s as [|c s IH]; intros acc pre ds E Hn; [by destruct pre|].
  rewrite string_vals_cons in E. cbn [last_part].
  destruct pre as [|x pre]; injection E as Ex Es; [|case_match; by eapply IH].
  rewrite Ex. cbn. rewrite last_part_no_colon; [done | by rewrite Es].
Qed.

Lemma span_digits_all l : Forall (fun c => is_digit c = true) l -> span_digits l = ((fun c => c - 48) <$> l, []).
Proof. induction 1 as [|c l Hc _ IH]; [done|]. cbn. by rewrite Hc, IH. Qed.

Lemma digits_no_colon l : Forall (fun c => is_digit c = true) l -> 58 ∉ l.
Proof. intros Hf Hin. rewrite Forall_forall in Hf. by specialize (Hf _ Hin). Qed.

Lemma parse_u16_digits c ds : Forall (fun c => is_digit c = true) (c :: ds) ->
  digits_val ((fun c => c - 48) <$> c :: ds) <= u16_max ->
  forall s, string_vals s = c :: ds -> parse_u16 s = Some (digits_val ((fun c => c - 48) <$> c :: ds)).
Proof.
  intros Hf Hb s E. unfold parse_u16. rewrite E. cbv zeta.
  assert ((c =? 43) = false) as ->.
  { inversion_clear Hf as [|? ? Hc _]. unfold is_digit, within in Hc. lia. }
  rewrite (span_digits_all _ Hf). cbn [fmap list_fmap] in *. rewrite (proj2 (Z.leb_le _ _) Hb). done.
Qed.

(** Whenever the listen address is a socket address, the Connect page shows its
    port. *)
Lemma connect_page_shows_the_port (s : string) (a : SocketAddr) :
  parse_socket_addr s = Some a -> stratum_port s = port_of a.
Proof.
  intros Ha. destruct (parse_socket_addr_port s a Ha) as (pre & l & Es & Hp).
  destruct (read_port_all l _ Hp) as (c & ds & -> & Hf & Hv & Hb).
  unfold stratum_port. rewrite Hv in Hb.
  rewrite (parse_u16_digits c ds Hf Hb); [by rewrite Hv|].
  eapply last_part_vals; [exact Es | by apply digits_no_colon].
Qed.

(** *** Which status a request gets *)
Section Status.
Context `{AddressCodec} `{Q : UrlQuery}.
Variable avg : list f64 -> f64.
Variable version : string.

Abbreviation served := (serve avg version).

Definition paths : list string :=
  ["/"; "/favicon.ico"; "/fonts/inter.woff2"; "/logo-dark.svg"; "/logo-light.svg"; "/stats"; "/history";
   "/chart"; "/share-chart"; "/work"; "/api/info"; "/metrics"; "/health"]%string.

Lemma find_route_None path (rs : list (string * Handler)) : find_route path rs = None <-> path ∉ rs.*1.
Proof.
  induction rs as [|[p h] rs IH]; cbn [find_route fmap list_fmap fst].
  - split; [intros _; apply not_elem_of_nil | done].
  - rewrite not_elem_of_cons. case_bool_decide; naive_solver.
Qed.

(** The requests that are refused: the query does not read, or the scope of
    [/work] is no address of the network. *)
Definition bad_request (d : DashState) (path q : string) : Prop :=
  (path = "/history" /\ query_u64 q "since" = None)
  \/ ((path = "/chart" \/ path = "/share-chart") /\ query_text q "window" = None)
  \/ (path = "/work"
      /\ (query_text q "window" = None \/ query_text q "user" = None \/ query_text q "worker" = None
          \/ exists u k n e, query_text q "user" = Some u /\ query_text q "worker" = Some k
                /\ Node.bitcoin_network (d_network d) = Some n /\ work_scope u k n = Err e)).

(** The requests that find the pool unwell. *)
Definition unavailable (d : DashState) (l : Live) (path : string) : Prop :=
  (path = "/metrics" /\ d_prometheus d = false)
  \/ (path = "/health" /\ (is_blocked_on_rules (l_engine l) = true
                           \/ is_template_fresh (l_engine l) (l_now l) = false)).

Lemma find_route_Some path (rs : list (string * Handler)) h :
  find_route path rs = Some h -> (path, h) ∈ rs.
Proof.
  induction rs as [|[p g] rs IH]; cbn [find_route]; [done|].
  case_bool_decide as E; [intros [= <-]; subst; by left | intros Hf; right; auto].
Qed.

Lemma health_status l :
  status (health_response l) = STATUS_OK
    /\ ~ (is_blocked_on_rules (l_engine l) = true \/ is_template_fresh (l_engine l) (l_now l) = false)
  \/ status (health_response l) = SERVICE_UNAVAILABLE
    /\ (is_blocked_on_rules (l_engine l) = true \/ is_template_fresh (l_engine l) (l_now l) = false).
Proof.
  unfold health_response, health. cbv zeta.
  destruct (is_blocked_on_rules _), (is_template_fresh _ _); cbn; naive_solver.
Qed.

(** A route's answer is in its class: which disjunct, then by cases. *)
Ltac in_class :=
  unfold bad_request, unavailable;
  let out := (intros Hx; destruct_or?; destruct_and?; first [discriminate | congruence | naive_solver]) in
  first [ right; right; split; [out | split; [out | reflexivity]]
        | left; split; [naive_solver | reflexivity]
        | right; left; split; [naive_solver | reflexivity] ].

(** Each route, for a state whose network has a name. *)
Lemma route_status d l path q n h :
  Node.bitcoin_network (d_network d) = Some n -> (path, h) ∈ routes avg version d ->
  exists r, h l q = Some r
    /\ (bad_request d path q /\ status r = BAD_REQUEST
        \/ unavailable d l path /\ status r = SERVICE_UNAVAILABLE
        \/ ~ bad_request d path q /\ ~ unavailable d l path /\ status r = STATUS_OK).
Proof.
  intros Hn Hin. unfold routes in Hin.
  repeat (apply elem_of_cons in Hin as [[= -> ->]|Hin]); [.. | by apply not_elem_of_nil in Hin].
  1-6,11: eexists; split; [reflexivity|]; in_class.
  - eexists; split; [reflexivity|]. unfold history_route, with_query.
    destruct (query_u64 q "since") eqn:E; in_class.
  - eexists; split; [reflexivity|]. unfold chart_route, with_query.
    destruct (query_text q "window") eqn:E; in_class.
  - eexists; split; [reflexivity|]. unfold chart_route, with_query.
    destruct (query_text q "window") eqn:E; in_class.
  - unfold work_route. cbv zeta. rewrite Hn. cbn [fmap option_fmap option_map].
    eexists; split; [reflexivity|]. unfold with_query.
    destruct (query_text q "window") as [w|] eqn:Ew; cbn [mbind option_bind];
      [|in_class].
    destruct (query_text q "user") as [u|] eqn:Eu; cbn [mbind option_bind];
      [|in_class].
    destruct (query_text q "worker") as [k|] eqn:Ek; cbn [mbind option_bind];
      [|in_class].
    unfold work_json. destruct (work_scope u k n) as [sc|e] eqn:Es; cbn.
    + right; right. split_and!; [|unfold unavailable; intros [[? _]|[? _]]; simplify_eq | reflexivity].
      intros [[? _]|[[[?|?] _]|[_ [?|[?|[?|(u' & k' & n' & e' & ? & ? & ? & ?)]]]]]]; simplify_eq; congruence.
    + left. split; [|done]. right; right. split; [done|]. right; right; right. by exists u, k, n, e.
  - eexists; split; [reflexivity|]. unfold metrics_text.
    destruct (d_prometheus d) eqn:E; in_class.
  - eexists; split; [reflexivity|].
    destruct (health_status l) as [[-> Hh]|[-> Hh]]; in_class.
Qed.

(** A started dashboard answers every request: a path outside the table is not
    found, another method than GET and HEAD not allowed, a query that does not
    read or scope is refused, the two probes say when the pool is unwell, and
    everything else is served. No handler panics, because the network passed
    [settings_new]. *)
Lemma dashboard_answers_every_request (c : Config.Config) (install_ok : bool) (bind_ok : SocketAddr -> bool)
    (chain network : string) (authority : option string) (a : SocketAddr) (d : DashState) :
  Node.settings_new (Config.pool c) chain = Ok network ->
  main_dashboard c install_ok bind_ok network authority = Serving a d ->
  forall l m path q, exists r, served d l m path q = Some r
    /\ (path ∉ paths -> status r = NOT_FOUND)
    /\ (path ∈ paths -> m = OtherMethod -> status r = METHOD_NOT_ALLOWED)
    /\ (path ∈ paths -> m <> OtherMethod ->
        bad_request d path q /\ status r = BAD_REQUEST
        \/ unavailable d l path /\ status r = SERVICE_UNAVAILABLE
        \/ ~ bad_request d path q /\ ~ unavailable d l path /\ status r = STATUS_OK).
Proof.
  intros Hs Hm l m path q. destruct (Node.settings_network _ _ _ Hs) as [[n Hn] _].
  assert (d_network d = network) as Ed.
  { revert Hm. unfold main_dashboard, start. case_bool_decide; [done|].
    destruct (parse_socket_addr _) as [b|]; [|done]. destruct (bind_ok b); [|done]. by intros [= <- <-]. }
  rewrite <- Ed in Hn. unfold serve. destruct (find_route path (routes avg version d)) as [h|] eqn:E.
  - pose proof (find_route_Some _ _ _ E) as Hin.
    assert (path ∈ paths) as Hp by exact (list_elem_of_fmap_2 fst _ _ Hin).
    destruct (route_status d l path q n h Hn Hin) as (r & Hr & Hc).
    destruct m.
    + exists r. split; [done|]. split; [done|]. split; [done|]. by intros _ _.
    + rewrite Hr. eexists. split; [reflexivity|]. split; [done|]. split; [done|]. by intros _ _.
    + eexists. split; [reflexivity|]. split; [done|]. by split.
  - apply find_route_None in E. eexists. split; [reflexivity|]. split; [done|].
    split; intros Hp; by destruct E.
Qed.

(** The probe and the page tell the same story at one moment. *)
Lemma probe_agrees_with_stats l :
  status (health_response l) = STATUS_OK
  <-> sn_template_fresh (live_snapshot l) = true /\ sn_rules_block_work (live_snapshot l) = false.
Proof.
  unfold health_response, health, live_snapshot, stats_json. cbv zeta.
  cbn [sn_template_fresh sn_rules_block_work].
  destruct (is_blocked_on_rules _), (is_template_fresh _ _); cbn; naive_solver.
Qed.
End Status.
End Http.
