(* ===== verification/Page.v ===== *)
(** * Page: what the dashboard's script decides ([src/network/dashboard.rs])

    The functions of the page's script that turn the answers of the server into a
    verdict or a text: the stored range and legend, the status lights, the counts,
    the node card, durations, the next adjustment, reject labels and HTML escaping.
    A JavaScript number is an IEEE double; integers below 2^53 are written as
    integers, with [%] truncating and [Math.floor] flooring. Drawing, fetching and
    number formatting ([toFixed], [toLocaleString]) are the browser's. *)
From Stdlib Require Import Ascii.
From stdpp Require Import sorting.
From S2P Require Import Prelude Text F64 Rounding Host Json Errors Interfaces Target Rpc Hashrate Stats Store.
From S2P Require Import History Snapshot Security Accounting Identity Template Config Jobs Engine Dashboard.
Import Rounding Stats Store History Snapshot Accounting Identity Dashboard.

Module Page.

(** ** Ranges and legends *)
Definition DEFAULT_WINDOW : string := "1h".
Definition WINDOWS : list string := ["1h"; "6h"; "24h"; "1w"; "30d"; "180d"; "all"]%string.

(** [storedWindow]: what local storage held, if it is a range. *)
Definition storedWindow (stored : option string) : string :=
  match stored with
  | Some w => if bool_decide (w ∈ WINDOWS) then w else DEFAULT_WINDOW
  | None => DEFAULT_WINDOW
  end.

Definition LEGEND_SERIES : list string := ["1m"; "5m"; "10m"; "1h"; "6h"; "24h"; "avg"]%string.

(** [storedLegend]: the known series among the stored toggles; [None] when none
    is usable. *)
Definition storedLegend (raw : option (list (string * Value))) : option (list (string * bool)) :=
  match raw with
  | None => None
  | Some o =>
      match omap (fun name => match value_get (VObject o) name with
                              | Some (VBool b) => Some (name, b)
                              | _ => None
                              end) LEGEND_SERIES with
      | [] => None
      | out => Some out
      end
  end.

(** ** Worker lights *)
Definition DEGRADED_SECS : Z := 120.
Definition DEGRADED_INTERVALS : Z := 5.

Definition worker_online (w : WorkerRow) : bool := ws_online (wr_state w).
Definition last_submit (w : WorkerRow) : Z := ws_last_submit_ts (wr_state w).

(** [w.hashrate_3h_hps || 0]: a rate that is not finite arrives as null. *)
Definition hashrate_3h (w : WorkerRow) : f64 :=
  let h := default f0 (wr_hps w !! 4%nat) in
  if is_finite h then (if (h =? f0)%f64 then f0 else h) else f0.

Definition workerBaselineHps (w : WorkerRow) : f64 :=
  if worker_online w && (0 <? last_submit w) then hashrate_3h w else f0.

Definition js_max (a b : f64) : f64 :=
  if is_nan a || is_nan b then fnan else if (a <? b)%f64 then b else a.

Definition isDegraded (w : WorkerRow) (nowSec : Z) : bool :=
  let baseHps := workerBaselineHps w in
  if (baseHps <=? f0)%f64 then false
  else
    let expected := (f64_of_Z (ws_current_vardiff (wr_state w)) * f64_of_Z (2 ^ 32) / baseHps)%f64 in
    let silentFor := f64_of_Z (nowSec - last_submit w) in
    (js_max (f64_of_Z DEGRADED_SECS) (f64_of_Z DEGRADED_INTERVALS * expected)%f64 <? silentFor)%f64.

Inductive Led : Type := led_off | led_warn | led_on.
#[export] Instance Led_eq_dec : EqDecision Led.
Proof. solve_decision. Defined.

Definition workerLed (w : WorkerRow) (nowSec : Z) : Led :=
  if negb (worker_online w) then led_off else if isDegraded w nowSec then led_warn else led_on.

(** The counts above the table. *)
Definition count_if {A} (f : A -> bool) (l : list A) : nat := length (List.filter f l).
Definition onlineCount (ws : list WorkerRow) : nat := count_if worker_online ws.
Definition offlineCount (ws : list WorkerRow) : nat := count_if (fun w => negb (worker_online w)) ws.
Definition degradedCount (ws : list WorkerRow) (nowSec : Z) : nat := count_if (fun w => isDegraded w nowSec) ws.

(** [worker.split('.')[1]], or the whole name when it has no dot. *)
Definition workerName (worker : string) : string :=
  match split_once c_dot worker with
  | None => worker
  | Some (_, rest) => match split_once c_dot rest with Some (label, _) => label | None => rest end
  end.

(** ** Durations *)
Definition fmtUptime (secs : Z) : string :=
  let d := secs / 86400 in
  let h := Z.rem secs 86400 / 3600 in
  let m := Z.rem secs 3600 / 60 in
  let s := Z.rem secs 60 in
  if negb (d =? 0) then pretty d +:+ "d " +:+ pretty h +:+ "h"
  else if negb (h =? 0) then pretty h +:+ "h " +:+ pretty m +:+ "m"
  else if negb (m =? 0) then pretty m +:+ "m " +:+ pretty s +:+ "s"
  else pretty s +:+ "s".

Definition blocksLeft (height : Z) : Z := 2016 - height mod 2016.

Definition fmtNextAdjustment (height : Z) : string :=
  if height <=? 0 then "—"
  else
    let secs := blocksLeft height * 600 in
    let d := secs / 86400 in
    let h := Z.rem secs 86400 / 3600 in
    let eta := if 0 <? d then pretty d +:+ "d " +:+ pretty h +:+ "h" else pretty h +:+ "h" in
    "~" +:+ eta +:+ " (" +:+ pretty (blocksLeft height) +:+ " blk)".

(** ** The node card *)
Definition KNOWN_BIPS : list (Z * string) := [(4, "BIP110"%string)].

Definition bip_tag (bit : Z) : string :=
  match List.find (fun b => b.1 =? bit) KNOWN_BIPS with
  | Some b => b.2
  | None => "bit " +:+ pretty bit
  end.

(** One tag per set version bit from 0 to 28. *)
Definition bip_tags (version : Z) : list string :=
  bip_tag <$> List.filter (fun bit => Z.testbit version bit) (seqZ 0 29).

Definition rpcLed (age : option Z) (template_fresh : bool) : Led * string :=
  match age with
  | None => (led_off, "rpc: connecting"%string)
  | Some a =>
      if 90 <? a then (led_off, "rpc: disconnected"%string)
      else if negb template_fresh then (led_warn, "rpc: degraded"%string)
      else (led_on, "rpc: connected"%string)
  end.

(** ** Rejects and text *)
Definition REJECT_LABELS : list (string * string) :=
  [("stale", "stale"); ("duplicate", "duplicate"); ("low_difficulty", "low diff");
   ("job_not_found", "unknown job"); ("bad_extranonce", "bad extranonce"); ("invalid", "invalid");
   ("unauthorized", "unauthorized")]%string.

Definition rejectLabel (reason : string) : string :=
  match List.find (fun l => bool_decide (l.1 = reason)) REJECT_LABELS with
  | Some l => l.2
  | None => reason
  end.

(** [sort((a, b) => b[1] - a[1])], which is stable. *)
Fixpoint insert_count (x : string * Z) (l : list (string * Z)) : list (string * Z) :=
  match l with
  | [] => [x]
  | y :: l' => if y.2 <=? x.2 then x :: l else y :: insert_count x l'
  end.
Definition sort_counts (l : list (string * Z)) : list (string * Z) := foldr insert_count [] l.

(** The parts of a tooltip: positive counts, largest first. *)
Definition reject_parts (reasons : list (string * Z)) : list (string * Z) :=
  (fun rn => (rejectLabel rn.1, rn.2)) <$> sort_counts (List.filter (fun rn => 0 <? rn.2) reasons).

(** [s.replace(/c/g, by)]. *)
Fixpoint replace_all (c : Z) (by_ : string) (s : string) : string :=
  match s with
  | EmptyString => EmptyString
  | String x s' => if ascii_val x =? c then by_ +:+ replace_all c by_ s' else String x (replace_all c by_ s')
  end.

Definition escHtml (s : string) : string :=
  replace_all 62 "&gt;" (replace_all 60 "&lt;" (replace_all 38 "&amp;" s)).

(** ** Lemmas *)
#[export] Instance ChartSource_eq_dec : EqDecision ChartSource.
Proof. solve_decision. Defined.
#[export] Instance ChartWindow_eq_dec : EqDecision ChartWindow.
Proof. solve_decision. Defined.

(** The page offers exactly the ranges the server tells apart; every other
    request is served as the default one. *)
Lemma ranges_agree :
  NoDup (chart_window ∘ Some <$> WINDOWS)
  /\ (forall stored, storedWindow stored ∈ WINDOWS)
  /\ (forall v, v ∉ WINDOWS -> chart_window (Some v) = chart_window (Some DEFAULT_WINDOW)).
Proof.
  split; [|split].
  - apply (bool_decide_unpack _). vm_compute. exact I.
  - intros [w|]; cbn; [case_bool_decide; [done|]|]; by left.
  - intros v Hv. unfold WINDOWS in Hv. repeat (apply not_elem_of_cons in Hv as [? Hv]).
    unfold chart_window. cbn [default]. by rewrite !bool_decide_false by done.
Qed.

Definition series_names (option_ : Value) : list string :=
  match value_get option_ "series" with
  | Some (VArray l) => omap (fun s => match value_get s "name" with Some (VString n) => Some n | _ => None end) l
  | _ => []
  end.

(** The legend the page keeps covers the series of every chart. *)
Lemma legends_agree history points kind :
  series_names (build_decayed_chart_option history) = reverse (take 6 LEGEND_SERIES)
  /\ series_names (build_ledger_chart_option points kind) = drop 6 LEGEND_SERIES.
Proof. split; reflexivity. Qed.

Lemma storedLegend_known raw out : storedLegend raw = Some out ->
  out <> [] /\ forall name b, (name, b) ∈ out -> name ∈ LEGEND_SERIES.
Proof.
  unfold storedLegend. destruct raw as [o|]; [|done].
  destruct (omap _ LEGEND_SERIES) as [|x l] eqn:E; [done|]. intros [= <-]. split; [done|].
  intros name b Hin. rewrite <- E in Hin. apply list_elem_of_omap in Hin as (n & Hn & Hx).
  destruct (value_get _ n) as [[]|]; simplify_eq; done.
Qed.

(** A worker is counted online or offline, and degraded only when online; the
    light says which. *)
Lemma degraded_online w now : isDegraded w now = true -> worker_online w = true /\ 0 < last_submit w.
Proof.
  unfold isDegraded, workerBaselineHps. cbv zeta.
  destruct (worker_online w); [|done]. destruct (Z.ltb_spec 0 (last_submit w)); done.
Qed.

Lemma count_if_split {A} (f g h : A -> bool) l :
  (forall x, Nat.b2n (f x) = (Nat.b2n (g x) + Nat.b2n (h x))%nat) ->
  count_if f l = (count_if g l + count_if h l)%nat.
Proof.
  intros Hx. unfold count_if. induction l as [|x l IH]; [done|]. cbn [List.filter]. specialize (Hx x).
  destruct (f x), (g x), (h x); cbn in *; lia.
Qed.

Lemma count_if_true {A} (l : list A) : count_if (fun _ => true) l = length l.
Proof. unfold count_if. induction l as [|x l IH]; [done|]. cbn. by rewrite IH. Qed.

Lemma lights_and_counts ws now :
  length ws = (onlineCount ws + offlineCount ws)%nat
  /\ onlineCount ws
     = (count_if (fun w => bool_decide (workerLed w now = led_on)) ws + degradedCount ws now)%nat
  /\ degradedCount ws now = count_if (fun w => bool_decide (workerLed w now = led_warn)) ws
  /\ offlineCount ws = count_if (fun w => bool_decide (workerLed w now = led_off)) ws.
Proof.
  rewrite <- count_if_true. split; [|split; [|split]].
  - apply count_if_split. intros w. by destruct (worker_online w).
  - apply count_if_split. intros w. unfold workerLed. pose proof (degraded_online w now) as Hd.
    destruct (isDegraded w now); [destruct (Hd eq_refl) as [-> _]; reflexivity|].
    by destruct (worker_online w).
  - unfold degradedCount, count_if. f_equal. apply filter_ext. intros w. unfold workerLed.
    pose proof (degraded_online w now) as Hd.
    destruct (isDegraded w now); [destruct (Hd eq_refl) as [-> _]; reflexivity|].
    by destruct (worker_online w).
  - unfold offlineCount, count_if. f_equal. apply filter_ext. intros w. unfold workerLed.
    destruct (worker_online w), (isDegraded w now); reflexivity.
Qed.

(** The order of positive floats is that of exponent and mantissa. *)
Lemma above_positive m e y z :
  (S754_finite false m e <? y)%f64 = true -> (y <? z)%f64 = true -> (S754_finite false m e <? z)%f64 = true.
Proof.
  unfold flt, SFltb. destruct y as [| |  |[] m' e'], z as [|[]| |[] m'' e'']; cbn; try done.
  all: intros H1 H2; repeat case_match; try done; exfalso.
  all: repeat match goal with
         | H : (_ ?= _)%Z = Eq |- _ => apply Z.compare_eq in H
         | H : (_ ?= _)%Z = Lt |- _ => apply (proj1 (Z.compare_lt_iff _ _)) in H
         | H : (_ ?= _)%Z = Gt |- _ => apply (proj1 (Z.compare_gt_iff _ _)) in H
         | H : PosDef.Pos.compare_cont Eq _ _ = Eq |- _ => apply (proj1 (Pos.compare_eq_iff _ _)) in H
         | H : PosDef.Pos.compare_cont Eq _ _ = Lt |- _ => apply (proj1 (Pos.compare_lt_iff _ _)) in H
         | H : PosDef.Pos.compare_cont Eq _ _ = Gt |- _ => apply (proj1 (Pos.compare_gt_iff _ _)) in H
         end; try lia.
Qed.

Lemma js_max_lt m e y z :
  (js_max (S754_finite false m e) y <? z)%f64 = true -> (S754_finite false m e <? z)%f64 = true.
Proof.
  unfold js_max. destruct (is_nan _ || is_nan y); [by destruct z|].
  destruct (_ <? y)%f64 eqn:Exy; [by apply above_positive | done].
Qed.

(** A worker is flagged only after more than two minutes of silence. *)
Lemma degraded_means_silent w now :
  0 <= now - last_submit w <= 2 ^ 53 -> isDegraded w now = true -> DEGRADED_SECS < now - last_submit w.
Proof.
  intros Hs. unfold isDegraded. cbv zeta. destruct (_ <=? f0)%f64; [done|]. intros Hd.
  apply js_max_lt in Hd. change (f64_of_Z DEGRADED_SECS <? f64_of_Z (now - last_submit w) = true)%f64 in Hd.
  apply flt_mag in Hd; [|by apply of_Z_nonneg|apply of_Z_nonneg; lia].
  rewrite (proj2 (of_Z_exact _ Hs)) in Hd.
  rewrite (proj2 (of_Z_exact DEGRADED_SECS ltac:(unfold DEGRADED_SECS; lia))) in Hd.
  apply (Z.mul_lt_mono_pos_r (2 ^ 1074)); [by apply pow2_pos|exact Hd].
Qed.

(** The lamp of the node card is green exactly when both halves are healthy. *)
Lemma rpc_green age fresh :
  (rpcLed age fresh).1 = led_on <-> fresh = true /\ exists a, age = Some a /\ a <= 90.
Proof.
  unfold rpcLed. destruct age as [a|]; [|naive_solver]. destruct (Z.ltb_spec 90 a), fresh; naive_solver lia.
Qed.

(** The known bit has its name, and nothing else does. *)
Lemma bip_110_tag version : "BIP110"%string ∈ bip_tags version <-> Z.testbit version 4 = true.
Proof.
  unfold bip_tags. rewrite list_elem_of_fmap. split.
  - intros (bit & E & Hin). apply list_elem_of_In, List.filter_In in Hin as [_ Hb].
    unfold bip_tag, KNOWN_BIPS in E. cbn [List.find fst snd] in E.
    by destruct (Z.eqb_spec 4 bit) as [E4|]; [rewrite E4|discriminate E].
  - intros Hb. exists 4. split; [reflexivity|]. apply list_elem_of_In, List.filter_In. split; [|done].
    apply list_elem_of_In, elem_of_seqZ. lia.
Qed.

(** *** Durations *)

(** A duration reads back its parts. *)
Lemma uptime_parts secs : 0 <= secs ->
  let d := secs / 86400 in let h := Z.rem secs 86400 / 3600 in
  let m := Z.rem secs 3600 / 60 in let s := Z.rem secs 60 in
  0 <= h < 24 /\ 0 <= m < 60 /\ 0 <= s < 60 /\ secs = d * 86400 + h * 3600 + m * 60 + s.
Proof.
  intros Hs. cbv zeta. rewrite !Z.rem_mod_nonneg by lia.
  pose proof (Z.div_mod secs 86400 ltac:(lia)). pose proof (Z.mod_pos_bound secs 86400 ltac:(lia)).
  pose proof (Z.div_mod secs 3600 ltac:(lia)). pose proof (Z.mod_pos_bound secs 3600 ltac:(lia)).
  pose proof (Z.div_mod secs 60 ltac:(lia)). pose proof (Z.mod_pos_bound secs 60 ltac:(lia)).
  pose proof (Z.div_mod (secs mod 86400) 3600 ltac:(lia)).
  pose proof (Z.mod_pos_bound (secs mod 86400) 3600 ltac:(lia)).
  pose proof (Z.div_mod (secs mod 3600) 60 ltac:(lia)).
  pose proof (Z.mod_pos_bound (secs mod 3600) 60 ltac:(lia)).
  lia.
Qed.

(** A browser whose clock is behind the server's by up to an hour shows a worker
    that has just submitted as one day and one hour in the past. *)
Lemma clock_behind_reads_minus_a_day secs : -3600 <= secs < 0 -> fmtUptime secs = "-1d -1h"%string.
Proof.
  intros Hs. unfold fmtUptime. cbv zeta.
  assert (secs / 86400 = -1) as -> by (symmetry; apply (Z.div_unique secs 86400 (-1) (secs + 86400)); lia).
  assert (Z.rem secs 86400 = secs) as ->.
  { rewrite <- (Z.opp_involutive secs) at 1. rewrite Z.rem_opp_l, Z.rem_small by lia. lia. }
  assert (secs / 3600 = -1) as -> by (symmetry; apply (Z.div_unique secs 3600 (-1) (secs + 3600)); lia).
  reflexivity.
Qed.

(** The next adjustment is at most two weeks of ten-minute blocks away, at the
    next multiple of 2016. *)
Lemma next_adjustment height : 0 < height ->
  1 <= blocksLeft height <= 2016 /\ (height + blocksLeft height) mod 2016 = 0
  /\ blocksLeft height * 600 <= 14 * 86400.
Proof.
  intros Hh. unfold blocksLeft. pose proof (Z.mod_pos_bound height 2016 ltac:(lia)).
  split; [lia|]. split; [|lia].
  pose proof (Z.div_mod height 2016 ltac:(lia)).
  replace (height + (2016 - height mod 2016)) with ((height / 2016 + 1) * 2016) by lia.
  apply Z.mod_mul. lia.
Qed.

(** *** Rejects *)

(** Every reason the pool counts has a label of its own. *)
Lemma reject_labels_agree :
  NoDup REJECT_LABELS.*2
  /\ forall r, exists l, (reason_label r, l) ∈ REJECT_LABELS /\ rejectLabel (reason_label r) = l.
Proof.
  split; [apply (bool_decide_unpack _); vm_compute; exact I|].
  intros r. exists (rejectLabel (reason_label r)). split; [|done].
  apply (bool_decide_unpack _). destruct r; vm_compute; exact I.
Qed.

Lemma insert_count_perm x l : insert_count x l ≡ₚ x :: l.
Proof.
  induction l as [|y l IH]; cbn; [done|]. destruct (_ <=? _); [done|].
  rewrite IH. apply Permutation_swap.
Qed.

Lemma insert_count_sorted x l :
  StronglySorted (fun a b => b.2 <= a.2) l -> StronglySorted (fun a b => b.2 <= a.2) (insert_count x l).
Proof.
  induction 1 as [|y l Hl IH Hy]; cbn; [repeat constructor|]. destruct (Z.leb_spec y.2 x.2).
  - constructor; [by constructor|]. constructor; [done|].
    eapply Forall_impl; [exact Hy|]. cbn. lia.
  - constructor; [done|]. rewrite insert_count_perm. constructor; [lia | done].
Qed.

(** A tooltip lists each positive count once, largest first. *)
Lemma tooltip_sorted reasons :
  sort_counts reasons ≡ₚ reasons /\ StronglySorted (fun a b => b.2 <= a.2) (sort_counts reasons).
Proof.
  induction reasons as [|x l [Hp Hs]]; cbn; [by repeat constructor|].
  split; [by rewrite insert_count_perm, Hp | by apply insert_count_sorted].
Qed.

(** *** Text *)

(** What the browser makes of the three references. *)
Fixpoint unescape (s : string) : string :=
  match s with
  | String "&"%char (String "a"%char (String "m"%char (String "p"%char (String ";"%char s')))) => String "&"%char (unescape s')
  | String "&"%char (String "l"%char (String "t"%char (String ";"%char s'))) => String "<"%char (unescape s')
  | String "&"%char (String "g"%char (String "t"%char (String ";"%char s'))) => String ">"%char (unescape s')
  | String c s' => String c (unescape s')
  | EmptyString => EmptyString
  end.

(** One character escaped. *)
Definition esc1 (c : Ascii.ascii) : string :=
  if ascii_val c =? 38 then "&amp;" else if ascii_val c =? 60 then "&lt;"
  else if ascii_val c =? 62 then "&gt;" else String c EmptyString.

Lemma replace_all_app c by_ a b : replace_all c by_ (a +:+ b) = replace_all c by_ a +:+ replace_all c by_ b.
Proof.
  induction a as [|x a IH]; [done|]. change (String x a +:+ b) with (String x (a +:+ b)). cbn [replace_all].
  rewrite IH. destruct (_ =? _); [|done].
  generalize (replace_all c by_ a) (replace_all c by_ b). clear. intros t u.
  induction by_ as [|y by_ IHb]; [done|]. exact (f_equal (String y) IHb).
Qed.

Lemma escHtml_cons c s : escHtml (String c s) = esc1 c +:+ escHtml s.
Proof.
  unfold escHtml, esc1. cbn [replace_all]. destruct (ascii_val c =? 38) eqn:E38.
  - rewrite !replace_all_app. reflexivity.
  - cbn [replace_all]. destruct (ascii_val c =? 60) eqn:E60.
    + rewrite replace_all_app. reflexivity.
    + cbn [replace_all]. by destruct (ascii_val c =? 62).
Qed.

(** Escaped text holds no bracket, so it opens no element, and the browser shows
    the text that was escaped. *)
Lemma escaped_text_is_inert s :
  60 ∉ string_vals (escHtml s) /\ 62 ∉ string_vals (escHtml s) /\ unescape (escHtml s) = s.
Proof.
  induction s as [|c s (H1 & H2 & H3)]; [split; [apply not_elem_of_nil | split; [apply not_elem_of_nil | done]]|].
  rewrite escHtml_cons, Host.string_vals_app, !not_elem_of_app. revert H1 H2 H3. generalize (escHtml s) as t.
  intros t H1 H2 H3.
  assert (60 ∉ string_vals (esc1 c) /\ 62 ∉ string_vals (esc1 c) /\ unescape (esc1 c +:+ t) = String c s)
    as (? & ? & ?); [|by repeat split].
  rewrite <- H3. clear. destruct c as [[] [] [] [] [] [] [] []].
  all: split; [apply (bool_decide_unpack _); vm_compute; exact I|].
  all: split; [apply (bool_decide_unpack _); vm_compute; exact I|].
  all: reflexivity.
Qed.

(** Workers of one address whose labels go on after a second dot share a name
    on the page. *)
Lemma dotted_labels_collide :
  workerName "bc1q.rack.1" = workerName "bc1q.rack.2".
Proof. reflexivity. Qed.
End Page.
