(* ===== verification/Server.v ===== *)
(** * Server: the accept loop and its connection slots ([src/network/server.rs])

    The acceptor and the connection tasks, interleaved at the granularity of
    their operations on the shared counter: an event says who moves next and
    what the socket answers.  The load and the compare-exchange of the slot
    reservation are separate steps, so that a task may release its slot between
    them. *)
From S2P Require Import Prelude Text F64 Json Errors Security Hashrate Stats.
Import Security Stats.

Module Server.

Definition HANDSHAKE_TIMEOUT_SECS : Z := 10.
Definition PRUNE_INTERVAL_SECS : Z := 300.

(** The options set on an accepted socket; a failure to set one is only logged. *)
Definition TCP_KEEPALIVE_IDLE_SECS : Z := 60.
Definition TCP_KEEPALIVE_INTERVAL_SECS : Z := 10.
Definition TCP_KEEPALIVE_RETRIES : Z := 3.
Definition TCP_USER_TIMEOUT_SECS : Z := 90.

Record SocketOptions := mkSocketOptions {
  nodelay : bool;
  keepalive : option (Z * Z * Z);
  user_timeout : option Z
}.

(** What the kernel accepted of the three calls. *)
Definition tcp_tuning (nodelay_ok keepalive_ok timeout_ok linux : bool) : SocketOptions :=
  mkSocketOptions nodelay_ok
    (if keepalive_ok
     then Some (TCP_KEEPALIVE_IDLE_SECS, TCP_KEEPALIVE_INTERVAL_SECS, TCP_KEEPALIVE_RETRIES) else None)
    (if linux && timeout_ok then Some TCP_USER_TIMEOUT_SECS else None).

(** Seconds of silence after which keepalive declares a peer dead. *)
Definition dead_after (o : SocketOptions) : option Z :=
  '(idle, interval, retries) ← keepalive o; Some (idle + interval * retries).

Lemma dead_peer_deadlines n t :
  let o := tcp_tuning n true true t in
  dead_after o = Some 90 /\ (t = true -> user_timeout o = dead_after o).
Proof. split; [done|]. by intros ->. Qed.

Section Server.
Context {Ip : Type} `{Countable Ip}.

(** Where the acceptor is: waiting, before the load of the counter, between
    the load and the compare-exchange, holding a slot before the ban check, and
    before the rate limit. *)
Inductive Acceptor : Type :=
| Listening
| Loading (ip : Ip)
| Loaded (ip : Ip) (current : Z)
| Reserved (ip : Ip)
| Unbanned (ip : Ip).

(** A connection task: before the first byte, in the Noise handshake of a V2
    session, or in the loop of a session. *)
Inductive Task : Type := Peeking (ip : Ip) | Handshaking (ip : Ip) | InSession (ip : Ip).

Record Server := mkServer {
  active_count : Z;
  acceptor : Acceptor;
  tasks : gmap nat Task;
  next_task : nat;
  ban_list : BanList Ip;
  conn_limiter : ConnectionRateLimiter Ip;
  connected : Z
}.

Inductive PeekResult : Type := PeekTimeout | PeekClosed | PeekError | FirstByte (b : byte).

(** Who moves, with what it reads from its clock and socket. *)
Inductive ServerEvent : Type :=
| Accepted (ip : Ip)
| AcceptFailed
| AcceptorMoves (now1 now2 now3 : Instant)
| TaskPeeks (k : nat) (r : PeekResult) (now1 now2 : Instant)
| TaskShakes (k : nat) (ok : bool)
| TaskEnds (k : nat) (ban_reason : option string) (now : Instant)
| TaskPanics (k : nat)
| PruneTick (now1 now2 : Instant).

Variable max_connections : Z.
Variable sv2_enabled : bool.

Definition set_acceptor (s : Server) (n : Z) (a : Acceptor) : Server :=
  mkServer n a (tasks s) (next_task s) (ban_list s) (conn_limiter s) (connected s).

Definition set_bans (s : Server) (b : BanList Ip) : Server :=
  mkServer (active_count s) (acceptor s) (tasks s) (next_task s) b (conn_limiter s) (connected s).

(** The rest of [run]'s loop body, one step at a time. *)
Definition acceptor_step (s : Server) (now1 now2 now3 : Instant) : Server :=
  match acceptor s with
  | Listening => s
  | Loading ip =>
      let current := active_count s in
      if max_connections <=? current then set_acceptor s (active_count s) Listening
      else set_acceptor s (active_count s) (Loaded ip current)
  | Loaded ip current =>
      if active_count s =? current then set_acceptor s (current + 1) (Reserved ip)
      else set_acceptor s (active_count s) (Loading ip)
  | Reserved ip =>
      let '(banned, b) := is_banned (ban_list s) ip now1 now2 in
      let s1 := set_bans s b in
      if banned then set_acceptor s1 (active_count s - 1) Listening
      else set_acceptor s1 (active_count s) (Unbanned ip)
  | Unbanned ip =>
      let '(ok, l) := check_and_record (conn_limiter s) ip now1 now2 in
      if ok then
        mkServer (active_count s) Listening (<[next_task s := Peeking ip]> (tasks s))
          (S (next_task s)) (ban_list s) l (connected s)
      else
        mkServer (active_count s - 1) Listening (tasks s) (next_task s)
          (ban (ban_list s) ip "connection rate limit exceeded" now3) l (connected s)
  end.

(** The end of a task releases its slot; leaving a session also counts the
    miner out. *)
Definition end_task (s : Server) (k : nat) (was_connected : bool) : Server :=
  mkServer (active_count s - 1) (acceptor s) (delete k (tasks s)) (next_task s) (ban_list s)
    (conn_limiter s) (if was_connected then connected s - 1 else connected s).

Definition set_task (s : Server) (k : nat) (t : Task) (n : Z) : Server :=
  mkServer (active_count s) (acceptor s) (<[k := t]> (tasks s)) (next_task s) (ban_list s)
    (conn_limiter s) n.

Definition is_sv1 (first : byte) : bool := bool_decide (first = x7b).

(** The first byte decides the protocol; each session checks the ban list
    again before it counts the miner. *)
Definition task_peeks (s : Server) (k : nat) (ip : Ip) (r : PeekResult) (now1 now2 : Instant)
  : Server :=
  match r with
  | PeekTimeout | PeekClosed | PeekError => end_task s k false
  | FirstByte b =>
      if is_sv1 b || sv2_enabled then
        let '(banned, bl) := is_banned (ban_list s) ip now1 now2 in
        let s1 := set_bans s bl in
        if banned then end_task s1 k false
        else if is_sv1 b then set_task s1 k (InSession ip) (connected s1 + 1)
        else set_task s1 k (Handshaking ip) (connected s1)
      else end_task s k false
  end.

Definition server_step (s : Server) (e : ServerEvent) : Server :=
  match e with
  | Accepted ip =>
      match acceptor s with Listening => set_acceptor s (active_count s) (Loading ip) | _ => s end
  | AcceptFailed => s
  | AcceptorMoves now1 now2 now3 => acceptor_step s now1 now2 now3
  | TaskPeeks k r now1 now2 =>
      match tasks s !! k with Some (Peeking ip) => task_peeks s k ip r now1 now2 | _ => s end
  | TaskShakes k ok =>
      match tasks s !! k with
      | Some (Handshaking ip) =>
          if ok then set_task s k (InSession ip) (connected s + 1) else end_task s k false
      | _ => s
      end
  | TaskEnds k why now =>
      match tasks s !! k with
      | Some (InSession ip) =>
          let s1 := match why with
                    | Some r => set_bans s (ban (ban_list s) ip r now)
                    | None => s
                    end in
          end_task s1 k true
      | _ => s
      end
  | TaskPanics k =>
      match tasks s !! k with
      | Some _ => mkServer (active_count s) (acceptor s) (delete k (tasks s)) (next_task s)
                    (ban_list s) (conn_limiter s) (connected s)
      | None => s
      end
  | PruneTick now1 now2 =>
      mkServer (active_count s) (acceptor s) (tasks s) (next_task s)
        (ban_prune (ban_list s) now1) (limiter_prune (conn_limiter s) now2) (connected s)
  end.

Definition server_new (ban_secs max_per_ip : Z) : Server :=
  mkServer 0 Listening ∅ 0 (ban_list_new ban_secs) (limiter_new max_per_ip) 0.

(** ** The slots *)
Definition holds_slot (a : Acceptor) : Z :=
  match a with Reserved _ | Unbanned _ => 1 | _ => 0 end.

Definition is_connected (t : Task) : bool := match t with InSession _ => true | _ => false end.

(** The sessions among the tasks. *)
Definition sessions (m : gmap nat Task) : Z := sum_map (fun _ t => Z.b2z (is_connected t)) m.

(** What a panic leaves behind: a slot, and a miner if it was in a session. *)
Definition panic_slots (s : Server) (e : ServerEvent) : Z * Z :=
  match e with
  | TaskPanics k =>
      match tasks s !! k with Some t => (1, Z.b2z (is_connected t)) | None => (0, 0) end
  | _ => (0, 0)
  end.

(** A run, with the slots and miners its panics have leaked. *)
Definition run_one (x : Server * (Z * Z)) (e : ServerEvent) : Server * (Z * Z) :=
  let p := panic_slots x.1 e in (server_step x.1 e, (x.2.1 + p.1, x.2.2 + p.2)).

Record slots_inv (s : Server) (leaked gone : Z) : Prop := {
  si_active : active_count s = Z.of_nat (size (tasks s)) + leaked + holds_slot (acceptor s);
  si_bound : active_count s <= max_connections;
  si_loaded : match acceptor s with Loaded _ c => c < max_connections | _ => True end;
  si_connected : connected s = sessions (tasks s) + gone;
  si_leaked : 0 <= gone <= leaked;
  si_fresh k : (next_task s <= k)%nat -> tasks s !! k = None
}.

Lemma sessions_insert m k t :
  sessions (<[k := t]> m)
  = sessions m - (match m !! k with Some u => Z.b2z (is_connected u) | None => 0 end)
    + Z.b2z (is_connected t).
Proof. unfold sessions. rewrite sum_map_insert. destruct (m !! k); cbn [from_option]; lia. Qed.

Lemma sessions_delete m k t :
  m !! k = Some t -> sessions (delete k m) = sessions m - Z.b2z (is_connected t).
Proof. intros E. unfold sessions.
  pose proof (sum_map_delete (fun _ t => Z.b2z (is_connected t)) m k t E) as Hd. cbn in Hd. lia. Qed.

Lemma size_delete_task (m : gmap nat Task) k t :
  m !! k = Some t -> Z.of_nat (size (delete k m)) = Z.of_nat (size m) - 1.
Proof.
  intros E. rewrite map_size_delete_Some by (by eexists).
  assert (size m <> 0%nat) by (intros E0; apply map_size_empty_inv in E0; by rewrite E0 in E). lia.
Qed.

(** The parts of the state the events leave alone do not matter. *)
Lemma end_task_inv s k t leaked gone :
  slots_inv s leaked gone -> tasks s !! k = Some t ->
  slots_inv (end_task s k (is_connected t)) leaked gone.
Proof.
  intros [Ia Ib Il Ic Ik If] Hk.
  pose proof (size_delete_task _ _ _ Hk) as Hsz. pose proof (sessions_delete _ _ _ Hk) as Hss.
  split; cbn [end_task active_count acceptor tasks connected next_task]; try done; try lia.
  - destruct (is_connected t); cbn in Hss; lia.
  - intros k' Hk'. destruct (decide (k' = k)) as [->|]; [by rewrite lookup_delete_eq|].
    rewrite lookup_delete_ne by done. by apply If.
Qed.

Lemma set_task_inv s k t t' leaked gone :
  slots_inv s leaked gone -> tasks s !! k = Some t ->
  slots_inv (set_task s k t' (connected s - Z.b2z (is_connected t) + Z.b2z (is_connected t')))
    leaked gone.
Proof.
  intros [Ia Ib Il Ic Ik If] Hk. pose proof (sessions_insert (tasks s) k t') as Hss.
  rewrite Hk in Hss.
  split; cbn [set_task active_count acceptor tasks connected next_task]; try done; try lia.
  - rewrite map_size_insert_Some by (by eexists). done.
  - intros k' Hk'. destruct (decide (k' = k)) as [->|].
    + rewrite If in Hk by done. done.
    + rewrite lookup_insert_ne by done. by apply If.
Qed.

Lemma set_bans_inv s b leaked gone : slots_inv s leaked gone -> slots_inv (set_bans s b) leaked gone.
Proof. by intros []. Qed.

Lemma acceptor_inv s now1 now2 now3 leaked gone :
  slots_inv s leaked gone -> slots_inv (acceptor_step s now1 now2 now3) leaked gone.
Proof.
  intros I. unfold acceptor_step. destruct (acceptor s) as [|ip|ip c|ip|ip] eqn:Ea; [done| | | |].
  - destruct (Z.leb_spec max_connections (active_count s)); destruct I as [Ia Ib Il Ic Ik If];
      rewrite Ea in *; by split.
  - destruct (Z.eqb_spec (active_count s) c); destruct I as [Ia Ib Il Ic Ik If]; rewrite Ea in *;
      split; cbn in *; try done; lia.
  - destruct (is_banned _ _ _ _) as [banned b]. destruct I as [Ia Ib Il Ic Ik If]. rewrite Ea in *.
    destruct banned; split; cbn in *; try done; lia.
  - destruct (check_and_record _ _ _ _) as [ok l]. destruct I as [Ia Ib Il Ic Ik If].
    rewrite Ea in *. destruct ok; split; cbn in *; try done; try lia.
    + rewrite map_size_insert_None by (by apply If). lia.
    + rewrite sessions_insert, If by done. cbn. lia.
    + intros k Hk. rewrite lookup_insert_ne by lia. apply If. lia.
Qed.

Lemma step_inv s e leaked gone :
  slots_inv s leaked gone ->
  slots_inv (server_step s e) (leaked + (panic_slots s e).1) (gone + (panic_slots s e).2).
Proof.
  intros I. destruct e as [ip| |n1 n2 n3|k r n1 n2|k ok|k why now|k|n1 n2]; cbn [server_step panic_slots];
    rewrite ?Z.add_0_r; try done.
  - destruct (acceptor s) eqn:Ea; try done. destruct I as [Ia Ib Il Ic Ik If]. rewrite Ea in *. by split.
  - by apply acceptor_inv.
  - destruct (tasks s !! k) as [[ip| |]|] eqn:Ek; try done. unfold task_peeks.
    destruct r as [| | |b]; try by apply (end_task_inv s k (Peeking ip)).
    destruct (_ || _); [|by apply (end_task_inv s k (Peeking ip))].
    destruct (is_banned _ _ _ _) as [banned bl]. apply (set_bans_inv s bl) in I.
    destruct banned; [by apply (end_task_inv (set_bans s bl) k (Peeking ip))|].
    destruct (is_sv1 b).
    + pose proof (set_task_inv _ _ _ (InSession ip) _ _ I Ek) as Hs. cbn in Hs.
      by rewrite Z.sub_0_r in Hs.
    + pose proof (set_task_inv _ _ _ (Handshaking ip) _ _ I Ek) as Hs. cbn in Hs.
      by rewrite Z.sub_0_r, Z.add_0_r in Hs.
  - destruct (tasks s !! k) as [[|ip|]|] eqn:Ek; try done. destruct ok.
    + pose proof (set_task_inv _ _ _ (InSession ip) _ _ I Ek) as Hs. cbn in Hs.
      by rewrite Z.sub_0_r in Hs.
    + by apply (end_task_inv s k (Handshaking ip)).
  - destruct (tasks s !! k) as [[| |ip]|] eqn:Ek; try done. cbv zeta.
    set (s1 := match why with Some _ => _ | None => s end).
    assert (slots_inv s1 leaked gone) as I1 by (unfold s1; destruct why; [by apply set_bans_inv | done]).
    apply (end_task_inv s1 k (InSession ip)); [done|]. unfold s1. by destruct why.
  - destruct (tasks s !! k) as [t|] eqn:Ek; cbn; rewrite ?Z.add_0_r; [|done].
    pose proof (size_delete_task _ _ _ Ek) as Hsz. pose proof (sessions_delete _ _ _ Ek) as Hss.
    destruct I as [Ia Ib Il Ic Ik If]. split; cbn; try done; try lia.
    + destruct (is_connected t); cbn; lia.
    + intros k' Hk'. destruct (decide (k' = k)) as [->|]; [by rewrite lookup_delete_eq|].
      rewrite lookup_delete_ne by done. by apply If.
  - destruct I. by split.
Qed.

Lemma run_inv evs x :
  slots_inv x.1 x.2.1 x.2.2 ->
  let y := foldl run_one x evs in slots_inv y.1 y.2.1 y.2.2.
Proof.
  revert x; induction evs as [|e evs IH]; intros x I; [done|]. cbn [foldl]. apply IH.
  by apply step_inv.
Qed.

Lemma server_new_inv ban_secs max_per_ip :
  0 <= max_connections -> slots_inv (server_new ban_secs max_per_ip) 0 0.
Proof. intros Hm. by split. Qed.

Definition is_panic (e : ServerEvent) : bool := match e with TaskPanics _ => true | _ => false end.

Lemma run_no_panic evs x :
  Forall (fun e => is_panic e = false) evs -> (foldl run_one x evs).2 = x.2.
Proof.
  intros HF; revert x; induction HF as [|e evs He _ IH]; intros x; [done|]. cbn [foldl].
  rewrite IH. destruct x as [s [a b]], e; cbn in *; by rewrite ?Z.add_0_r.
Qed.
End Server.
Arguments ServerEvent Ip : clear implicits.

(** C25. Connection slots are conserved under every interleaving of the acceptor
    and the connection tasks, whatever the sockets answer: the counter is the
    number of live tasks, plus one while the acceptor holds a reservation, plus
    one for each task that panicked; there are never more live tasks than
    [max_connections]; the connected-miner figure is the number of sessions plus
    the sessions that panicked; and without panics nothing leaks. *)
Theorem connection_slots_conserved {Ip : Type} `{Countable Ip} (max_connections : Z)
    (sv2_enabled : bool) (ban_secs max_per_ip : Z) (evs : list (ServerEvent Ip)) :
  0 <= max_connections ->
  let y := foldl (run_one max_connections sv2_enabled) (server_new ban_secs max_per_ip, (0, 0)) evs in
  active_count y.1 = Z.of_nat (size (tasks y.1)) + y.2.1 + holds_slot (acceptor y.1)
  /\ Z.of_nat (size (tasks y.1)) <= max_connections
  /\ connected y.1 = sessions (tasks y.1) + y.2.2
  /\ (Forall (fun e => is_panic e = false) evs -> y.2 = (0, 0)).
Proof.
  intros Hm y.
  assert (slots_inv max_connections y.1 y.2.1 y.2.2) as [Ia Ib _ Ic Ik _]
    by (apply run_inv; by apply server_new_inv).
  split; [done|]. split; [|split; [done|]].
  - destruct (acceptor y.1); cbn in Ia; lia.
  - intros HF. unfold y. by rewrite run_no_panic.
Qed.

(** One slot: a second peer is refused while the first is in its session, and
    is served after it. *)
Definition demo_events : list (ServerEvent nat) :=
  [Accepted 1%nat; AcceptorMoves 0 0 0; AcceptorMoves 0 0 0; AcceptorMoves 0 0 0; AcceptorMoves 0 0 0;
   TaskPeeks 0 (FirstByte x7b) 0 0; Accepted 2%nat; AcceptorMoves 0 0 0;
   TaskEnds 0 None 0; Accepted 2%nat; AcceptorMoves 0 0 0; AcceptorMoves 0 0 0; AcceptorMoves 0 0 0;
   AcceptorMoves 0 0 0; TaskPeeks 1 (FirstByte x00) 0 0].

Lemma connection_slots_conserved_witness :
  let y := foldl (run_one 1 true) (server_new (Ip := nat) 600 10, (0, 0)) demo_events in
  Z.of_nat (size (tasks y.1)) <= 1 /\ active_count y.1 = 1 /\ connected y.1 = 0.
Proof.
  intros y. destruct (connection_slots_conserved (Ip := nat) 1 true 600 10 demo_events) as (_ & Hs & _);
    [lia|].
  split; [exact Hs|]. split; vm_compute; reflexivity.
Defined.
End Server.
