(* ===== verification/Loop.v ===== *)
(** * Loop: the session loops in time ([network/session.rs],
    [protocol/sv2/mod.rs])

    What [Session.run_step] and [Sv2.run_step] leave out of the two [run]
    functions: which bytes become a message, and when a silent peer is dropped.
    An event is one poll of an arm of the [select!], at a time.  The V1 read arm
    is dropped and restarted whenever another arm wins, and the line it had
    begun goes with it; the V2 loop reads from a queue and loses nothing. *)
From S2P Require Import Prelude Text F64 Host Json Errors Interfaces Target Rpc Hashrate Credit.
From S2P Require Import Vardiff Stats Store Security Accounting Identity Template Jobs.
From S2P Require Import Validator Engine Sv1 Session Sv2Codec Sv2Wire Sv2 Sv2Props Server.
Import Host Rpc Stats Security Identity Jobs Validator Sv1 Session.

Module Loop.

(** ** Reading a line in pieces *)

(** One poll of [read_line_bounded]: a line and the unread chunks, too long a
    line, or the bytes of a line whose end has not arrived. *)
Inductive Read : Type :=
| Line (l : bytes) (rest : list bytes)
| Oversize
| Partial (buf : bytes).

Fixpoint read_poll (max : nat) (buf : bytes) (chunks : list bytes) : Read :=
  match chunks with
  | [] => Partial buf
  | c :: cs =>
      match position_lf c with
      | Some pos =>
          let line := strip_cr (buf ++ take pos c) in
          if (max <? length line)%nat then Oversize
          else Line line (push_chunk (drop (S pos) c) cs)
      | None =>
          let buf' := buf ++ c in
          if (max <? length buf')%nat then Oversize else read_poll max buf' cs
      end
  end.

(** Polled until the end of input, it is the reader of [Session]. *)
Lemma read_poll_loop max buf chunks :
  read_loop max buf chunks =
  match read_poll max buf chunks with
  | Line l rest => Ok (Some l, rest)
  | Oversize => Err tt
  | Partial b => Ok (match b with [] => None | _ => Some b end, [])
  end.
Proof.
  revert buf; induction chunks as [|c cs IH]; intros buf; [done|]. cbn.
  destruct (position_lf c); [by case_match|]. case_match; [done | apply IH].
Qed.

(** ** The V1 loop *)
Section V1.
Context `{Sha256} `{HexCodec} `{TxCodec} `{AddressCodec} `{Libm}.
Variable parse_request : string -> option StratumRequest.
Variable idle_timeout : Z.

(** The loop's variables: the session, [line_buf], the chunks the socket holds,
    and [last_inbound]; [heard] records the lines handled so far. *)
Record Link := mkLink {
  session : Session;
  stats : PoolStats;
  line_buf : bytes;
  chunks : list bytes;
  last_inbound : Instant;
  heard : list bytes
}.

Inductive Life : Type :=
| Open (l : Link)
| Closed (ban : bool) (s : Session) (st : PoolStats)
| Gone (s : Session) (st : PoolStats).

(** A chunk or the end of the stream arrives; the read arm is polled; the job
    arm wins with a broadcast, or with [Lagged]. *)
Inductive LinkEvent : Type :=
| Fill (c : bytes)
| ReadArm (eof : bool) (env env' : Env)
| JobArm (b : Engine.JobBroadcast) (env env' : Env)
| LagArm (env env' : Env).

Definition preauth_timeout : Z := Server.HANDSHAKE_TIMEOUT_SECS * NANOS.

Definition read_timeout (l : Link) : Z :=
  if authorized (proto (session l)) then idle_timeout else preauth_timeout.

(** What [run_step] decides, with the reader as it stands. *)
Definition after_step (o : Outcome) (buf : bytes) (cs : list bytes) (last : Instant) (hs : list bytes) : Life :=
  match o with
  | Running _ s st => Open (mkLink s st buf cs last hs)
  | Ended ban s st => Closed ban s st
  | Crashed s st => Gone s st
  end.

Definition line_event (line : bytes) : Event :=
  if valid_utf8 line then Inbound (bytes_string line) else NotUtf8.

Definition hear (l : Link) (t : Instant) (line : bytes) (rest : list bytes) (env env' : Env) : Life :=
  after_step (run_step parse_request (session l) (stats l) (line_event line) env env')
    [] rest t (heard l ++ [line]).

Definition end_link (l : Link) (e : Event) (env env' : Env) : Life :=
  after_step (run_step parse_request (session l) (stats l) e env env') (line_buf l) (chunks l)
    (last_inbound l) (heard l).

(** The read arm: [timeout_at] polls the reader first, then the deadline. *)
Definition read_arm (l : Link) (t : Instant) (eof : bool) (env env' : Env) : Life :=
  match read_poll (Z.to_nat (max_message_bytes (guard (session l)))) (line_buf l) (chunks l) with
  | Line line rest => hear l t line rest env env'
  | Oversize => end_link l TooLong env env'
  | Partial buf =>
      if eof then
        match buf with
        | [] => end_link l EndOfInput env env'
        | _ => hear l t buf [] env env'
        end
      else if last_inbound l + read_timeout l <=? t then end_link l TimedOut env env'
      else Open (mkLink (session l) (stats l) buf [] (last_inbound l) (heard l))
  end.

(** Another arm: the read future is dropped, and the next starts with
    [buf.clear()]. *)
Definition other_arm (l : Link) (e : Event) (env env' : Env) : Life :=
  after_step (run_step parse_request (session l) (stats l) e env env') [] (chunks l)
    (last_inbound l) (heard l).

Definition link_step (x : Life) (te : Instant * LinkEvent) : Life :=
  match x with
  | Open l =>
      match te.2 with
      | Fill c => Open (mkLink (session l) (stats l) (line_buf l) (chunks l ++ match c with [] => [] | _ => [c] end)
                          (last_inbound l) (heard l))
      | ReadArm eof env env' => read_arm l te.1 eof env env'
      | JobArm b env env' => other_arm l (NewJob b) env env'
      | LagArm env env' => other_arm l Lagged env env'
      end
  | _ => x
  end.

Definition link_run (x : Life) (evs : list (Instant * LinkEvent)) : Life := foldl link_step x evs.

(** *** What one event leaves *)
Lemma after_step_open o buf cs last hs l :
  after_step o buf cs last hs = Open l ->
  line_buf l = buf /\ chunks l = cs /\ last_inbound l = last /\ heard l = hs.
Proof. destruct o; [|done..]. by intros [= <-]. Qed.

Lemma end_link_closes l e env env' :
  e = TooLong \/ e = TimedOut \/ e = EndOfInput ->
  exists ban s st, end_link l e env env' = Closed ban s st.
Proof. intros [->|[->| ->]]; cbn; eauto. Qed.

Lemma read_poll_line max buf cs line rest :
  LF ∉ buf -> read_poll max buf cs = Line line rest ->
  exists raw, line = strip_cr raw /\ (LF ∉ raw) /\ buf ++ concat cs = raw ++ LF :: concat rest.
Proof.
  revert buf; induction cs as [|c cs IH]; intros buf Hb; [done|]. cbn [read_poll concat].
  destruct (position_lf c) as [pos|] eqn:Ep.
  - case_match; [done|]. intros [= <- <-]. apply position_lf_Some in Ep as [Hn Ec].
    exists (buf ++ take pos c). split; [done|]. split; [set_solver|].
    rewrite concat_push_chunk. transitivity (buf ++ (take pos c ++ LF :: drop (S pos) c) ++ concat cs);
      [by rewrite <- Ec | by rewrite <- !app_assoc].
  - case_match; [done|]. apply position_lf_None in Ep. intros E.
    destruct (IH (buf ++ c)) as (raw & E1 & E2 & E3); [set_solver | done|].
    exists raw. by rewrite app_assoc.
Qed.

Lemma read_poll_partial max buf cs buf' :
  LF ∉ buf -> read_poll max buf cs = Partial buf' -> (LF ∉ buf') /\ buf' = buf ++ concat cs.
Proof.
  revert buf; induction cs as [|c cs IH]; intros buf Hb; cbn [read_poll concat].
  - intros [= <-]. by rewrite app_nil_r.
  - destruct (position_lf c) as [pos|] eqn:Ep; [by case_match|].
    case_match; [done|]. apply position_lf_None in Ep. intros E.
    rewrite app_assoc. apply IH; [set_solver | done].
Qed.

(** *** The stream and what was heard of it *)

(** A line of the stream: what was dropped before it, and its bytes. *)
Definition segment (p : bytes * bytes) : bytes := p.1 ++ p.2 ++ [LF].

(** The bytes that arrived are the lines heard, what interrupted reads dropped,
    and what is still to be read; without interruptions nothing is dropped. *)
Record heard_of (l : Link) (arrived : bytes) (interrupted : bool) (segs : list (bytes * bytes)) (tail : bytes) : Prop := {
  ho_stream : arrived = concat (segment <$> segs) ++ tail ++ line_buf l ++ concat (chunks l);
  ho_heard : heard l = (fun p => strip_cr p.2) <$> segs;
  ho_lines : Forall (fun p => (LF ∉ p.1) /\ (LF ∉ p.2)) segs;
  ho_open : (LF ∉ tail) /\ (LF ∉ line_buf l);
  ho_kept : interrupted = false -> Forall (fun p => p.1 = []) segs /\ tail = []
}.

Definition arrives (te : Instant * LinkEvent) : bytes := match te.2 with Fill c => c | _ => [] end.
Definition interrupts (te : Instant * LinkEvent) : bool :=
  match te.2 with JobArm _ _ _ | LagArm _ _ => true | _ => false end.
Definition at_eof (te : Instant * LinkEvent) : bool :=
  match te.2 with ReadArm eof _ _ => eof | _ => false end.

Lemma heard_of_line l arrived i segs tail raw rest s st t :
  heard_of l arrived i segs tail -> LF ∉ raw -> line_buf l ++ concat (chunks l) = raw ++ LF :: concat rest ->
  heard_of (mkLink s st [] rest t (heard l ++ [strip_cr raw])) arrived i (segs ++ [(tail, raw)]) [].
Proof.
  intros [Hs Hh Hl Ho Hk] Hraw E. split; cbn.
  - rewrite fmap_app, concat_app, <- app_assoc. rewrite Hs. f_equal.
    rewrite E. cbn. unfold segment. cbn. by rewrite app_nil_r, <- !app_assoc.
  - by rewrite Hh, fmap_app.
  - apply Forall_app. split; [done|]. apply Forall_singleton. by split; [apply Ho|].
  - split; set_solver.
  - intros Hi. destruct (Hk Hi) as [H1' H2']. split; [|done]. apply Forall_app. split; [done|]. by apply Forall_singleton.
Qed.

Lemma heard_of_drop l arrived i segs tail s st cs t hs :
  heard_of l arrived i segs tail -> chunks l = cs -> heard l = hs ->
  heard_of (mkLink s st [] cs t hs) arrived true segs (tail ++ line_buf l).
Proof.
  intros [Hs Hh Hl [Ho1 Ho2] Hk] <- <-. split; cbn; try done.
  - by rewrite Hs, <- !app_assoc.
  - split; set_solver.
Qed.

Lemma link_step_heard l arrived i segs tail te l' :
  heard_of l arrived i segs tail -> at_eof te = false -> link_step (Open l) te = Open l' ->
  exists segs' tail', heard_of l' (arrived ++ arrives te) (i || interrupts te) segs' tail'.
Proof.
  intros Hh He. destruct te as [t [c|eof env env'|b env env'|env env']]; cbn [link_step fst snd arrives interrupts];
    rewrite ?app_nil_r, ?orb_false_r, ?orb_true_r.
  - intros [= <-]. exists segs, tail. destruct Hh as [Hs Hh Hl Ho Hk]. split; cbn; try done.
    rewrite concat_app, Hs, <- !app_assoc. do 3 f_equal. destruct c; [done|]. cbn. by rewrite app_nil_r.
  - cbn in He. subst eof. unfold read_arm. destruct (read_poll _ _ _) as [line rest| |buf] eqn:Er.
    + apply read_poll_line in Er as (raw & -> & Hraw & E); [|apply Hh]. unfold hear.
      destruct (run_step _ _ _ _ _ _); [|done..]. intros [= <-].
      exists (segs ++ [(tail, raw)]), []. by apply (heard_of_line l arrived).
    + destruct (end_link_closes l TooLong env env') as (? & ? & ? & ->); [by left | done].
    + apply read_poll_partial in Er as [Hlf ->]; [|apply Hh]. destruct (_ <=? _).
      * destruct (end_link_closes l TimedOut env env') as (? & ? & ? & ->); [by right; left | done].
      * intros [= <-]. exists segs, tail. destruct Hh as [Hs Hh Hl Ho Hk]. split; cbn; try done.
        { by rewrite Hs, app_nil_r. } { split; [apply Ho | done]. }
  - unfold other_arm. destruct (run_step _ _ _ _ _ _); [|done..]. intros [= <-].
    exists segs, (tail ++ line_buf l). by eapply heard_of_drop.
  - unfold other_arm. destruct (run_step _ _ _ _ _ _); [|done..]. intros [= <-].
    exists segs, (tail ++ line_buf l). by eapply heard_of_drop.
Qed.

Lemma link_run_stuck x evs l : link_run x evs = Open l -> exists l0, x = Open l0.
Proof.
  unfold link_run. revert x; induction evs as [|te evs IH]; intros x E; [by eexists|].
  apply IH in E as [l0 E]. destruct x; [by eexists | done..].
Qed.

Lemma link_run_heard evs : forall l arrived i segs tail l',
  heard_of l arrived i segs tail -> Forall (fun te => at_eof te = false) evs ->
  link_run (Open l) evs = Open l' ->
  exists segs' tail', heard_of l' (arrived ++ concat (arrives <$> evs)) (i || existsb interrupts evs) segs' tail'.
Proof.
  induction evs as [|te evs IH]; intros l arrived i segs tail l' Hh He E.
  - injection E as <-. cbn. rewrite app_nil_r, orb_false_r. eauto.
  - apply Forall_cons in He as [He1 He2]. destruct (link_run_stuck (link_step (Open l) te) evs l' E) as [l1 E1].
    destruct (link_step_heard _ _ _ _ _ _ _ Hh He1 E1) as (segs1 & tail1 & H1').
    change (link_run (link_step (Open l) te) evs = Open l') in E. rewrite E1 in E.
    destruct (IH _ _ _ _ _ _ H1' He2 E) as (segs2 & tail2 & H2'). exists segs2, tail2.
    cbn. by rewrite app_assoc, orb_assoc.
Qed.

(** *** The deadline *)

(** Only a line moves [last_inbound]. *)
Lemma link_step_last l te l' :
  link_step (Open l) te = Open l' ->
  (heard l' = heard l /\ last_inbound l' = last_inbound l)
  \/ (exists line, heard l' = heard l ++ [line] /\ last_inbound l' = te.1).
Proof.
  destruct te as [t [c|eof env env'|b env env'|env env']]; cbn [link_step fst snd].
  - intros [= <-]. by left.
  - unfold read_arm, hear, end_link. repeat case_match; intros E; try (injection E as <-; by left);
      apply after_step_open in E as (_ & _ & E1 & E2); rewrite E1, E2; eauto.
  - unfold other_arm. intros E. apply after_step_open in E as (_ & _ & E1 & E2). by left.
  - unfold other_arm. intros E. apply after_step_open in E as (_ & _ & E1 & E2). by left.
Qed.

Lemma link_run_last evs : forall l l',
  link_run (Open l) evs = Open l' ->
  (length (heard l) <= length (heard l'))%nat /\ (heard l' = heard l -> last_inbound l' = last_inbound l).
Proof.
  induction evs as [|te evs IH]; intros l l' E; [by injection E as <-|].
  destruct (link_run_stuck (link_step (Open l) te) evs l' E) as [l1 E1].
  change (link_run (link_step (Open l) te) evs = Open l') in E. rewrite E1 in E.
  apply IH in E as [Hn He]. destruct (link_step_last _ _ _ E1) as [[Eh El]|(line & Eh & El)].
  - rewrite Eh in *. split; [done|]. intros Hs. by rewrite He, El.
  - rewrite Eh, length_app in Hn. cbn in Hn. split; [lia|]. intros Hs. rewrite Hs in Hn. lia.
Qed.

Lemma read_arm_late l t env env' :
  last_inbound l + read_timeout l <= t ->
  (forall line rest, read_poll (Z.to_nat (max_message_bytes (guard (session l)))) (line_buf l) (chunks l)
                     <> Line line rest) ->
  exists ban s st, read_arm l t false env env' = Closed ban s st.
Proof.
  intros Ht Hn. unfold read_arm. destruct (read_poll _ _ _) as [line rest| |buf].
  - by destruct (Hn line rest).
  - apply end_link_closes. by left.
  - rewrite (proj2 (Z.leb_le _ _) Ht). apply end_link_closes. by right; left.
Qed.

Lemma read_timeout_bound l : read_timeout l <= Z.max idle_timeout preauth_timeout.
Proof. unfold read_timeout. case_match; lia. Qed.
End V1.

(** ** The V2 loop *)
Section V2.
Import Sv2Codec Sv2.
Context `{Sha256} `{HexCodec} `{TxCodec} `{AddressCodec} `{Libm} `{BinarySv2}.
Variable idle_timeout : Z.

(** The session, the messages the reader task has queued, and [last_inbound];
    [received] records the messages handled so far. *)
Record Link2 := mkLink2 {
  session2 : Sv2Session;
  stats2 : PoolStats;
  writer2 : Writer;
  queue2 : list (Z * bytes);
  last_inbound2 : Instant;
  received : list (Z * bytes)
}.

Inductive Life2 : Type :=
| Open2 (l : Link2)
| Closed2 (ban : bool) (s : Sv2Session) (st : PoolStats)
| Gone2 (s : Sv2Session) (st : PoolStats).

(** The reader task queues a message; the receive arm is polled, the task having
    ended or not; the job arm wins. *)
Inductive LinkEvent2 : Type :=
| Queue (m : Z * bytes)
| RecvArm (ended : bool) (env : Env) (env' : Session.Env)
| OtherArm2 (b : option Engine.JobBroadcast) (env : Env) (env' : Session.Env).

Definition read_timeout2 (l : Link2) : Z :=
  if channel_open (chan (session2 l)) then idle_timeout else preauth_timeout.

Definition after_step2 (o : Outcome) (q : list (Z * bytes)) (last : Instant) (ms : list (Z * bytes)) : Life2 :=
  match o with
  | Running s st w => Open2 (mkLink2 s st w q last ms)
  | Ended ban s st _ => Closed2 ban s st
  | Crashed s st _ => Gone2 s st
  end.

Definition step2 (l : Link2) (e : Event) (env : Env) (env' : Session.Env) : Outcome :=
  run_step (session2 l) (stats2 l) (writer2 l) e env env'.

Definition recv_arm (l : Link2) (t : Instant) (ended : bool) (env : Env) (env' : Session.Env) : Life2 :=
  match queue2 l with
  | m :: q => after_step2 (step2 l (Inbound m.1 m.2) env env') q t (received l ++ [m])
  | [] =>
      if ended then after_step2 (step2 l ReaderClosed env env') [] (last_inbound2 l) (received l)
      else if last_inbound2 l + read_timeout2 l <=? t
      then after_step2 (step2 l TimedOut env env') [] (last_inbound2 l) (received l)
      else Open2 l
  end.

Definition link_step2 (x : Life2) (te : Instant * LinkEvent2) : Life2 :=
  match x with
  | Open2 l =>
      match te.2 with
      | Queue m => Open2 (mkLink2 (session2 l) (stats2 l) (writer2 l) (queue2 l ++ [m]) (last_inbound2 l) (received l))
      | RecvArm ended env env' => recv_arm l te.1 ended env env'
      | OtherArm2 b env env' =>
          after_step2 (step2 l (match b with Some b => NewJob b | None => Lagged end) env env')
            (queue2 l) (last_inbound2 l) (received l)
      end
  | _ => x
  end.

Definition link_run2 (x : Life2) (evs : list (Instant * LinkEvent2)) : Life2 := foldl link_step2 x evs.

Definition queued (te : Instant * LinkEvent2) : list (Z * bytes) :=
  match te.2 with Queue m => [m] | _ => [] end.

Lemma after_step2_open o q last ms l :
  after_step2 o q last ms = Open2 l -> queue2 l = q /\ last_inbound2 l = last /\ received l = ms.
Proof. destruct o; [|done..]. by intros [= <-]. Qed.

(** Every message that arrived is handled or still queued, in order, whatever
    the job arm does; and only a message moves [last_inbound2]. *)
Lemma link_step2_open l te l' :
  link_step2 (Open2 l) te = Open2 l' ->
  received l' ++ queue2 l' = received l ++ queue2 l ++ queued te
  /\ ((received l' = received l /\ last_inbound2 l' = last_inbound2 l)
      \/ exists m, received l' = received l ++ [m] /\ last_inbound2 l' = te.1).
Proof.
  destruct te as [t [m|ended env env'|b env env']]; cbn [link_step2 fst snd queued]; rewrite ?app_nil_r.
  - intros [= <-]. cbn. split; [done | by left].
  - unfold recv_arm. destruct (queue2 l) as [|m q] eqn:Eq.
    + destruct ended; [done|]. destruct (_ <=? _); [done|]. intros [= <-]. rewrite Eq. split; [done | by left].
    + intros E. apply after_step2_open in E as (-> & -> & ->). rewrite <- app_assoc. split; [done|]. right. by exists m.
  - intros E. apply after_step2_open in E as (-> & -> & ->). split; [done | by left].
Qed.

Lemma link_run2_stuck x evs l : link_run2 x evs = Open2 l -> exists l0, x = Open2 l0.
Proof.
  unfold link_run2. revert x; induction evs as [|te evs IH]; intros x E; [by eexists|].
  apply IH in E as [l0 E]. destruct x; [by eexists | done..].
Qed.

Lemma link_run2_open evs : forall l l',
  link_run2 (Open2 l) evs = Open2 l' ->
  received l' ++ queue2 l' = received l ++ queue2 l ++ concat (queued <$> evs)
  /\ (length (received l) <= length (received l'))%nat
  /\ (received l' = received l -> last_inbound2 l' = last_inbound2 l).
Proof.
  induction evs as [|te evs IH]; intros l l' E; [injection E as <-; cbn; by rewrite app_nil_r|].
  destruct (link_run2_stuck (link_step2 (Open2 l) te) evs l' E) as [l1 E1].
  change (link_run2 (link_step2 (Open2 l) te) evs = Open2 l') in E. rewrite E1 in E.
  apply IH in E as (Er & Hn & Hl). apply link_step2_open in E1 as [Eq Ho].
  split; [cbn; by rewrite Er, !app_assoc, Eq, !app_assoc|].
  destruct Ho as [[Eh El]|(m & Eh & El)].
  - rewrite Eh in *. split; [done|]. intros Hs. by rewrite Hl, El.
  - rewrite Eh, length_app in Hn. cbn in Hn. split; [lia|]. intros Hs. rewrite Hs in Hn. lia.
Qed.

Lemma recv_arm_late l t env env' :
  last_inbound2 l + read_timeout2 l <= t -> queue2 l = [] ->
  exists ban s st, recv_arm l t false env env' = Closed2 ban s st.
Proof. intros Ht Hq. unfold recv_arm. rewrite Hq, (proj2 (Z.leb_le _ _) Ht). cbn. eauto. Qed.

Lemma read_timeout2_bound l : read_timeout2 l <= Z.max idle_timeout preauth_timeout.
Proof. unfold read_timeout2. case_match; lia. Qed.
End V2.

(** ** Properties *)

(** C24. A silent peer is dropped.  Whatever jobs are broadcast to a session of
    either protocol and whatever bytes trickle in, as long as no complete message
    is handled, the first poll of its read arm at or after the larger of the idle
    and the pre-authorization timeout, counted from the last message, ends the
    session: a job pushed to the peer never extends its deadline. *)
Theorem silent_peer_is_dropped
    `{Sha256, HexCodec, TxCodec, AddressCodec, Libm, Sv2Codec.BinarySv2}
    (parse_request : string -> option StratumRequest) (idle_timeout : Z) (t : Instant) (env1 env1' : Env)
    (env2 : Sv2.Env) (l l' : Link) (evs : list (Instant * LinkEvent))
    (m m' : Link2) (evs2 : list (Instant * LinkEvent2)) :
  link_run parse_request idle_timeout (Open l) evs = Open l' -> heard l' = heard l ->
  last_inbound l + Z.max idle_timeout preauth_timeout <= t ->
  (forall line rest, read_poll (Z.to_nat (max_message_bytes (guard (session l')))) (line_buf l') (chunks l')
                     <> Line line rest) ->
  link_run2 idle_timeout (Open2 m) evs2 = Open2 m' -> received m' = received m ->
  last_inbound2 m + Z.max idle_timeout preauth_timeout <= t -> queue2 m' = [] ->
  (exists ban s st, link_step parse_request idle_timeout (Open l') (t, ReadArm false env1 env1') = Closed ban s st)
  /\ (exists ban s st, link_step2 idle_timeout (Open2 m') (t, RecvArm false env2 env1') = Closed2 ban s st).
Proof.
  intros E1 Hh Ht Hn E2 Hr Ht2 Hq. split.
  - apply read_arm_late; [|done]. apply link_run_last in E1 as [_ El]. rewrite (El Hh).
    pose proof (read_timeout_bound idle_timeout l'). cbn [fst]. lia.
  - apply recv_arm_late; [|done]. apply link_run2_open in E2 as (_ & _ & El). rewrite (El Hr).
    pose proof (read_timeout2_bound idle_timeout m'). cbn [fst]. lia.
Qed.

(** C39. What a V1 session hears of its peer.  From a fresh connection, in any
    run before the end of the stream: the bytes that arrived are, in order, the
    lines handled (each up to its line feed, with what was dropped before it), a
    dropped rest, and what is still unread; the session handled exactly these
    lines less a final carriage return; and when no broadcast won the loop's
    [select!] meanwhile, nothing was dropped at all. *)
Theorem v1_hears_every_line `{Sha256, HexCodec, TxCodec, AddressCodec, Libm}
    (parse_request : string -> option StratumRequest) (idle_timeout : Z)
    (s : Session) (st : PoolStats) (t0 : Instant) (evs : list (Instant * LinkEvent)) (l : Link) :
  Forall (fun te => at_eof te = false) evs ->
  link_run parse_request idle_timeout (Open (mkLink s st [] [] t0 [])) evs = Open l ->
  exists segs tail,
    concat (arrives <$> evs) = concat (segment <$> segs) ++ tail ++ line_buf l ++ concat (chunks l)
    /\ heard l = (fun p => strip_cr p.2) <$> segs
    /\ Forall (fun p => LF ∉ p.2) segs
    /\ (existsb interrupts evs = false -> Forall (fun p => p.1 = []) segs /\ tail = []).
Proof.
  intros He E. assert (heard_of (mkLink s st [] [] t0 []) [] false [] []) as Hfresh
    by (split; cbn; try done; split; set_solver).
  destruct (link_run_heard parse_request idle_timeout evs _ [] false [] [] _ Hfresh He E)
    as (segs & tail & [Hs Hh Hl _ Hk]).
  exists segs, tail. split; [exact Hs|]. split; [done|]. split; [|exact Hk].
  eapply Forall_impl; [exact Hl|]. by intros p [_ Hp].
Qed.

(** The beginning of a line is lost when a broadcast arrives before its end: the
    session handles the rest of the line as if it were the whole. *)
Lemma interrupted_line_is_lost `{Sha256, HexCodec, TxCodec, AddressCodec, Libm}
    (parse_request : string -> option StratumRequest) (idle_timeout : Z) (l l' : Link) (c rest : bytes)
    (b : Engine.JobBroadcast) (t1 t2 t3 t4 t5 : Instant) (env env' : Env) :
  c <> [] -> LF ∉ c -> LF ∉ rest -> line_buf l = [] -> chunks l = [] ->
  link_run parse_request idle_timeout (Open l)
    [(t1, Fill c); (t2, ReadArm false env env'); (t3, JobArm b env env'); (t4, Fill (rest ++ [LF]));
     (t5, ReadArm false env env')] = Open l' ->
  heard l' = heard l ++ [strip_cr rest].
Proof.
  intros Hc Hlc Hlr Hb Hch E. unfold link_run in E. cbn [foldl] in E. cbn [link_step fst snd] in E.
  rewrite Hb, Hch in E. destruct c as [|x c]; [done|]. cbn [app] in E.
  destruct (link_run_stuck parse_request idle_timeout _ [(t3, JobArm b env env'); (t4, Fill (rest ++ [LF]));
     (t5, ReadArm false env env')] l' E) as [l1 E1]. rewrite E1 in E.
  assert (heard l1 = heard l /\ chunks l1 = []) as [Eh1 Ec1].
  { unfold read_arm in E1. cbn [session line_buf chunks] in E1.
    assert (position_lf (x :: c) = None) as Ep.
    { destruct (position_lf (x :: c)) as [pos|] eqn:Ep; [|done]. apply position_lf_Some in Ep as [_ Ep].
      exfalso. apply Hlc. rewrite Ep. set_solver. }
    cbn [read_poll] in E1. rewrite Ep in E1. destruct (_ <? _)%nat; [done|].
    destruct (_ <=? _); [done|]. by injection E1 as <-. }
  cbn [link_step fst snd] in E. destruct (other_arm parse_request l1 (NewJob b) env env') as [l2| |] eqn:E2; try done.
  unfold other_arm in E2. apply after_step_open in E2 as (Eb2 & Ec2 & _ & Eh2).
  cbn [link_step fst snd] in E. rewrite Eb2, Ec2, Ec1 in E.
  destruct (rest ++ [LF]) as [|y r] eqn:Er; [by destruct rest|]. cbn [app] in E. rewrite <- Er in E.
  unfold read_arm in E. cbn [session line_buf chunks] in E.
  destruct (read_poll _ _ _) as [line rest'| |buf] eqn:Ep in E.
  - unfold hear in E. apply after_step_open in E as (_ & _ & _ & ->). cbn [heard]. rewrite Eh2, Eh1.
    apply read_poll_line in Ep as (raw & -> & Hraw & Ep); [|set_solver]. cbn in Ep. rewrite app_nil_r in Ep.
    do 3 f_equal. destruct (prefix_before_lf raw (LF :: concat rest') rest [] Hraw (eq_sym Ep)) as ([|z q] & E' & Eq);
      [by rewrite app_nil_r in E'|].
    exfalso. apply Hlr. rewrite E'. cbn in Eq. injection Eq as <- _. set_solver.
  - done.
  - apply read_poll_partial in Ep as [Hlf ->]; [|set_solver]. cbn in Hlf. set_solver.
Qed.

(** *** Concrete runs *)
Abbreviation demo_link_run := (@link_run zero_sha256 hex_codec legacy_codec demo_codec toy_libm demo_parse).
Definition demo_link : Link := mkLink demo_session demo_stats [] [] 0 [].
Definition demo_broadcast : Engine.JobBroadcast := Engine.mkBroadcast demo_built_template false.
Definition open_or (d : Link) (x : Life) : Link := match x with Open l => l | _ => d end.
Definition open2_or (d : Link2) (x : Life2) : Link2 := match x with Open2 l => l | _ => d end.

(** Half a line, then a job. *)
Definition demo_half : list (Instant * LinkEvent) :=
  [(1 * NANOS, Fill (string_bytes "sub")); (1 * NANOS, ReadArm false (demo_env "a") (demo_env "a"));
   (5 * NANOS, JobArm demo_broadcast (demo_env "b") (demo_env "b"))].
Definition demo_waiting : Link := open_or demo_link (demo_link_run (300 * NANOS) (Open demo_link) demo_half).

Abbreviation demo_link_run2 := (@link_run2 zero_sha256 hex_codec legacy_codec demo_codec toy_libm Sv2Codec.spec_sv2).
Definition demo_link2 : Link2 := mkLink2 Sv2Props.demo_s demo_stats Sv2Props.demo_w [] 0 [].
Definition demo_job2 : list (Instant * LinkEvent2) :=
  [(5 * NANOS, OtherArm2 (Some demo_broadcast) (Sv2.mkEnv (Sv2Props.demo_time (5 * NANOS) "j") 9 1)
                 (Sv2Props.demo_time (5 * NANOS) "j"))].
Definition demo_waiting2 : Link2 := open2_or demo_link2 (demo_link_run2 (300 * NANOS) (Open2 demo_link2) demo_job2).

Lemma silent_peer_is_dropped_witness :
  exists ban s st, @link_step zero_sha256 hex_codec legacy_codec demo_codec toy_libm demo_parse (300 * NANOS)
    (Open demo_waiting) (300 * NANOS, ReadArm false (demo_env "c") (demo_env "c")) = Closed ban s st.
Proof.
  refine (proj1 (@silent_peer_is_dropped zero_sha256 hex_codec legacy_codec demo_codec toy_libm Sv2Codec.spec_sv2
    demo_parse (300 * NANOS) (300 * NANOS) (demo_env "c") (demo_env "c")
    (Sv2.mkEnv (demo_env "c") 9 1) demo_link demo_waiting demo_half demo_link2 demo_waiting2 demo_job2
    _ _ _ _ _ _ _ _)).
  - vm_compute. reflexivity.
  - vm_compute. reflexivity.
  - vm_compute. discriminate.
  - intros line rest. vm_compute. discriminate.
  - vm_compute. reflexivity.
  - vm_compute. reflexivity.
  - vm_compute. discriminate.
  - vm_compute. reflexivity.
Defined.

(** One line in two chunks, and the start of the next. *)
Definition demo_chunks : list (Instant * LinkEvent) :=
  [(1 * NANOS, Fill (string_bytes "subs")); (1 * NANOS, ReadArm false (demo_env "a") (demo_env "a"));
   (2 * NANOS, Fill (string_bytes "cribe" ++ CR :: LF :: string_bytes "auth"));
   (2 * NANOS, ReadArm false (demo_env "a") (demo_env "a"))].
Definition demo_hearing : Link := open_or demo_link (demo_link_run (300 * NANOS) (Open demo_link) demo_chunks).

Lemma v1_hears_every_line_witness :
  heard demo_hearing = [string_bytes "subscribe"]
  /\ exists segs, concat (arrives <$> demo_chunks)
                  = concat (segment <$> segs) ++ line_buf demo_hearing ++ concat (chunks demo_hearing)
     /\ heard demo_hearing = (fun p => strip_cr p.2) <$> segs.
Proof.
  split; [vm_compute; reflexivity|].
  destruct (@v1_hears_every_line zero_sha256 hex_codec legacy_codec demo_codec toy_libm demo_parse (300 * NANOS)
    demo_session demo_stats 0 demo_chunks demo_hearing) as (segs & tail & Hs & Hh & _ & Hk).
  - repeat constructor.
  - vm_compute. reflexivity.
  - destruct (Hk eq_refl) as [_ ->]. exists segs. split; [exact Hs | exact Hh].
Defined.

(** The same line interrupted by a job after its first half: the peer is
    disconnected for a parse error. *)
Example demo_lost :
  match demo_link_run (300 * NANOS) (Open demo_link)
    (demo_half ++ [(6 * NANOS, Fill (string_bytes "scribe" ++ [LF])); (6 * NANOS, ReadArm false (demo_env "c") (demo_env "c"))]) with
  | Closed ban _ _ => ban = false
  | _ => False
  end.
Proof. vm_compute. reflexivity. Qed.

End Loop.
